(** * pseudo-sethtml: the sanitizer (src/sanitizer.ts) and the Node helpers
    (node.ts), embedded as executable definitions.

    A JavaScript string is modelled by the list of its code units, for code
    units below 256.  The regular expressions of the source are kept as
    regular expressions: a small syntax tree and a backtracking matcher that
    tries alternatives in the order the ECMAScript matcher does, so that
    [String.prototype.replace], [RegExp.prototype.test] and
    [RegExp.prototype.exec] can be written as the source calls them. *)

From Stdlib Require Import Ascii String List Bool Arith Lia.
Import ListNotations.

Local Open Scope bool_scope.
Local Open Scope list_scope.

(* ================================================================== *)
(** ** Strings and characters *)

Definition jsstring := list ascii.

(** A string literal of the source. *)
Definition str (s : string) : jsstring := list_ascii_of_string s.

Definition code (c : ascii) : nat := nat_of_ascii c.

Definition in_range (lo hi : nat) (c : ascii) : bool :=
  (lo <=? code c) && (code c <=? hi).

(** [\s]: WhiteSpace and LineTerminator; below 256 these are TAB, LF, VT, FF,
    CR, SPACE and NO-BREAK SPACE. *)
Definition is_space (c : ascii) : bool :=
  in_range 9 13 c || (code c =? 32) || (code c =? 160).

(** [\w]: [A-Za-z0-9_]. *)
Definition is_word (c : ascii) : bool :=
  in_range 48 57 c || in_range 65 90 c || in_range 97 122 c || (code c =? 95).

Definition any_char (_ : ascii) : bool := true.

Definition ascii_eqb (a b : ascii) : bool := Ascii.eqb a b.

(** [[^c]] and [[^cd]]. *)
Definition not_char (c : ascii) (x : ascii) : bool := negb (ascii_eqb x c).
Definition not_chars (c d : ascii) (x : ascii) : bool :=
  negb (ascii_eqb x c) && negb (ascii_eqb x d).
Definition one_of (c d : ascii) (x : ascii) : bool :=
  ascii_eqb x c || ascii_eqb x d.

(** Canonicalize of the [i] flag (no [u] flag): the upper-case form of a
    code unit, when that is a single code unit.  The sharp s (223) has a
    two-unit upper case and stays; micro (181) and y-diaeresis (255) go to
    code units above 255 that nothing else reaches, so they can stay too. *)
Definition canonicalize (c : ascii) : ascii :=
  if in_range 97 122 c then ascii_of_nat (code c - 32)
  else if in_range 224 254 c && negb (code c =? 247) then ascii_of_nat (code c - 32)
  else c.

(** One code unit of [String.prototype.toLowerCase]. *)
Definition lower_unit (c : ascii) : ascii :=
  if in_range 65 90 c then ascii_of_nat (code c + 32)
  else if in_range 192 222 c && negb (code c =? 215) then ascii_of_nat (code c + 32)
  else c.

Definition toLowerCase (s : jsstring) : jsstring := map lower_unit s.

Fixpoint jsstring_eqb (a b : jsstring) : bool :=
  match a, b with
  | [], [] => true
  | x :: a', y :: b' => ascii_eqb x y && jsstring_eqb a' b'
  | _, _ => false
  end.

(** [Array.prototype.includes] on an array of strings. *)
Definition includes (l : list jsstring) (x : jsstring) : bool :=
  existsb (jsstring_eqb x) l.

Fixpoint drop_while (p : ascii -> bool) (s : jsstring) : jsstring :=
  match s with
  | [] => []
  | c :: t => if p c then drop_while p t else s
  end.

(** [String.prototype.trim]. *)
Definition trim (s : jsstring) : jsstring :=
  rev (drop_while is_space (rev (drop_while is_space s))).

(* ================================================================== *)
(** ** Regular expressions *)

Module Regex.

(** The constructs the source's patterns use.  Every quantifier of the
    source ranges over a single character class, so [Star] and [LazyStar]
    take the class; [x+] is [x] followed by [x*] and [x?] is [x|()].  The
    classes of the source ([\s], [\w], any character, and the complements
    and sets of [>] and the quotes) contain a character exactly when they
    contain its canonical form, so that the [i] flag does not change what
    they match, and [Class] takes the class as it is. *)
Inductive regex : Type :=
| Empty
| Char (c : ascii)
| Class (p : ascii -> bool)
| Seq (r1 r2 : regex)
| Alt (r1 r2 : regex)
| Star (p : ascii -> bool)
| LazyStar (p : ascii -> bool)
| WordBoundary
| Group (n : nat) (r : regex)
| Backref (n : nat).

Definition seqs (rs : list regex) : regex := fold_right Seq Empty rs.

(** The characters of a literal piece of pattern.  A name spliced into a
    template is read as the characters it is made of too, which is what the
    source text of the pattern means for a name of word characters. *)
Definition lits (s : jsstring) : regex := seqs (map Char s).

Definition Plus (p : ascii -> bool) : regex := Seq (Class p) (Star p).
Definition Opt (r : regex) : regex := Alt r Empty.

Definition captures := list (nat * jsstring).

Fixpoint capture (n : nat) (cs : captures) : option jsstring :=
  match cs with
  | [] => None
  | (m, s) :: cs' => if m =? n then Some s else capture n cs'
  end.

(** A position of the matcher: the character before it (for [\b]), the
    input from it on, and the groups captured so far. *)
Record mstate : Type := MState {
  prev : option ascii;
  rest : jsstring;
  caps : captures
}.

Definition chr_eq (ci : bool) (c x : ascii) : bool :=
  if ci then ascii_eqb (canonicalize c) (canonicalize x) else ascii_eqb c x.

Definition word_before (s : mstate) : bool :=
  match prev s with Some c => is_word c | None => false end.

Definition word_after (s : mstate) : bool :=
  match rest s with c :: _ => is_word c | [] => false end.

Definition orelse {A} (a b : option A) : option A :=
  match a with Some x => Some x | None => b end.

(** Greedy [p*]: take a character whenever possible, come back to the
    continuation with one character less on failure. *)
Fixpoint star_greedy (p : ascii -> bool) (k : mstate -> option mstate)
    (cs : captures) (pv : option ascii) (l : jsstring) : option mstate :=
  match l with
  | c :: t =>
      if p c then orelse (star_greedy p k cs (Some c) t) (k (MState pv l cs))
      else k (MState pv l cs)
  | [] => k (MState pv [] cs)
  end.

(** Lazy [p*?]: try the continuation first, take a character on failure. *)
Fixpoint star_lazy (p : ascii -> bool) (k : mstate -> option mstate)
    (cs : captures) (pv : option ascii) (l : jsstring) : option mstate :=
  match k (MState pv l cs) with
  | Some r => Some r
  | None =>
      match l with
      | c :: t => if p c then star_lazy p k cs (Some c) t else None
      | [] => None
      end
  end.

(** The text of a back-reference at the head of the input. *)
Fixpoint match_text (ci : bool) (t : jsstring) (pv : option ascii) (l : jsstring)
  : option (option ascii * jsstring) :=
  match t with
  | [] => Some (pv, l)
  | c :: t' =>
      match l with
      | x :: l' => if chr_eq ci c x then match_text ci t' (Some x) l' else None
      | [] => None
      end
  end.

(** The matcher, in continuation-passing style: [rmatch ci r k s] matches
    [r] at [s] and hands every end position to [k] in the order of
    preference of the pattern, until [k] accepts one. *)
Fixpoint rmatch (ci : bool) (r : regex) (k : mstate -> option mstate)
    (s : mstate) : option mstate :=
  match r with
  | Empty => k s
  | Char c =>
      match rest s with
      | x :: t => if chr_eq ci c x then k (MState (Some x) t (caps s)) else None
      | [] => None
      end
  | Class p =>
      match rest s with
      | x :: t => if p x then k (MState (Some x) t (caps s)) else None
      | [] => None
      end
  | Seq r1 r2 => rmatch ci r1 (fun s' => rmatch ci r2 k s') s
  | Alt r1 r2 => orelse (rmatch ci r1 k s) (rmatch ci r2 k s)
  | Star p => star_greedy p k (caps s) (prev s) (rest s)
  | LazyStar p => star_lazy p k (caps s) (prev s) (rest s)
  | WordBoundary => if xorb (word_before s) (word_after s) then k s else None
  | Group n r' =>
      rmatch ci r'
        (fun s' =>
           let text := firstn (length (rest s) - length (rest s')) (rest s) in
           k (MState (prev s') (rest s') ((n, text) :: caps s')))
        s
  | Backref n =>
      match capture n (caps s) with
      | Some t =>
          match match_text ci t (prev s) (rest s) with
          | Some (pv, l) => k (MState pv l (caps s))
          | None => None
          end
      | None => k s
      end
  end.

(** A regular expression object: the pattern and its [i] flag.  All the
    source's expressions are global ([g]). *)
Record RegExp : Type := MkRegExp { pattern : regex; ignoreCase : bool }.

(** One match attempt at a position: the length of the match and its
    groups. *)
Definition exec_at (re : RegExp) (pv : option ascii) (l : jsstring)
  : option (nat * captures) :=
  match rmatch (ignoreCase re) (pattern re) Some (MState pv l []) with
  | Some s' => Some (length l - length (rest s'), caps s')
  | None => None
  end.

(** [String.prototype.replace] with a global expression and a replacer
    function (of the matched text and the groups).  [skip] counts the
    characters of the current match still to be passed over; an empty match
    is followed by a step of one character. *)
Fixpoint replace_go (re : RegExp) (f : jsstring -> captures -> jsstring)
    (skip : nat) (pv : option ascii) (l : jsstring) : jsstring :=
  match skip with
  | S n =>
      match l with
      | [] => []
      | c :: t => replace_go re f n (Some c) t
      end
  | O =>
      match exec_at re pv l with
      | Some (len, cs) =>
          f (firstn len l) cs ++
          match l with
          | [] => []
          | c :: t =>
              match len with
              | O => c :: replace_go re f 0 (Some c) t
              | S n => replace_go re f n (Some c) t
              end
          end
      | None =>
          match l with
          | [] => []
          | c :: t => c :: replace_go re f 0 (Some c) t
          end
      end
  end.

Definition replace_with (re : RegExp) (f : jsstring -> captures -> jsstring)
    (s : jsstring) : jsstring :=
  replace_go re f 0 None s.

(** [s.replace(re, empty)], with the empty string as the replacement. *)
Definition remove (re : RegExp) (s : jsstring) : jsstring :=
  replace_with re (fun _ _ => []) s.

(** The first match at or after a position: its end index and groups. *)
Fixpoint search (re : RegExp) (pos : nat) (pv : option ascii) (l : jsstring)
  : option (nat * captures) :=
  match exec_at re pv l with
  | Some (len, cs) => Some (pos + len, cs)
  | None =>
      match l with
      | [] => None
      | c :: t => search re (S pos) (Some c) t
      end
  end.

Fixpoint last_before (pv : option ascii) (n : nat) (l : jsstring) : option ascii :=
  match n, l with
  | S n', c :: t => last_before (Some c) n' t
  | _, _ => pv
  end.

(** RegExpBuiltinExec of a global expression: the search starts at
    [lastIndex]; the result comes with the new [lastIndex], the end of the
    match or 0 on failure. *)
Definition exec (re : RegExp) (lastIndex : nat) (s : jsstring)
  : option captures * nat :=
  if length s <? lastIndex then (None, 0)
  else
    match search re lastIndex (last_before None lastIndex s) (skipn lastIndex s) with
    | Some (e, cs) => (Some cs, e)
    | None => (None, 0)
    end.

(** [re.test(s)], with the [lastIndex] before and after. *)
Definition test (re : RegExp) (lastIndex : nat) (s : jsstring) : bool * nat :=
  match exec re lastIndex s with
  | (Some _, e) => (true, e)
  | (None, e) => (false, e)
  end.

(** The groups of all successive matches: the loop
    [while ((match = re.exec(s)) !== null)].  (The patterns it is used with
    begin with a literal character, so that a match is never empty.) *)
Fixpoint exec_all (re : RegExp) (skip : nat) (pv : option ascii) (l : jsstring)
  : list captures :=
  match skip with
  | S n =>
      match l with
      | [] => []
      | c :: t => exec_all re n (Some c) t
      end
  | O =>
      match exec_at re pv l with
      | Some (len, cs) =>
          cs ::
          match l with
          | [] => []
          | c :: t => exec_all re (pred len) (Some c) t
          end
      | None =>
          match l with
          | [] => []
          | c :: t => exec_all re 0 (Some c) t
          end
      end
  end.

End Regex.
Import Regex.

(* ================================================================== *)
(** ** JavaScript values at the entry points *)

(** The values a caller can pass where the signature says [string]: the
    primitive values, and a [String] object ([new String(s)]), which is not
    a string for [typeof] and has the methods of one.  (Objects of other
    kinds are left out.) *)
Inductive value : Type :=
| VUndefined
| VNull
| VBoolean (b : bool)
| VNumber (n : nat)
| VString (s : jsstring)
| VStringObject (s : jsstring).

Coercion VString : jsstring >-> value.

(** ToBoolean. *)
Definition truthy (v : value) : bool :=
  match v with
  | VUndefined | VNull => false
  | VBoolean b => b
  | VNumber n => negb (n =? 0)
  | VString s => match s with [] => false | _ => true end
  | VStringObject _ => true
  end.

(** [typeof v === "string"]. *)
Definition is_string (v : value) : bool :=
  match v with VString _ => true | _ => false end.

(** The outcome of a call: a result, or a thrown [TypeError]. *)
Inductive completion (A : Type) : Type :=
| Normal (a : A)
| TypeError.
Arguments Normal {A} a.
Arguments TypeError {A}.

Definition bind {A B} (c : completion A) (f : A -> completion B) : completion B :=
  match c with Normal a => f a | TypeError => TypeError end.

(** The double quote, and a literal in which a backquote stands for it. *)
Definition dquote : ascii := ascii_of_nat 34.
Definition squote : ascii := "'"%char.
Definition qstr (s : string) : jsstring :=
  map (fun c => if ascii_eqb c "`"%char then dquote else c) (str s).

(* ================================================================== *)
(** ** src/sanitizer.ts *)

(** [interface SanitizerConfig]: every field is optional; [None] is a field
    that is not there.  (In the configuration the sanitizer keeps, it is
    also a field whose value is [undefined]: the code only reads the
    fields.  What a caller passes is a [ConfigObject], below.) *)
Record SanitizerConfig : Type := MkConfig {
  elements : option (list jsstring);
  removeElements : option (list jsstring);
  allowedElements : option (list jsstring);
  disallowedElements : option (list jsstring);
  allowedAttributes : option (list jsstring);
  disallowedAttributes : option (list jsstring);
  allowedProtocols : option (list jsstring);
  allowDataUrls : option bool;
  stripComments : option bool;
  stripDoctype : option bool
}.

Definition empty_config : SanitizerConfig :=
  MkConfig None None None None None None None None None None.

Definition default_allowed_elements : list jsstring :=
  map str ["p"; "br"; "strong"; "em"; "u"; "b"; "i"; "span"; "div";
           "h1"; "h2"; "h3"; "h4"; "h5"; "h6"; "ul"; "ol"; "li";
           "blockquote"; "pre"; "code"; "a"; "img"; "table"; "thead";
           "tbody"; "tr"; "th"; "td"]%string.

Definition default_removed_elements : list jsstring :=
  map str ["script"; "style"; "iframe"; "object"; "embed"; "form";
           "input"; "textarea"; "button"; "select"; "option"]%string.

Definition DEFAULT_SANITIZER_CONFIG : SanitizerConfig := {|
  elements := Some default_allowed_elements;
  removeElements := Some default_removed_elements;
  allowedElements := Some default_allowed_elements;
  disallowedElements := Some default_removed_elements;
  allowedAttributes :=
    Some (map str ["href"; "src"; "alt"; "title"; "class"; "id"; "style";
                   "width"; "height"; "colspan"; "rowspan"; "target"]%string);
  disallowedAttributes :=
    Some (map str ["onclick"; "onload"; "onerror"; "onmouseover";
                   "onmouseout"; "onfocus"; "onblur"; "onchange";
                   "onsubmit"]%string);
  allowedProtocols := Some (map str ["http:"; "https:"; "mailto:"; "tel:"]%string);
  allowDataUrls := Some false;
  stripComments := Some true;
  stripDoctype := Some true
|}.

(** Object spread [{ ...a, ...b }], for a [b] in which no field is there
    with the value [undefined]: the fields of [b] that are there win. *)
Definition spread (a b : SanitizerConfig) : SanitizerConfig := {|
  elements := orelse (elements b) (elements a);
  removeElements := orelse (removeElements b) (removeElements a);
  allowedElements := orelse (allowedElements b) (allowedElements a);
  disallowedElements := orelse (disallowedElements b) (disallowedElements a);
  allowedAttributes := orelse (allowedAttributes b) (allowedAttributes a);
  disallowedAttributes := orelse (disallowedAttributes b) (disallowedAttributes a);
  allowedProtocols := orelse (allowedProtocols b) (allowedProtocols a);
  allowDataUrls := orelse (allowDataUrls b) (allowDataUrls a);
  stripComments := orelse (stripComments b) (stripComments a);
  stripDoctype := orelse (stripDoctype b) (stripDoctype a)
|}.

Definition set_allowedElements (c : SanitizerConfig) (v : list jsstring) :=
  MkConfig (elements c) (removeElements c) (Some v) (disallowedElements c)
    (allowedAttributes c) (disallowedAttributes c) (allowedProtocols c)
    (allowDataUrls c) (stripComments c) (stripDoctype c).

Definition set_disallowedElements (c : SanitizerConfig) (v : list jsstring) :=
  MkConfig (elements c) (removeElements c) (allowedElements c) (Some v)
    (allowedAttributes c) (disallowedAttributes c) (allowedProtocols c)
    (allowDataUrls c) (stripComments c) (stripDoctype c).

(** [class Sanitizer]: its one field. *)
Record Sanitizer : Type := MkSanitizer { config : SanitizerConfig }.

(** [Sanitizer.normalizeConfig] (its last [if] has an empty body). *)
Definition normalizeConfig (c : SanitizerConfig) : SanitizerConfig :=
  let c1 := match elements c with
            | Some e => set_allowedElements c e
            | None => c
            end in
  let c2 := match removeElements c1 with
            | Some r => set_disallowedElements c1 r
            | None => c1
            end in
  c2.

(** [new Sanitizer(config)], for a configuration in which no field is there
    with the value [undefined] ([new_Sanitizer_of] is the constructor on any
    object); [None] is the call without an argument, which takes the default
    parameter. *)
Definition new_Sanitizer (arg : option SanitizerConfig) : Sanitizer :=
  let config := match arg with Some c => c | None => DEFAULT_SANITIZER_CONFIG end in
  let this0 := spread empty_config DEFAULT_SANITIZER_CONFIG in
  let this1 := normalizeConfig this0 in
  let userDisallowedElements := disallowedElements config in
  let userRemoveElements := removeElements config in
  let this2 := spread this1 config in
  let this3 := match userDisallowedElements with
               | Some d => set_disallowedElements this2 d
               | None => this2
               end in
  let this4 := match userRemoveElements with
               | Some r => set_disallowedElements this3 r
               | None => this3
               end in
  MkSanitizer this4.

(** The platform's [URL] constructor, as far as the source uses it:
    [None] when [new URL(url)] throws, the [protocol] of the parsed URL
    otherwise. *)
Class URLParser : Type := url_protocol : jsstring -> option jsstring.

Definition flag (o : option bool) : bool :=
  match o with Some b => b | None => false end.

Module Patterns.

Definition gt : ascii := ">"%char.

(** [/<!DOCTYPE[^>]*>/gi] *)
Definition doctype : RegExp :=
  MkRegExp (seqs [lits (str "<!DOCTYPE"); Star (not_char gt); Char gt]) true.

(** [/<!--[\s\S]*?-->/g] *)
Definition comment : RegExp :=
  MkRegExp (seqs [lits (str "<!--"); LazyStar any_char; lits (str "-->")]) false.

(** [new RegExp(`<${tag}\\b[^>]*>[\\s\\S]*?<\\/${tag}>`, "gi")].  The name is
    spliced into the source of the pattern; it stands here for its own
    characters ([lits]), which is what it does in the source for a name of
    word characters, as all the names of the repository are.  A name with
    pattern syntax in it is read by the source as a pattern, or refused with
    a [SyntaxError]; [is_name] and [word_names] say of a name, and of the
    lists of a policy, that they are of word characters. *)
Definition element (tag : jsstring) : RegExp :=
  MkRegExp (seqs [Char "<"; lits tag; WordBoundary; Star (not_char gt); Char gt;
                  LazyStar any_char; lits (str "</"); lits tag; Char gt]) true.

(** [new RegExp(`<${tag}\\b[^>]*\\/?>`, "gi")] *)
Definition selfClosing (tag : jsstring) : RegExp :=
  MkRegExp (seqs [Char "<"; lits tag; WordBoundary; Star (not_char gt);
                  Opt (Char "/"); Char gt]) true.

(** [new RegExp(`\\s+${attr}\\s*=\\s*'[^']*'`, "gi")] and the same with
    double quotes. *)
Definition quotedAttribute (q : ascii) (attr : jsstring) : RegExp :=
  MkRegExp (seqs [Plus is_space; lits attr; Star is_space; Char "=";
                  Star is_space; Char q; Star (not_char q); Char q]) true.

Definition hrefOrSrc : regex := Group 1 (Alt (lits (str "href")) (lits (str "src"))).

(** [/(href|src)\s*=\s*'([^']+)'/gi] and the same with double quotes. *)
Definition quotedUrl (q : ascii) : RegExp :=
  MkRegExp (seqs [hrefOrSrc; Star is_space; Char "="; Star is_space; Char q;
                  Group 2 (Plus (not_char q)); Char q]) true.

(** [/<(\w+)[^>]*>\s*<\/\1>/gi] *)
Definition emptyTag : RegExp :=
  MkRegExp (seqs [Char "<"; Group 1 (Plus is_word); Star (not_char gt); Char gt;
                  Star is_space; lits (str "</"); Backref 1; Char gt]) true.

(** [/<(\w+)[^>]*>\s+<\/\1>/gi] *)
Definition blankTag : RegExp :=
  MkRegExp (seqs [Char "<"; Group 1 (Plus is_word); Star (not_char gt); Char gt;
                  Plus is_space; lits (str "</"); Backref 1; Char gt]) true.

(** [/(href|src)\s*=\s*Qjavascript:[^Q]*Q/gi] and the same with [data:],
    where Q is the class of the two quote characters. *)
Definition schemeUrl (scheme : jsstring) : RegExp :=
  MkRegExp (seqs [hrefOrSrc; Star is_space; Char "="; Star is_space;
                  Class (one_of dquote squote); lits scheme;
                  Star (not_chars dquote squote);
                  Class (one_of dquote squote)]) true.

End Patterns.

(** The group [$n] of a match, as a replacer sees it. *)
Definition group (n : nat) (cs : captures) : jsstring :=
  match capture n cs with Some s => s | None => [] end.

(** [`${attr}="#"`] *)
Definition hash_attribute (attr : jsstring) : jsstring :=
  attr ++ qstr "=`#`".

Section WithURL.

Context {U : URLParser}.

(** The replacer of [sanitizeUrls] (the same arrow function in both calls). *)
Definition urlReplacer (c : SanitizerConfig) (matched : jsstring) (cs : captures)
  : jsstring :=
  let attr := group 1 cs in
  let url := group 2 cs in
  match url_protocol url with
  | Some protocol =>
      if match allowedProtocols c with
         | Some l => negb (includes l protocol)
         | None => false
         end
      then hash_attribute attr
      else if jsstring_eqb protocol (str "data:") && negb (flag (allowDataUrls c))
      then hash_attribute attr
      else matched
  | None => hash_attribute attr
  end.

(** [Sanitizer.sanitizeUrls] *)
Definition sanitizeUrls (this : Sanitizer) (html : jsstring) : jsstring :=
  let html := replace_with (Patterns.quotedUrl squote) (urlReplacer (config this)) html in
  let html := replace_with (Patterns.quotedUrl dquote) (urlReplacer (config this)) html in
  html.

(** [Sanitizer.cleanupEmptyTags] *)
Definition cleanupEmptyTags (html : jsstring) : jsstring :=
  let html := remove Patterns.emptyTag html in
  let html := remove Patterns.blankTag html in
  html.

Definition removeElement (sanitized : jsstring) (tag : jsstring) : jsstring :=
  let sanitized := remove (Patterns.element tag) sanitized in
  let sanitized := remove (Patterns.selfClosing tag) sanitized in
  sanitized.

Definition removeAttribute (sanitized : jsstring) (attr : jsstring) : jsstring :=
  let sanitized := remove (Patterns.quotedAttribute squote attr) sanitized in
  let sanitized := remove (Patterns.quotedAttribute dquote attr) sanitized in
  sanitized.

(** The body of [Sanitizer.sanitize] after its guard. *)
Definition sanitize_text (this : Sanitizer) (html : jsstring) : jsstring :=
  let c := config this in
  let sanitized := html in
  let sanitized := if flag (stripDoctype c) then remove Patterns.doctype sanitized
                   else sanitized in
  let sanitized := if flag (stripComments c) then remove Patterns.comment sanitized
                   else sanitized in
  let sanitized := match disallowedElements c with
                   | Some l => fold_left removeElement l sanitized
                   | None => sanitized
                   end in
  let sanitized := match disallowedAttributes c with
                   | Some l => fold_left removeAttribute l sanitized
                   | None => sanitized
                   end in
  let sanitized := sanitizeUrls this sanitized in
  let sanitized := cleanupEmptyTags sanitized in
  trim sanitized.

(** [Sanitizer.sanitize] *)
Definition sanitize (this : Sanitizer) (html : value) : jsstring :=
  if negb (truthy html) || negb (is_string html) then []
  else match html with
       | VString s => sanitize_text this s
       | _ => []
       end.

End WithURL.

(** [Sanitizer.isElementAllowed] *)
Definition isElementAllowed (this : Sanitizer) (tagName : jsstring) : bool :=
  if match disallowedElements (config this) with
     | Some l => includes l (toLowerCase tagName)
     | None => false
     end
  then false
  else match allowedElements (config this) with
       | Some l => includes l (toLowerCase tagName)
       | None => true
       end.

(** [Sanitizer.isAttributeAllowed] *)
Definition isAttributeAllowed (this : Sanitizer) (attributeName : jsstring) : bool :=
  if match disallowedAttributes (config this) with
     | Some l => includes l (toLowerCase attributeName)
     | None => false
     end
  then false
  else match allowedAttributes (config this) with
       | Some l => includes l (toLowerCase attributeName)
       | None => true
       end.

Definition unsafeElements : list jsstring :=
  map str ["script"; "style"; "iframe"; "object"; "embed"]%string.

Definition unsafeAttributes : list jsstring :=
  map str ["onclick"; "onload"; "onerror"; "onmouseover"; "onmouseout";
           "onfocus"; "onblur"; "onchange"; "onsubmit"; "onkeydown";
           "onkeyup"]%string.

(** The replacement pattern ['$1="#"']. *)
Definition hash_replacement (_ : jsstring) (cs : captures) : jsstring :=
  hash_attribute (group 1 cs).

(** The body of [Sanitizer.removeUnsafe] on a string. *)
Definition removeUnsafe_text (html : jsstring) : jsstring :=
  let sanitized := html in
  let sanitized := fold_left removeElement unsafeElements sanitized in
  let sanitized := fold_left removeAttribute unsafeAttributes sanitized in
  let sanitized :=
    replace_with (Patterns.schemeUrl (str "javascript:")) hash_replacement sanitized in
  let sanitized :=
    replace_with (Patterns.schemeUrl (str "data:")) hash_replacement sanitized in
  trim sanitized.

(** [Sanitizer.removeUnsafe].  It has no guard: its first statement calls
    [sanitized.replace], which throws a [TypeError] on [null] and
    [undefined] (no properties) and on a boolean or a number (no [replace]
    method); on a [String] object it is the [replace] of strings, which
    works on the string the object holds. *)
Definition removeUnsafe (this : Sanitizer) (html : value) : completion jsstring :=
  match html with
  | VString s | VStringObject s => Normal (removeUnsafe_text s)
  | VUndefined | VNull | VBoolean _ | VNumber _ => TypeError
  end.

(** [createSanitizer] and [sanitizeHTML] *)
Definition createSanitizer (c : option SanitizerConfig) : Sanitizer := new_Sanitizer c.

Definition sanitizeHTML {U : URLParser} (html : value) (c : option SanitizerConfig)
  : jsstring :=
  sanitize (new_Sanitizer c) html.

(** [options.sanitizer]: ["default"], a [Sanitizer], or a configuration. *)
Inductive sanitizer_choice : Type :=
| ChooseDefault
| ChooseInstance (s : Sanitizer)
| ChooseConfig (c : SanitizerConfig).

(** [interface SetHTMLOptions] *)
Record SetHTMLOptions : Type := MkOptions { sanitizer : option sanitizer_choice }.

(** The sink: an element, of which the functions write [innerHTML]. *)
Record HTMLElement : Type := MkElement { innerHTML : jsstring }.

(** The [if]/[else if]/[else] that picks the sanitizer; [fallback] is what
    the first branch takes. *)
Definition pick_sanitizer (fallback : Sanitizer) (options : option SetHTMLOptions)
  : Sanitizer :=
  match options with
  | None => fallback
  | Some o =>
      match sanitizer o with
      | None | Some ChooseDefault => fallback
      | Some (ChooseInstance s) => s
      | Some (ChooseConfig c) => new_Sanitizer (Some c)
      end
  end.

(** [setHTML]: the element after the call ([None] is a null element). *)
Definition setHTML (element : option HTMLElement) (input : value)
    (options : option SetHTMLOptions) : completion (option HTMLElement) :=
  match element with
  | None => Normal element
  | Some _ =>
      if negb (is_string input) then Normal element
      else
        let sanitizer := pick_sanitizer (new_Sanitizer None) options in
        bind (removeUnsafe sanitizer input) (fun sanitizedHTML =>
        Normal (Some (MkElement sanitizedHTML)))
  end.

(** [setHTMLUnsafe] *)
Definition setHTMLUnsafe {U : URLParser} (element : option HTMLElement)
    (input : value) (options : option SetHTMLOptions)
  : completion (option HTMLElement) :=
  match element with
  | None => Normal element
  | Some _ =>
      if negb (is_string input) then Normal element
      else
        let sanitizer := pick_sanitizer (new_Sanitizer None) options in
        let sanitizedHTML := sanitize sanitizer input in
        Normal (Some (MkElement sanitizedHTML))
  end.

(** A [URLParser] to run the examples with: the scheme-start and scheme
    states of the URL parser.  Leading and trailing C0 controls and spaces
    are stripped, tabs and newlines removed; the input must then begin with
    a letter, go on with letters, digits, [+], [-] and [.] up to a colon,
    and the protocol is that scheme in lower case with its colon.  An input
    without a scheme fails (there is no base URL).  What follows the colon
    is not looked at. *)
Module SchemeParser.

Definition is_c0_or_space (c : ascii) : bool := code c <=? 32.
Definition is_tab_or_newline (c : ascii) : bool :=
  (code c =? 9) || (code c =? 10) || (code c =? 13).
Definition is_alpha (c : ascii) : bool := in_range 65 90 c || in_range 97 122 c.
Definition is_scheme_char (c : ascii) : bool :=
  is_alpha c || in_range 48 57 c || one_of "+" "-" c || ascii_eqb c ".".

Fixpoint scheme_state (acc : jsstring) (l : jsstring) : option jsstring :=
  match l with
  | [] => None
  | c :: t =>
      if ascii_eqb c ":" then Some (rev (":"%char :: acc))
      else if is_scheme_char c then scheme_state (lower_unit c :: acc) t
      else None
  end.

Definition protocol (url : jsstring) : option jsstring :=
  let input := rev (drop_while is_c0_or_space (rev (drop_while is_c0_or_space url))) in
  let input := filter (fun c => negb (is_tab_or_newline c)) input in
  match input with
  | c :: t => if is_alpha c then scheme_state [lower_unit c] t else None
  | [] => None
  end.

End SchemeParser.

Definition scheme_parser : URLParser := SchemeParser.protocol.

(* ================================================================== *)
(** ** node.ts *)

(** [class NodeHTMLProcessor] *)
Record NodeHTMLProcessor : Type := MkProcessor { processor_sanitizer : Sanitizer }.

Definition new_NodeHTMLProcessor (c : option SanitizerConfig) : NodeHTMLProcessor :=
  MkProcessor (new_Sanitizer c).

Module NodePatterns.

(** [new RegExp(`<\\/?${tag}[^>]*>`, "gi")] *)
Definition anyTagOf (tag : jsstring) : RegExp :=
  MkRegExp (seqs [Char "<"; Opt (Char "/"); lits tag;
                  Star (not_char Patterns.gt); Char Patterns.gt]) true.

(** The expression of [extractRemovedAttributes]: white space, the name,
    [=] with optional white space around it, a quote of either kind, any
    characters but quotes, a quote of either kind; flags [gi]. *)
Definition anyAttributeOf (attr : jsstring) : RegExp :=
  MkRegExp (seqs [Plus is_space; lits attr; Star is_space; Char "=";
                  Star is_space; Class (one_of dquote squote);
                  Star (not_chars dquote squote);
                  Class (one_of dquote squote)]) true.

(** [/<(\w+)[^>]*>/g] *)
Definition tagRegex : RegExp :=
  MkRegExp (seqs [Char "<"; Group 1 (Plus is_word);
                  Star (not_char Patterns.gt); Char Patterns.gt]) false.

(** [/<\/(\w+)>/g] *)
Definition closingTagRegex : RegExp :=
  MkRegExp (seqs [lits (str "</"); Group 1 (Plus is_word); Char Patterns.gt]) false.

End NodePatterns.

(** [regex.test(original) && !regex.test(sanitized)] on one expression
    object: the second [test] starts at the [lastIndex] the first one
    left. *)
Definition matched_then_gone (re : RegExp) (original sanitized : jsstring) : bool :=
  let '(found, lastIndex) := test re 0 original in
  if found then negb (fst (test re lastIndex sanitized)) else false.

(** [NodeHTMLProcessor.extractRemovedElements] *)
Definition extractRemovedElements (this : NodeHTMLProcessor)
    (original sanitized : jsstring) : list jsstring :=
  match disallowedElements (config (processor_sanitizer this)) with
  | Some l =>
      filter (fun tag => matched_then_gone (NodePatterns.anyTagOf tag) original sanitized) l
  | None => []
  end.

(** [NodeHTMLProcessor.extractRemovedAttributes] *)
Definition extractRemovedAttributes (this : NodeHTMLProcessor)
    (original sanitized : jsstring) : list jsstring :=
  match disallowedAttributes (config (processor_sanitizer this)) with
  | Some l =>
      filter (fun attr =>
                matched_then_gone (NodePatterns.anyAttributeOf attr) original sanitized) l
  | None => []
  end.

Record SanitizationResult : Type := MkResult {
  sanitizedHTML : jsstring;
  wasModified : bool;
  removedElements : list jsstring;
  removedAttributes : list jsstring
}.

(** [NodeHTMLProcessor.processHTML] *)
Definition processHTML {U : URLParser} (this : NodeHTMLProcessor) (html : value)
  : jsstring :=
  sanitize (processor_sanitizer this) html.

(** [NodeHTMLProcessor.processHTMLWithMetadata], on a string. *)
Definition processHTMLWithMetadata {U : URLParser} (this : NodeHTMLProcessor)
    (html : jsstring) : SanitizationResult :=
  let originalHTML := html in
  let sanitizedHTML := sanitize (processor_sanitizer this) html in
  let wasModified := negb (jsstring_eqb sanitizedHTML originalHTML) in
  let removedElements := extractRemovedElements this originalHTML sanitizedHTML in
  let removedAttributes := extractRemovedAttributes this originalHTML sanitizedHTML in
  MkResult sanitizedHTML wasModified removedElements removedAttributes.

(** [NodeHTMLProcessor.isSelfClosingTag] *)
Definition isSelfClosingTag (tagName : jsstring) : bool :=
  let selfClosingTags :=
    map str ["area"; "base"; "br"; "col"; "embed"; "hr"; "img"; "input";
             "link"; "meta"; "param"; "source"; "track"; "wbr"]%string in
  includes selfClosingTags (toLowerCase tagName).

Record StructureReport : Type := MkReport {
  isValid : bool;
  errors : list jsstring;
  warnings : list jsstring
}.

(** [Array.prototype.join]. *)
Fixpoint join (sep : jsstring) (l : list jsstring) : jsstring :=
  match l with
  | [] => []
  | [x] => x
  | x :: t => x ++ sep ++ join sep t
  end.

(** [Array.prototype.pop]: the last element and the array without it. *)
Definition pop (stack : list jsstring) : option (jsstring * list jsstring) :=
  match rev stack with
  | [] => None
  | x :: r => Some (x, rev r)
  end.

Definition unmatched_closing (tag : jsstring) : jsstring :=
  str "Closing tag '" ++ tag ++ str "' without matching opening tag".

Definition mismatched (lastTag tag : jsstring) : jsstring :=
  str "Mismatched tags: expected '" ++ lastTag ++ str "', found '" ++ tag ++ str "'".

Definition unclosed (stack : list jsstring) : jsstring :=
  str "Unclosed tags: " ++ join (str ", ") stack.

(** The loop over [closeTags]: the stack and the errors after it. *)
Fixpoint close_loop (closeTags : list jsstring) (stack errors : list jsstring)
  : list jsstring * list jsstring :=
  match closeTags with
  | [] => (stack, errors)
  | tag :: more =>
      match pop stack with
      | None => close_loop more stack (errors ++ [unmatched_closing tag])
      | Some (lastTag, stack') =>
          if negb (jsstring_eqb lastTag tag)
          then close_loop more stack' (errors ++ [mismatched lastTag tag])
          else close_loop more stack' errors
      end
  end.

(** The names found by one of the two [while] loops of
    [validateHTMLStructure], in lower case. *)
Definition tag_names (re : RegExp) (html : jsstring) : list jsstring :=
  map (fun m => toLowerCase (group 1 m)) (exec_all re 0 None html).

(** [NodeHTMLProcessor.validateHTMLStructure] *)
Definition validateHTMLStructure (html : jsstring) : StructureReport :=
  let openTags :=
    filter (fun t => negb (isSelfClosingTag t)) (tag_names NodePatterns.tagRegex html) in
  let closeTags := tag_names NodePatterns.closingTagRegex html in
  let stack := filter (fun t => negb (isSelfClosingTag t)) openTags in
  let '(stack, errors) := close_loop closeTags stack [] in
  let warnings := match stack with [] => [] | _ => [unclosed stack] end in
  MkReport (match errors with [] => true | _ => false end) errors warnings.

(** [validateHTML], [processServerHTML], [processServerHTMLWithMetadata] *)
Definition validateHTML (html : jsstring) (c : option SanitizerConfig) : StructureReport :=
  validateHTMLStructure html.

Definition processServerHTML {U : URLParser} (html : value) (c : option SanitizerConfig)
  : jsstring :=
  processHTML (new_NodeHTMLProcessor c) html.

Definition processServerHTMLWithMetadata {U : URLParser} (html : jsstring)
    (c : option SanitizerConfig) : SanitizationResult :=
  processHTMLWithMetadata (new_NodeHTMLProcessor c) html.

(** [class ShadowRootProcessor] *)
Record ShadowRootProcessor : Type := MkShadowRoot {
  content : jsstring;
  shadow_sanitizer : Sanitizer
}.

Definition new_ShadowRootProcessor (c : option SanitizerConfig) : ShadowRootProcessor :=
  MkShadowRoot [] (new_Sanitizer c).

Module ShadowRoot.

(** [ShadowRootProcessor.setHTML]: the processor after the call. *)
Definition setHTML (this : ShadowRootProcessor) (input : value)
    (options : option SetHTMLOptions) : completion ShadowRootProcessor :=
  if negb (is_string input) then Normal this
  else
    let sanitizer := pick_sanitizer (shadow_sanitizer this) options in
    bind (removeUnsafe sanitizer input) (fun text =>
    Normal (MkShadowRoot text (shadow_sanitizer this))).

(** [ShadowRootProcessor.setHTMLUnsafe] *)
Definition setHTMLUnsafe {U : URLParser} (this : ShadowRootProcessor) (input : value)
    (options : option SetHTMLOptions) : completion ShadowRootProcessor :=
  if negb (is_string input) then Normal this
  else
    let sanitizer := pick_sanitizer (shadow_sanitizer this) options in
    Normal (MkShadowRoot (sanitize sanitizer input) (shadow_sanitizer this)).

(** [ShadowRootProcessor.getHTML] and [clear] *)
Definition getHTML (this : ShadowRootProcessor) : jsstring := content this.

Definition clear (this : ShadowRootProcessor) : ShadowRootProcessor :=
  MkShadowRoot [] (shadow_sanitizer this).

End ShadowRoot.

(* ================================================================== *)
(** ** Notions used in the statements *)

(** [suffix a b]: [a] is what is left of [b] after some characters. *)
Definition suffix (a b : jsstring) : Prop := exists pre, b = pre ++ a.

(** [Needs ci p r]: every match of [r] goes over a character of the class
    [p]. *)
Inductive Needs (ci : bool) (p : ascii -> bool) : regex -> Prop :=
| Needs_Char c : (forall x, chr_eq ci c x = true -> p x = true) -> Needs ci p (Char c)
| Needs_Class q : (forall x, q x = true -> p x = true) -> Needs ci p (Class q)
| Needs_Seq_l r1 r2 : Needs ci p r1 -> Needs ci p (Seq r1 r2)
| Needs_Seq_r r1 r2 : Needs ci p r2 -> Needs ci p (Seq r1 r2)
| Needs_Alt r1 r2 : Needs ci p r1 -> Needs ci p r2 -> Needs ci p (Alt r1 r2)
| Needs_Group n r : Needs ci p r -> Needs ci p (Group n r).

(** The character before the position reached after [a]. *)
Definition end_prev (pv : option ascii) (a : jsstring) : option ascii :=
  fold_left (fun _ c => Some c) a pv.

Fixpoint no_boundary (r : regex) : bool :=
  match r with
  | WordBoundary => false
  | Seq r1 r2 | Alt r1 r2 => no_boundary r1 && no_boundary r2
  | Group _ r' => no_boundary r'
  | _ => true
  end.

(** Two positions, or two results, that differ in the character before at
    most. *)
Definition same (a b : mstate) : Prop := rest a = rest b /\ caps a = caps b.

Definition same_result (x y : option mstate) : Prop :=
  match x, y with
  | Some a, Some b => same a b
  | None, None => True
  | _, _ => False
  end.

(** A test on every code unit. *)
Definition for_all_ascii (P : ascii -> bool) : bool :=
  forallb (fun n => P (ascii_of_nat n)) (seq 0 256).

(** [canon_alone c]: no other code unit has the canonical form of [c]. *)
Definition canon_alone (c : ascii) : bool :=
  for_all_ascii (fun x => implb (ascii_eqb (canonicalize c) (canonicalize x))
                                (ascii_eqb c x)).

(** The characters every pattern of the sanitizer needs one of: the opening
    angle bracket and the two quotes. *)
Definition is_markup (c : ascii) : bool :=
  ascii_eqb c "<" || one_of dquote squote c.

Definition plain (s : jsstring) : Prop := forall x, In x s -> is_markup x = false.

(** Text without markup, as a test. *)
Definition plainb (s : jsstring) : bool := forallb (fun x => negb (is_markup x)) s.

Definition is_quote : ascii -> bool := one_of dquote squote.

Definition quote_free (s : jsstring) : Prop := forall x, In x s -> is_quote x = false.

(** [same_name n a]: [a] is the name [n], in any case. *)
Fixpoint same_name (n a : jsstring) : bool :=
  match n, a with
  | [], [] => true
  | c :: n', x :: a' => chr_eq true c x && same_name n' a'
  | _, _ => false
  end.

(** The attribute names of the URL pass. *)
Definition href_or_src (attr : jsstring) : bool :=
  same_name (str "href") attr || same_name (str "src") attr.

Definition not_quote (x : ascii) : bool := negb (is_quote x).

Definition starts_clean (p : ascii -> bool) (s : jsstring) : Prop :=
  match s with [] => True | c :: _ => p c = false end.

(** [Del b s s']: [s'] is [s] without some stretches of characters, each of
    which begins at an opening angle bracket; [b] says that a stretch is
    being deleted at the head of [s]. *)
Inductive Del : bool -> jsstring -> jsstring -> Prop :=
| Del_nil b : Del b [] []
| Del_keep b c s s' : Del false s s' -> Del b (c :: s) (c :: s')
| Del_start b s s' : Del true s s' -> Del b ("<"%char :: s) s'
| Del_more c s s' : Del true s s' -> Del true (c :: s) s'.

(** All the strings [Del] can reach, outside and inside a stretch. *)
Fixpoint cuts (s : jsstring) : list jsstring * list jsstring :=
  match s with
  | [] => ([[]], [[]])
  | c :: t =>
      let '(outside, inside) := cuts t in
      let kept := map (cons c) outside in
      (kept ++ (if ascii_eqb c "<" then inside else []), kept ++ inside)
  end.

(** [contains p s]: [p] occurs in [s]. *)
Fixpoint starts_with (p s : jsstring) : bool :=
  match p, s with
  | [], _ => true
  | c :: p', x :: s' => ascii_eqb c x && starts_with p' s'
  | _ :: _, [] => false
  end.

Fixpoint contains (p s : jsstring) : bool :=
  starts_with p s || match s with [] => false | _ :: t => contains p t end.

(** [<name attrs>] and [</name>]. *)
Definition open_tag (name attrs : jsstring) : jsstring :=
  "<"%char :: name ++ attrs ++ [Patterns.gt].
Definition close_tag (name : jsstring) : jsstring :=
  "<"%char :: "/"%char :: name ++ [Patterns.gt].

(** The text of an empty pair: [<name attrs>], white space, [</name>]. *)
Definition pair_text (name attrs ws : jsstring) : jsstring :=
  open_tag name attrs ++ ws ++ close_tag name.

(** A code unit is a word character exactly when its canonical form is. *)
Definition word_closed : bool :=
  for_all_ascii (fun x => Bool.eqb (is_word x) (is_word (canonicalize x))).

(** [Lang ci r s s']: the pattern [r] can take the matcher from the position
    [s] to the position [s']. *)
Inductive Lang (ci : bool) : regex -> mstate -> mstate -> Prop :=
| Lang_Empty s : Lang ci Empty s s
| Lang_Char c s x t :
    rest s = x :: t -> chr_eq ci c x = true ->
    Lang ci (Char c) s (MState (Some x) t (caps s))
| Lang_Class p s x t :
    rest s = x :: t -> p x = true ->
    Lang ci (Class p) s (MState (Some x) t (caps s))
| Lang_Seq r1 r2 s s1 s2 :
    Lang ci r1 s s1 -> Lang ci r2 s1 s2 -> Lang ci (Seq r1 r2) s s2
| Lang_Alt_l r1 r2 s s' : Lang ci r1 s s' -> Lang ci (Alt r1 r2) s s'
| Lang_Alt_r r1 r2 s s' : Lang ci r2 s s' -> Lang ci (Alt r1 r2) s s'
| Lang_Star p s m l :
    rest s = m ++ l -> Forall (fun x => p x = true) m ->
    Lang ci (Star p) s (MState (end_prev (prev s) m) l (caps s))
| Lang_LazyStar p s m l :
    rest s = m ++ l -> Forall (fun x => p x = true) m ->
    Lang ci (LazyStar p) s (MState (end_prev (prev s) m) l (caps s))
| Lang_WordBoundary s :
    xorb (word_before s) (word_after s) = true -> Lang ci WordBoundary s s
| Lang_Group n r s s' :
    Lang ci r s s' ->
    Lang ci (Group n r) s
      (MState (prev s') (rest s')
         ((n, firstn (length (rest s) - length (rest s')) (rest s)) :: caps s'))
| Lang_Backref n s t pv l :
    capture n (caps s) = Some t ->
    match_text ci t (prev s) (rest s) = Some (pv, l) ->
    Lang ci (Backref n) s (MState pv l (caps s))
| Lang_Backref_unset n s :
    capture n (caps s) = None -> Lang ci (Backref n) s s.

(** [apart attrs]: the attributes do not go on with a word character. *)
Definition apart (attrs : jsstring) : bool :=
  match attrs with [] => true | c :: _ => negb (is_word c) end.

(** [attr = q url q], with optional white space around the equals sign. *)
Definition quoted_attribute (attr ws1 ws2 : jsstring) (q : ascii) (url : jsstring)
  : jsstring :=
  attr ++ ws1 ++ "="%char :: ws2 ++ q :: url ++ [q].

(** The loop of [validateHTMLStructure] over [closeTags] as a function of
    the stack it starts with, the top of the stack first: the errors, and
    the tags left open. *)
Fixpoint check_stack (stack closeTags : list jsstring)
  : list jsstring * list jsstring :=
  match closeTags with
  | [] => ([], stack)
  | tag :: more =>
      match stack with
      | [] =>
          let '(errs, opened) := check_stack [] more in
          (unmatched_closing tag :: errs, opened)
      | top :: below =>
          let '(errs, opened) := check_stack below more in
          (if jsstring_eqb top tag then errs else mismatched top tag :: errs, opened)
      end
  end.

Definition empty_div_then_p : jsstring := str "<div></div><p>x</p>".

(** The default sanitizer, and the URL parser of the examples. *)
Definition default_sanitizer : Sanitizer := new_Sanitizer None.


Definition both_block_lists : SanitizerConfig :=
  MkConfig None (Some [str "em"]) None (Some [str "strong"])
           None None None None None None.

Definition mixed_case_lists : SanitizerConfig :=
  MkConfig None None (Some [str "script"]) (Some [str "SCRIPT"])
           (Some [str "onclick"]) (Some [str "OnClick"]) None None None None.

(** ** Notions used in the further properties *)

(** [trimmed s]: [s] neither begins nor ends with white space. *)
Definition trimmed (s : jsstring) : Prop :=
  starts_clean is_space s /\ starts_clean is_space (rev s).

(** Two configurations with the same values in the six fields that
    [sanitize] reads. *)
Definition same_removal_policy (c c' : SanitizerConfig) : Prop :=
  disallowedElements c = disallowedElements c'
  /\ disallowedAttributes c = disallowedAttributes c'
  /\ allowedProtocols c = allowedProtocols c'
  /\ allowDataUrls c = allowDataUrls c'
  /\ stripComments c = stripComments c'
  /\ stripDoctype c = stripDoctype c'.

(** A configuration with allow lists only. *)
Definition only_paragraphs : SanitizerConfig :=
  MkConfig (Some [str "p"]) None (Some [str "p"]) None (Some []) None None None None None.

(** The calls that write to a [ShadowRootProcessor], and a sequence of them
    on one processor, each call on the processor the one before left. *)
Inductive shadow_call : Type :=
| CallSetHTML (input : value) (options : option SetHTMLOptions)
| CallSetHTMLUnsafe (input : value) (options : option SetHTMLOptions)
| CallClear.

Definition call {U : URLParser} (this : ShadowRootProcessor) (c : shadow_call)
  : completion ShadowRootProcessor :=
  match c with
  | CallSetHTML input options => ShadowRoot.setHTML this input options
  | CallSetHTMLUnsafe input options => ShadowRoot.setHTMLUnsafe this input options
  | CallClear => Normal (ShadowRoot.clear this)
  end.

Fixpoint calls {U : URLParser} (this : ShadowRootProcessor) (l : list shadow_call)
  : completion ShadowRootProcessor :=
  match l with
  | [] => Normal this
  | c :: more => bind (call this c) (fun this' => calls this' more)
  end.

(** A tag name: word characters, at least one. *)
Definition is_name (t : jsstring) : bool :=
  match t with [] => false | _ :: _ => forallb is_word t end.

(** Documents made of text, opening tags and closing tags. *)
Inductive piece : Type :=
| Text (t : jsstring)
| Open (name attrs : jsstring)
| Close (name : jsstring).

Definition piece_text (p : piece) : jsstring :=
  match p with
  | Text t => t
  | Open name attrs => open_tag name attrs
  | Close name => close_tag name
  end.

Definition document (d : list piece) : jsstring := concat (map piece_text d).

Definition in_tag (x : ascii) : bool := not_char "<" x && not_char Patterns.gt x.

(** Text has no opening angle bracket; the attributes of a tag have no angle
    bracket and do not go on with a word character after the name. *)
Definition piece_ok (p : piece) : bool :=
  match p with
  | Text t => forallb (not_char "<") t
  | Open name attrs => is_name name && forallb in_tag attrs && apart attrs
  | Close name => is_name name
  end.

Definition opened (d : list piece) : list jsstring :=
  flat_map (fun p => match p with Open name _ => [toLowerCase name] | _ => [] end) d.

Definition closed (d : list piece) : list jsstring :=
  flat_map (fun p => match p with Close name => [toLowerCase name] | _ => [] end) d.



Definition element_text (name attrs body name' : jsstring) : jsstring :=
  open_tag name attrs ++ body ++ close_tag name'.

(** [begins_lt re]: a match of [re] begins at an opening angle bracket. *)
Definition begins_lt (re : RegExp) : Prop :=
  forall x t pv, ascii_eqb x "<" = false -> exec_at re pv (x :: t) = None.

(** [forgets_prev re]: whether [re] matches at a position does not depend on
    the character before it. *)
Definition forgets_prev (re : RegExp) : Prop :=
  forall pv1 pv2 l, exec_at re pv1 l = exec_at re pv2 l.

(** The characters of a tag name as it stands in a text: no quote and no
    white space. *)
Definition in_name (x : ascii) : bool := not_quote x && negb (is_space x).

(** The characters between the beginning of an attribute and its opening
    quote. *)
Definition attr_char (x : ascii) : bool :=
  is_space x || is_word x || ascii_eqb x "=".

(** The last two replacements of [removeUnsafe]: the URLs that begin with
    [javascript:], then those that begin with [data:]. *)
Definition removeUnsafe_urls (s : jsstring) : jsstring :=
  replace_with (Patterns.schemeUrl (str "data:")) hash_replacement
    (replace_with (Patterns.schemeUrl (str "javascript:")) hash_replacement s).

(** [attr = z1 scheme value z2], with a quote of either kind at each end. *)
Definition scheme_attribute (attr ws1 ws2 : jsstring) (z1 : ascii)
    (scheme value : jsstring) (z2 : ascii) : jsstring :=
  attr ++ ws1 ++ "="%char :: ws2 ++ z1 :: scheme ++ value ++ [z2].

(** [occurs p s]: [p] occurs in [s], in any case. *)
Fixpoint starts_like (p s : jsstring) : bool :=
  match p, s with
  | [], _ => true
  | c :: p', x :: s' => chr_eq true c x && starts_like p' s'
  | _ :: _, [] => false
  end.

Fixpoint occurs (p s : jsstring) : bool :=
  starts_like p s || match s with [] => false | _ :: t => occurs p t end.

(** Text outside tags and attribute values: no quote and no opening angle
    bracket. *)
Definition outside_tags (x : ascii) : bool := not_quote x && not_char "<" x.

(** [keeps_start s]: [s] begins with a character that no step removes and
    that ends a name: neither a word character nor an opening angle
    bracket. *)
Definition keeps_start (s : jsstring) : bool :=
  match s with
  | [] => false
  | c :: _ => negb (is_word c) && not_char "<" c
  end.

(** [passes_over pre P]: the step [P] leaves [pre] alone, with any stretch
    without an opening angle bracket after it, and goes on with the rest. *)
Definition passes_over (pre : jsstring) (P : jsstring -> jsstring) : Prop :=
  forall m y,
    (forall x, In x m -> ascii_eqb x "<" = false) ->
    starts_clean is_word (m ++ y) ->
    keeps_start y = true ->
    P (pre ++ m ++ y) = pre ++ m ++ P y /\ keeps_start (P y) = true.

Definition no_space (x : ascii) : bool := negb (is_space x).

(** The steps of [sanitize] that come before its loop over the blocked
    attributes. *)
Definition element_steps (this : Sanitizer) (html : jsstring) : jsstring :=
  let c := config this in
  let sanitized := html in
  let sanitized := if flag (stripDoctype c) then remove Patterns.doctype sanitized
                   else sanitized in
  let sanitized := if flag (stripComments c) then remove Patterns.comment sanitized
                   else sanitized in
  match disallowedElements c with
  | Some l => fold_left removeElement l sanitized
  | None => sanitized
  end.

(** The characters of a scheme: word characters and the colon. *)
Definition scheme_char (x : ascii) : bool := is_word x || ascii_eqb x ":".

(** ** Notions used for documents *)

(** The names of a list that may be missing. *)
Definition names (o : option (list jsstring)) : list jsstring :=
  match o with Some l => l | None => [] end.

(** [word_names c]: the blocked elements and the blocked attributes of [c]
    are names of word characters.  The source splices these names into the
    source text of its patterns; for a name of word characters that text
    matches the characters of the name, which is how the patterns above
    read it. *)
Definition word_names (c : SanitizerConfig) : bool :=
  forallb is_name (names (disallowedElements c))
  && forallb is_name (names (disallowedAttributes c)).

(** [open_named tag p]: [p] is an opening tag of the name [tag], in any
    case. *)
Definition open_named (tag : jsstring) (p : piece) : bool :=
  match p with Open name _ => same_name tag name | _ => false end.

Definition is_tag (p : piece) : bool :=
  match p with Text _ => false | _ => true end.

(** [ends_in_close re]: a match of [re] ends with a closing tag [</n>] of
    word characters. *)
Definition ends_in_close (re : RegExp) : Prop :=
  forall pv l s',
    rmatch (ignoreCase re) (pattern re) Some (MState pv l []) = Some s' ->
    exists u n, l = u ++ "<"%char :: "/"%char :: n ++ Patterns.gt :: rest s'
                /\ Forall (fun x => is_word x = true) n.

(** [rdrop p s]: [s] without the characters of [p] at its end. *)
Definition rdrop (p : ascii -> bool) (s : jsstring) : jsstring :=
  rev (drop_while p (rev s)).

(** ** Tags with quoted attributes *)

(** A quoted attribute of a tag: the white space before it, its name, the
    white space around the equals sign, the quote, and the value. *)
Record attribute : Type := MkAttribute {
  a_space : jsstring;
  a_name : jsstring;
  a_before : jsstring;
  a_after : jsstring;
  a_quote : ascii;
  a_value : jsstring
}.

Definition attribute_text (a : attribute) : jsstring :=
  a_space a ++ quoted_attribute (a_name a) (a_before a) (a_after a) (a_quote a) (a_value a).

Definition attributes_text (l : list attribute) : jsstring :=
  concat (map attribute_text l).

(** The parts of a document whose tags begin with quoted attributes: text,
    an opening tag with its quoted attributes and what is left of it, and a
    closing tag. *)
Inductive part : Type :=
| PText (t : jsstring)
| POpen (name : jsstring) (attrs : list attribute) (rest : jsstring)
| PClose (name : jsstring).

Definition part_piece (p : part) : piece :=
  match p with
  | PText t => Text t
  | POpen name attrs rest => Open name (attributes_text attrs ++ rest)
  | PClose name => Close name
  end.

Definition parts_text (d : list part) : jsstring := document (map part_piece d).

(** [blocked attrs name]: [name] is a name of the list [attrs], in any
    case. *)
Definition blocked (attrs : list jsstring) (name : jsstring) : bool :=
  existsb (fun attr => same_name attr name) attrs.

Definition ends_with_equals (v : jsstring) : bool :=
  match rev v with c :: _ => ascii_eqb c "=" | [] => false end.

(** The value of an attribute that stays: no quote and no angle bracket,
    and either no equals sign, or no white space and another character than
    the equals sign at its end. *)
Definition closed_value (v : jsstring) : bool :=
  forallb not_quote v && forallb in_tag v
  && (forallb (not_char "=") v || (forallb no_space v && negb (ends_with_equals v))).

(** The value of an attribute that is removed: without the quote around it
    and angle brackets, and either without an equals sign or without white
    space. *)
Definition removable_value (q : ascii) (v : jsstring) : bool :=
  forallb (not_char q) v && forallb in_tag v
  && (forallb (not_char "=") v || forallb no_space v).

Definition attribute_shape (a : attribute) : bool :=
  match a_space a with [] => false | _ :: _ => true end
  && forallb is_space (a_space a)
  && is_name (a_name a)
  && forallb is_space (a_before a)
  && forallb is_space (a_after a)
  && is_quote (a_quote a).

(** An attribute as the attribute steps for the names [attrs] and the URL
    steps can take it. *)
Definition attribute_ok (attrs : list jsstring) (a : attribute) : bool :=
  attribute_shape a
  && if blocked attrs (a_name a) then removable_value (a_quote a) (a_value a)
     else closed_value (a_value a).

Definition part_ok (attrs : list jsstring) (p : part) : bool :=
  match p with
  | PText t => forallb (not_char "<") t && forallb not_quote t
  | POpen name l rest =>
      is_name name && forallb (attribute_ok attrs) l
      && forallb in_tag rest && forallb not_quote rest && apart rest
  | PClose name => is_name name
  end.

(** [url_named name]: [name] ends with [href] or [src], in any case: the
    patterns of the URL steps begin a match at these letters. *)
Definition url_named (name : jsstring) : bool :=
  href_or_src (skipn (length name - 4) name) || href_or_src (skipn (length name - 3) name).

(** The decision of the replacer of [sanitizeUrls]: the value is replaced. *)
Definition neutralized {U : URLParser} (c : SanitizerConfig) (url : jsstring) : bool :=
  match url_protocol url with
  | Some protocol =>
      match allowedProtocols c with
      | Some l => negb (includes l protocol)
      | None => false
      end
      || (jsstring_eqb protocol (str "data:") && negb (flag (allowDataUrls c)))
  | None => true
  end.

(** [scheme_value v]: [v] begins with one of the schemes of [removeUnsafe],
    in any case. *)
Definition scheme_value (v : jsstring) : bool :=
  starts_like (str "javascript:") v || starts_like (str "data:") v.


(** [all_attributes R p]: the quoted attributes of [p] are as [R] says. *)
Definition all_attributes (R : attribute -> bool) (p : part) : bool :=
  match p with
  | POpen _ l _ => forallb R l
  | _ => true
  end.

(** The attributes that the attribute steps for the names [attrs] leave. *)
Definition kept (attrs : list jsstring) (a : attribute) : bool :=
  negb (blocked attrs (a_name a)).

Definition keep_attributes (attrs : list jsstring) (p : part) : part :=
  match p with
  | POpen name l rest => POpen name (filter (kept attrs) l) rest
  | _ => p
  end.

(** [name="#"], as the replacers write it. *)
Definition hashed (a : attribute) : attribute :=
  MkAttribute (a_space a) (a_name a) [] [] dquote (str "#").

Definition is_hashed (a : attribute) : bool :=
  match a_before a, a_after a with
  | [], [] => ascii_eqb (a_quote a) dquote && jsstring_eqb (a_value a) (str "#")
  | _, _ => false
  end.

(** [replaced this a]: the URL step of [sanitize] replaces the value of
    [a]. *)
Definition replaced {U : URLParser} (this : Sanitizer) (a : attribute) : bool :=
  url_named (a_name a)
  && match a_value a with [] => false | _ :: _ => true end
  && neutralized (config this) (a_value a).

(** What the URL step of [sanitize] leaves of an attribute. *)
Definition neutralize {U : URLParser} (this : Sanitizer) (a : attribute) : attribute :=
  if replaced this a then hashed a else a.

(** What a URL step of [removeUnsafe] leaves of an attribute. *)
Definition hash_scheme (scheme : jsstring) (a : attribute) : attribute :=
  if url_named (a_name a) && starts_like scheme (a_value a) then hashed a else a.

Definition map_attributes (g : attribute -> attribute) (p : part) : part :=
  match p with
  | POpen name l rest => POpen name (map g l) rest
  | _ => p
  end.

(** Parts without quotes outside the attributes, which are as [ok] says. *)
Definition attributes_ok (ok : attribute -> bool) (p : part) : bool :=
  match p with
  | PText t => forallb not_quote t
  | POpen name l rest => is_name name && forallb ok l && forallb not_quote rest
  | PClose name => is_name name
  end.

(** [safe_url a]: the URL steps of [removeUnsafe] leave [a] alone. *)
Definition safe_url (a : attribute) : bool :=
  negb (url_named (a_name a) && scheme_value (a_value a)).

Definition floor_ok (a : attribute) : bool := attribute_ok [] a && safe_url a.

(** An attribute that [removeUnsafe] neither removes nor replaces. *)
Definition below_floor (a : attribute) : bool :=
  negb (blocked unsafeAttributes (a_name a)) && safe_url a.

(** An attribute that the attribute steps for [attrs] and the URL step of
    [sanitize] leave as it is. *)
Definition fixed {U : URLParser} (this : Sanitizer) (attrs : list jsstring)
    (a : attribute) : bool :=
  negb (blocked attrs (a_name a)) && (negb (replaced this a) || is_hashed a).

(** [settled R tags p]: a part that [sanitize] leaves: its attributes stay,
    each of them is as [R] says, and it is not an opening tag of a name of
    [tags]. *)
Definition settled (R : attribute -> bool) (tags : list jsstring) (p : part) : bool :=
  part_ok [] p
  && match p with
     | POpen name l _ => negb (blocked tags name) && forallb R l
     | _ => true
     end.

(** A document of this kind: an element with a blocked attribute, a link
    with a [javascript:] URL, and a script. *)
Definition mixed_document : list part :=
  [POpen (str "div")
     [MkAttribute (str " ") (str "onclick") [] [] dquote (str "alert('xss')");
      MkAttribute (str " ") (str "class") [] [] dquote (str "safe")] [];
   PText (str "Content");
   POpen (str "a")
     [MkAttribute (str " ") (str "href") [] [] dquote (str "javascript:alert(1)")] [];
   PText (str "x"); PClose (str "a");
   POpen (str "script") [] []; PText (str "alert(1)"); PClose (str "script");
   PClose (str "div")].

(** ** The configuration object, property by property *)

(** A property of the object a caller passes as configuration: missing,
    there with the value [undefined], or there with a value.  (The fields
    of [interface SanitizerConfig] are optional, which allows all three.) *)
Inductive property (A : Type) : Type :=
| Missing
| Undefined
| Given (a : A).
Arguments Missing {A}.
Arguments Undefined {A}.
Arguments Given {A} a.

Record ConfigObject : Type := MkObject {
  o_elements : property (list jsstring);
  o_removeElements : property (list jsstring);
  o_allowedElements : property (list jsstring);
  o_disallowedElements : property (list jsstring);
  o_allowedAttributes : property (list jsstring);
  o_disallowedAttributes : property (list jsstring);
  o_allowedProtocols : property (list jsstring);
  o_allowDataUrls : property bool;
  o_stripComments : property bool;
  o_stripDoctype : property bool
}.

(** Reading a property: [undefined] ([None]) unless it has a value. *)
Definition read {A} (p : property A) : option A :=
  match p with Given a => Some a | Missing | Undefined => None end.

(** One property of [{ ...a, ...b }]: a property that [b] has wins, with
    the value it has there, [undefined] included. *)
Definition spread_property {A} (a : option A) (b : property A) : option A :=
  match b with Missing => a | Undefined => None | Given v => Some v end.

Definition spread_object (a : SanitizerConfig) (b : ConfigObject) : SanitizerConfig := {|
  elements := spread_property (elements a) (o_elements b);
  removeElements := spread_property (removeElements a) (o_removeElements b);
  allowedElements := spread_property (allowedElements a) (o_allowedElements b);
  disallowedElements := spread_property (disallowedElements a) (o_disallowedElements b);
  allowedAttributes := spread_property (allowedAttributes a) (o_allowedAttributes b);
  disallowedAttributes :=
    spread_property (disallowedAttributes a) (o_disallowedAttributes b);
  allowedProtocols := spread_property (allowedProtocols a) (o_allowedProtocols b);
  allowDataUrls := spread_property (allowDataUrls a) (o_allowDataUrls b);
  stripComments := spread_property (stripComments a) (o_stripComments b);
  stripDoctype := spread_property (stripDoctype a) (o_stripDoctype b)
|}.

(** The constructor of [Sanitizer] on such an object; without an argument
    the parameter is the default configuration. *)
Definition new_Sanitizer_of (arg : option ConfigObject) : Sanitizer :=
  match arg with
  | None => new_Sanitizer None
  | Some config =>
      let this0 := spread empty_config DEFAULT_SANITIZER_CONFIG in
      let this1 := normalizeConfig this0 in
      let userDisallowedElements := read (o_disallowedElements config) in
      let userRemoveElements := read (o_removeElements config) in
      let this2 := spread_object this1 config in
      let this3 := match userDisallowedElements with
                   | Some d => set_disallowedElements this2 d
                   | None => this2
                   end in
      let this4 := match userRemoveElements with
                   | Some r => set_disallowedElements this3 r
                   | None => this3
                   end in
      MkSanitizer this4
  end.

(** The object whose properties are the fields of [c] that are there. *)
Definition object_of (c : SanitizerConfig) : ConfigObject :=
  let prop {A} (o : option A) : property A :=
    match o with Some a => Given a | None => Missing end in
  MkObject (prop (elements c)) (prop (removeElements c)) (prop (allowedElements c))
           (prop (disallowedElements c)) (prop (allowedAttributes c))
           (prop (disallowedAttributes c)) (prop (allowedProtocols c))
           (prop (allowDataUrls c)) (prop (stripComments c)) (prop (stripDoctype c)).

Definition empty_object : ConfigObject :=
  MkObject Missing Missing Missing Missing Missing Missing Missing Missing Missing Missing.

(** ** The tag stack of the specification *)

(** The simple open/close tag stack of the specification, over the tags in
    the order in which the document has them: an opening tag that is not a
    void element is pushed; a closing tag pops the stack, and is an error
    when the stack is empty or the tag it pops has another name.  The
    result: the errors, and the tags left open, the last one first. *)
Fixpoint tag_stack (d : list piece) (stack : list jsstring)
  : list jsstring * list jsstring :=
  match d with
  | [] => ([], stack)
  | Text _ :: more => tag_stack more stack
  | Open name _ :: more =>
      if isSelfClosingTag name then tag_stack more stack
      else tag_stack more (toLowerCase name :: stack)
  | Close name :: more =>
      match stack with
      | [] =>
          let '(errs, left_open) := tag_stack more [] in
          (unmatched_closing (toLowerCase name) :: errs, left_open)
      | top :: below =>
          let '(errs, left_open) := tag_stack more below in
          (if jsstring_eqb top (toLowerCase name) then errs
           else mismatched top (toLowerCase name) :: errs, left_open)
      end
  end.

(** [checkStructure] as the specification has it: unmatched closing tags
    and mismatches are errors, tags left open are a warning, and the
    document is valid exactly when there is no error. *)
Definition checkStructure (d : list piece) : StructureReport :=
  let '(errs, left_open) := tag_stack d [] in
  MkReport (match errs with [] => true | _ => false end) errs
           (match left_open with [] => [] | _ => [unclosed (rev left_open)] end).

(** A well-formed document: a heading, then a paragraph. *)
Definition heading_then_paragraph : list piece :=
  [Open (str "h2") []; Text (str "My Blog Post"); Close (str "h2");
   Open (str "p") []; Text (str "More content here."); Close (str "p")].

(** The content of the blog post of [examples/node-example.ts], as
    [sanitize] leaves it, without the white space between the elements. *)
Definition blog_post : list piece :=
  [Open (str "h2") []; Text (str "My Blog Post"); Close (str "h2");
   Open (str "p") []; Text (str "This is my content with ");
   Open (str "strong") []; Text (str "bold text"); Close (str "strong");
   Text (str "."); Close (str "p");
   Open (str "p") []; Text (str "More content here."); Close (str "p")].

(** ** The sanitizers of a sequence of calls *)

(** [options_named o]: the sanitizer that the options bring, if they bring
    one, has names of word characters in its block lists. *)
Definition options_named (o : option SetHTMLOptions) : bool :=
  match o with
  | Some (MkOptions (Some (ChooseInstance s))) => word_names (config s)
  | Some (MkOptions (Some (ChooseConfig c))) => word_names (config (new_Sanitizer (Some c)))
  | _ => true
  end.

(** [setHTMLUnsafe] is the call that builds patterns from the lists of its
    sanitizer. *)
Definition call_named (c : shadow_call) : bool :=
  match c with
  | CallSetHTMLUnsafe _ o => options_named o
  | CallSetHTML _ _ | CallClear => true
  end.

(* ================================================================== *)
(** * Properties *)

(** ** Strings *)

Lemma ascii_eqb_refl (c : ascii) : ascii_eqb c c = true.
Proof. apply Ascii.eqb_refl. Qed.

Lemma ascii_eqb_eq (a b : ascii) : ascii_eqb a b = true <-> a = b.
Proof. apply Ascii.eqb_eq. Qed.

Lemma jsstring_eqb_eq (a b : jsstring) : jsstring_eqb a b = true <-> a = b.
Proof.
  revert b; induction a as [|x a IH]; intros [|y b]; simpl; split; intro H;
    try reflexivity; try discriminate.
  - apply andb_true_iff in H as [Hx Hab].
    apply ascii_eqb_eq in Hx. apply IH in Hab. now subst.
  - injection H as -> ->. rewrite ascii_eqb_refl. now apply IH.
Qed.

Lemma jsstring_eqb_refl (a : jsstring) : jsstring_eqb a a = true.
Proof. now apply jsstring_eqb_eq. Qed.

Lemma includes_In (l : list jsstring) (x : jsstring) :
  includes l x = true <-> In x l.
Proof.
  unfold includes. rewrite existsb_exists. split.
  - intros (y & Hy & E). apply jsstring_eqb_eq in E. now subst.
  - intro H. exists x. split; [assumption | apply jsstring_eqb_refl].
Qed.

(** ** The constructor *)

Section Constructor.

Variable c : SanitizerConfig.

Lemma new_Sanitizer_removeElements (r : list jsstring) :
  removeElements c = Some r ->
  disallowedElements (config (new_Sanitizer (Some c))) = Some r.
Proof. intro H. unfold new_Sanitizer. simpl. now rewrite H. Qed.

Lemma new_Sanitizer_disallowedElements (d : list jsstring) :
  removeElements c = None ->
  disallowedElements c = Some d ->
  disallowedElements (config (new_Sanitizer (Some c))) = Some d.
Proof. intros Hr Hd. unfold new_Sanitizer. simpl. now rewrite Hr, Hd. Qed.

End Constructor.

(** ** The two queries *)

Lemma isElementAllowed_blocked (this : Sanitizer) (l : list jsstring) (name : jsstring) :
  disallowedElements (config this) = Some l ->
  In (toLowerCase name) l ->
  isElementAllowed this name = false.
Proof.
  intros Hl Hin. unfold isElementAllowed. rewrite Hl.
  apply includes_In in Hin. now rewrite Hin.
Qed.

Lemma isAttributeAllowed_blocked (this : Sanitizer) (l : list jsstring) (name : jsstring) :
  disallowedAttributes (config this) = Some l ->
  In (toLowerCase name) l ->
  isAttributeAllowed this name = false.
Proof.
  intros Hl Hin. unfold isAttributeAllowed. rewrite Hl.
  apply includes_In in Hin. now rewrite Hin.
Qed.

(** ** The tag stack of validateHTMLStructure *)

Lemma pop_rev_cons (x : jsstring) (l : list jsstring) :
  pop (rev (x :: l)) = Some (x, rev l).
Proof. unfold pop. now rewrite rev_involutive. Qed.

Lemma close_loop_check_stack (closeTags : list jsstring) :
  forall stack errs,
    close_loop closeTags (rev stack) errs =
    (rev (snd (check_stack stack closeTags)),
     errs ++ fst (check_stack stack closeTags)).
Proof.
  induction closeTags as [|tag more IH]; intros stack errs.
  - simpl. now rewrite app_nil_r.
  - destruct stack as [|top below].
    + cbn [close_loop rev pop]. specialize (IH [] (errs ++ [unmatched_closing tag])).
      cbn [rev] in IH. rewrite IH. cbn [check_stack].
      destruct (check_stack [] more) as [e l]. cbn [fst snd].
      now rewrite <- app_assoc.
    + cbn [close_loop]. rewrite pop_rev_cons. cbn [check_stack].
      destruct (jsstring_eqb top tag); cbn [negb]; rewrite IH;
        destruct (check_stack below more) as [e l]; cbn [fst snd];
        [reflexivity | now rewrite <- app_assoc].
Qed.

Lemma filter_idempotent {A} (p : A -> bool) (l : list A) :
  filter p (filter p l) = filter p l.
Proof.
  induction l as [|x l IH]; simpl; [reflexivity|].
  destruct (p x) eqn:E; simpl; [rewrite E|]; now rewrite ?IH.
Qed.

(** ** The matcher *)

Module RegexFacts.

Lemma suffix_refl (a : jsstring) : suffix a a.
Proof. now exists []. Qed.

Lemma suffix_cons (a b : jsstring) (c : ascii) : suffix a b -> suffix a (c :: b).
Proof. intros [pre ->]. now exists (c :: pre). Qed.

Lemma suffix_trans (a b c : jsstring) : suffix a b -> suffix b c -> suffix a c.
Proof. intros [p ->] [q ->]. exists (q ++ p). now rewrite app_assoc. Qed.

Lemma suffix_In (a b : jsstring) (x : ascii) : suffix a b -> In x a -> In x b.
Proof. intros [pre ->] H. apply in_or_app. now right. Qed.

Lemma suffix_length (a b : jsstring) : suffix a b -> length a <= length b.
Proof. intros [pre ->]. rewrite length_app. lia. Qed.

Create HintDb suffix.
#[local] Hint Resolve suffix_refl suffix_cons suffix_trans : suffix.

Section Inversion.

Variable ci : bool.

Lemma star_greedy_inv (p : ascii -> bool) (k : mstate -> option mstate)
    (cs : captures) (l : jsstring) :
  forall pv s',
    star_greedy p k cs pv l = Some s' ->
    exists s1, k s1 = Some s' /\ suffix (rest s1) l.
Proof.
  induction l as [|c t IH]; intros pv s' H; simpl in H.
  - eexists; split; [eassumption | apply suffix_refl].
  - destruct (p c).
    + destruct (star_greedy p k cs (Some c) t) eqn:E; simpl in H.
      * injection H as <-. destruct (IH _ _ E) as (s1 & Hk & Hs).
        exists s1; auto with suffix.
      * eexists; split; [eassumption | apply suffix_refl].
    + eexists; split; [eassumption | apply suffix_refl].
Qed.

Lemma star_lazy_inv (p : ascii -> bool) (k : mstate -> option mstate)
    (cs : captures) (l : jsstring) :
  forall pv s',
    star_lazy p k cs pv l = Some s' ->
    exists s1, k s1 = Some s' /\ suffix (rest s1) l.
Proof.
  induction l as [|c t IH]; intros pv s' H; simpl in H.
  - destruct (k (MState pv [] cs)) eqn:E; [|discriminate].
    injection H as <-. eexists; split; [eassumption | apply suffix_refl].
  - destruct (k (MState pv (c :: t) cs)) eqn:E.
    + injection H as <-. eexists; split; [eassumption | apply suffix_refl].
    + destruct (p c); [|discriminate].
      destruct (IH _ _ H) as (s1 & Hk & Hs). exists s1; auto with suffix.
Qed.

Lemma match_text_suffix (t : jsstring) :
  forall pv l pv' l', match_text ci t pv l = Some (pv', l') -> suffix l' l.
Proof.
  induction t as [|c t IH]; intros pv l pv' l' H; simpl in H.
  - injection H as _ <-. apply suffix_refl.
  - destruct l as [|x l0]; [discriminate|].
    destruct (chr_eq ci c x); [|discriminate].
    apply suffix_cons. eapply IH; eassumption.
Qed.

(** Whenever the matcher succeeds, its continuation has accepted a position
    further on in the input. *)
Lemma rmatch_inv (r : regex) :
  forall k s s',
    rmatch ci r k s = Some s' ->
    exists s1, k s1 = Some s' /\ suffix (rest s1) (rest s).
Proof.
  induction r as [|c|p|r1 IH1 r2 IH2|r1 IH1 r2 IH2|p|p| |n r IH|n];
    intros k s s' H; simpl in H.
  - eexists; split; [eassumption | apply suffix_refl].
  - destruct (rest s) as [|x t] eqn:E; [discriminate|].
    destruct (chr_eq ci c x); [|discriminate].
    eexists; split; [eassumption | simpl; auto with suffix].
  - destruct (rest s) as [|x t] eqn:E; [discriminate|].
    destruct (p x); [|discriminate].
    eexists; split; [eassumption | simpl; auto with suffix].
  - destruct (IH1 _ _ _ H) as (s1 & H1 & S1).
    destruct (IH2 _ _ _ H1) as (s2 & H2 & S2).
    exists s2; split; eauto with suffix.
  - destruct (rmatch ci r1 k s) eqn:E; simpl in H.
    + injection H as <-. eauto.
    + eauto.
  - eapply star_greedy_inv; eassumption.
  - eapply star_lazy_inv; eassumption.
  - destruct (xorb (word_before s) (word_after s)); [|discriminate].
    eexists; split; [eassumption | apply suffix_refl].
  - destruct (IH _ _ _ H) as (s1 & H1 & S1). simpl in H1.
    eexists; split; [eassumption | assumption].
  - destruct (capture n (caps s)).
    + destruct (match_text ci j (prev s) (rest s)) as [[pv l]|] eqn:E; [|discriminate].
      eexists; split; [eassumption|]. simpl. eapply match_text_suffix; eassumption.
    + eexists; split; [eassumption | apply suffix_refl].
Qed.

(** If the continuation refuses every later position, the match fails. *)
Lemma rmatch_refused (r : regex) (k : mstate -> option mstate) (s : mstate) :
  (forall s1, suffix (rest s1) (rest s) -> k s1 = None) ->
  rmatch ci r k s = None.
Proof.
  intro H. destruct (rmatch ci r k s) eqn:E; [|reflexivity].
  destruct (rmatch_inv _ _ _ _ E) as (s1 & Hk & Hs).
  rewrite (H _ Hs) in Hk. discriminate.
Qed.

Lemma rmatch_needs (p : ascii -> bool) (r : regex) :
  Needs ci p r ->
  forall k s, (forall x, In x (rest s) -> p x = false) -> rmatch ci r k s = None.
Proof.
  induction 1 as [c Hc|q Hq|r1 r2 _ IH|r1 r2 _ IH|r1 r2 _ IH1 _ IH2|n r _ IH];
    intros k s Hs; simpl.
  - destruct (rest s) as [|x t] eqn:E; [reflexivity|].
    destruct (chr_eq ci c x) eqn:Ex; [|reflexivity].
    apply Hc in Ex. rewrite Hs in Ex; [discriminate | now left].
  - destruct (rest s) as [|x t] eqn:E; [reflexivity|].
    destruct (q x) eqn:Ex; [|reflexivity].
    apply Hq in Ex. rewrite Hs in Ex; [discriminate | now left].
  - now apply IH.
  - apply rmatch_refused. intros s1 S1. apply IH.
    intros x Hx. apply Hs. eapply suffix_In; eassumption.
  - now rewrite IH1, IH2.
  - now apply IH.
Qed.

End Inversion.

(** A pattern that begins with a literal character matches at that
    character only, and takes it. *)
Lemma exec_at_first (re : RegExp) (c : ascii) (r : regex) (pv : option ascii)
    (l : jsstring) (len : nat) (cs : captures) :
  pattern re = Seq (Char c) r ->
  exec_at re pv l = Some (len, cs) ->
  exists x t n, l = x :: t /\ chr_eq (ignoreCase re) c x = true /\ len = S n.
Proof.
  intros Hp. unfold exec_at. rewrite Hp. simpl.
  destruct l as [|x t]; [discriminate|].
  destruct (chr_eq (ignoreCase re) c x) eqn:Ex; [|discriminate].
  destruct (rmatch _ r Some _) as [s'|] eqn:E; [|discriminate].
  intro H. injection H as <- _.
  destruct (rmatch_inv _ _ _ _ _ E) as (s1 & Hk & Hs).
  injection Hk as ->. simpl in Hs. apply suffix_length in Hs.
  exists x, t, (length t - length (rest s')). repeat split; try assumption.
  destruct (length (rest s')); lia.
Qed.

(** Where the pattern matches at no position, [replace] returns its
    argument. *)
Lemma replace_go_unmatched (re : RegExp) (f : jsstring -> captures -> jsstring)
    (l : jsstring) :
  (forall pv t, suffix t l -> exec_at re pv t = None) ->
  forall pv, replace_go re f 0 pv l = l.
Proof.
  induction l as [|c t IH]; intros H pv; simpl.
  - now rewrite (H pv []) by apply suffix_refl.
  - rewrite (H pv (c :: t)) by apply suffix_refl. f_equal.
    apply IH. intros pv' t' S. apply H. now apply suffix_cons.
Qed.

Lemma replace_with_needs (p : ascii -> bool) (re : RegExp)
    (f : jsstring -> captures -> jsstring) (l : jsstring) :
  Needs (ignoreCase re) p (pattern re) ->
  (forall x, In x l -> p x = false) ->
  replace_with re f l = l.
Proof.
  intros Hn Hl. apply replace_go_unmatched. intros pv t S.
  unfold exec_at. rewrite (rmatch_needs _ _ _ Hn); [reflexivity|].
  simpl. intros x Hx. apply Hl. eapply suffix_In; eassumption.
Qed.

End RegexFacts.

Import RegexFacts.

(** ** Text without markup *)

Lemma for_all_ascii_spec (P : ascii -> bool) :
  for_all_ascii P = true -> forall x, P x = true.
Proof.
  unfold for_all_ascii. rewrite forallb_forall. intros H x.
  rewrite <- (ascii_nat_embedding x). apply H.
  apply in_seq. pose proof (nat_ascii_bounded x). lia.
Qed.

Lemma chr_eq_alone (ci : bool) (c x : ascii) :
  canon_alone c = true -> chr_eq ci c x = true -> c = x.
Proof.
  intros Hc H. unfold chr_eq in H. destruct ci.
  - unfold canon_alone in Hc.
    pose proof (for_all_ascii_spec _ Hc x) as Hx. cbv beta in Hx.
    rewrite H in Hx. now apply ascii_eqb_eq.
  - now apply ascii_eqb_eq.
Qed.

Lemma chr_eq_markup (ci : bool) (c x : ascii) :
  canon_alone c = true -> is_markup c = true -> chr_eq ci c x = true ->
  is_markup x = true.
Proof. intros Hc Hm H. now rewrite <- (chr_eq_alone _ _ _ Hc H). Qed.

Ltac needs_literal :=
  apply Needs_Char; intros x Hx;
  match type of Hx with
  | chr_eq ?ci ?c _ = true => exact (chr_eq_markup ci c _ eq_refl eq_refl Hx)
  end.

Ltac needs_here := apply Needs_Seq_l; needs_literal.

Lemma element_needs (tag : jsstring) :
  Needs true is_markup (pattern (Patterns.element tag)).
Proof. simpl. needs_here. Qed.

Lemma selfClosing_needs (tag : jsstring) :
  Needs true is_markup (pattern (Patterns.selfClosing tag)).
Proof. simpl. needs_here. Qed.

Lemma doctype_needs : Needs true is_markup (pattern Patterns.doctype).
Proof. simpl. do 2 apply Needs_Seq_l. needs_literal. Qed.

Lemma comment_needs : Needs false is_markup (pattern Patterns.comment).
Proof. simpl. do 2 apply Needs_Seq_l. needs_literal. Qed.

Lemma emptyTag_needs : Needs true is_markup (pattern Patterns.emptyTag).
Proof. simpl. needs_here. Qed.

Lemma blankTag_needs : Needs true is_markup (pattern Patterns.blankTag).
Proof. simpl. needs_here. Qed.

Lemma Needs_weaken (ci : bool) (p q : ascii -> bool) (r : regex) :
  (forall x, p x = true -> q x = true) -> Needs ci p r -> Needs ci q r.
Proof.
  intros Hpq H.
  induction H; [apply Needs_Char | apply Needs_Class | apply Needs_Seq_l
               | apply Needs_Seq_r | apply Needs_Alt | apply Needs_Group]; auto.
Qed.

Lemma quote_is_markup (x : ascii) : is_quote x = true -> is_markup x = true.
Proof. intro H. unfold is_markup. fold is_quote. rewrite H. apply orb_true_r. Qed.

Lemma chr_eq_quote (ci : bool) (c x : ascii) :
  canon_alone c = true -> is_quote c = true -> chr_eq ci c x = true ->
  is_quote x = true.
Proof. intros Hc Hm H. now rewrite <- (chr_eq_alone _ _ _ Hc H). Qed.

Lemma quote_cases (q : ascii) (P : ascii -> Prop) :
  q = squote \/ q = dquote -> P squote -> P dquote -> P q.
Proof. now intros [-> | ->]. Qed.

Ltac needs_quote :=
  apply Needs_Seq_l; apply Needs_Char; intros x Hx;
  match type of Hx with
  | chr_eq ?ci ?c _ = true => exact (chr_eq_quote ci c _ eq_refl eq_refl Hx)
  end.

Lemma quotedAttribute_needs_quote (q : ascii) (attr : jsstring) :
  q = squote \/ q = dquote ->
  Needs true is_quote (pattern (Patterns.quotedAttribute q attr)).
Proof.
  intro Hq. pattern q. apply (quote_cases q); [assumption| |];
    simpl; do 5 apply Needs_Seq_r; needs_quote.
Qed.

Lemma quotedUrl_needs_quote (q : ascii) :
  q = squote \/ q = dquote ->
  Needs true is_quote (pattern (Patterns.quotedUrl q)).
Proof.
  intro Hq. pattern q. apply (quote_cases q); [assumption| |];
    simpl; do 4 apply Needs_Seq_r; needs_quote.
Qed.

Lemma quotedAttribute_needs (q : ascii) (attr : jsstring) :
  q = squote \/ q = dquote ->
  Needs true is_markup (pattern (Patterns.quotedAttribute q attr)).
Proof.
  intro Hq. eapply Needs_weaken; [exact quote_is_markup|].
  now apply quotedAttribute_needs_quote.
Qed.

Lemma quotedUrl_needs (q : ascii) :
  q = squote \/ q = dquote ->
  Needs true is_markup (pattern (Patterns.quotedUrl q)).
Proof.
  intro Hq. eapply Needs_weaken; [exact quote_is_markup|].
  now apply quotedUrl_needs_quote.
Qed.

Lemma schemeUrl_needs (scheme : jsstring) :
  Needs true is_markup (pattern (Patterns.schemeUrl scheme)).
Proof.
  simpl. do 4 apply Needs_Seq_r. apply Needs_Seq_l. apply Needs_Class.
  intros x Hx. unfold is_markup. rewrite Hx. apply orb_true_r.
Qed.

Lemma remove_plain (re : RegExp) (s : jsstring) :
  Needs (ignoreCase re) is_markup (pattern re) -> plain s -> remove re s = s.
Proof. intros Hn H. unfold remove. now apply (replace_with_needs is_markup). Qed.

Lemma removeElement_plain (s tag : jsstring) : plain s -> removeElement s tag = s.
Proof.
  intro H. unfold removeElement.
  rewrite (remove_plain (Patterns.element tag)) by (auto using element_needs).
  apply remove_plain; auto using selfClosing_needs.
Qed.

Lemma removeAttribute_plain (s attr : jsstring) : plain s -> removeAttribute s attr = s.
Proof.
  intro H. unfold removeAttribute.
  rewrite (remove_plain (Patterns.quotedAttribute squote attr))
    by (auto using quotedAttribute_needs).
  apply remove_plain; auto using quotedAttribute_needs.
Qed.

Lemma fold_left_fixed {A B} (f : A -> B -> A) (a : A) (l : list B) :
  (forall b, f a b = a) -> fold_left f l a = a.
Proof. intro H. induction l as [|b l IH]; simpl; [reflexivity | now rewrite H]. Qed.

Lemma cleanupEmptyTags_plain (s : jsstring) : plain s -> cleanupEmptyTags s = s.
Proof.
  intro H. unfold cleanupEmptyTags.
  rewrite (remove_plain Patterns.emptyTag) by (auto using emptyTag_needs).
  apply remove_plain; auto using blankTag_needs.
Qed.

Lemma sanitizeUrls_plain {U : URLParser} (this : Sanitizer) (s : jsstring) :
  plain s -> sanitizeUrls this s = s.
Proof.
  intro H. unfold sanitizeUrls.
  rewrite (replace_with_needs is_markup (Patterns.quotedUrl squote))
    by (auto using quotedUrl_needs).
  apply (replace_with_needs is_markup); auto using quotedUrl_needs.
Qed.

(** On text without markup the pipeline of [sanitize] only trims. *)
Lemma sanitize_text_plain {U : URLParser} (this : Sanitizer) (s : jsstring) :
  plain s -> sanitize_text this s = trim s.
Proof.
  intro H. unfold sanitize_text.
  replace (if flag (stripDoctype (config this)) then remove Patterns.doctype s else s)
    with s
    by (destruct (flag _);
        [symmetry; apply remove_plain; auto using doctype_needs | reflexivity]).
  replace (if flag (stripComments (config this)) then remove Patterns.comment s else s)
    with s
    by (destruct (flag _);
        [symmetry; apply remove_plain; auto using comment_needs | reflexivity]).
  replace (match disallowedElements (config this) with
           | Some l => fold_left removeElement l s
           | None => s
           end) with s
    by (destruct (disallowedElements _); [|reflexivity];
        symmetry; apply fold_left_fixed; intro; now apply removeElement_plain).
  replace (match disallowedAttributes (config this) with
           | Some l => fold_left removeAttribute l s
           | None => s
           end) with s
    by (destruct (disallowedAttributes _); [|reflexivity];
        symmetry; apply fold_left_fixed; intro; now apply removeAttribute_plain).
  rewrite sanitizeUrls_plain by assumption.
  now rewrite cleanupEmptyTags_plain.
Qed.

Lemma removeUnsafe_text_plain (s : jsstring) : plain s -> removeUnsafe_text s = trim s.
Proof.
  intro H. unfold removeUnsafe_text.
  rewrite (fold_left_fixed removeElement) by (intro; now apply removeElement_plain).
  rewrite (fold_left_fixed removeAttribute) by (intro; now apply removeAttribute_plain).
  rewrite (replace_with_needs is_markup (Patterns.schemeUrl (str "javascript:")))
    by (auto using schemeUrl_needs).
  now rewrite (replace_with_needs is_markup) by (auto using schemeUrl_needs).
Qed.

(** ** trim *)

Lemma drop_while_In (p : ascii -> bool) (s : jsstring) (x : ascii) :
  In x (drop_while p s) -> In x s.
Proof.
  induction s as [|c t IH]; simpl; [tauto|].
  destruct (p c); [auto | simpl; tauto].
Qed.

Lemma trim_In (s : jsstring) (x : ascii) : In x (trim s) -> In x s.
Proof.
  unfold trim. intro H. apply in_rev in H. apply drop_while_In in H.
  apply in_rev in H. now apply drop_while_In in H.
Qed.

Lemma trim_plain (s : jsstring) : plain s -> plain (trim s).
Proof. intros H x Hx. apply H. now apply trim_In. Qed.

Lemma drop_while_clean (p : ascii -> bool) (s : jsstring) :
  starts_clean p (drop_while p s).
Proof.
  induction s as [|c t IH]; simpl; [exact I|].
  destruct (p c) eqn:E; [assumption | exact E].
Qed.

Lemma drop_while_fixed (p : ascii -> bool) (s : jsstring) :
  starts_clean p s -> drop_while p s = s.
Proof. destruct s as [|c t]; simpl; [reflexivity | now intros ->]. Qed.

Lemma drop_while_snoc (p : ascii -> bool) (l : jsstring) (c : ascii) :
  p c = false -> exists u, drop_while p (l ++ [c]) = u ++ [c].
Proof.
  intro Hc. induction l as [|x l IH]; simpl.
  - rewrite Hc. now exists [].
  - destruct (p x); [assumption | now exists (x :: l)].
Qed.

Lemma trim_clean (s : jsstring) : starts_clean is_space (trim s).
Proof.
  unfold trim. pose proof (drop_while_clean is_space s) as H.
  destruct (drop_while is_space s) as [|c t]; simpl; [exact I|].
  simpl in H. destruct (drop_while_snoc is_space (rev t) c H) as [u ->].
  rewrite rev_app_distr. exact H.
Qed.

Lemma trim_idempotent (s : jsstring) : trim (trim s) = trim s.
Proof.
  unfold trim at 1. rewrite (drop_while_fixed _ _ (trim_clean s)).
  unfold trim. rewrite rev_involutive.
  now rewrite (drop_while_fixed _ _ (drop_while_clean _ _)).
Qed.

(** ** What removing matches can do to a string *)

Lemma Del_refl (s : jsstring) : Del false s s.
Proof. induction s; constructor; assumption. Qed.

Lemma Del_true (b : bool) (s s' : jsstring) : Del b s s' -> Del true s s'.
Proof. induction 1; constructor; assumption. Qed.

Lemma Del_trans (m1 : bool) (a b : jsstring) :
  Del m1 a b -> forall m2 c, Del m2 b c -> Del (m1 || m2) a c.
Proof.
  induction 1 as [m1|m1 x a b _ IH|m1 a b _ IH|x a b _ IH]; intros m2 c H2.
  - inversion H2; subst. constructor.
  - inversion H2; subst.
    + apply Del_keep. apply (IH false). assumption.
    + apply Del_start. apply (IH true). assumption.
    + rewrite orb_true_r. apply Del_more. apply (IH true). assumption.
  - apply Del_start. apply (IH m2). assumption.
  - cbn [orb]. apply Del_more. apply (IH m2). assumption.
Qed.

(** Removing the matches of a pattern that begins with ["<"]. *)
Lemma replace_go_Del (re : RegExp) (r : regex) :
  pattern re = Seq (Char "<") r ->
  forall l skip pv,
    Del (match skip with O => false | S _ => true end) l
        (replace_go re (fun _ _ => []) skip pv l).
Proof.
  intro Hp. induction l as [|c t IH]; intros skip pv.
  - destruct skip; simpl; [|constructor].
    destruct (exec_at re pv []) as [[len cs]|] eqn:E; [|constructor].
    destruct (exec_at_first _ _ _ _ _ _ _ Hp E) as (x & t & n & Hl & _).
    discriminate.
  - destruct skip as [|n]; simpl.
    + destruct (exec_at re pv (c :: t)) as [[len cs]|] eqn:E.
      * destruct (exec_at_first _ _ _ _ _ _ _ Hp E) as (x & t' & n & Hl & Hx & ->).
        injection Hl as <- <-.
        apply (chr_eq_alone _ "<"%char _ eq_refl) in Hx. subst c.
        apply Del_start. eapply Del_true. apply IH.
      * apply Del_keep. apply (IH 0).
    + apply Del_more. eapply Del_true. apply IH.
Qed.

Lemma remove_Del (re : RegExp) (r : regex) (s : jsstring) :
  pattern re = Seq (Char "<") r -> Del false s (remove re s).
Proof. intro Hp. apply (replace_go_Del re r Hp s 0 None). Qed.

Lemma removeElement_Del (s tag : jsstring) : Del false s (removeElement s tag).
Proof.
  unfold removeElement.
  apply (Del_trans false _ _ (remove_Del (Patterns.element tag) _ s eq_refl) false).
  eapply remove_Del. reflexivity.
Qed.

Lemma removeElements_Del (tags : list jsstring) :
  forall s, Del false s (fold_left removeElement tags s).
Proof.
  induction tags as [|tag tags IH]; intro s; simpl.
  - apply Del_refl.
  - apply (Del_trans false _ _ (removeElement_Del s tag) false). apply IH.
Qed.

Lemma Del_cuts (b : bool) (s s' : jsstring) :
  Del b s s' -> In s' (if b then snd (cuts s) else fst (cuts s)).
Proof.
  assert (K : forall c t x, In x (fst (cuts t)) ->
            In (c :: x) (fst (cuts (c :: t))) /\ In (c :: x) (snd (cuts (c :: t)))).
  { intros c t x H. simpl. destruct (cuts t) as [o i]. simpl in *.
    split; apply in_or_app; left; now apply in_map. }
  assert (M : forall c t x, In x (snd (cuts t)) -> In x (snd (cuts (c :: t)))).
  { intros c t x H. simpl. destruct (cuts t) as [o i]. simpl in *.
    apply in_or_app. now right. }
  assert (T : forall t x, In x (snd (cuts t)) -> In x (fst (cuts ("<"%char :: t)))).
  { intros t x H. simpl. destruct (cuts t) as [o i]. simpl in *.
    apply in_or_app. now right. }
  induction 1 as [b|b c s s' _ IH|b s s' _ IH|c s s' _ IH];
    try (cbn iota in IH).
  - destruct b; simpl; auto.
  - destruct b; now apply K.
  - destruct b; [now apply M | now apply T].
  - now apply M.
Qed.

(** ** Matches that succeed *)

Lemma chr_eq_refl (ci : bool) (c : ascii) : chr_eq ci c c = true.
Proof. unfold chr_eq. destruct ci; apply ascii_eqb_refl. Qed.

(** A greedy star that runs over [a] and is stopped by what follows hands
    the position after [a] to its continuation first. *)
Lemma star_greedy_take (p : ascii -> bool) (k : mstate -> option mstate)
    (cs : captures) (a : jsstring) :
  forall pv b r,
    (forall x, In x a -> p x = true) ->
    starts_clean p b ->
    k (MState (end_prev pv a) b cs) = Some r ->
    star_greedy p k cs pv (a ++ b) = Some r.
Proof.
  induction a as [|x a IH]; intros pv b r Ha Hb Hk; simpl in *.
  - destruct b as [|c t]; [assumption|]. simpl in Hb |- *. now rewrite Hb.
  - rewrite (Ha x) by now left.
    rewrite (IH (Some x) b r); auto.
Qed.

Lemma match_text_self (ci : bool) (t : jsstring) :
  forall pv l, match_text ci t pv (t ++ l) = Some (end_prev pv t, l).
Proof.
  induction t as [|c t IH]; intros pv l; simpl.
  - reflexivity.
  - rewrite chr_eq_refl. apply IH.
Qed.

Lemma firstn_length_app (a b : jsstring) :
  firstn (length (a ++ b) - length b) (a ++ b) = a.
Proof.
  rewrite length_app. replace (length a + length b - length b) with (length a) by lia.
  rewrite firstn_app, Nat.sub_diag, firstn_all. simpl. apply app_nil_r.
Qed.

(** Passing over the rest of a match. *)
Lemma replace_go_skip (re : RegExp) (f : jsstring -> captures -> jsstring)
    (a : jsstring) :
  forall pv b, replace_go re f (length a) pv (a ++ b) = replace_go re f 0 (end_prev pv a) b.
Proof.
  induction a as [|c a IH]; intros pv b; [reflexivity|]. simpl. apply IH.
Qed.

(** A match at the head of the input: the replacement, then the rest. *)
Lemma replace_go_matched (re : RegExp) (f : jsstring -> captures -> jsstring)
    (m post : jsstring) (pv pv' : option ascii) (cs : captures) :
  m <> [] ->
  rmatch (ignoreCase re) (pattern re) Some (MState pv (m ++ post) []) =
    Some (MState pv' post cs) ->
  replace_go re f 0 pv (m ++ post) = f m cs ++ replace_go re f 0 (end_prev pv m) post.
Proof.
  intros Hm H. destruct m as [|c a]; [congruence|].
  assert (E : exec_at re pv ((c :: a) ++ post) = Some (S (length a), cs)).
  { unfold exec_at. rewrite H. cbn [rest caps]. f_equal. f_equal.
    rewrite length_app. cbn [length]. lia. }
  cbn [replace_go app] in *. rewrite E. rewrite replace_go_skip.
  f_equal. cbn [firstn]. f_equal. f_equal.
  rewrite firstn_app, Nat.sub_diag, firstn_all. simpl. apply app_nil_r.
Qed.

Lemma starts_clean_app (p : ascii -> bool) (a b : jsstring) (c : ascii) :
  starts_clean p a -> p c = false -> starts_clean p (a ++ c :: b).
Proof. destruct a; simpl; auto. Qed.

(** ** Patterns without a word boundary do not look behind *)

Section LookBehind.

Variable ci : bool.
Variables k1 k2 : mstate -> option mstate.
Hypothesis k12 : forall a b, same a b -> same_result (k1 a) (k2 b).

Lemma same_orelse (x1 y1 x2 y2 : option mstate) :
  same_result x1 x2 -> same_result y1 y2 -> same_result (orelse x1 y1) (orelse x2 y2).
Proof. destruct x1, x2; simpl; intros H1 H2; auto; contradiction. Qed.

Lemma star_greedy_same (p : ascii -> bool) (cs : captures) (l : jsstring) :
  forall pv1 pv2,
    same_result (star_greedy p k1 cs pv1 l) (star_greedy p k2 cs pv2 l).
Proof.
  induction l as [|c t IH]; intros pv1 pv2; simpl.
  - apply k12. now split.
  - destruct (p c).
    + apply same_orelse; [apply IH | apply k12; now split].
    + apply k12. now split.
Qed.

Lemma star_lazy_same (p : ascii -> bool) (cs : captures) (l : jsstring) :
  forall pv1 pv2,
    same_result (star_lazy p k1 cs pv1 l) (star_lazy p k2 cs pv2 l).
Proof.
  induction l as [|c t IH]; intros pv1 pv2; simpl.
  - pose proof (k12 (MState pv1 [] cs) (MState pv2 [] cs) (conj eq_refl eq_refl)) as H.
    destruct (k1 _), (k2 _); simpl in *; tauto.
  - pose proof (k12 (MState pv1 (c :: t) cs) (MState pv2 (c :: t) cs)
                  (conj eq_refl eq_refl)) as H.
    destruct (k1 _), (k2 _); simpl in *; try tauto.
    destruct (p c); [apply IH | exact I].
Qed.

End LookBehind.

Lemma match_text_same (ci : bool) (t : jsstring) :
  forall pv1 pv2 l,
    match match_text ci t pv1 l, match_text ci t pv2 l with
    | Some (_, l1), Some (_, l2) => l1 = l2
    | None, None => True
    | _, _ => False
    end.
Proof.
  induction t as [|c t IH]; intros pv1 pv2 l; simpl.
  - reflexivity.
  - destruct l as [|x l]; [exact I|]. destruct (chr_eq ci c x); [apply IH | exact I].
Qed.

Lemma rmatch_same (ci : bool) (r : regex) :
  no_boundary r = true ->
  forall k1 k2 s1 s2,
    (forall a b, same a b -> same_result (k1 a) (k2 b)) ->
    same s1 s2 ->
    same_result (rmatch ci r k1 s1) (rmatch ci r k2 s2).
Proof.
  induction r as [|c|p|r1 IH1 r2 IH2|r1 IH1 r2 IH2|p|p| |n r IH|n];
    intros Hr k1 k2 s1 s2 Hk [Hrest Hcaps]; simpl in *.
  - apply Hk. now split.
  - rewrite Hrest, Hcaps. destruct (rest s2) as [|x t]; [exact I|].
    destruct (chr_eq ci c x); [apply Hk; now split | exact I].
  - rewrite Hrest, Hcaps. destruct (rest s2) as [|x t]; [exact I|].
    destruct (p x); [apply Hk; now split | exact I].
  - apply andb_true_iff in Hr as [Hr1 Hr2].
    apply IH1; [assumption| |now split].
    intros a b Hab. now apply IH2.
  - apply andb_true_iff in Hr as [Hr1 Hr2].
    apply same_orelse; [apply IH1 | apply IH2]; auto; now split.
  - rewrite Hrest, Hcaps. now apply star_greedy_same.
  - rewrite Hrest, Hcaps. now apply star_lazy_same.
  - discriminate.
  - apply IH; [assumption| |now split].
    intros a b [Hab Hc]. apply Hk. split; simpl; [assumption|].
    now rewrite Hrest, Hab, Hc.
  - rewrite Hcaps. destruct (capture n (caps s2)) as [t|].
    + pose proof (match_text_same ci t (prev s1) (prev s2) (rest s2)) as H.
      rewrite Hrest.
      destruct (match_text ci t (prev s1) (rest s2)) as [[p1 l1]|],
               (match_text ci t (prev s2) (rest s2)) as [[p2 l2]|]; try tauto.
      subst l2. apply Hk. now split.
    + apply Hk. now split.
Qed.

Lemma exec_at_same (re : RegExp) (pv1 pv2 : option ascii) (l : jsstring) :
  no_boundary (pattern re) = true -> exec_at re pv1 l = exec_at re pv2 l.
Proof.
  intro H. unfold exec_at.
  pose proof (rmatch_same (ignoreCase re) (pattern re) H Some Some
                (MState pv1 l []) (MState pv2 l [])) as R.
  destruct (rmatch _ _ _ (MState pv1 l [])) as [a|],
           (rmatch _ _ _ (MState pv2 l [])) as [b|]; simpl in R.
  - destruct R as [-> ->]; [intros x y Hxy; exact Hxy | now split | reflexivity].
  - exfalso. apply R; [intros x y Hxy; exact Hxy | now split].
  - exfalso. apply R; [intros x y Hxy; exact Hxy | now split].
  - reflexivity.
Qed.

Lemma replace_go_same (re : RegExp) (f : jsstring -> captures -> jsstring)
    (l : jsstring) :
  no_boundary (pattern re) = true ->
  forall skip pv1 pv2, replace_go re f skip pv1 l = replace_go re f skip pv2 l.
Proof.
  intro H. induction l as [|c t IH]; intros skip pv1 pv2.
  - destruct skip; simpl; [|reflexivity]. now rewrite (exec_at_same re pv1 pv2).
  - destruct skip; simpl; [|apply IH]. now rewrite (exec_at_same re pv1 pv2).
Qed.

(** ** What a match is made of *)

Section Soundness.
Variable ci : bool.

Lemma star_greedy_sound p k cs l :
  forall pv res, star_greedy p k cs pv l = Some res ->
  exists m l', l = m ++ l' /\ Forall (fun x => p x = true) m /\
               k (MState (end_prev pv m) l' cs) = Some res.
Proof.
  induction l as [|c t IH]; intros pv res H; simpl in H.
  - exists [], []. auto.
  - destruct (p c) eqn:Ec.
    + destruct (star_greedy p k cs (Some c) t) as [r0|] eqn:E; simpl in H.
      * injection H as <-. destruct (IH _ _ E) as (m & l' & -> & Hm & Hk).
        exists (c :: m), l'. auto.
      * exists [], (c :: t). auto.
    + exists [], (c :: t). auto.
Qed.

Lemma star_lazy_sound p k cs l :
  forall pv res, star_lazy p k cs pv l = Some res ->
  exists m l', l = m ++ l' /\ Forall (fun x => p x = true) m /\
               k (MState (end_prev pv m) l' cs) = Some res.
Proof.
  induction l as [|c t IH]; intros pv res H; simpl in H.
  - destruct (k (MState pv [] cs)) as [r0|] eqn:E; [|discriminate].
    injection H as <-. exists [], []. auto.
  - destruct (k (MState pv (c :: t) cs)) as [r0|] eqn:E.
    + injection H as <-. exists [], (c :: t). auto.
    + destruct (p c) eqn:Ec; [|discriminate].
      destruct (IH _ _ H) as (m & l' & -> & Hm & Hk).
      exists (c :: m), l'. auto.
Qed.

Lemma rmatch_sound (r : regex) :
  forall k s res, rmatch ci r k s = Some res ->
  exists s1, Lang ci r s s1 /\ k s1 = Some res.
Proof.
  induction r as [|c|p|r1 IH1 r2 IH2|r1 IH1 r2 IH2|p|p| |n r IH|n];
    intros k s res H; simpl in H.
  - eauto using Lang.
  - destruct (rest s) as [|x t] eqn:E; [discriminate|].
    destruct (chr_eq ci c x) eqn:Ex; [|discriminate]. eauto using Lang.
  - destruct (rest s) as [|x t] eqn:E; [discriminate|].
    destruct (p x) eqn:Ex; [|discriminate]. eauto using Lang.
  - destruct (IH1 _ _ _ H) as (s1 & L1 & H1).
    destruct (IH2 _ _ _ H1) as (s2 & L2 & H2). eauto using Lang.
  - destruct (rmatch ci r1 k s) as [r0|] eqn:E; simpl in H.
    + injection H as <-. destruct (IH1 _ _ _ E) as (s1 & L1 & H1). eauto using Lang.
    + destruct (IH2 _ _ _ H) as (s1 & L1 & H1). eauto using Lang.
  - destruct (star_greedy_sound _ _ _ _ _ _ H) as (m & l' & E & Hm & Hk).
    eauto using Lang.
  - destruct (star_lazy_sound _ _ _ _ _ _ H) as (m & l' & E & Hm & Hk).
    eauto using Lang.
  - destruct (xorb (word_before s) (word_after s)) eqn:E; [|discriminate].
    eauto using Lang.
  - destruct (IH _ _ _ H) as (s1 & L1 & H1). simpl in H1. eauto using Lang.
  - destruct (capture n (caps s)) as [t|] eqn:C.
    + destruct (match_text ci t (prev s) (rest s)) as [[pv l]|] eqn:E; [|discriminate].
      eauto using Lang.
    + eauto using Lang.
Qed.
End Soundness.

Lemma match_text_inv (ci : bool) (t : jsstring) :
  forall pv l pv' l', match_text ci t pv l = Some (pv', l') ->
  exists u, l = u ++ l' /\ Forall2 (fun c x => chr_eq ci c x = true) t u.
Proof.
  induction t as [|c t IH]; intros pv l pv' l' H; simpl in H.
  - injection H as _ <-. exists []. auto.
  - destruct l as [|x l0]; [discriminate|].
    destruct (chr_eq ci c x) eqn:E; [|discriminate].
    destruct (IH _ _ _ _ H) as (u & -> & F). exists (x :: u). auto.
Qed.

Lemma word_closed_true : word_closed = true.
Proof. vm_compute. reflexivity. Qed.

Lemma is_word_canonicalize (x : ascii) : is_word (canonicalize x) = is_word x.
Proof.
  pose proof word_closed_true as W. unfold word_closed in W.
  pose proof (for_all_ascii_spec _ W x) as H. cbv beta in H.
  symmetry. now apply Bool.eqb_prop.
Qed.

Lemma chr_eq_word (ci : bool) (c x : ascii) :
  is_word c = true -> chr_eq ci c x = true -> is_word x = true.
Proof.
  intros Hc H. unfold chr_eq in H. destruct ci; apply ascii_eqb_eq in H.
  - now rewrite <- is_word_canonicalize, <- H, is_word_canonicalize.
  - now subst.
Qed.

Ltac invert_lang :=
  repeat match goal with
  | H : Lang _ (Seq _ _) _ _ |- _ => inversion H; subst; clear H
  | H : Lang _ (Char _) _ _ |- _ => inversion H; subst; clear H
  | H : Lang _ (Class _) _ _ |- _ => inversion H; subst; clear H
  | H : Lang _ (Star _) _ _ |- _ => inversion H; subst; clear H
  | H : Lang _ (Group _ _) _ _ |- _ => inversion H; subst; clear H
  | H : Lang _ (Backref _) _ _ |- _ => inversion H; subst; clear H
  | H : Lang _ Empty _ _ |- _ => inversion H; subst; clear H
  end.

Lemma emptyTag_shape (pv : option ascii) (l : jsstring) (s' : mstate) :
  rmatch true (pattern Patterns.emptyTag) Some (MState pv l []) = Some s' ->
  exists w a sp u,
    l = "<"%char :: w ++ a ++ Patterns.gt :: sp ++ "<"%char :: "/"%char :: u ++ Patterns.gt :: rest s'
    /\ w <> [] /\ Forall (fun x => is_word x = true) w
    /\ Forall (fun x => not_char Patterns.gt x = true) a
    /\ Forall (fun x => is_space x = true) sp
    /\ Forall (fun x => is_word x = true) u.
Proof.
  intro H. apply rmatch_sound in H as (s1 & L & E). injection E as ->.
  cbn [Patterns.emptyTag pattern seqs fold_right Plus lits map str list_ascii_of_string] in L.
  unfold Plus in L.
  invert_lang; cbn [rest caps prev capture Nat.eqb] in *; subst;
    try discriminate.
  repeat match goal with
  | H : chr_eq true ?c _ = true |- _ => apply (chr_eq_alone true c _ eq_refl) in H
  end. subst.
  match goal with
  | H : Some (firstn _ _) = Some _ |- _ =>
      change (x4 :: m1 ++ ?X) with ((x4 :: m1) ++ X) in H;
      rewrite firstn_length_app in H; injection H as <-
  end.
  match goal with
  | H : match_text _ _ _ _ = Some _ |- _ =>
      apply match_text_inv in H as (u & -> & F)
  end.
  exists (x4 :: m1), m0, m, u. repeat split; auto; [discriminate|].
  assert (W : Forall (fun x => is_word x = true) (x4 :: m1)) by auto.
  clear - W F. induction F as [|c x t u Hcx F IH]; [constructor|].
  inversion W; subst. constructor; [eapply chr_eq_word; eassumption | auto].
Qed.

Lemma split_unique (p : ascii -> bool) (a a' : jsstring) (c c' : ascii) (r r' : jsstring) :
  Forall (fun x => p x = true) a -> Forall (fun x => p x = true) a' ->
  p c = false -> p c' = false ->
  a ++ c :: r = a' ++ c' :: r' -> a = a' /\ c = c' /\ r = r'.
Proof.
  intros Ha. revert a'. induction Ha as [|x a Hx Ha IH]; intros a' Ha' Hc Hc' E.
  - destruct Ha' as [|x' a' Hx' Ha']; simpl in E.
    + now injection E as -> ->.
    + injection E as -> _. congruence.
  - destruct Ha' as [|x' a' Hx' Ha']; simpl in E.
    + injection E as <- _. congruence.
    + injection E as -> E. destruct (IH _ Ha' Hc Hc' E) as (-> & -> & ->). auto.
Qed.


Lemma word_not_gt (x : ascii) : is_word x = true -> not_char Patterns.gt x = true.
Proof.
  intro H. unfold not_char. destruct (ascii_eqb x Patterns.gt) eqn:E; [|reflexivity].
  apply ascii_eqb_eq in E. subst. discriminate.
Qed.

Lemma exec_at_inv (re : RegExp) (pv : option ascii) (l : jsstring) (len : nat)
    (cs : captures) :
  exec_at re pv l = Some (len, cs) ->
  exists s', rmatch (ignoreCase re) (pattern re) Some (MState pv l []) = Some s'
             /\ caps s' = cs /\ len + length (rest s') = length l.
Proof.
  unfold exec_at. destruct (rmatch _ _ _ _) as [s'|] eqn:R; [|discriminate].
  intro H. injection H as <- <-. exists s'. repeat split.
  destruct (rmatch_inv _ _ _ _ _ R) as (s1 & Hk & Hs). injection Hk as ->.
  apply suffix_length in Hs. cbn [rest] in Hs. lia.
Qed.

(** ** Empty pairs *)

Ltac list_norm :=
  repeat (first [rewrite <- app_assoc | rewrite <- app_comm_cons | progress (cbn [app])]).

Section EmptyPair.

Variables (n0 : ascii) (ns attrs ws : jsstring).
Hypothesis word_n0 : is_word n0 = true.
Hypothesis word_ns : forall x, In x ns -> is_word x = true.
Hypothesis attrs_in_tag : forall x, In x attrs -> not_char Patterns.gt x = true.
Hypothesis attrs_apart : starts_clean is_word attrs.
Hypothesis blank_ws : forall x, In x ws -> is_space x = true.

Local Abbreviation pair := (pair_text (n0 :: ns) attrs ws).

Lemma emptyTag_pair (post : jsstring) (pv : option ascii) :
  rmatch true (pattern Patterns.emptyTag) Some
    (MState pv ("<"%char :: (n0 :: ns) ++ attrs ++ Patterns.gt :: ws ++
                "<"%char :: "/"%char :: (n0 :: ns) ++ Patterns.gt :: post) [])
  = Some (MState (Some Patterns.gt) post [(1, n0 :: ns)]).
Proof.
  cbn [Patterns.emptyTag pattern seqs fold_right rmatch rest caps prev Plus app].
  rewrite chr_eq_refl. rewrite word_n0.
  apply star_greedy_take;
    [assumption | apply starts_clean_app; [assumption | reflexivity] |].
  cbn [rest caps prev].
  apply star_greedy_take;
    [assumption | simpl; unfold not_char; now rewrite ascii_eqb_refl |].
  cbn [rest caps prev]. rewrite chr_eq_refl.
  apply star_greedy_take; [assumption | reflexivity |].
  cbn [rest caps prev lits map str list_ascii_of_string seqs fold_right rmatch].
  rewrite !chr_eq_refl.
  change (n0 :: ns ++ attrs ++ ?X) with ((n0 :: ns) ++ attrs ++ X).
  rewrite firstn_length_app.
  cbn [capture Nat.eqb].
  change (n0 :: ns ++ ?X) with ((n0 :: ns) ++ X).
  rewrite match_text_self. now rewrite chr_eq_refl.
Qed.

Lemma remove_emptyTag_front (post : jsstring) :
  remove Patterns.emptyTag
    ((open_tag (n0 :: ns) attrs ++ ws ++ close_tag (n0 :: ns)) ++ post)
  = remove Patterns.emptyTag post.
Proof.
  unfold remove, replace_with.
  rewrite (replace_go_matched _ _ _ _ _ (Some Patterns.gt) [(1, n0 :: ns)]).
  - simpl. apply replace_go_same. reflexivity.
  - discriminate.
  - unfold open_tag, close_tag. list_norm. apply emptyTag_pair.
Qed.

Lemma pair_app (post : jsstring) :
  pair ++ post =
  "<"%char :: (n0 :: ns) ++ attrs ++ Patterns.gt :: ws ++
  "<"%char :: "/"%char :: (n0 :: ns) ++ Patterns.gt :: post.
Proof. unfold pair_text, open_tag, close_tag. list_norm. reflexivity. Qed.

Lemma word_name : Forall (fun x => is_word x = true) (n0 :: ns).
Proof. constructor; [assumption | now apply Forall_forall]. Qed.

(** A match that begins before the pair ends before it, or with it. *)
Lemma emptyTag_overlap (m post : jsstring) (pv : option ascii) (s' : mstate) :
  rmatch true (pattern Patterns.emptyTag) Some (MState pv (m ++ pair ++ post) [])
    = Some s' ->
  (exists before y, m = before ++ y /\ before <> [] /\ rest s' = y ++ pair ++ post)
  \/ rest s' = post.
Proof.
  intro H. apply emptyTag_shape in H as (w & a & sp & u & E & Hw & Fw & Fa & Fsp & Fu).
  rewrite pair_app in *.
  set (P := "<"%char :: (n0 :: ns) ++ attrs ++ Patterns.gt :: ws ++
            "<"%char :: "/"%char :: (n0 :: ns) ++ Patterns.gt :: post) in *.
  assert (E' : m ++ P = ("<"%char :: w ++ a) ++
            Patterns.gt :: sp ++ "<"%char :: "/"%char :: u ++ Patterns.gt :: rest s')
    by (rewrite E; list_norm; reflexivity).
  clear E. apply app_eq_app in E' as [l [[Em El] | [Eh Ep]]].
  - (* the pair begins after the [>] of the match *)
    left. destruct l as [|c l2]; [discriminate El|].
    injection El as <- El.
    apply app_eq_app in El as [z [[E1 E2] | [E1 E2]]].
    + destruct z as [|c z]; unfold P in E2; [|].
      * injection E2 as E2 _. subst n0. discriminate.
      * injection E2 as <- _. subst sp.
        apply Forall_app in Fsp as [_ Fz]. inversion Fz. discriminate.
    + destruct z as [|c z1]; unfold P in E2.
      * injection E2 as E2 _. subst n0. discriminate.
      * injection E2 as <- E2. destruct z1 as [|c z2].
        -- discriminate.
        -- injection E2 as <- E2. fold P in E2.
           apply app_eq_app in E2 as [y [[E3 E4] | [E3 E4]]].
           ++ destruct y as [|c y]; [discriminate E4|].
              unfold P in E4. injection E4 as <- _.
              subst u. apply Forall_app in Fu as [_ Fy]. inversion Fy. discriminate.
           ++ destruct y as [|c y]; [discriminate E4|].
              injection E4 as <- E4.
              exists (("<"%char :: w ++ a) ++ Patterns.gt :: sp ++ "<"%char :: "/"%char :: u ++ [Patterns.gt]), y.
              subst. repeat split.
              ** list_norm. reflexivity.
              ** discriminate.
              ** exact E4.
  - (* the pair begins inside the opening tag of the match *)
    right.
    assert (Ep' : l ++ Patterns.gt :: sp ++ "<"%char :: "/"%char :: u ++ Patterns.gt :: rest s'
                  = ("<"%char :: (n0 :: ns) ++ attrs) ++ Patterns.gt :: ws ++
                    "<"%char :: "/"%char :: (n0 :: ns) ++ Patterns.gt :: post)
      by (rewrite <- Ep; unfold P; list_norm; reflexivity).
    clear Ep. rename Ep' into Ep.
    assert (Fh : Forall (fun x => not_char Patterns.gt x = true) ("<"%char :: w ++ a)).
    { constructor; [reflexivity|]. apply Forall_app. split; [|assumption].
      eapply Forall_impl; [|exact Fw]. exact word_not_gt. }
    rewrite Eh in Fh. apply Forall_app in Fh as [_ Fl].
    assert (Fp : Forall (fun x => not_char Patterns.gt x = true)
                        ("<"%char :: (n0 :: ns) ++ attrs)).
    { constructor; [reflexivity|]. apply Forall_app. split.
      - eapply Forall_impl; [|exact word_name]. exact word_not_gt.
      - now apply Forall_forall. }
    apply (split_unique (not_char Patterns.gt)) in Ep as (_ & _ & Et); auto;
      [|unfold not_char; now rewrite ascii_eqb_refl ..].
    apply (split_unique is_space) in Et as (_ & _ & Et); auto;
      [|now apply Forall_forall].
    injection Et as Et.
    change (n0 :: ns ++ ?X) with ((n0 :: ns) ++ X) in Et.
    apply (split_unique is_word) in Et as (_ & _ & Et); auto using word_name.
Qed.

Lemma pair_nonempty : pair <> [].
Proof. discriminate. Qed.

(** The scan of [replace] over a text with the pair in it: what it keeps
    comes from the text before the pair, and it goes on after the pair. *)
Lemma replace_go_over_pair (post : jsstring) :
  forall before skip pv,
    skip <= length before \/ skip = length before + length pair ->
    exists kept pv',
      replace_go Patterns.emptyTag (fun _ _ => []) skip pv (before ++ pair ++ post)
      = kept ++ replace_go Patterns.emptyTag (fun _ _ => []) 0 pv' post
      /\ Del (match skip with O => false | S _ => true end) before kept.
Proof.
  induction before as [|c b IH]; intros skip pv Hskip.
  - exists []. cbn [app length] in *. destruct Hskip as [Hs | ->].
    + assert (skip = 0) as -> by lia.
      exists (end_prev pv pair). split; [|constructor].
      rewrite (replace_go_matched _ _ pair post pv (Some Patterns.gt)
                 [(1, n0 :: ns)] pair_nonempty); [reflexivity|].
      rewrite pair_app. now apply emptyTag_pair.
    + exists (end_prev pv pair). split; [|constructor].
      apply replace_go_skip.
  - destruct skip as [|n].
    + cbn [app replace_go].
      destruct (exec_at Patterns.emptyTag pv (c :: b ++ pair ++ post))
        as [[len cs]|] eqn:E.
      * destruct (exec_at_first Patterns.emptyTag "<"%char _ _ _ _ _ eq_refl E)
          as (x & t & n & Hl & Hx & ->).
        injection Hl as <- _. apply (chr_eq_alone _ "<"%char _ eq_refl) in Hx. subst c.
        assert (Hn : n <= length b \/ n = length b + length pair).
        { apply exec_at_inv in E as (s' & R & _ & E).
          apply (emptyTag_overlap ("<"%char :: b)) in R
            as [(bf & y & Eb & Hbf & Er) | Er]; rewrite Er in E.
          - left. destruct bf as [|c0 bf]; [congruence|].
            injection Eb as _ ->.
            cbn [length] in E. repeat rewrite length_app in E.
            rewrite length_app. lia.
          - right. cbn [length] in E. repeat rewrite length_app in E. lia. }
        destruct (IH n (Some "<"%char) Hn) as (kept & pv' & Hk & Hd).
        exists kept, pv'. split; [exact Hk|].
        apply Del_start. eapply Del_true. exact Hd.
      * destruct (IH 0 (Some c) (or_introl (Nat.le_0_l _))) as (kept & pv' & Hk & Hd).
        exists (c :: kept), pv'. split; [cbn [app]; now rewrite Hk|].
        now apply Del_keep.
    + cbn [app replace_go].
      assert (Hn : n <= length b \/ n = length b + length pair)
        by (cbn [length] in Hskip; lia).
      destruct (IH n (Some c) Hn) as (kept & pv' & Hk & Hd).
      exists kept, pv'. split; [exact Hk|].
      apply Del_more. eapply Del_true. exact Hd.
Qed.

(** The first replacement of [cleanupEmptyTags] drops the pair wherever it
    stands. *)
Lemma remove_emptyTag_anywhere (before post : jsstring) :
  exists kept,
    remove Patterns.emptyTag (before ++ pair ++ post)
    = kept ++ remove Patterns.emptyTag post
    /\ Del false before kept.
Proof.
  destruct (replace_go_over_pair post before 0 None (or_introl (Nat.le_0_l _)))
    as (kept & pv' & Hk & Hd).
  exists kept. split; [|exact Hd].
  unfold remove, replace_with. rewrite Hk. f_equal.
  now apply replace_go_same.
Qed.

End EmptyPair.

(** What the element passes can make of the example document. *)
Lemma empty_div_cuts :
  forallb (fun s => forallb (fun x => negb (is_quote x)) s &&
                    negb (contains (str "<div></div>") (trim (cleanupEmptyTags s))))
          (fst (cuts empty_div_then_p)) = true.
Proof. vm_compute. reflexivity. Qed.

Lemma removeAttribute_quote_free (s attr : jsstring) :
  quote_free s -> removeAttribute s attr = s.
Proof.
  intro H. unfold removeAttribute, remove.
  rewrite (replace_with_needs is_quote (Patterns.quotedAttribute squote attr))
    by (auto using quotedAttribute_needs_quote).
  apply (replace_with_needs is_quote); auto using quotedAttribute_needs_quote.
Qed.

Lemma sanitizeUrls_quote_free {U : URLParser} (this : Sanitizer) (s : jsstring) :
  quote_free s -> sanitizeUrls this s = s.
Proof.
  intro H. unfold sanitizeUrls.
  rewrite (replace_with_needs is_quote (Patterns.quotedUrl squote))
    by (auto using quotedUrl_needs_quote).
  apply (replace_with_needs is_quote); auto using quotedUrl_needs_quote.
Qed.

(** Whatever the policy, the example document leaves the element passes as
    one of the strings of [cuts], and the later passes drop the pair. *)
Lemma sanitize_text_empty_div {U : URLParser} (this : Sanitizer) :
  contains (str "<div></div>") (sanitize_text this empty_div_then_p) = false.
Proof.
  unfold sanitize_text.
  replace (if flag (stripDoctype (config this))
           then remove Patterns.doctype empty_div_then_p else empty_div_then_p)
    with empty_div_then_p by (destruct (flag _); reflexivity).
  replace (if flag (stripComments (config this))
           then remove Patterns.comment empty_div_then_p else empty_div_then_p)
    with empty_div_then_p by (destruct (flag _); reflexivity).
  set (s1 := match disallowedElements (config this) with
             | Some l => fold_left removeElement l empty_div_then_p
             | None => empty_div_then_p
             end).
  assert (D : Del false empty_div_then_p s1).
  { unfold s1. destruct (disallowedElements _);
      [apply removeElements_Del | apply Del_refl]. }
  apply Del_cuts in D. cbn iota in D.
  pose proof empty_div_cuts as C. rewrite forallb_forall in C.
  apply C in D. apply andb_true_iff in D as [Q N].
  assert (QF : quote_free s1).
  { intros x Hx. rewrite forallb_forall in Q. apply Q in Hx.
    now apply negb_true_iff in Hx. }
  replace (match disallowedAttributes (config this) with
           | Some l => fold_left removeAttribute l s1
           | None => s1
           end) with s1
    by (destruct (disallowedAttributes _); [|reflexivity];
        symmetry; apply fold_left_fixed; intro; now apply removeAttribute_quote_free).
  rewrite sanitizeUrls_quote_free by assumption.
  now apply negb_true_iff in N.
Qed.

(** ** Quoted href and src attributes *)

Lemma urlReplacer_cases {U : URLParser} (c : SanitizerConfig) (m : jsstring) (cs : captures) :
  urlReplacer c m cs = m \/ urlReplacer c m cs = hash_attribute (group 1 cs).
Proof.
  unfold urlReplacer. destruct (url_protocol _); [|now right].
  destruct (match allowedProtocols c with Some l => _ | None => _ end); [now right|].
  destruct (_ && _); [now right | now left].
Qed.

Lemma is_quote_inv (x : ascii) : is_quote x = true -> x = dquote \/ x = squote.
Proof.
  unfold is_quote, one_of. intro H. apply orb_true_iff in H as [H | H];
    apply ascii_eqb_eq in H; auto.
Qed.

Lemma space_not_quote (x : ascii) : is_space x = true -> is_quote x = false.
Proof.
  intro H. destruct (is_quote x) eqn:E; [|reflexivity].
  apply is_quote_inv in E as [-> | ->]; discriminate.
Qed.

Lemma rmatch_same_name (n : jsstring) :
  forall a k pv l cs,
    same_name n a = true ->
    rmatch true (lits n) k (MState pv (a ++ l) cs) = k (MState (end_prev pv a) l cs).
Proof.
  induction n as [|c n IH]; intros [|x a] k pv l cs H; try discriminate.
  - reflexivity.
  - cbn [same_name] in H. apply andb_true_iff in H as [Hx Ha].
    change (lits (c :: n)) with (Seq (Char c) (lits n)).
    cbn [rmatch rest app caps]. rewrite Hx. exact (IH a k (Some x) l cs Ha).
Qed.

Lemma lits_inv (n : jsstring) :
  forall s s', Lang true (lits n) s s' ->
  exists a, rest s = a ++ rest s' /\ same_name n a = true /\ caps s' = caps s.
Proof.
  induction n as [|c n IH]; intros s s' L.
  - inversion L; subst. exists []. auto.
  - change (lits (c :: n)) with (Seq (Char c) (lits n)) in L.
    inversion L as [| | |r1 r2 s0 s1 s2 L1 L2| | | | | | | |]; subst.
    inversion L1; subst.
    destruct (IH _ _ L2) as (a & Ea & Ha & Hc). cbn [rest caps] in *.
    exists (x :: a). repeat split;
      [rewrite H0, Ea; reflexivity | cbn [same_name]; now rewrite H1, Ha | assumption].
Qed.

Lemma same_name_length (n a : jsstring) : same_name n a = true -> length a = length n.
Proof.
  revert a. induction n as [|c n IH]; intros [|x a] H; try discriminate; [reflexivity|].
  cbn [same_name] in H. apply andb_true_iff in H as [_ H]. simpl. f_equal. now apply IH.
Qed.

Ltac invert_lang_alt :=
  repeat match goal with
  | H : Lang _ (Seq _ _) _ _ |- _ => inversion H; subst; clear H
  | H : Lang _ (Alt _ _) _ _ |- _ => inversion H; subst; clear H
  | H : Lang _ (Char _) _ _ |- _ => inversion H; subst; clear H
  | H : Lang _ (Class _) _ _ |- _ => inversion H; subst; clear H
  | H : Lang _ (Star _) _ _ |- _ => inversion H; subst; clear H
  | H : Lang _ (Group _ _) _ _ |- _ => inversion H; subst; clear H
  | H : Lang _ Empty _ _ |- _ => inversion H; subst; clear H
  end.

Lemma quotedUrl_shape (q : ascii) (pv : option ascii) (l : jsstring) (s' : mstate) :
  q = squote \/ q = dquote ->
  rmatch true (pattern (Patterns.quotedUrl q)) Some (MState pv l []) = Some s' ->
  exists a sp1 sp2 u,
    l = a ++ sp1 ++ "="%char :: sp2 ++ q :: u ++ q :: rest s'
    /\ href_or_src a = true
    /\ Forall (fun x => is_space x = true) sp1
    /\ Forall (fun x => is_space x = true) sp2
    /\ Forall (fun x => not_char q x = true) u.
Proof.
  intros Hq H. apply rmatch_sound in H as (s1 & L & E). injection E as ->.
  cbn [Patterns.quotedUrl Patterns.hrefOrSrc pattern seqs fold_right] in L.
  unfold Plus in L.
  unfold Patterns.hrefOrSrc in L.
  invert_lang_alt; cbn [rest caps prev] in *; subst;
    match goal with
    | H : Lang _ (lits _) _ _ |- _ =>
        apply lits_inv in H as (a & Ea & Ha & Hc); cbn [rest caps prev] in *
    end;
    repeat match goal with
    | H : chr_eq true "="%char _ = true |- _ =>
        apply (chr_eq_alone true "="%char _ eq_refl) in H
    | H : chr_eq true q _ = true |- _ =>
        apply (chr_eq_alone true q _) in H;
        [|destruct Hq as [-> | ->]; reflexivity]
    end; subst.
  - exists a, m0, m, (x2 :: m1). rewrite H4. repeat split; auto.
    unfold href_or_src. cbn [str list_ascii_of_string]. now rewrite Ha.
  - exists a, m0, m, (x2 :: m1). rewrite H4. repeat split; auto.
    unfold href_or_src. cbn [str list_ascii_of_string]. rewrite Ha. apply orb_true_r.
Qed.

Lemma href_or_src_cases (a : jsstring) :
  href_or_src a = true -> same_name (str "href") a = true \/ same_name (str "src") a = true.
Proof. unfold href_or_src. intro H. now apply orb_true_iff in H. Qed.

(** The characters of such a name are word characters. *)
Lemma same_name_word (n a : jsstring) :
  forallb is_word n = true -> same_name n a = true -> Forall (fun x => is_word x = true) a.
Proof.
  revert a. induction n as [|c n IH]; intros [|x a] Hn H; try discriminate; [constructor|].
  cbn [same_name forallb] in *. apply andb_true_iff in Hn as [Hc Hn].
  apply andb_true_iff in H as [Hx H].
  constructor; [eapply chr_eq_word; eassumption | now apply IH].
Qed.

Lemma href_or_src_word (a : jsstring) :
  href_or_src a = true -> Forall (fun x => is_word x = true) a /\ a <> [].
Proof.
  intro H. apply href_or_src_cases in H as [H | H]; split;
    try (eapply same_name_word; [|exact H]; reflexivity);
    intros ->; discriminate.
Qed.

(** Two names that end at the same place are the same name: [src] is not
    the end of [href]. *)
Lemma href_or_src_suffix (m a : jsstring) :
  href_or_src (m ++ a) = true -> href_or_src a = true -> m = [].
Proof.
  intros H1 H2. destruct m as [|m0 m]; [reflexivity|]. exfalso.
  apply href_or_src_cases in H1, H2.
  assert (L1 : length (m0 :: m ++ a) = 4 \/ length (m0 :: m ++ a) = 3)
    by (destruct H1 as [H | H]; apply same_name_length in H; auto).
  assert (L2 : length a = 4 \/ length a = 3)
    by (destruct H2 as [H | H]; apply same_name_length in H; auto).
  cbn [length] in L1. rewrite length_app in L1.
  assert (Lm : length m = 0 /\ length a = 3) by lia. destruct Lm as [Lm La].
  destruct m; [|discriminate]. cbn [app] in *.
  destruct H1 as [H1 | H1]; [|apply same_name_length in H1; simpl in H1; lia].
  destruct H2 as [H2 | H2]; [apply same_name_length in H2; simpl in H2; lia|].
  destruct a as [|a0 a]; [discriminate|].
  cbn [same_name str list_ascii_of_string] in H1, H2.
  apply andb_true_iff in H1 as [_ H1]. apply andb_true_iff in H1 as [H1 _].
  apply andb_true_iff in H2 as [H2 _].
  unfold chr_eq in H1, H2. apply ascii_eqb_eq in H1, H2. rewrite <- H2 in H1. discriminate.
Qed.

Lemma split_unique_r (p : ascii -> bool) (a a' : jsstring) (c c' : ascii) (r r' : jsstring) :
  Forall (fun x => p x = true) r -> Forall (fun x => p x = true) r' ->
  p c = false -> p c' = false ->
  a ++ c :: r = a' ++ c' :: r' -> a = a' /\ c = c' /\ r = r'.
Proof.
  intros Hr Hr' Hc Hc' E. apply (f_equal (@rev ascii)) in E.
  rewrite !rev_app_distr in E. cbn [rev] in E. rewrite <- !app_assoc in E. cbn [app] in E.
  apply (split_unique p) in E as (E1 & E2 & E3); auto using Forall_rev.
  apply (f_equal (@rev ascii)) in E1, E3. rewrite !rev_involutive in E1, E3. auto.
Qed.

Lemma word_not_quote (x : ascii) : is_word x = true -> not_quote x = true.
Proof.
  intro H. unfold not_quote. destruct (is_quote x) eqn:E; [|reflexivity].
  apply is_quote_inv in E as [-> | ->]; discriminate.
Qed.

Lemma space_not_quote' (x : ascii) : is_space x = true -> not_quote x = true.
Proof. intro H. unfold not_quote. now rewrite space_not_quote. Qed.

Lemma word_not_space (x : ascii) : is_word x = true -> is_space x = false.
Proof.
  intro H.
  assert (K : for_all_ascii (fun y => implb (is_word y) (negb (is_space y))) = true)
    by (vm_compute; reflexivity).
  pose proof (for_all_ascii_spec _ K x) as Kx. cbv beta in Kx. rewrite H in Kx.
  now apply negb_true_iff.
Qed.

(** The text before the opening quote of a match. *)
Lemma before_quote_plain (a sp1 sp2 : jsstring) :
  href_or_src a = true ->
  Forall (fun x => is_space x = true) sp1 ->
  Forall (fun x => is_space x = true) sp2 ->
  Forall (fun x => not_quote x = true) (a ++ sp1 ++ "="%char :: sp2).
Proof.
  intros Ha H1 H2. apply href_or_src_word in Ha as [Ha _].
  repeat (apply Forall_app; split); try (constructor; [reflexivity|]);
    eapply Forall_impl; try eassumption;
    auto using word_not_quote, space_not_quote'.
Qed.

Lemma lits_href_not_src (attr after : jsstring) (k : mstate -> option mstate)
    (pv : option ascii) :
  same_name (str "src") attr = true ->
  rmatch true (lits (str "href")) k (MState pv (attr ++ after) []) = None.
Proof.
  intro H. destruct attr as [|x a]; [discriminate|].
  cbn [same_name str list_ascii_of_string] in H.
  apply andb_true_iff in H as [Hx _]. unfold chr_eq in Hx. apply ascii_eqb_eq in Hx.
  cbn [lits str list_ascii_of_string map seqs fold_right rmatch rest app].
  unfold chr_eq at 1. rewrite <- Hx. reflexivity.
Qed.

Section QuotedAttribute.

Variables (attr ws1 ws2 url : jsstring) (q : ascii).
Hypothesis name_ok : href_or_src attr = true.
Hypothesis quote_ok : q = squote \/ q = dquote.
Hypothesis blank1 : Forall (fun x => is_space x = true) ws1.
Hypothesis blank2 : Forall (fun x => is_space x = true) ws2.
Hypothesis url_nonempty : url <> [].
Hypothesis url_plain : Forall (fun x => not_quote x = true) url.

Local Abbreviation A := (quoted_attribute attr ws1 ws2 q url).

Lemma quote_is_quote : is_quote q = true.
Proof. destruct quote_ok as [-> | ->]; reflexivity. Qed.

Lemma quoted_attribute_app (post : jsstring) :
  A ++ post = (attr ++ ws1 ++ "="%char :: ws2) ++ q :: url ++ q :: post.
Proof. unfold quoted_attribute. list_norm. reflexivity. Qed.

(** No match of the pattern for [q] begins in text without quotes before the
    attribute. *)
Lemma no_match_before (m post : jsstring) (pv : option ascii) :
  m <> [] -> Forall (fun x => not_quote x = true) m ->
  exec_at (Patterns.quotedUrl q) pv (m ++ A ++ post) = None.
Proof.
  intros Hm Fm. destruct (exec_at _ _ _) as [[len cs]|] eqn:E; [exfalso|reflexivity].
  apply exec_at_inv in E as (s' & R & _ & _).
  apply (quotedUrl_shape q _ _ _ quote_ok) in R as (a & sp1 & sp2 & u & E & Ha & F1 & F2 & Fu).
  rewrite quoted_attribute_app in E.
  assert (E' : (m ++ attr ++ ws1 ++ "="%char :: ws2) ++ q :: url ++ q :: post
               = (a ++ sp1 ++ "="%char :: sp2) ++ q :: u ++ q :: rest s')
    by (etransitivity; [|etransitivity; [exact E|]]; list_norm; reflexivity).
  clear E.
  apply (split_unique not_quote) in E' as (E & _ & _);
    [ | apply Forall_app; split; [assumption | now apply before_quote_plain]
      | now apply before_quote_plain
      | unfold not_quote; now rewrite quote_is_quote ..].
  assert (E1 : (m ++ attr ++ ws1) ++ "="%char :: ws2 = (a ++ sp1) ++ "="%char :: sp2)
    by (etransitivity; [|etransitivity; [exact E|]]; list_norm; reflexivity).
  apply (split_unique_r is_space) in E1 as (E1 & _ & _); auto.
  destruct (href_or_src_word _ name_ok) as [Wattr Nattr].
  destruct (href_or_src_word _ Ha) as [Wa Na].
  destruct (exists_last Nattr) as (attr' & z & Eattr).
  destruct (exists_last Na) as (a' & z' & Ea).
  assert (Hz : is_space z = false).
  { apply word_not_space. rewrite Eattr in Wattr.
    apply Forall_app in Wattr as [_ W]. now inversion W. }
  assert (Hz' : is_space z' = false).
  { apply word_not_space. rewrite Ea in Wa.
    apply Forall_app in Wa as [_ W]. now inversion W. }
  assert (E2 : (m ++ attr') ++ z :: ws1 = a' ++ z' :: sp1)
    by (rewrite Eattr, Ea in E1;
        etransitivity; [|etransitivity; [exact E1|]]; list_norm; reflexivity).
  apply (split_unique_r is_space) in E2 as (E2 & -> & _); auto.
  assert (Em : a = m ++ attr) by (rewrite Ea, Eattr, <- E2; now rewrite app_assoc).
  rewrite Em in Ha. apply (href_or_src_suffix m attr) in Ha; [|exact name_ok].
  contradiction.
Qed.

Lemma url_not_q : Forall (fun x => not_char q x = true) url.
Proof.
  eapply Forall_impl; [|exact url_plain]. intros x Hx. unfold not_quote in Hx.
  apply negb_true_iff in Hx. unfold is_quote, one_of in Hx.
  apply orb_false_iff in Hx as [H1 H2]. unfold not_char.
  destruct quote_ok as [-> | ->]; [now rewrite H2 | now rewrite H1].
Qed.

(** The pattern for [q] matches at the attribute. *)
Lemma quotedUrl_at_attribute (post : jsstring) (pv : option ascii) :
  rmatch true (pattern (Patterns.quotedUrl q)) Some (MState pv (A ++ post) [])
  = Some (MState (Some q) post [(2, url); (1, attr)]).
Proof.
  assert (Eu : exists u0 us, url = u0 :: us)
    by (destruct url as [|u0 us]; [congruence | eauto]).
  destruct Eu as (u0 & us & Eu).
  pose proof url_not_q as N. rewrite Eu in N. apply Forall_cons_iff in N as [Hu0 Hus].
  unfold quoted_attribute. rewrite Eu. list_norm.
  cbn [Patterns.quotedUrl Patterns.hrefOrSrc pattern seqs fold_right rmatch].
  set (after := ws1 ++ "="%char :: ws2 ++ q :: u0 :: us ++ q :: post).
  set (found := Some (MState (Some q) post [(2, u0 :: us); (1, attr)])).
  assert (K : forall k : mstate -> option mstate,
             k (MState (end_prev pv attr) after []) = found ->
             orelse (rmatch true (lits (str "href")) k (MState pv (attr ++ after) []))
                    (rmatch true (lits (str "src")) k (MState pv (attr ++ after) []))
             = found).
  { intros k Hk. destruct (href_or_src_cases _ name_ok) as [H | H].
    - rewrite (rmatch_same_name _ _ _ _ _ _ H), Hk. reflexivity.
    - rewrite (rmatch_same_name (str "src") _ _ _ _ _ H), Hk.
      rewrite (lits_href_not_src attr after k pv H). reflexivity. }
  apply K. unfold after, found. cbn [rest caps prev].
  rewrite firstn_length_app.
  apply star_greedy_take; [now apply Forall_forall | reflexivity |].
  cbn [rest caps prev]. rewrite chr_eq_refl.
  apply star_greedy_take;
    [now apply Forall_forall | destruct quote_ok as [-> | ->]; reflexivity |].
  cbn [rest caps prev]. rewrite chr_eq_refl.
  cbn [Plus rmatch rest caps prev app]. rewrite Hu0.
  apply star_greedy_take;
    [now apply Forall_forall | simpl; unfold not_char; now rewrite ascii_eqb_refl |].
  cbn [rest caps prev]. rewrite chr_eq_refl.
  change (u0 :: us ++ ?X) with ((u0 :: us) ++ X).
  rewrite firstn_length_app. reflexivity.
Qed.

Lemma attribute_nonempty : A <> [].
Proof.
  unfold quoted_attribute. destruct (href_or_src_word _ name_ok) as [_ N].
  destruct attr; [congruence | discriminate].
Qed.

(** The scan of [replace] with the pattern for [q]: text without quotes
    before the attribute is kept, the attribute is replaced, and the scan
    goes on after it. *)
Lemma replace_go_attribute (f : jsstring -> captures -> jsstring) (post : jsstring) :
  forall before pv,
    Forall (fun x => not_quote x = true) before ->
    replace_go (Patterns.quotedUrl q) f 0 pv (before ++ A ++ post)
    = before ++ f A [(2, url); (1, attr)]
      ++ replace_go (Patterns.quotedUrl q) f 0 None post.
Proof.
  induction before as [|c b IH]; intros pv Fb.
  - cbn [app].
    rewrite (replace_go_matched (Patterns.quotedUrl q) f A post pv (Some q)
               [(2, url); (1, attr)] attribute_nonempty (quotedUrl_at_attribute post pv)).
    f_equal. apply replace_go_same. reflexivity.
  - cbn [app replace_go].
    change (c :: b ++ A ++ post) with ((c :: b) ++ A ++ post).
    rewrite no_match_before by (auto; discriminate).
    cbn [app]. f_equal. apply IH. now inversion Fb.
Qed.

End QuotedAttribute.

(** The first quote of a text that has one. *)
Lemma first_quote (t : jsstring) :
  Exists (fun x => is_quote x = true) t ->
  exists t1 z t2, t = t1 ++ z :: t2 /\ Forall (fun x => not_quote x = true) t1
                  /\ is_quote z = true.
Proof.
  induction t as [|c t IH]; intro H; [inversion H|].
  destruct (is_quote c) eqn:E.
  - exists [], c, t. auto.
  - destruct IH as (t1 & z & t2 & -> & F & Hz).
    + inversion H; subst; [congruence | assumption].
    + exists (c :: t1), z, t2. repeat split; auto.
      constructor; [unfold not_quote; now rewrite E | assumption].
Qed.

(** The pattern for one quote matches nowhere in a text that ends with the
    other quote and does not contain the first. *)
Lemma replace_go_other_quote (q : ascii) (f : jsstring -> captures -> jsstring)
    (post : jsstring) (z : ascii) :
  q = squote \/ q = dquote -> is_quote z = true -> z <> q ->
  forall r pv,
    Forall (fun x => not_char q x = true) r ->
    replace_go (Patterns.quotedUrl q) f 0 pv ((r ++ [z]) ++ post)
    = (r ++ [z]) ++ replace_go (Patterns.quotedUrl q) f 0 None post.
Proof.
  intros Hq Hz Hzq.
  assert (N : forall t pv, Forall (fun x => not_char q x = true) t ->
                exec_at (Patterns.quotedUrl q) pv ((t ++ [z]) ++ post) = None).
  { intros t pv Ft. destruct (exec_at _ _ _) as [[len cs]|] eqn:E; [exfalso|reflexivity].
    apply exec_at_inv in E as (s' & R & _ & _).
    apply (quotedUrl_shape q _ _ _ Hq) in R
      as (a & sp1 & sp2 & u & E & Ha & F1 & F2 & Fu).
    destruct (first_quote (t ++ [z])) as (t1 & z1 & t2 & Et & Ft1 & Hz1).
    { apply Exists_app. right. now constructor. }
    assert (E' : t1 ++ z1 :: (t2 ++ post)
                 = (a ++ sp1 ++ "="%char :: sp2) ++ q :: u ++ q :: rest s')
      by (etransitivity; [|etransitivity; [exact E|]];
          [rewrite Et|]; list_norm; reflexivity).
    apply (split_unique not_quote) in E' as (_ & -> & _); auto using before_quote_plain;
      [|unfold not_quote; now rewrite Hz1
       |unfold not_quote; destruct Hq as [-> | ->]; reflexivity].
    assert (In q (t ++ [z])) by (rewrite Et; apply in_or_app; right; now left).
    apply in_app_or in H as [H | [H | []]]; [|congruence].
    rewrite Forall_forall in Ft. apply Ft in H. unfold not_char in H.
    now rewrite ascii_eqb_refl in H. }
  induction r as [|c r IH]; intros pv Fr.
  - pose proof (N [] pv (Forall_nil _)) as E0. cbn [app] in E0.
    cbn [app replace_go]. rewrite E0.
    f_equal. apply replace_go_same. reflexivity.
  - pose proof (N (c :: r) pv Fr) as E0. cbn [app] in E0.
    cbn [app replace_go]. rewrite E0. f_equal. apply IH. now inversion Fr.
Qed.


Lemma not_quote_not_char (q x : ascii) :
  is_quote q = true -> not_quote x = true -> not_char q x = true.
Proof.
  intros Hq Hx. unfold not_char. destruct (ascii_eqb x q) eqn:E; [|reflexivity].
  apply ascii_eqb_eq in E. subst. unfold not_quote in Hx. now rewrite Hq in Hx.
Qed.

Section UrlPass.

Context {U : URLParser}.
Variables (this : Sanitizer) (before after attr ws1 ws2 url : jsstring) (q : ascii).
Hypothesis name_ok : href_or_src attr = true.
Hypothesis quote_ok : q = squote \/ q = dquote.
Hypothesis blank1 : Forall (fun x => is_space x = true) ws1.
Hypothesis blank2 : Forall (fun x => is_space x = true) ws2.
Hypothesis url_nonempty : url <> [].
Hypothesis url_plain : Forall (fun x => not_quote x = true) url.
Hypothesis before_plain : Forall (fun x => not_quote x = true) before.

Local Abbreviation A := (quoted_attribute attr ws1 ws2 q url).
Local Abbreviation f := (urlReplacer (config this)).

(** The text up to the closing quote has no quote but [q]. *)
Lemma up_to_closing_quote (q' : ascii) :
  is_quote q' = true -> q' <> q ->
  Forall (fun x => not_char q' x = true)
         (before ++ (attr ++ ws1 ++ "="%char :: ws2) ++ q :: url).
Proof.
  intros Hq' Hne.
  assert (W : forall l, Forall (fun x => not_quote x = true) l ->
                        Forall (fun x => not_char q' x = true) l).
  { intros l Hl. eapply Forall_impl; [|exact Hl].
    intros x Hx. now apply not_quote_not_char. }
  apply Forall_app. split; [now apply W|].
  apply Forall_app. split; [apply W; now apply before_quote_plain|].
  constructor; [|now apply W].
  unfold not_char. destruct (ascii_eqb q q') eqn:E; [|reflexivity].
  apply ascii_eqb_eq in E. congruence.
Qed.

Lemma attribute_snoc :
  before ++ A = (before ++ (attr ++ ws1 ++ "="%char :: ws2) ++ q :: url) ++ [q].
Proof. unfold quoted_attribute. list_norm. reflexivity. Qed.

Lemma sanitizeUrls_attribute :
  sanitizeUrls this (before ++ A ++ after)
  = before ++ f A [(2, url); (1, attr)] ++ sanitizeUrls this after.
Proof.
  unfold sanitizeUrls, replace_with.
  set (R1 := replace_go (Patterns.quotedUrl squote) f 0 None after).
  assert (Hash : hash_attribute attr = quoted_attribute attr [] [] dquote (str "#"))
    by reflexivity.
  destruct quote_ok as [Eq | Eq].
  - (* single quotes: the first replacement decides *)
    rewrite <- Eq at 1.
    rewrite (replace_go_attribute attr ws1 ws2 url q) by assumption.
    rewrite Eq at 2. fold R1.
    destruct (urlReplacer_cases (config this) A [(2, url); (1, attr)]) as [E | E];
      rewrite E.
    + rewrite app_assoc, attribute_snoc.
      rewrite (replace_go_other_quote dquote f R1 q); auto;
        [|subst q; reflexivity | subst q; discriminate
         |apply up_to_closing_quote; [reflexivity | subst q; discriminate]].
      rewrite <- attribute_snoc, <- app_assoc. reflexivity.
    + cbn [group capture Nat.eqb]. rewrite Hash.
      rewrite (replace_go_attribute attr [] [] (str "#") dquote);
        auto; try discriminate; [|repeat constructor].
      destruct (urlReplacer_cases (config this)
                  (quoted_attribute attr [] [] dquote (str "#"))
                  [(2, str "#"); (1, attr)]) as [E' | E']; rewrite E'; reflexivity.
  - (* double quotes: the first replacement finds nothing up to the attribute *)
    rewrite app_assoc, attribute_snoc.
    rewrite (replace_go_other_quote squote f after q); auto;
      [|subst q; reflexivity | subst q; discriminate
       |apply up_to_closing_quote; [reflexivity | subst q; discriminate]].
    fold R1. rewrite <- attribute_snoc, <- app_assoc.
    rewrite <- Eq at 1.
    rewrite (replace_go_attribute attr ws1 ws2 url q) by assumption.
    rewrite Eq at 2. reflexivity.
Qed.

End UrlPass.

Lemma apart_clean (attrs : jsstring) : apart attrs = true -> starts_clean is_word attrs.
Proof. destruct attrs; simpl; [trivial | apply negb_true_iff]. Qed.

Lemma plainb_plain (s : jsstring) : plainb s = true -> plain s.
Proof.
  unfold plainb. rewrite forallb_forall. intros H x Hx.
  apply negb_true_iff. now apply H.
Qed.

Lemma sanitize_plain {U : URLParser} (this : Sanitizer) (s : jsstring) :
  plain s -> sanitize this s = trim s.
Proof.
  intro H. destruct s as [|c t]; [reflexivity|].
  change (sanitize this (VString (c :: t))) with (sanitize_text this (c :: t)).
  now apply sanitize_text_plain.
Qed.

(* ================================================================== *)
(** * Further properties *)

(** ** What [sanitize] and [removeUnsafe] return *)

Lemma trim_trimmed (s : jsstring) : trimmed (trim s).
Proof.
  split; [apply trim_clean|].
  unfold trim. rewrite rev_involutive. apply drop_while_clean.
Qed.

Lemma trimmed_trim (s : jsstring) : trimmed s -> trim s = s.
Proof.
  intros [H1 H2]. unfold trim. rewrite (drop_while_fixed _ _ H1).
  rewrite (drop_while_fixed _ _ H2). apply rev_involutive.
Qed.


Lemma drop_while_length (p : ascii -> bool) (s : jsstring) :
  length (drop_while p s) <= length s.
Proof. induction s as [|c t IH]; simpl; [lia|]. destruct (p c); simpl; lia. Qed.

Lemma trim_length (s : jsstring) : length (trim s) <= length s.
Proof.
  unfold trim. rewrite length_rev.
  etransitivity; [apply drop_while_length|]. rewrite length_rev. apply drop_while_length.
Qed.

Lemma replace_go_length (re : RegExp) (f : jsstring -> captures -> jsstring) :
  (forall pv l len cs, exec_at re pv l = Some (len, cs) ->
                       length (f (firstn len l) cs) <= len) ->
  forall l skip pv, skip <= length l ->
    length (replace_go re f skip pv l) + skip <= length l.
Proof.
  intro Hf. induction l as [|c t IH]; intros skip pv Hs.
  - cbn [length] in Hs. assert (skip = 0) as -> by lia. cbn [replace_go].
    destruct (exec_at re pv []) as [[len cs]|] eqn:E; [|simpl; lia].
    pose proof (Hf _ _ _ _ E) as B. apply exec_at_inv in E as (s' & _ & _ & E).
    cbn [length] in E. rewrite app_nil_r. cbn [length]. lia.
  - destruct skip as [|n]; cbn [replace_go length] in *.
    + destruct (exec_at re pv (c :: t)) as [[len cs]|] eqn:E.
      * pose proof (Hf _ _ _ _ E) as B. apply exec_at_inv in E as (s' & _ & _ & E).
        cbn [length] in E. rewrite length_app. destruct len as [|n].
        -- cbn [length]. specialize (IH 0 (Some c)). lia.
        -- specialize (IH n (Some c)). lia.
      * cbn [length]. specialize (IH 0 (Some c)). lia.
    + specialize (IH n (Some c)). lia.
Qed.

Lemma remove_length (re : RegExp) (s : jsstring) : length (remove re s) <= length s.
Proof.
  pose proof (replace_go_length re (fun _ _ => []) (fun _ _ _ _ _ => Nat.le_0_l _)
                s 0 None (Nat.le_0_l _)) as H.
  unfold remove, replace_with. lia.
Qed.

Lemma hrefOrSrc_inv (s s1 : mstate) :
  Lang true Patterns.hrefOrSrc s s1 ->
  exists a, rest s = a ++ rest s1 /\ href_or_src a = true
            /\ caps s1 = (1, a) :: caps s.
Proof.
  unfold Patterns.hrefOrSrc. intro L.
  inversion L as [| | | | | | | | |n r s0 s2 L'| |]; subst. clear L.
  assert (K : exists a, rest s = a ++ rest s2 /\ href_or_src a = true /\ caps s2 = caps s).
  { inversion L'; subst;
      match goal with
      | H : Lang _ (lits _) _ _ |- _ => apply lits_inv in H as (a & Ea & Ha & Hc)
      end; exists a; repeat split; auto; unfold href_or_src;
      cbn [str list_ascii_of_string]; rewrite Ha; auto using orb_true_r. }
  destruct K as (a & Ea & Ha & Hc). exists a. cbn [rest caps].
  repeat split; auto. rewrite Hc, Ea.
  now rewrite firstn_length_app.
Qed.

Lemma quotedUrl_groups (q : ascii) (pv : option ascii) (l : jsstring) (s' : mstate) :
  q = squote \/ q = dquote ->
  rmatch true (pattern (Patterns.quotedUrl q)) Some (MState pv l []) = Some s' ->
  exists a sp1 sp2 u,
    l = a ++ sp1 ++ "="%char :: sp2 ++ q :: u ++ q :: rest s'
    /\ u <> [] /\ caps s' = [(2, u); (1, a)].
Proof.
  intros Hq H. apply rmatch_sound in H as (s1 & L & E). injection E as ->.
  cbn [Patterns.quotedUrl pattern seqs fold_right] in L. unfold Plus in L.
  inversion L as [| | |r1 r2 s0 s2 s3 L1 L2| | | | | | | |]; subst. clear L.
  apply hrefOrSrc_inv in L1 as (a & Ea & Ha & Hc). cbn [rest caps] in *.
  invert_lang; cbn [rest caps prev] in *; subst.
  repeat match goal with
    | H : chr_eq true "="%char _ = true |- _ =>
        apply (chr_eq_alone true "="%char _ eq_refl) in H
    | H : chr_eq true q _ = true |- _ =>
        apply (chr_eq_alone true q _) in H;
        [|destruct Hq as [-> | ->]; reflexivity]
    end; subst.
  exists a, m0, m, (x2 :: m1). rewrite H3, Hc.
  change (x2 :: m1 ++ ?X) with ((x2 :: m1) ++ X). rewrite firstn_length_app.
  repeat split; discriminate.
Qed.

Lemma schemeUrl_shape (scheme : jsstring) (pv : option ascii) (l : jsstring) (s' : mstate) :
  rmatch true (pattern (Patterns.schemeUrl scheme)) Some (MState pv l []) = Some s' ->
  exists a sp1 sp2 z1 sch v z2,
    l = a ++ sp1 ++ "="%char :: sp2 ++ z1 :: sch ++ v ++ z2 :: rest s'
    /\ href_or_src a = true
    /\ Forall (fun x => is_space x = true) sp1
    /\ Forall (fun x => is_space x = true) sp2
    /\ is_quote z1 = true /\ same_name scheme sch = true
    /\ Forall (fun x => not_quote x = true) v
    /\ is_quote z2 = true
    /\ caps s' = [(1, a)].
Proof.
  intro H. apply rmatch_sound in H as (s1 & L & E). injection E as ->.
  cbn [Patterns.schemeUrl pattern seqs fold_right] in L.
  inversion L as [| | |r1 r2 s0 s2 s3 L1 L2| | | | | | | |]; subst. clear L.
  apply hrefOrSrc_inv in L1 as (a & Ea & Ha & Hc). cbn [rest caps] in *.
  repeat match goal with
  | H : Lang _ (Seq _ _) _ _ |- _ => inversion H; subst; clear H
  | H : Lang _ (Char _) _ _ |- _ => inversion H; subst; clear H
  | H : Lang _ (Class _) _ _ |- _ => inversion H; subst; clear H
  | H : Lang _ (Star _) _ _ |- _ => inversion H; subst; clear H
  | H : Lang _ Empty _ _ |- _ => inversion H; subst; clear H
  | H : Lang _ (lits _) _ _ |- _ => apply lits_inv in H as (sch & Es & Hs & Hcs)
  end; cbn [rest caps prev] in *; subst.
  apply (chr_eq_alone true "="%char _ eq_refl) in H8. subst x.
  exists a, m1, m0, x1, sch, m, x0. rewrite H3, H4, Hcs, Hc.
  repeat split; auto.
  eapply Forall_impl; [|exact H12]. intros y Hy. unfold not_quote, is_quote, one_of.
  unfold not_chars in Hy. now rewrite negb_orb.
Qed.

Lemma urlReplacer_length {U : URLParser} (c : SanitizerConfig) (q : ascii) :
  q = squote \/ q = dquote ->
  forall pv l len cs,
    exec_at (Patterns.quotedUrl q) pv l = Some (len, cs) ->
    length (urlReplacer c (firstn len l) cs) <= len.
Proof.
  intros Hq pv l len cs E. apply exec_at_inv in E as (s' & R & Hc & E).
  destruct (urlReplacer_cases c (firstn len l) cs) as [-> | ->].
  - rewrite length_firstn. lia.
  - apply (quotedUrl_groups q _ _ _ Hq) in R as (a & sp1 & sp2 & u & El & Hu & Hcs).
    rewrite <- Hc, Hcs. cbn [group capture Nat.eqb]. unfold hash_attribute.
    rewrite El in E. repeat (rewrite length_app in E; cbn [length] in E).
    rewrite length_app. destruct u; [congruence|]. simpl in *. lia.
Qed.

Lemma hash_replacement_length (scheme : jsstring) :
  scheme <> [] ->
  forall pv l len cs,
    exec_at (Patterns.schemeUrl scheme) pv l = Some (len, cs) ->
    length (hash_replacement (firstn len l) cs) <= len.
Proof.
  intros Hs pv l len cs E. apply exec_at_inv in E as (s' & R & Hc & E).
  apply schemeUrl_shape in R
    as (a & sp1 & sp2 & z1 & sch & v & z2 & El & _ & _ & _ & _ & Hn & _ & _ & Hcs).
  apply same_name_length in Hn.
  rewrite <- Hc, Hcs. unfold hash_replacement, hash_attribute. cbn [group capture Nat.eqb].
  rewrite El in E. repeat (rewrite length_app in E; cbn [length] in E).
  rewrite length_app. destruct scheme; [congruence|]. simpl in *. lia.
Qed.

Lemma removeElement_length (s tag : jsstring) :
  length (removeElement s tag) <= length s.
Proof.
  unfold removeElement. etransitivity; [apply remove_length|]. apply remove_length.
Qed.

Lemma removeAttribute_length (s attr : jsstring) :
  length (removeAttribute s attr) <= length s.
Proof.
  unfold removeAttribute. etransitivity; [apply remove_length|]. apply remove_length.
Qed.

Lemma fold_left_length (f : jsstring -> jsstring -> jsstring) (l : list jsstring) :
  (forall s x, length (f s x) <= length s) ->
  forall s, length (fold_left f l s) <= length s.
Proof.
  intro H. induction l as [|x l IH]; intro s; simpl; [lia|].
  etransitivity; [apply IH | apply H].
Qed.

Lemma replace_with_length (re : RegExp) (f : jsstring -> captures -> jsstring)
    (s : jsstring) :
  (forall pv l len cs, exec_at re pv l = Some (len, cs) ->
                       length (f (firstn len l) cs) <= len) ->
  length (replace_with re f s) <= length s.
Proof.
  intro H. pose proof (replace_go_length re f H s 0 None (Nat.le_0_l _)).
  unfold replace_with. lia.
Qed.

Lemma sanitizeUrls_length {U : URLParser} (this : Sanitizer) (s : jsstring) :
  length (sanitizeUrls this s) <= length s.
Proof.
  unfold sanitizeUrls.
  etransitivity; [apply replace_with_length, urlReplacer_length; now right|].
  apply replace_with_length, urlReplacer_length; now left.
Qed.

Lemma sanitize_text_length {U : URLParser} (this : Sanitizer) (s : jsstring) :
  length (sanitize_text this s) <= length s.
Proof.
  unfold sanitize_text.
  etransitivity; [apply trim_length|].
  unfold cleanupEmptyTags.
  etransitivity; [apply remove_length|].
  etransitivity; [apply remove_length|].
  etransitivity; [apply sanitizeUrls_length|].
  etransitivity.
  { destruct (disallowedAttributes (config this));
      [apply fold_left_length, removeAttribute_length | apply Nat.le_refl]. }
  etransitivity.
  { destruct (disallowedElements (config this));
      [apply fold_left_length, removeElement_length | apply Nat.le_refl]. }
  etransitivity.
  { destruct (flag (stripComments (config this)));
      [apply remove_length | apply Nat.le_refl]. }
  destruct (flag (stripDoctype (config this))); [apply remove_length | apply Nat.le_refl].
Qed.

Section Output.

Context {U : URLParser}.

Lemma sanitize_trimmed (this : Sanitizer) (v : value) : trimmed (sanitize this v).
Proof.
  unfold sanitize. destruct (negb (truthy v) || negb (is_string v)); [now split|].
  destruct v; try (now split). apply trim_trimmed.
Qed.

(** X1. The result of [sanitize], and of [removeUnsafe] on a string, neither
    begins nor ends with white space, whatever the input and the policy. *)
Theorem output_is_trimmed (this : Sanitizer) (v : value) (s : jsstring) :
  trimmed (sanitize this v) /\ trimmed (removeUnsafe_text s).
Proof. split; [apply sanitize_trimmed | apply trim_trimmed]. Qed.

(** X2. Neither [sanitize] nor [removeUnsafe] returns more characters than it
    was given: every replacement of theirs is at most as long as the match it
    stands for ([attr="#"] included), and the other steps only remove. *)
Theorem output_never_longer (this : Sanitizer) (s : jsstring) :
  length (sanitize this s) <= length s
  /\ length (removeUnsafe_text s) <= length s.
Proof.
  split.
  - destruct s as [|c t]; [apply Nat.le_refl|]. apply sanitize_text_length.
  - unfold removeUnsafe_text.
    etransitivity; [apply trim_length|].
    etransitivity;
      [apply replace_with_length, hash_replacement_length; discriminate|].
    etransitivity;
      [apply replace_with_length, hash_replacement_length; discriminate|].
    etransitivity; [apply fold_left_length, removeAttribute_length|].
    apply fold_left_length, removeElement_length.
Qed.

End Output.

(** ** The constructor and the fields that are read *)

Lemma replace_go_ext (re : RegExp) (f g : jsstring -> captures -> jsstring) :
  (forall m cs, f m cs = g m cs) ->
  forall l skip pv, replace_go re f skip pv l = replace_go re g skip pv l.
Proof.
  intro H. induction l as [|c t IH]; intros skip pv; destruct skip; cbn [replace_go];
    try reflexivity.
  - destruct (exec_at re pv []) as [[len cs]|]; [now rewrite H | reflexivity].
  - destruct (exec_at re pv (c :: t)) as [[len cs]|]; [|now rewrite IH].
    rewrite H. destruct len; now rewrite IH.
  - apply IH.
Qed.

Lemma urlReplacer_fields {U : URLParser} (c c' : SanitizerConfig) :
  allowedProtocols c = allowedProtocols c' ->
  allowDataUrls c = allowDataUrls c' ->
  forall m cs, urlReplacer c m cs = urlReplacer c' m cs.
Proof. intros H1 H2 m cs. unfold urlReplacer. now rewrite H1, H2. Qed.

Lemma blocked_not_allowed_by_default (x : jsstring) :
  includes default_removed_elements x = true ->
  includes default_allowed_elements x = false.
Proof.
  intro H. apply includes_In in H.
  repeat (destruct H as [<- | H]; [reflexivity|]). destruct H.
Qed.

Lemma blocked_attribute_not_allowed_by_default (l a : list jsstring) (x : jsstring) :
  disallowedAttributes DEFAULT_SANITIZER_CONFIG = Some l ->
  allowedAttributes DEFAULT_SANITIZER_CONFIG = Some a ->
  includes l x = true -> includes a x = false.
Proof.
  intros Hl Ha H. injection Hl as <-. injection Ha as <-. apply includes_In in H.
  repeat (destruct H as [<- | H]; [reflexivity|]). destruct H.
Qed.

Section Fields.

Context {U : URLParser}.

Lemma new_Sanitizer_of_object (c : SanitizerConfig) :
  new_Sanitizer_of (Some (object_of c)) = new_Sanitizer (Some c).
Proof. destruct c as [[?|] [?|] [?|] [?|] [?|] [?|] [?|] [?|] [?|] [?|]]; reflexivity. Qed.

(** X3. [new Sanitizer(o)] property by property.  A property that [o] has
    is taken from [o], with the value it has there, [undefined] included,
    and a property that [o] does not have from the defaults, with one
    exception: the block list is [o.removeElements] when that has a value,
    else [o.disallowedElements] when that has a value.  The allow list is
    [o.allowedElements] or the default one, so that a supplied [elements]
    list never becomes the allow list that [isElementAllowed] consults.
    The call without an argument builds the sanitizer of the empty
    object. *)
Theorem constructor_fields (o : ConfigObject) :
  let built := config (new_Sanitizer_of (Some o)) in
  let default := DEFAULT_SANITIZER_CONFIG in
  elements built = spread_property (elements default) (o_elements o)
  /\ removeElements built = spread_property (removeElements default) (o_removeElements o)
  /\ allowedElements built =
       spread_property (Some default_allowed_elements) (o_allowedElements o)
  /\ disallowedElements built =
       match read (o_removeElements o), read (o_disallowedElements o) with
       | Some r, _ => Some r
       | None, Some d => Some d
       | None, None =>
           spread_property (Some default_removed_elements) (o_disallowedElements o)
       end
  /\ allowedAttributes built =
       spread_property (allowedAttributes default) (o_allowedAttributes o)
  /\ disallowedAttributes built =
       spread_property (disallowedAttributes default) (o_disallowedAttributes o)
  /\ allowedProtocols built =
       spread_property (allowedProtocols default) (o_allowedProtocols o)
  /\ allowDataUrls built = spread_property (Some false) (o_allowDataUrls o)
  /\ stripComments built = spread_property (Some true) (o_stripComments o)
  /\ stripDoctype built = spread_property (Some true) (o_stripDoctype o)
  /\ new_Sanitizer_of None = new_Sanitizer_of (Some empty_object)
  /\ (forall name,
        isElementAllowed (new_Sanitizer_of (Some o)) name =
        negb (includes (names (disallowedElements built)) (toLowerCase name))
        && match spread_property (Some default_allowed_elements) (o_allowedElements o) with
           | Some l => includes l (toLowerCase name)
           | None => true
           end).
Proof.
  destruct o as [e r a d aa da p u sc sd]. cbn [new_Sanitizer_of].
  repeat split;
    try (cbn; destruct r, d; reflexivity).
  intro name. unfold isElementAllowed.
  destruct r as [| |r], d as [| |d], a as [| |a]; cbn -[includes toLowerCase];
    try reflexivity;
    repeat match goal with
    | |- context [includes ?l ?x] => destruct (includes l x)
    end; reflexivity.
Qed.

(** X4. [sanitize] reads six fields of the configuration: two sanitizers that
    agree on the block lists of elements and attributes, on the protocols,
    on [allowDataUrls], and on the two strip flags return the same string on
    every input.  The allow lists ([elements], [allowedElements],
    [allowedAttributes]) have no part in the result. *)
Theorem sanitize_reads_six_fields (a b : Sanitizer) (v : value) :
  same_removal_policy (config a) (config b) ->
  sanitize a v = sanitize b v.
Proof.
  intros (He & Ha & Hp & Hu & Hc & Hd).
  unfold sanitize. destruct (negb (truthy v) || negb (is_string v)); [reflexivity|].
  destruct v; try reflexivity.
  unfold sanitize_text, sanitizeUrls, replace_with.
  rewrite He, Ha, Hc, Hd.
  now rewrite !(replace_go_ext _ _ _ (urlReplacer_fields (config a) (config b) Hp Hu)).
Qed.

(** X5. Under the default policy an element is allowed exactly when its name,
    in lower case, is on the default allow list, and an attribute exactly
    when its name is on the default list of allowed attributes: no name of a
    default block list is on the allow list beside it. *)
Theorem default_policy_allows_the_allow_lists (name : jsstring) :
  isElementAllowed (new_Sanitizer None) name =
  includes default_allowed_elements (toLowerCase name)
  /\ isAttributeAllowed (new_Sanitizer None) name =
     match allowedAttributes DEFAULT_SANITIZER_CONFIG with
     | Some l => includes l (toLowerCase name)
     | None => true
     end.
Proof.
  split.
  - unfold isElementAllowed.
    change (disallowedElements (config (new_Sanitizer None)))
      with (Some default_removed_elements).
    change (allowedElements (config (new_Sanitizer None)))
      with (Some default_allowed_elements).
    destruct (includes default_removed_elements (toLowerCase name)) eqn:E; [|reflexivity].
    symmetry. now apply blocked_not_allowed_by_default.
  - unfold isAttributeAllowed.
    change (config (new_Sanitizer None)) with DEFAULT_SANITIZER_CONFIG.
    destruct (disallowedAttributes DEFAULT_SANITIZER_CONFIG) as [l|] eqn:El;
      [|discriminate].
    destruct (allowedAttributes DEFAULT_SANITIZER_CONFIG) as [a|] eqn:Ea;
      [|discriminate].
    destruct (includes l (toLowerCase name)) eqn:E; [|reflexivity].
    symmetry. now apply (blocked_attribute_not_allowed_by_default l a).
Qed.

End Fields.

(** X4: a configuration with allow lists only returns what the default policy returns. *)
Lemma sanitize_reads_six_fields_witness :
  sanitize (U := scheme_parser) (new_Sanitizer (Some only_paragraphs))
           (str "<b class='x'>bold</b>")
  = sanitize (U := scheme_parser) (new_Sanitizer None) (str "<b class='x'>bold</b>").
Proof.
  apply (@sanitize_reads_six_fields scheme_parser). repeat split.
Defined.

(** ** ShadowRootProcessor *)

Section ShadowRootCalls.

Context {U : URLParser}.

Lemma call_returns (this : ShadowRootProcessor) (c : shadow_call) :
  exists this', call this c = Normal this'
                /\ shadow_sanitizer this' = shadow_sanitizer this
                /\ (trimmed (content this) -> trimmed (content this')).
Proof.
  destruct c as [input options|input options|]; cbn [call].
  - unfold ShadowRoot.setHTML. destruct input; cbn [is_string negb];
      try (exists this; split; [reflexivity|split; [reflexivity|exact (fun H => H)]]).
    eexists. split; [reflexivity|]. split; [reflexivity|]. intros _. apply trim_trimmed.
  - unfold ShadowRoot.setHTMLUnsafe. destruct input; cbn [is_string negb];
      try (exists this; split; [reflexivity|split; [reflexivity|exact (fun H => H)]]).
    eexists. split; [reflexivity|]. split; [reflexivity|]. intros _.
    apply sanitize_trimmed.
  - eexists. split; [reflexivity|]. split; [reflexivity|]. intros _. now split.
Qed.

Lemma calls_app (l1 l2 : list shadow_call) :
  forall this, calls this (l1 ++ l2) = bind (calls this l1) (fun r => calls r l2).
Proof.
  induction l1 as [|c l1 IH]; intro this; cbn [calls app bind]; [reflexivity|].
  destruct (call this c) as [r|]; cbn [bind]; [apply IH | reflexivity].
Qed.

Lemma calls_return (l : list shadow_call) :
  forall this, trimmed (content this) ->
    exists r, calls this l = Normal r
              /\ shadow_sanitizer r = shadow_sanitizer this
              /\ trimmed (content r).
Proof.
  induction l as [|c l IH]; intros this Ht; cbn [calls].
  - now exists this.
  - destruct (call_returns this c) as (this' & -> & Hs & Hc). cbn [bind].
    destruct (IH this' (Hc Ht)) as (r & Hr & Hs' & Ht').
    exists r. split; [exact Hr|]. split; [now rewrite Hs'|exact Ht'].
Qed.

(** X6. Whatever is called on a [ShadowRootProcessor], in whatever order and
    with whatever arguments, no call throws, the processor keeps the
    sanitizer it was built with, and its content neither begins nor ends
    with white space.  What [getHTML] returns is decided by the last call
    alone: after [setHTML] of a string it is [removeUnsafe] of that string,
    after [clear] it is empty.  (The sanitizers that [setHTMLUnsafe] works
    with, the processor's own and those that the options bring, have names
    of word characters in their block lists.) *)
Theorem shadow_root_calls (c : option SanitizerConfig) (l : list shadow_call) :
  word_names (config (new_Sanitizer c)) = true ->
  forallb call_named l = true ->
  exists r,
    calls (new_ShadowRootProcessor c) l = Normal r
    /\ shadow_sanitizer r = new_Sanitizer c
    /\ trimmed (ShadowRoot.getHTML r)
    /\ (forall (input : jsstring) options,
          bind (calls (new_ShadowRootProcessor c) (l ++ [CallSetHTML input options]))
               (fun r' => Normal (ShadowRoot.getHTML r'))
          = Normal (removeUnsafe_text input))
    /\ bind (calls (new_ShadowRootProcessor c) (l ++ [CallClear]))
            (fun r' => Normal (ShadowRoot.getHTML r'))
       = Normal [].
Proof.
  intros _ _.
  destruct (calls_return l (new_ShadowRootProcessor c)) as (r & Hr & Hs & Ht);
    [now split|].
  exists r. repeat split; try assumption; try apply Ht;
    intros; rewrite calls_app, Hr; reflexivity.
Qed.

End ShadowRootCalls.

(** X6: a string set, then a number, on a processor with the default
    policy. *)
Lemma shadow_root_calls_witness :
  exists r,
    calls (U := scheme_parser) (new_ShadowRootProcessor None)
      [CallSetHTMLUnsafe (VString (str " <b>x</b> ")) None; CallSetHTML (VNumber 5) None]
    = Normal r
    /\ shadow_sanitizer r = new_Sanitizer None.
Proof.
  destruct (@shadow_root_calls scheme_parser None
              [CallSetHTMLUnsafe (VString (str " <b>x</b> ")) None;
               CallSetHTML (VNumber 5) None] eq_refl eq_refl)
    as (r & H1 & H2 & _).
  exists r. split; assumption.
Defined.

(** ** validateHTMLStructure *)

Lemma check_stack_counts (closeTags : list jsstring) :
  forall stack,
    length (fst (check_stack stack closeTags)) <= length closeTags
    /\ length closeTags - length stack <= length (fst (check_stack stack closeTags))
    /\ length (snd (check_stack stack closeTags)) = length stack - length closeTags.
Proof.
  induction closeTags as [|tag more IH]; intro stack; cbn [check_stack].
  - cbn [fst snd length]. lia.
  - destruct stack as [|top below].
    + specialize (IH []). destruct (check_stack [] more) as [errs opened].
      cbn [fst snd length] in *. lia.
    + specialize (IH below). destruct (check_stack below more) as [errs opened].
      destruct (jsstring_eqb top tag); cbn [fst snd length] in *; lia.
Qed.

(** The report in terms of the stack, top first. *)
Lemma validateHTMLStructure_check_stack (html : jsstring) :
  validateHTMLStructure html =
  let openTags := filter (fun t => negb (isSelfClosingTag t))
                         (tag_names NodePatterns.tagRegex html) in
  let closeTags := tag_names NodePatterns.closingTagRegex html in
  let '(errs, opened) := check_stack (rev openTags) closeTags in
  MkReport (match errs with [] => true | _ => false end) errs
           (match rev opened with [] => [] | stack => [unclosed stack] end).
Proof.
  unfold validateHTMLStructure. rewrite filter_idempotent.
  rewrite <- (rev_involutive (filter _ (tag_names NodePatterns.tagRegex html))) at 1.
  rewrite close_loop_check_stack. cbn [app]. cbv zeta.
  destruct (check_stack _ _) as [errs opened]. cbn [fst snd].
  now destruct (rev opened).
Qed.

Lemma exec_all_unmatched (re : RegExp) (l : jsstring) :
  (forall pv t, suffix t l -> exec_at re pv t = None) ->
  forall pv, exec_all re 0 pv l = [].
Proof.
  induction l as [|c t IH]; intros H pv; cbn [exec_all].
  - now rewrite (H pv []) by apply suffix_refl.
  - rewrite (H pv (c :: t)) by apply suffix_refl.
    apply IH. intros pv' t' S. apply H. now apply suffix_cons.
Qed.

Lemma exec_all_needs (p : ascii -> bool) (re : RegExp) (l : jsstring) :
  Needs (ignoreCase re) p (pattern re) ->
  (forall x, In x l -> p x = false) ->
  exec_all re 0 None l = [].
Proof.
  intros Hn Hl. apply exec_all_unmatched. intros pv t S.
  unfold exec_at. rewrite (rmatch_needs _ _ _ Hn); [reflexivity|].
  simpl. intros x Hx. apply Hl. eapply suffix_In; eassumption.
Qed.

Lemma closingTagRegex_needs_slash :
  Needs false (fun x => ascii_eqb x "/") (pattern NodePatterns.closingTagRegex).
Proof.
  simpl. apply Needs_Seq_l, Needs_Seq_r, Needs_Seq_l, Needs_Char.
  intros x Hx. unfold chr_eq in Hx. apply ascii_eqb_eq in Hx. now subst.
Qed.

Lemma closingTagRegex_needs_lt :
  Needs false (fun x => ascii_eqb x "<") (pattern NodePatterns.closingTagRegex).
Proof.
  simpl. do 2 apply Needs_Seq_l. apply Needs_Char.
  intros x Hx. unfold chr_eq in Hx. apply ascii_eqb_eq in Hx. now subst.
Qed.

Lemma tagRegex_needs_lt :
  Needs false (fun x => ascii_eqb x "<") (pattern NodePatterns.tagRegex).
Proof.
  simpl. apply Needs_Seq_l, Needs_Char.
  intros x Hx. unfold chr_eq in Hx. apply ascii_eqb_eq in Hx. now subst.
Qed.

Lemma not_char_In (c : ascii) (s : jsstring) :
  forallb (not_char c) s = true -> forall x, In x s -> ascii_eqb x c = false.
Proof.
  rewrite forallb_forall. intros H x Hx. apply H in Hx.
  now apply negb_true_iff in Hx.
Qed.

(** X7. The numbers of errors and warnings: at most one error for each closing
    tag, at least one for each closing tag beyond the number of opening tags
    that are not void elements, and one warning exactly when there are more
    of these opening tags than closing tags. *)
Theorem validateHTMLStructure_counts (html : jsstring) :
  let openTags := filter (fun t => negb (isSelfClosingTag t))
                         (tag_names NodePatterns.tagRegex html) in
  let closeTags := tag_names NodePatterns.closingTagRegex html in
  let report := validateHTMLStructure html in
  length (errors report) <= length closeTags
  /\ length closeTags - length openTags <= length (errors report)
  /\ length (warnings report) = (if length closeTags <? length openTags then 1 else 0).
Proof.
  intros openTags closeTags report. unfold report.
  rewrite validateHTMLStructure_check_stack. fold openTags closeTags. cbv zeta.
  destruct (check_stack_counts closeTags (rev openTags)) as (H1 & H2 & H3).
  rewrite length_rev in H2, H3.
  destruct (check_stack (rev openTags) closeTags) as [errs opened].
  cbn [fst snd errors warnings] in *.
  split; [assumption|]. split; [assumption|].
  rewrite <- (length_rev opened) in H3.
  destruct (rev opened); cbn [length] in *;
    destruct (Nat.ltb_spec (length closeTags) (length openTags)); lia.
Qed.

(** X8. A text without a slash has no closing tag, and is valid whatever it
    leaves open; a text without an opening angle bracket has no tag at all,
    and its report is empty. *)
Theorem validateHTMLStructure_without_closing_tags (html : jsstring) :
  (forallb (not_char "/") html = true ->
   isValid (validateHTMLStructure html) = true
   /\ errors (validateHTMLStructure html) = [])
  /\ (forallb (not_char "<") html = true ->
      validateHTMLStructure html = MkReport true [] []).
Proof.
  split; intro H; pose proof (not_char_In _ _ H) as Hin;
    rewrite validateHTMLStructure_check_stack; unfold tag_names.
  - rewrite (exec_all_needs _ NodePatterns.closingTagRegex html
               closingTagRegex_needs_slash Hin).
    cbn [map check_stack]. now split.
  - rewrite (exec_all_needs _ NodePatterns.closingTagRegex html
               closingTagRegex_needs_lt Hin).
    rewrite (exec_all_needs _ NodePatterns.tagRegex html tagRegex_needs_lt Hin).
    reflexivity.
Qed.

(** X8: tags left open, and text with a closing angle bracket only. *)
Lemma validateHTMLStructure_without_closing_tags_witness :
  isValid (validateHTMLStructure (str "<p><b>left open")) = true
  /\ validateHTMLStructure (str "1 > 0") = MkReport true [] [].
Proof.
  split.
  - apply (proj1 (validateHTMLStructure_without_closing_tags (str "<p><b>left open"))).
    reflexivity.
  - apply (proj2 (validateHTMLStructure_without_closing_tags (str "1 > 0"))).
    reflexivity.
Defined.

(** ** The two loops of validateHTMLStructure on a document of tags *)

Lemma exec_all_skip (re : RegExp) (a : jsstring) :
  forall pv b, exec_all re (length a) pv (a ++ b) = exec_all re 0 (end_prev pv a) b.
Proof.
  induction a as [|c a IH]; intros pv b; [reflexivity|]. simpl. apply IH.
Qed.

Lemma exec_all_matched (re : RegExp) (m post : jsstring) (pv pv' : option ascii)
    (cs : captures) :
  m <> [] ->
  rmatch (ignoreCase re) (pattern re) Some (MState pv (m ++ post) []) =
    Some (MState pv' post cs) ->
  exec_all re 0 pv (m ++ post) = cs :: exec_all re 0 (end_prev pv m) post.
Proof.
  intros Hm H. destruct m as [|c a]; [congruence|].
  assert (E : exec_at re pv ((c :: a) ++ post) = Some (S (length a), cs)).
  { unfold exec_at. rewrite H. cbn [rest caps]. f_equal. f_equal.
    rewrite length_app. cbn [length]. lia. }
  cbn [exec_all app] in *. rewrite E. cbn [pred]. now rewrite exec_all_skip.
Qed.

Lemma exec_all_same (re : RegExp) (l : jsstring) :
  no_boundary (pattern re) = true ->
  forall skip pv1 pv2, exec_all re skip pv1 l = exec_all re skip pv2 l.
Proof.
  intro H. induction l as [|c t IH]; intros skip pv1 pv2.
  - destruct skip; simpl; [|reflexivity]. now rewrite (exec_at_same re pv1 pv2).
  - destruct skip; simpl; [|apply IH]. now rewrite (exec_at_same re pv1 pv2).
Qed.

(** Where no match begins in [m], the loop goes on after [m]. *)
Lemma exec_all_pass (re : RegExp) (m : jsstring) :
  forall l pv,
    (forall m1 x m2 pv', m = m1 ++ x :: m2 -> exec_at re pv' (x :: m2 ++ l) = None) ->
    exec_all re 0 pv (m ++ l) = exec_all re 0 (end_prev pv m) l.
Proof.
  induction m as [|c m IH]; intros l pv H; [reflexivity|].
  cbn [app exec_all]. rewrite (H [] c m pv eq_refl).
  apply IH. intros m1 x m2 pv' E. apply (H (c :: m1)). now rewrite E.
Qed.

Lemma tagRegex_at_other (x : ascii) (t : jsstring) (pv : option ascii) :
  ascii_eqb x "<" = false -> exec_at NodePatterns.tagRegex pv (x :: t) = None.
Proof.
  intro H. unfold exec_at.
  cbn [NodePatterns.tagRegex pattern ignoreCase seqs fold_right rmatch rest].
  unfold chr_eq. destruct (ascii_eqb "<" x) eqn:E; [|reflexivity].
  apply ascii_eqb_eq in E. subst x. discriminate.
Qed.

Lemma closingTagRegex_at_other (x : ascii) (t : jsstring) (pv : option ascii) :
  ascii_eqb x "<" = false -> exec_at NodePatterns.closingTagRegex pv (x :: t) = None.
Proof.
  intro H. unfold exec_at.
  cbn [NodePatterns.closingTagRegex pattern ignoreCase seqs fold_right rmatch rest
       lits map str list_ascii_of_string].
  unfold chr_eq. destruct (ascii_eqb "<" x) eqn:E; [|reflexivity].
  apply ascii_eqb_eq in E. subst x. discriminate.
Qed.

Lemma word_not_lt (x : ascii) : is_word x = true -> ascii_eqb x "<" = false.
Proof.
  intro H. destruct (ascii_eqb x "<") eqn:E; [|reflexivity].
  apply ascii_eqb_eq in E. subst. discriminate.
Qed.

Lemma is_name_inv (n : jsstring) :
  is_name n = true ->
  exists n0 ns, n = n0 :: ns /\ is_word n0 = true
                /\ (forall x, In x ns -> is_word x = true).
Proof.
  destruct n as [|n0 ns]; [discriminate|]. cbn [is_name forallb].
  intro H. apply andb_true_iff in H as [H0 Hs]. rewrite forallb_forall in Hs.
  now exists n0, ns.
Qed.

Lemma in_tag_inv (a : jsstring) :
  forallb in_tag a = true ->
  (forall x, In x a -> not_char Patterns.gt x = true)
  /\ (forall x, In x a -> ascii_eqb x "<" = false).
Proof.
  rewrite forallb_forall. intro H. split; intros x Hx; apply H in Hx;
    unfold in_tag in Hx; apply andb_true_iff in Hx as [H1 H2]; [assumption|].
  now apply negb_true_iff in H1.
Qed.

Lemma tagRegex_open (n a post : jsstring) (pv : option ascii) :
  is_name n = true -> forallb in_tag a = true -> apart a = true ->
  rmatch false (pattern NodePatterns.tagRegex) Some
    (MState pv (open_tag n a ++ post) [])
  = Some (MState (Some Patterns.gt) post [(1, n)]).
Proof.
  intros Hn Ha Hap. apply is_name_inv in Hn as (n0 & ns & -> & H0 & Hs).
  apply in_tag_inv in Ha as [Ha _]. apply apart_clean in Hap.
  unfold open_tag. list_norm.
  cbn [NodePatterns.tagRegex pattern seqs fold_right rmatch rest caps prev Plus].
  rewrite chr_eq_refl, H0.
  apply star_greedy_take;
    [assumption | apply starts_clean_app; [assumption | reflexivity] |].
  cbn [rest caps prev].
  apply star_greedy_take;
    [assumption | simpl; unfold not_char; now rewrite ascii_eqb_refl |].
  cbn [rest caps prev]. rewrite chr_eq_refl.
  change (n0 :: ns ++ a ++ ?X) with ((n0 :: ns) ++ a ++ X).
  now rewrite firstn_length_app.
Qed.

Lemma closingTagRegex_close (n post : jsstring) (pv : option ascii) :
  is_name n = true ->
  rmatch false (pattern NodePatterns.closingTagRegex) Some
    (MState pv (close_tag n ++ post) [])
  = Some (MState (Some Patterns.gt) post [(1, n)]).
Proof.
  intros Hn. apply is_name_inv in Hn as (n0 & ns & -> & H0 & Hs).
  unfold close_tag. list_norm.
  cbn [NodePatterns.closingTagRegex pattern seqs fold_right rmatch rest caps prev Plus
       lits map str list_ascii_of_string].
  rewrite !chr_eq_refl, H0.
  apply star_greedy_take; [assumption | reflexivity |].
  cbn [rest caps prev]. rewrite chr_eq_refl.
  change (n0 :: ns ++ ?X) with ((n0 :: ns) ++ X).
  now rewrite firstn_length_app.
Qed.

Lemma exec_all_pass_text (re : RegExp) (m l : jsstring) (pv : option ascii) :
  (forall x t pv', ascii_eqb x "<" = false -> exec_at re pv' (x :: t) = None) ->
  (forall x, In x m -> ascii_eqb x "<" = false) ->
  exec_all re 0 pv (m ++ l) = exec_all re 0 (end_prev pv m) l.
Proof.
  intros Hre Hm. apply exec_all_pass. intros m1 x m2 pv' E.
  apply Hre, Hm. rewrite E. apply in_or_app. right. now left.
Qed.

Lemma exec_all_pass_tag (re : RegExp) (c : ascii) (m l : jsstring) (pv : option ascii) :
  (forall x t pv', ascii_eqb x "<" = false -> exec_at re pv' (x :: t) = None) ->
  exec_at re pv (c :: m ++ l) = None ->
  (forall x, In x m -> ascii_eqb x "<" = false) ->
  exec_all re 0 pv (c :: m ++ l) = exec_all re 0 (end_prev (Some c) m) l.
Proof.
  intros Hre Hc Hm. cbn [exec_all]. rewrite Hc. now apply exec_all_pass_text.
Qed.

Lemma document_cons (p : piece) (d : list piece) :
  document (p :: d) = piece_text p ++ document d.
Proof. reflexivity. Qed.

Lemma tagRegex_document (d : list piece) :
  forallb piece_ok d = true ->
  forall pv, map (fun m => toLowerCase (group 1 m))
                 (exec_all NodePatterns.tagRegex 0 pv (document d)) = opened d.
Proof.
  induction d as [|p d IH]; intros Hd pv; [reflexivity|].
  cbn [forallb] in Hd. apply andb_true_iff in Hd as [Hp Hd].
  rewrite document_cons. destruct p as [t|n a|n]; cbn [piece_ok piece_text opened flat_map] in *.
  - rewrite exec_all_pass_text;
      [now apply IH | exact tagRegex_at_other | now apply not_char_In].
  - apply andb_true_iff in Hp as [Hp Hap]. apply andb_true_iff in Hp as [Hn Ha].
    rewrite (exec_all_matched NodePatterns.tagRegex (open_tag n a) (document d) pv
               (Some Patterns.gt) [(1, n)]);
      [|discriminate | now apply tagRegex_open].
    cbn [map app group capture Nat.eqb]. f_equal. now apply IH.
  - apply is_name_inv in Hp as (n0 & ns & -> & H0 & Hs).
    unfold close_tag.
    replace (("<"%char :: "/"%char :: (n0 :: ns) ++ [Patterns.gt]) ++ document d)
      with ("<"%char :: ("/"%char :: n0 :: ns ++ [Patterns.gt]) ++ document d)
      by (list_norm; reflexivity).
    rewrite exec_all_pass_tag;
      [now apply IH | exact tagRegex_at_other | reflexivity |].
    intros x [<- | [<- | Hx]]; [reflexivity | now apply word_not_lt |].
    apply in_app_or in Hx as [Hx | [<- | []]]; [|reflexivity].
    now apply word_not_lt, Hs.
Qed.

Lemma word_not_slash (x : ascii) : is_word x = true -> ascii_eqb "/" x = false.
Proof.
  intro H. destruct (ascii_eqb "/" x) eqn:E; [|reflexivity].
  apply ascii_eqb_eq in E. subst. discriminate.
Qed.

Lemma closingTagRegex_document (d : list piece) :
  forallb piece_ok d = true ->
  forall pv, map (fun m => toLowerCase (group 1 m))
                 (exec_all NodePatterns.closingTagRegex 0 pv (document d)) = closed d.
Proof.
  induction d as [|p d IH]; intros Hd pv; [reflexivity|].
  cbn [forallb] in Hd. apply andb_true_iff in Hd as [Hp Hd].
  rewrite document_cons. destruct p as [t|n a|n]; cbn [piece_ok piece_text closed flat_map] in *.
  - rewrite exec_all_pass_text;
      [now apply IH | exact closingTagRegex_at_other | now apply not_char_In].
  - apply andb_true_iff in Hp as [Hp Hap]. apply andb_true_iff in Hp as [Hn Ha].
    apply is_name_inv in Hn as (n0 & ns & -> & H0 & Hs).
    apply in_tag_inv in Ha as [_ Ha].
    unfold open_tag.
    replace (("<"%char :: (n0 :: ns) ++ a ++ [Patterns.gt]) ++ document d)
      with ("<"%char :: (n0 :: ns ++ a ++ [Patterns.gt]) ++ document d)
      by (list_norm; reflexivity).
    rewrite exec_all_pass_tag; [now apply IH | exact closingTagRegex_at_other | |].
    + unfold exec_at.
      cbn [NodePatterns.closingTagRegex pattern ignoreCase seqs fold_right rmatch rest
           lits map str list_ascii_of_string app].
      rewrite chr_eq_refl. cbn [rest]. unfold chr_eq. now rewrite word_not_slash.
    + intros x [<- | Hx]; [now apply word_not_lt|].
      apply in_app_or in Hx as [Hx | Hx]; [now apply word_not_lt, Hs|].
      apply in_app_or in Hx as [Hx | [<- | []]]; [now apply Ha | reflexivity].
  - rewrite (exec_all_matched NodePatterns.closingTagRegex (close_tag n) (document d) pv
               (Some Patterns.gt) [(1, n)]);
      [|discriminate | now apply closingTagRegex_close].
    cbn [map app group capture Nat.eqb]. f_equal. now apply IH.
Qed.

Lemma lower_unit_idempotent (c : ascii) : lower_unit (lower_unit c) = lower_unit c.
Proof.
  assert (K : for_all_ascii (fun x => ascii_eqb (lower_unit (lower_unit x)) (lower_unit x))
              = true) by (vm_compute; reflexivity).
  apply ascii_eqb_eq. exact (for_all_ascii_spec _ K c).
Qed.

Lemma toLowerCase_idempotent (s : jsstring) : toLowerCase (toLowerCase s) = toLowerCase s.
Proof.
  unfold toLowerCase. rewrite map_map. apply map_ext. exact lower_unit_idempotent.
Qed.

Lemma isSelfClosingTag_toLowerCase (s : jsstring) :
  isSelfClosingTag (toLowerCase s) = isSelfClosingTag s.
Proof. unfold isSelfClosingTag. now rewrite toLowerCase_idempotent. Qed.

(** X9. On a document made of text without an opening angle bracket, opening
    tags and closing tags, the first loop of [validateHTMLStructure] finds
    the names of the opening tags and the second the names of the closing
    tags, each in the order of the document and in lower case; the report is
    that of the stack of the first list against the second.  How the two
    kinds of tags follow one another in the document has no part in it. *)
Theorem validateHTMLStructure_document (d : list piece) :
  forallb piece_ok d = true ->
  tag_names NodePatterns.tagRegex (document d) = opened d
  /\ tag_names NodePatterns.closingTagRegex (document d) = closed d
  /\ validateHTMLStructure (document d) =
     (let '(errs, left_open) :=
        check_stack (rev (filter (fun t => negb (isSelfClosingTag t)) (opened d)))
                    (closed d) in
      MkReport (match errs with [] => true | _ => false end) errs
               (match rev left_open with [] => [] | stack => [unclosed stack] end)).
Proof.
  intro H.
  assert (Ho : tag_names NodePatterns.tagRegex (document d) = opened d)
    by (now apply tagRegex_document).
  assert (Hc : tag_names NodePatterns.closingTagRegex (document d) = closed d)
    by (now apply closingTagRegex_document).
  split; [assumption|]. split; [assumption|].
  rewrite validateHTMLStructure_check_stack. now rewrite Ho, Hc.
Qed.

Lemma jsstring_eqb_neq (a b : jsstring) : a <> b -> jsstring_eqb a b = false.
Proof.
  intro H. destruct (jsstring_eqb a b) eqn:E; [|reflexivity].
  apply jsstring_eqb_eq in E. contradiction.
Qed.

(** X10. Two elements one after the other, each closed before the next opens,
    are reported as two mismatches when their names differ; an element
    inside another is valid; and so is a closing tag that comes before its
    opening tag.  (Names of word characters that are not void elements.) *)
Theorem validateHTMLStructure_order_of_tags (a b : jsstring) :
  is_name a = true -> is_name b = true ->
  isSelfClosingTag a = false -> isSelfClosingTag b = false ->
  toLowerCase a <> toLowerCase b ->
  validateHTMLStructure (open_tag a [] ++ close_tag a ++ open_tag b [] ++ close_tag b)
  = MkReport false [mismatched (toLowerCase b) (toLowerCase a);
                    mismatched (toLowerCase a) (toLowerCase b)] []
  /\ validateHTMLStructure (open_tag a [] ++ open_tag b [] ++ close_tag b ++ close_tag a)
     = MkReport true [] []
  /\ validateHTMLStructure (close_tag a ++ open_tag a [])
     = MkReport true [] [].
Proof.
  intros Ha Hb Va Vb Hab.
  assert (D : forall d, forallb piece_ok d = true ->
                        validateHTMLStructure (document d) = _)
    by (intros d Hd; rewrite validateHTMLStructure_check_stack; unfold tag_names;
        now rewrite (tagRegex_document d Hd), (closingTagRegex_document d Hd)).
  split; [|split].
  - replace (open_tag a [] ++ close_tag a ++ open_tag b [] ++ close_tag b)
      with (document [Open a []; Close a; Open b []; Close b])
      by (cbn [document map concat piece_text]; now rewrite app_nil_r).
    rewrite D by (cbn [forallb piece_ok apart]; now rewrite Ha, Hb).
    cbn [opened closed flat_map app filter].
    rewrite !isSelfClosingTag_toLowerCase, Va, Vb. cbn [negb rev app check_stack].
    rewrite (jsstring_eqb_neq _ _ Hab).
    rewrite (jsstring_eqb_neq _ _ (fun E => Hab (eq_sym E))). reflexivity.
  - replace (open_tag a [] ++ open_tag b [] ++ close_tag b ++ close_tag a)
      with (document [Open a []; Open b []; Close b; Close a])
      by (cbn [document map concat piece_text]; now rewrite app_nil_r).
    rewrite D by (cbn [forallb piece_ok apart]; now rewrite Ha, Hb).
    cbn [opened closed flat_map app filter].
    rewrite !isSelfClosingTag_toLowerCase, Va, Vb. cbn [negb rev app check_stack].
    now rewrite !jsstring_eqb_refl.
  - replace (close_tag a ++ open_tag a [])
      with (document [Close a; Open a []])
      by (cbn [document map concat piece_text]; now rewrite app_nil_r).
    rewrite D by (cbn [forallb piece_ok apart]; now rewrite Ha).
    cbn [opened closed flat_map app filter].
    rewrite !isSelfClosingTag_toLowerCase, Va. cbn [negb rev app check_stack].
    now rewrite !jsstring_eqb_refl.
Qed.

(** X9: a list with an attribute, an item and a void element. *)
Lemma validateHTMLStructure_document_witness :
  validateHTMLStructure (str "<ul class=a><li>one</li><br></ul>")
  = MkReport true [] [].
Proof.
  pose proof (validateHTMLStructure_document
                [Open (str "ul") (str " class=a"); Open (str "li") []; Text (str "one");
                 Close (str "li"); Open (str "br") []; Close (str "ul")] eq_refl) as H.
  exact (proj2 (proj2 H)).
Defined.

(** X10: a paragraph followed by a division. *)
Lemma validateHTMLStructure_order_of_tags_witness :
  validateHTMLStructure (str "<p></p><div></div>")
  = MkReport false [mismatched (str "div") (str "p"); mismatched (str "p") (str "div")] [].
Proof.
  apply (proj1 (validateHTMLStructure_order_of_tags (str "p") (str "div")
                  eq_refl eq_refl eq_refl eq_refl ltac:(discriminate))).
Defined.

(** ** processHTMLWithMetadata *)

Lemma search_unmatched (re : RegExp) (l : jsstring) :
  (forall pv t, suffix t l -> exec_at re pv t = None) ->
  forall pos pv, search re pos pv l = None.
Proof.
  induction l as [|c t IH]; intros H pos pv; cbn [search].
  - now rewrite (H pv []) by apply suffix_refl.
  - rewrite (H pv (c :: t)) by apply suffix_refl.
    apply IH. intros pv' t' S. apply H. now apply suffix_cons.
Qed.

Lemma test_needs (p : ascii -> bool) (re : RegExp) (l : jsstring) :
  Needs (ignoreCase re) p (pattern re) ->
  (forall x, In x l -> p x = false) ->
  test re 0 l = (false, 0).
Proof.
  intros Hn Hl. unfold test, exec. cbn [Nat.ltb Nat.leb skipn last_before].
  rewrite search_unmatched; [reflexivity|]. intros pv t S.
  unfold exec_at. rewrite (rmatch_needs _ _ _ Hn); [reflexivity|].
  simpl. intros x Hx. apply Hl. eapply suffix_In; eassumption.
Qed.

Lemma anyTagOf_needs (tag : jsstring) :
  Needs true is_markup (pattern (NodePatterns.anyTagOf tag)).
Proof. simpl. needs_here. Qed.

Lemma anyAttributeOf_needs (attr : jsstring) :
  Needs true is_markup (pattern (NodePatterns.anyAttributeOf attr)).
Proof.
  simpl. do 5 apply Needs_Seq_r. apply Needs_Seq_l. apply Needs_Class.
  intros x Hx. unfold is_markup. rewrite Hx. apply orb_true_r.
Qed.

Lemma filter_none {A} (p : A -> bool) (l : list A) :
  (forall x, p x = false) -> filter p l = [].
Proof. intro H. induction l as [|x l IH]; simpl; [reflexivity | now rewrite H]. Qed.

Section Metadata.

Context {U : URLParser}.

(** X11. On text without markup the report of [processHTMLWithMetadata] carries
    the trimmed text, lists no element and no attribute as removed, and says
    that the text was modified exactly when trimming changes it.  (The block
    lists of the processor's sanitizer hold names of word characters.) *)
Theorem metadata_of_plain_text (this : NodeHTMLProcessor) (s : jsstring) :
  word_names (config (processor_sanitizer this)) = true ->
  plainb s = true ->
  processHTMLWithMetadata this s =
  MkResult (trim s) (negb (jsstring_eqb (trim s) s)) [] [].
Proof.
  intros _ H. apply plainb_plain in H.
  unfold processHTMLWithMetadata, extractRemovedElements, extractRemovedAttributes.
  rewrite (sanitize_plain _ s H).
  assert (Ne : forall tag, matched_then_gone (NodePatterns.anyTagOf tag) s (trim s) = false).
  { intro tag. unfold matched_then_gone.
    now rewrite (test_needs is_markup (NodePatterns.anyTagOf tag) s (anyTagOf_needs tag) H). }
  assert (Na : forall attr,
             matched_then_gone (NodePatterns.anyAttributeOf attr) s (trim s) = false).
  { intro attr. unfold matched_then_gone.
    now rewrite (test_needs is_markup (NodePatterns.anyAttributeOf attr) s (anyAttributeOf_needs attr) H). }
  f_equal.
  - destruct (disallowedElements _); [now apply filter_none | reflexivity].
  - destruct (disallowedAttributes _); [now apply filter_none | reflexivity].
Qed.

End Metadata.

(** X11: text with blanks around it. *)
Lemma metadata_of_plain_text_witness :
  processHTMLWithMetadata (U := scheme_parser) (new_NodeHTMLProcessor None)
                          (str " 2 > 1 ")
  = MkResult (str "2 > 1") true [] [].
Proof.
  apply (@metadata_of_plain_text scheme_parser (new_NodeHTMLProcessor None) (str " 2 > 1 "));
    reflexivity.
Defined.

(** ** Stepping over text in which no match begins *)

Lemma Forall_forallb (p : ascii -> bool) (s : jsstring) :
  forallb p s = true -> Forall (fun x => p x = true) s.
Proof. rewrite forallb_forall. apply Forall_forall. Qed.

Lemma replace_go_pass (re : RegExp) (f : jsstring -> captures -> jsstring)
    (m : jsstring) :
  forall l pv,
    (forall m1 x m2 pv', m = m1 ++ x :: m2 -> exec_at re pv' (x :: m2 ++ l) = None) ->
    replace_go re f 0 pv (m ++ l) = m ++ replace_go re f 0 (end_prev pv m) l.
Proof.
  induction m as [|c m IH]; intros l pv H; [reflexivity|].
  cbn [app replace_go]. rewrite (H [] c m pv eq_refl). f_equal.
  apply IH. intros m1 x m2 pv' E. apply (H (c :: m1)). now rewrite E.
Qed.

Lemma replace_go_forgets (re : RegExp) (f : jsstring -> captures -> jsstring)
    (l : jsstring) :
  forgets_prev re ->
  forall skip pv1 pv2, replace_go re f skip pv1 l = replace_go re f skip pv2 l.
Proof.
  intro H. induction l as [|c t IH]; intros skip pv1 pv2.
  - destruct skip; simpl; [|reflexivity]. now rewrite (H pv1 pv2).
  - destruct skip; simpl; [|apply IH]. now rewrite (H pv1 pv2).
Qed.

Lemma forgets_no_boundary (re : RegExp) :
  no_boundary (pattern re) = true -> forgets_prev re.
Proof. intros H pv1 pv2 l. now apply exec_at_same. Qed.

Lemma forgets_first_char (re : RegExp) (c : ascii) (r : regex) :
  pattern re = Seq (Char c) r -> forgets_prev re.
Proof. intros H pv1 pv2 l. unfold exec_at. rewrite H. reflexivity. Qed.

Lemma begins_lt_first_char (re : RegExp) (r : regex) :
  pattern re = Seq (Char "<") r -> begins_lt re.
Proof.
  intros H x t pv Hx. destruct (exec_at re pv (x :: t)) as [[len cs]|] eqn:E;
    [exfalso|reflexivity].
  destruct (exec_at_first _ _ _ _ _ _ _ H E) as (y & t' & n & Hl & Hy & _).
  injection Hl as <- _. apply (chr_eq_alone _ "<"%char _ eq_refl) in Hy. subst x.
  discriminate.
Qed.

Lemma begins_lt_lits (re : RegExp) (s : jsstring) (r : regex) :
  pattern re = Seq (lits ("<"%char :: s)) r -> begins_lt re.
Proof.
  intros H x t pv Hx. unfold exec_at. rewrite H.
  change (lits ("<"%char :: s)) with (Seq (Char "<") (lits s)).
  cbn [rmatch rest].
  destruct (chr_eq (ignoreCase re) "<" x) eqn:E; [|reflexivity].
  apply (chr_eq_alone _ "<"%char _ eq_refl) in E. subst x. discriminate.
Qed.

Lemma doctype_begins_lt : begins_lt Patterns.doctype.
Proof. eapply begins_lt_lits. reflexivity. Qed.

Lemma comment_begins_lt : begins_lt Patterns.comment.
Proof. eapply begins_lt_lits. reflexivity. Qed.

Lemma element_begins_lt (tag : jsstring) : begins_lt (Patterns.element tag).
Proof. eapply begins_lt_first_char. reflexivity. Qed.

Lemma selfClosing_begins_lt (tag : jsstring) : begins_lt (Patterns.selfClosing tag).
Proof. eapply begins_lt_first_char. reflexivity. Qed.

Lemma doctype_forgets : forgets_prev Patterns.doctype.
Proof. apply forgets_no_boundary. reflexivity. Qed.

Lemma comment_forgets : forgets_prev Patterns.comment.
Proof. apply forgets_no_boundary. reflexivity. Qed.

Lemma element_forgets (tag : jsstring) : forgets_prev (Patterns.element tag).
Proof. eapply forgets_first_char. reflexivity. Qed.

Lemma selfClosing_forgets (tag : jsstring) : forgets_prev (Patterns.selfClosing tag).
Proof. eapply forgets_first_char. reflexivity. Qed.

(** Text without an opening angle bracket before the rest. *)
Lemma remove_after_text (re : RegExp) (before l : jsstring) :
  begins_lt re -> forgets_prev re ->
  forallb (not_char "<") before = true ->
  remove re (before ++ l) = before ++ remove re l.
Proof.
  intros Hb Hf Ht. unfold remove, replace_with.
  rewrite replace_go_pass.
  - f_equal. now apply replace_go_forgets.
  - intros m1 x m2 pv' E. apply Hb. apply (not_char_In _ _ Ht).
    rewrite E. apply in_or_app. right. now left.
Qed.

(** A match at the head of the text, removed. *)
Lemma remove_matched (re : RegExp) (m post : jsstring) (pv' : option ascii)
    (cs : captures) :
  forgets_prev re -> m <> [] ->
  rmatch (ignoreCase re) (pattern re) Some (MState None (m ++ post) []) =
    Some (MState pv' post cs) ->
  remove re (m ++ post) = remove re post.
Proof.
  intros Hf Hm H. unfold remove, replace_with.
  rewrite (replace_go_matched _ _ _ _ _ _ _ Hm H). cbn [app].
  now apply replace_go_forgets.
Qed.

(** A stretch that begins with an opening angle bracket at which there is
    no match, and has no other before the rest. *)
Lemma remove_after_tag (re : RegExp) (c : ascii) (m l : jsstring) :
  begins_lt re -> forgets_prev re ->
  exec_at re None (c :: m ++ l) = None ->
  (forall x, In x m -> ascii_eqb x "<" = false) ->
  remove re (c :: m ++ l) = c :: m ++ remove re l.
Proof.
  intros Hb Hf Hc Hm. unfold remove, replace_with.
  cbn [replace_go]. rewrite Hc. f_equal.
  rewrite replace_go_pass.
  - f_equal. now apply replace_go_forgets.
  - intros m1 x m2 pv' E. apply Hb, Hm. rewrite E. apply in_or_app. right. now left.
Qed.

(** ** Document types and comments *)

Lemma sanitize_string {U : URLParser} (this : Sanitizer) (s : jsstring) :
  sanitize this s = sanitize_text this s.
Proof.
  destruct s as [|c t]; [|reflexivity].
  rewrite sanitize_text_plain by (intros x []). reflexivity.
Qed.


Lemma star_lazy_take (p : ascii -> bool) (k : mstate -> option mstate)
    (cs : captures) (a : jsstring) :
  forall pv b r,
    (forall x, In x a -> p x = true) ->
    (forall a1 x a2 pv', a = a1 ++ x :: a2 -> k (MState pv' (x :: a2 ++ b) cs) = None) ->
    k (MState (end_prev pv a) b cs) = Some r ->
    star_lazy p k cs pv (a ++ b) = Some r.
Proof.
  induction a as [|x a IH]; intros pv b r Ha Hno Hk.
  - cbn [app end_prev fold_left] in *. destruct b; cbn [star_lazy]; now rewrite Hk.
  - cbn [app star_lazy]. rewrite (Hno [] x a pv eq_refl).
    rewrite (Ha x) by now left.
    apply IH; [intros; apply Ha; now right | | exact Hk].
    intros a1 y a2 pv' E. apply (Hno (x :: a1)). now rewrite E.
Qed.




Lemma rmatch_lits_self (ci : bool) (t : jsstring) :
  forall k pv l cs,
    rmatch ci (lits t) k (MState pv (t ++ l) cs) = k (MState (end_prev pv t) l cs).
Proof.
  induction t as [|c t IH]; intros k pv l cs; [reflexivity|].
  change (lits (c :: t)) with (Seq (Char c) (lits t)).
  cbn [rmatch rest app caps]. rewrite chr_eq_refl. apply IH.
Qed.


Section DoctypeAndComment.

Context {U : URLParser}.



End DoctypeAndComment.



(** ** Blocked elements *)

Lemma chr_eq_trans (c x y : ascii) :
  chr_eq true c x = true -> chr_eq true x y = true -> chr_eq true c y = true.
Proof.
  unfold chr_eq. intros H1 H2. apply ascii_eqb_eq in H1, H2.
  rewrite H1, H2. apply ascii_eqb_refl.
Qed.

Lemma same_name_trans (a b c : jsstring) :
  same_name a b = true -> same_name b c = true -> same_name a c = true.
Proof.
  revert b c. induction a as [|x a IH]; intros [|y b] [|z c] H1 H2;
    try discriminate; [reflexivity|].
  cbn [same_name] in *. apply andb_true_iff in H1 as [Hx H1].
  apply andb_true_iff in H2 as [Hy H2].
  rewrite (chr_eq_trans _ _ _ Hx Hy). now apply (IH b).
Qed.

Lemma end_prev_snoc (pv : option ascii) (a : jsstring) (z : ascii) :
  end_prev pv (a ++ [z]) = Some z.
Proof. unfold end_prev. now rewrite fold_left_app. Qed.

(** After a name the matcher stands behind a word character. *)
Lemma word_before_name (pv : option ascii) (a l : jsstring) (cs : captures) :
  a <> [] -> Forall (fun x => is_word x = true) a ->
  word_before (MState (end_prev pv a) l cs) = true.
Proof.
  intros Ha Fa. destruct (exists_last Ha) as (a' & z & ->).
  rewrite end_prev_snoc. apply Forall_app in Fa as [_ Fz]. now inversion Fz.
Qed.

Lemma word_after_clean (pv : option ascii) (l : jsstring) (cs : captures) :
  starts_clean is_word l -> word_after (MState pv l cs) = false.
Proof. destruct l; [reflexivity | exact (fun H => H)]. Qed.

Lemma is_name_word (t : jsstring) :
  is_name t = true -> t <> [] /\ Forall (fun x => is_word x = true) t.
Proof.
  intro H. apply is_name_inv in H as (t0 & ts & -> & H0 & Hs).
  split; [discriminate|]. constructor; [assumption | now apply Forall_forall].
Qed.

Lemma is_name_forallb (t : jsstring) : is_name t = true -> forallb is_word t = true.
Proof. destruct t; [discriminate | exact (fun H => H)]. Qed.

Lemma same_name_nonempty (n a : jsstring) : n <> [] -> same_name n a = true -> a <> [].
Proof. destruct n, a; try discriminate; congruence. Qed.

Lemma rmatch_lits_lt_refused (ci : bool) (s : jsstring) (k : mstate -> option mstate)
    (pv : option ascii) (x : ascii) (t : jsstring) (cs : captures) :
  ascii_eqb x "<" = false ->
  rmatch ci (lits ("<"%char :: s)) k (MState pv (x :: t) cs) = None.
Proof.
  intro H. change (lits ("<"%char :: s)) with (Seq (Char "<") (lits s)).
  cbn [rmatch rest]. destruct (chr_eq ci "<" x) eqn:E; [|reflexivity].
  apply (chr_eq_alone _ "<"%char _ eq_refl) in E. subst x. discriminate.
Qed.

(** A name of the block list does not match at a tag of another name: the
    word boundary after it keeps it from matching the beginning of a longer
    name. *)
Lemma name_refused (r : regex) (k : mstate -> option mstate) (cs : captures)
    (tail : jsstring) :
  starts_clean is_word tail ->
  forall tag n pv,
    Forall (fun x => is_word x = true) tag ->
    Forall (fun x => is_word x = true) n ->
    (tag = [] -> word_before (MState pv [] []) = true) ->
    same_name tag n = false ->
    rmatch true (lits tag) (fun s' => rmatch true (Seq WordBoundary r) k s')
      (MState pv (n ++ tail) cs) = None.
Proof.
  intro Htail. induction tag as [|c tag IH]; intros n pv Wt Wn Hpv H.
  - destruct n as [|x n]; [discriminate|].
    cbn [lits map seqs fold_right rmatch]. unfold word_before, word_after.
    cbn [prev rest app]. specialize (Hpv eq_refl). unfold word_before in Hpv.
    cbn [prev] in Hpv. rewrite Hpv. inversion Wn; subst.
    match goal with Hx : is_word x = true |- _ => rewrite Hx end. reflexivity.
  - change (lits (c :: tag)) with (Seq (Char c) (lits tag)).
    inversion Wt as [|c' tag' Hc Wt']; subst.
    destruct n as [|x n]; cbn [rmatch rest app].
    + destruct tail as [|y tail]; [reflexivity|]. cbn [starts_clean] in Htail.
      destruct (chr_eq true c y) eqn:E; [|reflexivity].
      apply (chr_eq_word _ _ _ Hc) in E. congruence.
    + destruct (chr_eq true c x) eqn:E; [|reflexivity].
      inversion Wn as [|x' n'' Hx Wn']; subst.
      apply IH; try assumption; [intros _; exact Hx|].
      cbn [same_name] in H. now rewrite E in H.
Qed.

Lemma name_refused_at_slash (tag t : jsstring) (k : mstate -> option mstate)
    (pv : option ascii) (cs : captures) :
  is_name tag = true ->
  rmatch true (lits tag) k (MState pv ("/"%char :: t) cs) = None.
Proof.
  intro H. apply is_name_inv in H as (c & tag' & -> & Hc & _).
  change (lits (c :: tag')) with (Seq (Char c) (lits tag')).
  cbn [rmatch rest]. destruct (chr_eq true c "/") eqn:E; [|reflexivity].
  apply (chr_eq_word _ _ _ Hc) in E. discriminate.
Qed.

Section Element.

Variables (tag n attrs body n' : jsstring).
Hypothesis tag_name : is_name tag = true.
Hypothesis name_ok : same_name tag n = true.
Hypothesis name_ok' : same_name tag n' = true.
Hypothesis attrs_ok : forallb in_tag attrs = true.
Hypothesis attrs_apart : apart attrs = true.
Hypothesis body_ok : forallb (not_char "<") body = true.

Lemma element_text_app (post : jsstring) :
  element_text n attrs body n' ++ post
  = "<"%char :: n ++ attrs ++ Patterns.gt :: body ++ str "</" ++ n' ++ Patterns.gt :: post.
Proof. unfold element_text, open_tag, close_tag. list_norm. reflexivity. Qed.

(** The pattern of a blocked name matches the element, from its opening tag
    to the first closing tag, which is its own. *)
Lemma element_at_element (post : jsstring) (pv : option ascii) :
  rmatch true (pattern (Patterns.element tag)) Some
    (MState pv (element_text n attrs body n' ++ post) [])
  = Some (MState (Some Patterns.gt) post []).
Proof.
  destruct (is_name_word _ tag_name) as [Ht Wt].
  pose proof (same_name_word _ _ (is_name_forallb _ tag_name) name_ok) as Wn.
  pose proof (same_name_nonempty _ _ Ht name_ok) as Nn.
  destruct (in_tag_inv _ attrs_ok) as [Ha _].
  rewrite element_text_app.
  cbn [Patterns.element pattern seqs fold_right].
  change (rmatch true (Seq ?a ?b) ?k ?s)
    with (rmatch true a (fun s' => rmatch true b k s') s).
  cbn [rmatch rest caps prev]. rewrite chr_eq_refl.
  rewrite (rmatch_same_name tag n) by exact name_ok.
  rewrite word_before_name by assumption.
  rewrite word_after_clean
    by (apply starts_clean_app; [now apply apart_clean | reflexivity]).
  cbn [xorb rest caps prev].
  apply star_greedy_take;
    [assumption | simpl; unfold not_char; now rewrite ascii_eqb_refl |].
  cbn [rest caps prev]. rewrite chr_eq_refl.
  apply star_lazy_take.
  - reflexivity.
  - intros a1 x a2 pv' E. apply rmatch_lits_lt_refused.
    apply (not_char_In _ _ body_ok). rewrite E. apply in_or_app. right. now left.
  - rewrite rmatch_lits_self. rewrite (rmatch_same_name tag n') by exact name_ok'.
    cbn [rmatch rest caps prev]. now rewrite chr_eq_refl.
Qed.

(** A pattern that finds no match at the two tags of the element leaves the
    element where it is. *)
Lemma remove_over_element (re : RegExp) (l : jsstring) :
  begins_lt re -> forgets_prev re ->
  (forall t, exec_at re None ("<"%char :: n ++ attrs ++ Patterns.gt :: t) = None) ->
  (forall t, exec_at re None ("<"%char :: "/"%char :: t) = None) ->
  remove re (element_text n attrs body n' ++ l)
  = element_text n attrs body n' ++ remove re l.
Proof.
  intros Hb Hf Hopen Hclose.
  destruct (is_name_word _ tag_name) as [Ht Wt].
  pose proof (same_name_word _ _ (is_name_forallb _ tag_name) name_ok) as Wn.
  pose proof (same_name_word _ _ (is_name_forallb _ tag_name) name_ok') as Wn'.
  destruct (in_tag_inv _ attrs_ok) as [_ Ha].
  rewrite Forall_forall in Wn, Wn'.
  assert (E : forall t, element_text n attrs body n' ++ t
                        = "<"%char :: (n ++ attrs ++ Patterns.gt :: body) ++
                          "<"%char :: ("/"%char :: n' ++ [Patterns.gt]) ++ t)
    by (intro t; rewrite element_text_app; list_norm; reflexivity).
  rewrite !E.
  rewrite remove_after_tag; try assumption.
  - rewrite remove_after_tag; try assumption; [reflexivity | apply Hclose |].
    intros x [<- | Hx]; [reflexivity|].
    apply in_app_or in Hx as [Hx | [<- | []]]; [|reflexivity].
    now apply word_not_lt, Wn'.
  - replace ((n ++ attrs ++ Patterns.gt :: body) ++
             "<"%char :: ("/"%char :: n' ++ [Patterns.gt]) ++ l)
      with (n ++ attrs ++ Patterns.gt :: body ++
            "<"%char :: ("/"%char :: n' ++ [Patterns.gt]) ++ l)
      by (list_norm; reflexivity).
    apply Hopen.
  - intros x Hx. apply in_app_or in Hx as [Hx | Hx]; [now apply word_not_lt, Wn|].
    apply in_app_or in Hx as [Hx | [<- | Hx]];
      [now apply Ha | reflexivity | now apply (not_char_In _ _ body_ok)].
Qed.

(** The two passes for a name of the block list that is the name of the
    element. *)
Lemma removeElement_same (l : jsstring) :
  removeElement (element_text n attrs body n' ++ l) tag = removeElement l tag.
Proof.
  unfold removeElement.
  rewrite (remove_matched (Patterns.element tag) (element_text n attrs body n') l
             (Some Patterns.gt) []);
    [reflexivity | apply element_forgets | discriminate | apply element_at_element].
Qed.

(** The two passes for another name. *)
Lemma removeElement_other (other l : jsstring) :
  is_name other = true -> same_name other n = false ->
  removeElement (element_text n attrs body n' ++ l) other
  = element_text n attrs body n' ++ removeElement l other.
Proof.
  intros Ho Hne. unfold removeElement.
  destruct (is_name_word _ Ho) as [Hoe Wo].
  pose proof (same_name_word _ _ (is_name_forallb _ tag_name) name_ok) as Wn.
  assert (Open : forall r t,
             rmatch true (Seq (Char "<") (Seq (lits other) (Seq WordBoundary r))) Some
               (MState None ("<"%char :: n ++ attrs ++ Patterns.gt :: t) []) = None).
  { intros r t. cbn [rmatch rest caps prev]. rewrite chr_eq_refl.
    apply name_refused; auto.
    apply starts_clean_app; [now apply apart_clean | reflexivity]. }
  assert (Close : forall r t,
             rmatch true (Seq (Char "<") (Seq (lits other) r)) Some
               (MState None ("<"%char :: "/"%char :: t) []) = None).
  { intros r t. cbn [rmatch rest caps prev]. rewrite chr_eq_refl.
    now apply name_refused_at_slash. }
  rewrite (remove_over_element (Patterns.element other));
    [|apply element_begins_lt | apply element_forgets
     |intro t; unfold exec_at; cbn [Patterns.element pattern ignoreCase seqs fold_right];
      now rewrite Open
     |intro t; unfold exec_at; cbn [Patterns.element pattern ignoreCase seqs fold_right];
      now rewrite Close].
  rewrite (remove_over_element (Patterns.selfClosing other));
    [|apply selfClosing_begins_lt | apply selfClosing_forgets
     |intro t; unfold exec_at;
      cbn [Patterns.selfClosing pattern ignoreCase seqs fold_right]; now rewrite Open
     |intro t; unfold exec_at;
      cbn [Patterns.selfClosing pattern ignoreCase seqs fold_right]; now rewrite Close].
  reflexivity.
Qed.



End Element.

Lemma removeElement_after_text (before l tag : jsstring) :
  forallb (not_char "<") before = true ->
  removeElement (before ++ l) tag = before ++ removeElement l tag.
Proof.
  intro H. unfold removeElement.
  rewrite (remove_after_text (Patterns.element tag))
    by (auto using element_begins_lt, element_forgets).
  apply remove_after_text; auto using selfClosing_begins_lt, selfClosing_forgets.
Qed.

Lemma removeElements_after_text (before : jsstring) (tags : list jsstring) :
  forallb (not_char "<") before = true ->
  forall l, fold_left removeElement tags (before ++ l)
            = before ++ fold_left removeElement tags l.
Proof.
  intro H. induction tags as [|tag tags IH]; intro l; cbn [fold_left]; [reflexivity|].
  now rewrite removeElement_after_text, IH.
Qed.

Section BlockedElement.

Variables (n attrs body n' : jsstring).
Hypothesis close_ok : same_name n n' = true.
Hypothesis attrs_ok : forallb in_tag attrs = true.
Hypothesis attrs_apart : apart attrs = true.
Hypothesis body_ok : forallb (not_char "<") body = true.

(** The element passes for a list of names, one of which is the name of the
    element. *)
Lemma removeElements_element (tags : list jsstring) :
  forallb is_name tags = true ->
  existsb (fun tag => same_name tag n) tags = true ->
  forall l, fold_left removeElement tags (element_text n attrs body n' ++ l)
            = fold_left removeElement tags l.
Proof.
  induction tags as [|tag tags IH]; intros Hn He l; [discriminate|].
  cbn [forallb existsb fold_left] in *. apply andb_true_iff in Hn as [Ht Hn].
  destruct (same_name tag n) eqn:E.
  - rewrite (removeElement_same tag n attrs body n'); auto.
    now apply (same_name_trans _ n).
  - cbn [orb] in He.
    destruct (existsb_exists (fun t => same_name t n) tags) as [Ex _].
    destruct (Ex He) as (t & Hin & Htn).
    rewrite forallb_forall in Hn. pose proof (Hn t Hin) as Hname.
    rewrite (removeElement_other t n attrs body n'); auto;
      [|now apply (same_name_trans _ n)].
    apply IH; [now apply forallb_forall | assumption].
Qed.

End BlockedElement.

Section BlockedElementTheorem.

Context {U : URLParser}.


(** X16. [removeUnsafe] removes an element whose name is one of its five
    unsafe elements (in any case) with its content: the result is that of
    the text without the element.  (The element after text without an
    opening angle bracket, with content without one, and attributes without
    angle brackets that are set apart from the name.) *)
Theorem removeUnsafe_removes_unsafe_element
    (before n attrs body n' after : jsstring) :
  existsb (fun tag => same_name tag n) unsafeElements = true ->
  same_name n n' = true ->
  forallb in_tag attrs = true ->
  apart attrs = true ->
  forallb (not_char "<") body = true ->
  forallb (not_char "<") before = true ->
  removeUnsafe_text (before ++ element_text n attrs body n' ++ after)
  = removeUnsafe_text (before ++ after).
Proof.
  intros Hin Hclose Hattrs Hapart Hbody Hbefore. unfold removeUnsafe_text.
  repeat rewrite (removeElements_after_text before unsafeElements Hbefore).
  rewrite (removeElements_element n attrs body n' Hclose Hattrs Hapart Hbody unsafeElements
             eq_refl Hin).
  reflexivity.
Qed.

End BlockedElementTheorem.


(** X16: an inline frame closed in upper case. *)
Lemma removeUnsafe_removes_unsafe_element_witness :
  removeUnsafe_text (str "a<iframe src=x>inner</IFRAME>b") = removeUnsafe_text (str "ab").
Proof.
  apply (removeUnsafe_removes_unsafe_element (str "a") (str "iframe") (str " src=x")
           (str "inner") (str "IFRAME") (str "b"));
    reflexivity.
Defined.

(** ** Blocked attributes *)

Lemma quotedAttribute_shape (q : ascii) (attr : jsstring) (pv : option ascii)
    (l : jsstring) (s' : mstate) :
  is_quote q = true ->
  rmatch true (pattern (Patterns.quotedAttribute q attr)) Some (MState pv l []) = Some s' ->
  exists sp a sp1 sp2 v,
    l = sp ++ a ++ sp1 ++ "="%char :: sp2 ++ q :: v ++ q :: rest s'
    /\ sp <> []
    /\ Forall (fun x => is_space x = true) sp
    /\ same_name attr a = true
    /\ Forall (fun x => is_space x = true) sp1
    /\ Forall (fun x => is_space x = true) sp2
    /\ Forall (fun x => not_char q x = true) v.
Proof.
  intros Hq H. apply rmatch_sound in H as (s1 & L & E). injection E as ->.
  cbn [Patterns.quotedAttribute pattern seqs fold_right] in L. unfold Plus in L.
  repeat match goal with
  | H : Lang _ (Seq _ _) _ _ |- _ => inversion H; subst; clear H
  | H : Lang _ (Char _) _ _ |- _ => inversion H; subst; clear H
  | H : Lang _ (Class _) _ _ |- _ => inversion H; subst; clear H
  | H : Lang _ (Star _) _ _ |- _ => inversion H; subst; clear H
  | H : Lang _ Empty _ _ |- _ => inversion H; subst; clear H
  | H : Lang _ (lits _) _ _ |- _ => apply lits_inv in H as (a & Ea & Ha & Hca)
  end; cbn [rest caps prev] in *; subst.
  repeat match goal with
    | H : chr_eq true "="%char _ = true |- _ =>
        apply (chr_eq_alone true "="%char _ eq_refl) in H
    | H : chr_eq true q _ = true |- _ =>
        apply (chr_eq_alone true q _) in H;
        [|apply is_quote_inv in Hq as [-> | ->]; reflexivity]
    end; subst.
  exists (x2 :: m), a, m2, m1, m0. rewrite H5.
  repeat split; auto; discriminate.
Qed.

Lemma prefix_before_first (p : ascii -> bool) (a y h r : jsstring) (c : ascii) :
  Forall (fun x => p x = true) a -> p c = false ->
  a ++ y = h ++ c :: r -> exists h2, h = a ++ h2.
Proof.
  intros Fa Hc. revert h. induction Fa as [|x a Hx Fa IH]; intros h E.
  - now exists h.
  - destruct h as [|z h]; cbn [app] in E.
    + injection E as -> _. congruence.
    + injection E as -> E. destruct (IH _ E) as [h2 ->]. now exists h2.
Qed.

Lemma split_at (m1 m2 t nm : jsstring) (x c : ascii) :
  m1 ++ x :: m2 = t ++ c :: nm -> In c (x :: m2) \/ In x nm.
Proof.
  intro E. apply app_eq_app in E as [l [[E1 E2] | [E1 E2]]].
  - destruct l as [|z l]; cbn [app] in E2.
    + injection E2 as -> _. left. now left.
    + injection E2 as -> ->. right. apply in_or_app. right. now left.
  - destruct l as [|z l]; cbn [app] in E2.
    + injection E2 as -> _. left. now left.
    + injection E2 as -> ->. left. right. apply in_or_app. right. now left.
Qed.

Lemma quotedAttribute_forgets (q : ascii) (attr : jsstring) :
  forgets_prev (Patterns.quotedAttribute q attr).
Proof.
  apply forgets_no_boundary. cbn [Patterns.quotedAttribute pattern seqs fold_right Plus
                                  no_boundary andb].
  induction attr as [|c attr IH]; [reflexivity | exact IH].
Qed.

Lemma space_not_word (x : ascii) : is_space x = true -> is_word x = false.
Proof.
  intro H. destruct (is_word x) eqn:E; [|reflexivity].
  apply word_not_space in E. congruence.
Qed.

Lemma attr_char_not_quote (x : ascii) : attr_char x = true -> not_quote x = true.
Proof.
  unfold attr_char. intro H. apply orb_true_iff in H as [H | H];
    [apply orb_true_iff in H as [H | H]|].
  - now apply space_not_quote'.
  - now apply word_not_quote.
  - apply ascii_eqb_eq in H. now subst.
Qed.

(** What stands before the opening quote of a match. *)
Lemma before_value_chars (attr sp a sp1 sp2 : jsstring) :
  is_name attr = true -> same_name attr a = true ->
  Forall (fun x => is_space x = true) sp ->
  Forall (fun x => is_space x = true) sp1 ->
  Forall (fun x => is_space x = true) sp2 ->
  Forall (fun x => attr_char x = true) (sp ++ a ++ sp1 ++ "="%char :: sp2).
Proof.
  intros Hn Ha F F1 F2.
  pose proof (same_name_word _ _ (is_name_forallb _ Hn) Ha) as Wa.
  assert (S : forall l, Forall (fun x => is_space x = true) l ->
                        Forall (fun x => attr_char x = true) l).
  { intros l Hl. eapply Forall_impl; [|exact Hl]. intros x Hx. unfold attr_char.
    now rewrite Hx. }
  repeat (apply Forall_app; split); auto.
  eapply Forall_impl; [|exact Wa]. intros x Hx. unfold attr_char.
  cbv beta in Hx. rewrite Hx, orb_true_r. reflexivity.
Qed.

Section BlockedAttribute.

Variables (attr a ws ws1 ws2 v : jsstring) (q : ascii).
Hypothesis attr_name : is_name attr = true.
Hypothesis name_ok : same_name attr a = true.
Hypothesis quote_ok : is_quote q = true.
Hypothesis ws_nonempty : ws <> [].
Hypothesis blank : Forall (fun x => is_space x = true) ws.
Hypothesis blank1 : Forall (fun x => is_space x = true) ws1.
Hypothesis blank2 : Forall (fun x => is_space x = true) ws2.
Hypothesis value_ok : Forall (fun x => not_char q x = true) v.

Local Abbreviation A := (quoted_attribute a ws1 ws2 q v).

Lemma not_space_quote : is_space q = false.
Proof. apply is_quote_inv in quote_ok as [-> | ->]; reflexivity. Qed.

Lemma name_word : a <> [] /\ Forall (fun x => is_word x = true) a.
Proof.
  split.
  - apply (same_name_nonempty attr); [|exact name_ok].
    now destruct (is_name_word _ attr_name).
  - exact (same_name_word _ _ (is_name_forallb _ attr_name) name_ok).
Qed.

(** The pattern for [q] matches the attribute with the white space before
    it. *)
Lemma quotedAttribute_at_attribute (post : jsstring) (pv : option ascii) :
  rmatch true (pattern (Patterns.quotedAttribute q attr)) Some
    (MState pv (ws ++ A ++ post) [])
  = Some (MState (Some q) post []).
Proof.
  destruct name_word as [Na Wa].
  assert (Ew : exists w0 ws', ws = w0 :: ws')
    by (destruct ws as [|w0 ws']; [congruence | eauto]).
  destruct Ew as (w0 & ws' & Ew).
  assert (Ea : exists a0 a', a = a0 :: a')
    by (destruct a as [|a0 a']; [congruence | eauto]).
  destruct Ea as (a0 & a' & Ea).
  pose proof blank as B. rewrite Ew in B. apply Forall_cons_iff in B as [Hw0 Hws'].
  assert (Ha0 : is_space a0 = false).
  { apply word_not_space. rewrite Ea in Wa. now inversion Wa. }
  unfold quoted_attribute. rewrite Ew. list_norm.
  cbn [Patterns.quotedAttribute pattern seqs fold_right]. unfold Plus.
  change (rmatch true (Seq ?x ?y) ?k ?s)
    with (rmatch true x (fun s' => rmatch true y k s') s).
  cbn [rmatch rest caps prev]. rewrite Hw0.
  apply star_greedy_take;
    [now apply Forall_forall | rewrite Ea; exact Ha0 |].
  cbn [rest caps prev].
  rewrite (rmatch_same_name attr a) by exact name_ok.
  cbn [rmatch rest caps prev].
  apply star_greedy_take; [now apply Forall_forall | reflexivity |].
  cbn [rest caps prev]. rewrite chr_eq_refl.
  apply star_greedy_take; [now apply Forall_forall | exact not_space_quote |].
  cbn [rest caps prev]. rewrite chr_eq_refl.
  apply star_greedy_take;
    [now apply Forall_forall | simpl; unfold not_char; now rewrite ascii_eqb_refl |].
  cbn [rest caps prev]. now rewrite chr_eq_refl.
Qed.

End BlockedAttribute.

(** No match begins in text without quotes that ends with an opening angle
    bracket and a name: the first attribute of a tag is where the first
    match can begin. *)
Lemma quotedAttribute_not_before (q : ascii) (attr t nm y m1 m2 : jsstring) (x : ascii)
    (pv : option ascii) :
  is_quote q = true -> is_name attr = true ->
  Forall (fun c => not_quote c = true) t ->
  Forall (fun c => in_name c = true) nm ->
  t ++ "<"%char :: nm = m1 ++ x :: m2 ->
  exec_at (Patterns.quotedAttribute q attr) pv (x :: m2 ++ y) = None.
Proof.
  intros Hq Hn Ft Fnm E.
  destruct (exec_at _ _ _) as [[len cs]|] eqn:X; [exfalso|reflexivity].
  apply exec_at_inv in X as (s' & R & _ & _).
  apply (quotedAttribute_shape q attr _ _ _ Hq) in R
    as (sp & a & sp1 & sp2 & v & El & Nsp & Fsp & Ha & F1 & F2 & Fv).
  pose proof (before_value_chars attr sp a sp1 sp2 Hn Ha Fsp F1 F2) as Fh.
  assert (Hx : is_space x = true).
  { destruct sp as [|s0 sp]; [congruence|]. cbn [app] in El. injection El as -> _.
    now inversion Fsp. }
  assert (Fpre : Forall (fun c => not_quote c = true) (x :: m2)).
  { assert (F : Forall (fun c => not_quote c = true) (t ++ "<"%char :: nm)).
    { apply Forall_app. split; [assumption|]. constructor; [reflexivity|].
      eapply Forall_impl; [|exact Fnm]. intros c Hc. unfold in_name in Hc.
      now apply andb_true_iff in Hc as [Hc _]. }
    rewrite E in F. now apply Forall_app in F as [_ F]. }
  assert (El' : (x :: m2) ++ y
                = (sp ++ a ++ sp1 ++ "="%char :: sp2) ++ q :: v ++ q :: rest s')
    by (etransitivity; [exact El|]; list_norm; reflexivity).
  apply (prefix_before_first not_quote) in El' as [h2 Eh]; auto;
    [|unfold not_quote; now rewrite Hq].
  rewrite Eh in Fh. apply Forall_app in Fh as [Fh _]. rewrite Forall_forall in Fh.
  symmetry in E. apply split_at in E as [Hin | Hin].
  - apply Fh in Hin. discriminate.
  - rewrite Forall_forall in Fnm. apply Fnm in Hin. unfold in_name in Hin.
    apply andb_true_iff in Hin as [_ Hin]. now rewrite Hx in Hin.
Qed.

Lemma remove_attribute_after_tag (q : ascii) (attr t nm y : jsstring) :
  is_quote q = true -> is_name attr = true ->
  Forall (fun c => not_quote c = true) t ->
  Forall (fun c => in_name c = true) nm ->
  remove (Patterns.quotedAttribute q attr) ((t ++ "<"%char :: nm) ++ y)
  = (t ++ "<"%char :: nm) ++ remove (Patterns.quotedAttribute q attr) y.
Proof.
  intros Hq Hn Ft Fnm. unfold remove, replace_with. rewrite replace_go_pass.
  - f_equal. apply replace_go_forgets, quotedAttribute_forgets.
  - intros m1 x m2 pv' E. now apply (quotedAttribute_not_before q attr t nm y m1).
Qed.

Section NotMatched.

Variables (attr a ws ws1 ws2 v : jsstring) (q q' : ascii).
Hypothesis attr_name : is_name attr = true.
Hypothesis name_word : Forall (fun x => is_word x = true) a.
Hypothesis name_nonempty : a <> [].
Hypothesis quote_ok : is_quote q = true.
Hypothesis quote_ok' : is_quote q' = true.
Hypothesis other : q' <> q \/ same_name attr a = false.
Hypothesis ws_nonempty : ws <> [].
Hypothesis blank : Forall (fun x => is_space x = true) ws.
Hypothesis blank1 : Forall (fun x => is_space x = true) ws1.
Hypothesis blank2 : Forall (fun x => is_space x = true) ws2.
Hypothesis value_ok :
  Forall (fun x => not_char "=" x = true) v \/ Forall (fun x => is_space x = false) v.

Local Abbreviation A := (quoted_attribute a ws1 ws2 q v).

(** The pattern for another quote, or for another name, matches nowhere in
    the attribute and the white space before it. *)
Lemma attribute_not_matched (post m1 m2 : jsstring) (x : ascii) (pv : option ascii) :
  ws ++ A = m1 ++ x :: m2 ->
  exec_at (Patterns.quotedAttribute q' attr) pv (x :: m2 ++ post) = None.
Proof.
  intro E.
  destruct (exec_at _ _ _) as [[len cs]|] eqn:X; [exfalso|reflexivity].
  apply exec_at_inv in X as (s' & R & _ & _).
  apply (quotedAttribute_shape q' attr _ _ _ quote_ok') in R
    as (sp & a' & sp1 & sp2 & v' & El & Nsp & Fsp & Ha & F1 & F2 & Fv).
  pose proof (before_value_chars attr sp a' sp1 sp2 attr_name Ha Fsp F1 F2) as Fh.
  pose proof (same_name_word _ _ (is_name_forallb _ attr_name) Ha) as Wa'.
  pose proof (same_name_nonempty _ _ (proj1 (is_name_word _ attr_name)) Ha) as Na'.
  assert (Neq : forall l, Forall (fun c => is_space c = true) l ->
                          Forall (fun c => not_char "=" c = true) l).
  { intros l Hl. eapply Forall_impl; [|exact Hl]. intros c Hc.
    unfold not_char. destruct (ascii_eqb c "=") eqn:Ec; [|reflexivity].
    apply ascii_eqb_eq in Ec. subst c. discriminate. }
  assert (Weq : forall l, Forall (fun c => is_word c = true) l ->
                          Forall (fun c => not_char "=" c = true) l).
  { intros l Hl. eapply Forall_impl; [|exact Hl]. intros c Hc.
    unfold not_char. destruct (ascii_eqb c "=") eqn:Ec; [|reflexivity].
    apply ascii_eqb_eq in Ec. subst c. discriminate. }
  assert (Qspace : forall z, is_quote z = true -> is_space z = false)
    by (intros z Hz; apply is_quote_inv in Hz as [-> | ->]; reflexivity).
  assert (Split : ws ++ A = (ws ++ a ++ ws1) ++ "="%char :: (ws2 ++ q :: v ++ [q]))
    by (unfold quoted_attribute; list_norm; reflexivity).
  rewrite Split in E. apply app_eq_app in E as [l [[E1 E2] | [E1 E2]]].
  - (* the match begins before the equals sign, or at it *)
    assert (El' : l ++ "="%char :: (ws2 ++ q :: v ++ q :: post)
                  = (sp ++ a' ++ sp1) ++ "="%char :: (sp2 ++ q' :: v' ++ q' :: rest s')).
    { etransitivity; [|etransitivity; [exact El|]]; [|list_norm; reflexivity].
      change (x :: m2 ++ post) with ((x :: m2) ++ post).
      rewrite E2. list_norm. reflexivity. }
    assert (Fl : Forall (fun c => not_char "=" c = true) l).
    { assert (F : Forall (fun c => not_char "=" c = true) (ws ++ a ++ ws1))
        by (repeat (apply Forall_app; split); auto).
      rewrite E1 in F. now apply Forall_app in F as [_ F]. }
    apply (split_unique (not_char "=")) in El' as (El1 & _ & El2); try reflexivity;
      [|assumption | repeat (apply Forall_app; split); auto].
    apply (split_unique is_space) in El2 as (_ & Hqq & _); auto.
    destruct other as [Hne | Hne]; [congruence|].
    (* the same quote: the name of the match is the name of the attribute *)
    rewrite El1 in E1.
    destruct (exists_last name_nonempty) as (b & z & Eb).
    destruct (exists_last Na') as (b' & z' & Eb').
    assert (Hz : is_space z = false).
    { apply word_not_space. rewrite Eb in name_word.
      apply Forall_app in name_word as [_ W]. now inversion W. }
    assert (Hz' : is_space z' = false).
    { apply word_not_space. rewrite Eb' in Wa'.
      apply Forall_app in Wa' as [_ W]. now inversion W. }
    assert (E3 : (ws ++ b) ++ z :: ws1 = (m1 ++ sp ++ b') ++ z' :: sp1)
      by (etransitivity; [|etransitivity; [exact E1|]];
          [rewrite Eb | rewrite Eb']; list_norm; reflexivity).
    apply (split_unique_r is_space) in E3 as (E3 & Hzz & _); auto.
    destruct (exists_last ws_nonempty) as (w & y & Ew).
    destruct (exists_last Nsp) as (sp0 & y' & Esp).
    assert (Hy : is_word y = false).
    { apply space_not_word. rewrite Ew in blank.
      apply Forall_app in blank as [_ W]. now inversion W. }
    assert (Hy' : is_word y' = false).
    { apply space_not_word. rewrite Esp in Fsp.
      apply Forall_app in Fsp as [_ W]. now inversion W. }
    assert (E4 : w ++ y :: a = (m1 ++ sp0) ++ y' :: a').
    { rewrite Eb, Eb'. rewrite Ew, Esp in E3. subst z'.
      assert (E5 : (w ++ y :: b) ++ [z] = ((m1 ++ sp0) ++ y' :: b') ++ [z])
        by (f_equal; etransitivity; [|etransitivity; [exact E3|]];
            list_norm; reflexivity).
      etransitivity; [|etransitivity; [exact E5|]]; list_norm; reflexivity. }
    apply (split_unique_r is_word) in E4 as (_ & _ & E4); auto.
    subst a'. congruence.
  - (* the match begins after the equals sign *)
    destruct l as [|z l]; cbn [app] in E2.
    + (* at the equals sign itself: the match begins with white space *)
      injection E2 as <- _. destruct sp as [|s0 sp]; [congruence|].
      cbn [app] in El. injection El as <- _. inversion Fsp; subst. discriminate.
    + injection E2 as _ E2. destruct value_ok as [Veq | Vsp].
      * (* a value without an equals sign *)
        assert (Fu : Forall (fun c => not_char "=" c = true) (x :: m2)).
        { assert (F : Forall (fun c => not_char "=" c = true) (ws2 ++ q :: v ++ [q])).
          { apply Forall_app. split; [auto|].
            assert (Hq : not_char "=" q = true)
              by (apply is_quote_inv in quote_ok as [-> | ->]; reflexivity).
            constructor; [exact Hq|]. apply Forall_app. split; [exact Veq|].
            constructor; [exact Hq | constructor]. }
          rewrite E2 in F. now apply Forall_app in F as [_ F]. }
        assert (El' : (x :: m2) ++ post
                      = (sp ++ a' ++ sp1) ++ "="%char :: sp2 ++ q' :: v' ++ q' :: rest s')
          by (etransitivity; [exact El|]; list_norm; reflexivity).
        apply (prefix_before_first (not_char "=")) in El' as [h2 Eh]; auto.
        assert (Hin : In q (sp ++ a' ++ sp1)).
        { rewrite Eh. apply in_or_app. left.
          destruct (exists_last (l := x :: m2) ltac:(discriminate)) as (u & z' & Eu).
          rewrite Eu. apply in_or_app. right.
          assert (z' = q); [|subst; now left].
          rewrite Eu in E2.
          assert (E3 : (ws2 ++ q :: v) ++ [q] = (l ++ u) ++ [z'])
            by (etransitivity; [|etransitivity; [exact E2|]]; list_norm; reflexivity).
          apply app_inj_tail in E3 as [_ E3]. now symmetry. }
        assert (Fq : Forall (fun c => is_space c || is_word c = true) (sp ++ a' ++ sp1)).
        { repeat (apply Forall_app; split);
            (eapply Forall_impl; [|eassumption]); intros c Hc; cbv beta in Hc;
            rewrite Hc; auto using orb_true_r. }
        rewrite Forall_forall in Fq. apply Fq in Hin.
        rewrite (Qspace q quote_ok) in Hin. cbn [orb] in Hin.
        apply is_quote_inv in quote_ok as [-> | ->]; discriminate.
      * (* a value without white space *)
        assert (Hx : is_space x = true).
        { destruct sp as [|s0 sp]; [congruence|]. cbn [app] in El.
          injection El as -> _. now inversion Fsp. }
        apply app_eq_app in E2 as [l2 [[E3 E4] | [E3 E4]]].
        -- destruct l2 as [|y l2]; cbn [app] in E4.
           ++ injection E4 as -> _. now rewrite (Qspace q quote_ok) in Hx.
           ++ assert (Fy : Forall (fun c => is_space c = true) (y :: l2))
                by (rewrite E3 in blank2; now apply Forall_app in blank2 as [_ F]).
              assert (El' : (y :: l2) ++ q :: (v ++ q :: post)
                            = sp ++ (hd q a') :: (tl a' ++ sp1 ++ "="%char :: sp2 ++
                                                  q' :: v' ++ q' :: rest s')).
              { etransitivity; [|etransitivity; [exact El|]].
                - change (x :: m2 ++ post) with ((x :: m2) ++ post).
                  rewrite E4. list_norm. reflexivity.
                - destruct a' as [|c a'']; [congruence|]. reflexivity. }
              assert (Hhd : is_word (hd q a') = true)
                by (destruct a' as [|c a'']; [congruence|]; now inversion Wa').
              apply (split_unique is_space) in El' as (_ & Hq' & _); auto;
                [|now apply word_not_space].
              rewrite <- Hq' in Hhd.
              apply is_quote_inv in quote_ok as [-> | ->]; discriminate.
        -- assert (Hin : In x (q :: v ++ [q]))
             by (rewrite E4; apply in_or_app; right; now left).
           destruct Hin as [<- | Hin]; [now rewrite (Qspace q quote_ok) in Hx|].
           apply in_app_or in Hin as [Hin | [<- | []]];
             [|now rewrite (Qspace q quote_ok) in Hx].
           rewrite Forall_forall in Vsp. apply Vsp in Hin. congruence.
Qed.

Lemma remove_not_matched (post : jsstring) :
  remove (Patterns.quotedAttribute q' attr) ((ws ++ A) ++ post)
  = (ws ++ A) ++ remove (Patterns.quotedAttribute q' attr) post.
Proof.
  unfold remove, replace_with. rewrite replace_go_pass.
  - f_equal. apply replace_go_forgets, quotedAttribute_forgets.
  - intros m1 x m2 pv' E. now apply (attribute_not_matched post m1).
Qed.

End NotMatched.

Section FirstAttribute.

Variables (text name ws a ws1 ws2 v : jsstring) (q : ascii).
Hypothesis text_plain : Forall (fun x => not_quote x = true) text.
Hypothesis name_plain : Forall (fun x => in_name x = true) name.
Hypothesis name_word : Forall (fun x => is_word x = true) a.
Hypothesis name_nonempty : a <> [].
Hypothesis ws_nonempty : ws <> [].
Hypothesis blank : Forall (fun x => is_space x = true) ws.
Hypothesis blank1 : Forall (fun x => is_space x = true) ws1.
Hypothesis blank2 : Forall (fun x => is_space x = true) ws2.
Hypothesis quote_ok : is_quote q = true.
Hypothesis value_ok : Forall (fun x => not_char q x = true) v.
Hypothesis value_ok' :
  Forall (fun x => not_char "=" x = true) v \/ Forall (fun x => is_space x = false) v.

Local Abbreviation A := (quoted_attribute a ws1 ws2 q v).
Local Abbreviation pre := (text ++ "<"%char :: name).

Lemma removeAttribute_after_tag (attr y : jsstring) :
  is_name attr = true ->
  removeAttribute (pre ++ y) attr = pre ++ removeAttribute y attr.
Proof.
  intro Hattr. unfold removeAttribute.
  rewrite (remove_attribute_after_tag squote) by auto.
  now rewrite (remove_attribute_after_tag dquote) by auto.
Qed.

(** The two replacements for the name of the attribute. *)
Lemma removeAttribute_same (attr after : jsstring) :
  is_name attr = true -> same_name attr a = true ->
  removeAttribute ((ws ++ A) ++ after) attr = removeAttribute after attr.
Proof.
  intros Hattr Ha. unfold removeAttribute.
  assert (At : forall post,
             remove (Patterns.quotedAttribute q attr) ((ws ++ A) ++ post)
             = remove (Patterns.quotedAttribute q attr) post).
  { intro post.
    apply (remove_matched _ (ws ++ A) post (Some q) []);
      [apply quotedAttribute_forgets | destruct ws; [congruence | discriminate] |].
    rewrite <- app_assoc. now apply quotedAttribute_at_attribute. }
  destruct (is_quote_inv _ quote_ok) as [Eq | Eq].
  - (* double quotes: the first replacement passes over the attribute *)
    rewrite (remove_not_matched attr a ws ws1 ws2 v q squote); auto;
      [|left; rewrite Eq; discriminate].
    rewrite <- Eq. now rewrite At.
  - (* single quotes: the first replacement removes it *)
    rewrite <- Eq at 1. rewrite At. now rewrite Eq.
Qed.

(** The two replacements for another name. *)
Lemma removeAttribute_other (attr after : jsstring) :
  is_name attr = true -> same_name attr a = false ->
  removeAttribute ((ws ++ A) ++ after) attr = (ws ++ A) ++ removeAttribute after attr.
Proof.
  intros Hattr Ha. unfold removeAttribute.
  rewrite (remove_not_matched attr a ws ws1 ws2 v q squote); auto.
  now rewrite (remove_not_matched attr a ws ws1 ws2 v q dquote); auto.
Qed.

Lemma removeAttributes_after_tag (attrs : list jsstring) :
  forallb is_name attrs = true ->
  forall y, fold_left removeAttribute attrs (pre ++ y)
            = pre ++ fold_left removeAttribute attrs y.
Proof.
  induction attrs as [|attr attrs IH]; intros Hn y; cbn [fold_left]; [reflexivity|].
  cbn [forallb] in Hn. apply andb_true_iff in Hn as [Hattr Hn].
  rewrite removeAttribute_after_tag by assumption. now apply IH.
Qed.

Lemma removeAttributes_attribute (attrs : list jsstring) :
  forallb is_name attrs = true ->
  existsb (fun attr => same_name attr a) attrs = true ->
  forall after, fold_left removeAttribute attrs ((ws ++ A) ++ after)
                = fold_left removeAttribute attrs after.
Proof.
  induction attrs as [|attr attrs IH]; intros Hn He after; [discriminate|].
  cbn [forallb existsb fold_left] in *. apply andb_true_iff in Hn as [Hattr Hn].
  destruct (same_name attr a) eqn:E.
  - now rewrite removeAttribute_same.
  - rewrite removeAttribute_other by assumption. now apply IH.
Qed.

End FirstAttribute.

Lemma removeAttributes_first (attrs : list jsstring)
    (text name ws a ws1 ws2 v after : jsstring) (q : ascii) :
  forallb is_name attrs = true ->
  existsb (fun attr => same_name attr a) attrs = true ->
  forallb not_quote text = true ->
  forallb in_name name = true ->
  ws <> [] ->
  forallb is_space ws = true ->
  forallb is_space ws1 = true ->
  forallb is_space ws2 = true ->
  is_quote q = true ->
  forallb (not_char q) v = true ->
  forallb (not_char "=") v = true \/ forallb no_space v = true ->
  fold_left removeAttribute attrs
    ((text ++ "<"%char :: name) ++ (ws ++ quoted_attribute a ws1 ws2 q v) ++ after)
  = (text ++ "<"%char :: name) ++ fold_left removeAttribute attrs after.
Proof.
  intros Hattrs Hin Ht Hn Nws Hws Hws1 Hws2 Hq Hv Hv'.
  apply Forall_forallb in Ht, Hn, Hws, Hws1, Hws2, Hv.
  assert (Hv'' : Forall (fun x => not_char "=" x = true) v
                 \/ Forall (fun x => is_space x = false) v).
  { destruct Hv' as [H | H]; [left; now apply Forall_forallb|right].
    apply Forall_forallb in H. eapply Forall_impl; [|exact H].
    intros x Hx. now apply negb_true_iff. }
  destruct (existsb_exists (fun t => same_name t a) attrs) as [Ex _].
  destruct (Ex Hin) as (attr & Hattr & Ha).
  rewrite forallb_forall in Hattrs. pose proof (Hattrs attr Hattr) as Hname.
  rewrite <- forallb_forall in Hattrs.
  pose proof (same_name_word _ _ (is_name_forallb _ Hname) Ha) as Wa.
  pose proof (same_name_nonempty _ _ (proj1 (is_name_word _ Hname)) Ha) as Na.
  rewrite removeAttributes_after_tag by assumption.
  now rewrite (removeAttributes_attribute ws a ws1 ws2 v q).
Qed.

(** ** URLs that are kept *)

Section AllowedUrl.

Context {U : URLParser}.

(** X17. A quoted [href] or [src] attribute whose value parses with a
    protocol of [allowedProtocols] (or when there is no such list), other
    than [data:], is left as it is by the URL pass, character for character.
    (The name in any case, optional white space around the equals sign; the
    attribute after text without quotes, a value without quotes.) *)
Theorem sanitizeUrls_keeps_allowed_url (this : Sanitizer)
    (before after attr ws1 ws2 url p : jsstring) (q : ascii) :
  href_or_src attr = true ->
  is_quote q = true ->
  forallb is_space ws1 = true ->
  forallb is_space ws2 = true ->
  url <> [] ->
  forallb not_quote url = true ->
  forallb not_quote before = true ->
  url_protocol url = Some p ->
  match allowedProtocols (config this) with
  | Some l => includes l p = true
  | None => True
  end ->
  jsstring_eqb p (str "data:") = false ->
  sanitizeUrls this (before ++ quoted_attribute attr ws1 ws2 q url ++ after)
  = before ++ quoted_attribute attr ws1 ws2 q url ++ sanitizeUrls this after.
Proof.
  intros Hattr Hq Hws1 Hws2 Hurl Hfree Hbefore Hp Hl Hd.
  assert (Hq' : q = squote \/ q = dquote) by (apply is_quote_inv in Hq; tauto).
  rewrite forallb_forall in Hws1, Hws2, Hfree, Hbefore.
  rewrite <- Forall_forall in Hws1, Hws2, Hfree, Hbefore.
  rewrite sanitizeUrls_attribute by assumption.
  unfold urlReplacer. cbn [group capture Nat.eqb]. rewrite Hp, Hd.
  destruct (allowedProtocols (config this)) as [l|]; [rewrite Hl|]; reflexivity.
Qed.

End AllowedUrl.

(** X17: an [https:] link, under the default policy. *)
Lemma sanitizeUrls_keeps_allowed_url_witness :
  sanitizeUrls (U := scheme_parser) (new_Sanitizer None)
    (qstr "<a HREF = `https://example.com/?a=1`>link</a>")
  = qstr "<a HREF = `https://example.com/?a=1`>link</a>".
Proof.
  apply (@sanitizeUrls_keeps_allowed_url scheme_parser (new_Sanitizer None)
           (str "<a ") (str ">link</a>") (str "HREF") (str " ") (str " ")
           (str "https://example.com/?a=1") (str "https:") dquote);
    try reflexivity.
  discriminate.
Defined.

(** ** The URLs of removeUnsafe *)

(** The head of an attribute, up to its opening quote, read in two ways. *)
Lemma attribute_head_unique (m a ws1 ws2 a' sp1 sp2 : jsstring) :
  href_or_src a = true -> href_or_src a' = true ->
  Forall (fun x => is_space x = true) ws1 -> Forall (fun x => is_space x = true) ws2 ->
  Forall (fun x => is_space x = true) sp1 -> Forall (fun x => is_space x = true) sp2 ->
  m ++ a ++ ws1 ++ "="%char :: ws2 = a' ++ sp1 ++ "="%char :: sp2 ->
  m = [].
Proof.
  intros Ha Ha' F1 F2 G1 G2 E.
  assert (E1 : (m ++ a ++ ws1) ++ "="%char :: ws2 = (a' ++ sp1) ++ "="%char :: sp2)
    by (etransitivity; [|etransitivity; [exact E|]]; list_norm; reflexivity).
  apply (split_unique_r is_space) in E1 as (E1 & _ & _); auto.
  destruct (href_or_src_word _ Ha) as [Wa Na].
  destruct (href_or_src_word _ Ha') as [Wa' Na'].
  destruct (exists_last Na) as (b & z & Eb).
  destruct (exists_last Na') as (b' & z' & Eb').
  assert (Hz : is_space z = false).
  { apply word_not_space. rewrite Eb in Wa.
    apply Forall_app in Wa as [_ W]. now inversion W. }
  assert (Hz' : is_space z' = false).
  { apply word_not_space. rewrite Eb' in Wa'.
    apply Forall_app in Wa' as [_ W]. now inversion W. }
  assert (E2 : (m ++ b) ++ z :: ws1 = b' ++ z' :: sp1)
    by (rewrite Eb, Eb' in E1;
        etransitivity; [|etransitivity; [exact E1|]]; list_norm; reflexivity).
  apply (split_unique_r is_space) in E2 as (E2 & -> & _); auto.
  assert (Em : a' = m ++ a) by (rewrite Eb, Eb', <- E2; now rewrite app_assoc).
  rewrite Em in Ha'. now apply (href_or_src_suffix m a).
Qed.

Lemma schemeUrl_forgets (scheme : jsstring) : forgets_prev (Patterns.schemeUrl scheme).
Proof.
  apply forgets_no_boundary.
  cbn [Patterns.schemeUrl Patterns.hrefOrSrc pattern seqs fold_right no_boundary andb
       lits map str list_ascii_of_string].
  induction scheme as [|c s IH]; [reflexivity | exact IH].
Qed.

Lemma same_name_quote_free (n a : jsstring) :
  forallb not_quote n = true -> same_name n a = true ->
  Forall (fun x => not_quote x = true) a.
Proof.
  revert a. induction n as [|c n IH]; intros [|x a] Hn H; try discriminate; [constructor|].
  cbn [forallb same_name] in *. apply andb_true_iff in Hn as [Hc Hn].
  apply andb_true_iff in H as [Hx H]. constructor; [|now apply IH].
  unfold not_quote. destruct (is_quote x) eqn:E; [|reflexivity].
  assert (Q : chr_eq true x c = true)
    by (unfold chr_eq in *; apply ascii_eqb_eq in Hx; rewrite Hx; apply ascii_eqb_refl).
  apply is_quote_inv in E as [-> | ->];
    [apply (chr_eq_alone true dquote _ eq_refl) in Q
    |apply (chr_eq_alone true squote _ eq_refl) in Q]; subst c; discriminate.
Qed.

Section SchemeAttribute.

Variables (scheme a ws1 ws2 sch v : jsstring) (z1 z2 : ascii).
Hypothesis name_ok : href_or_src a = true.
Hypothesis blank1 : Forall (fun x => is_space x = true) ws1.
Hypothesis blank2 : Forall (fun x => is_space x = true) ws2.
Hypothesis quote1 : is_quote z1 = true.
Hypothesis quote2 : is_quote z2 = true.
Hypothesis scheme_ok : same_name scheme sch = true.
Hypothesis scheme_plain : forallb not_quote scheme = true.
Hypothesis value_plain : Forall (fun x => not_quote x = true) v.

Local Abbreviation A := (scheme_attribute a ws1 ws2 z1 sch v z2).

Lemma scheme_attribute_app (post : jsstring) :
  A ++ post = (a ++ ws1 ++ "="%char :: ws2) ++ z1 :: (sch ++ v) ++ z2 :: post.
Proof. unfold scheme_attribute. list_norm. reflexivity. Qed.

(** The pattern matches at the attribute, up to the first quote after the
    scheme. *)
Lemma schemeUrl_at_attribute (post : jsstring) (pv : option ascii) :
  rmatch true (pattern (Patterns.schemeUrl scheme)) Some (MState pv (A ++ post) [])
  = Some (MState (Some z2) post [(1, a)]).
Proof.
  unfold scheme_attribute. list_norm.
  cbn [Patterns.schemeUrl Patterns.hrefOrSrc pattern seqs fold_right rmatch].
  set (after := ws1 ++ "="%char :: ws2 ++ z1 :: sch ++ v ++ z2 :: post).
  set (found := Some (MState (Some z2) post [(1, a)])).
  assert (K : forall k : mstate -> option mstate,
             k (MState (end_prev pv a) after []) = found ->
             orelse (rmatch true (lits (str "href")) k (MState pv (a ++ after) []))
                    (rmatch true (lits (str "src")) k (MState pv (a ++ after) []))
             = found).
  { intros k Hk. destruct (href_or_src_cases _ name_ok) as [H | H].
    - rewrite (rmatch_same_name _ _ _ _ _ _ H), Hk. reflexivity.
    - rewrite (rmatch_same_name (str "src") _ _ _ _ _ H), Hk.
      rewrite (lits_href_not_src a after k pv H). reflexivity. }
  apply K. unfold after, found. cbn [rest caps prev].
  rewrite firstn_length_app.
  apply star_greedy_take; [now apply Forall_forall | reflexivity |].
  cbn [rest caps prev]. rewrite chr_eq_refl.
  apply star_greedy_take;
    [now apply Forall_forall
    |apply is_quote_inv in quote1 as [-> | ->]; reflexivity |].
  cbn [rest caps prev]. fold is_quote. rewrite quote1.
  change (rmatch true (Seq ?x ?y) ?k ?s)
    with (rmatch true x (fun s' => rmatch true y k s') s).
  rewrite (rmatch_same_name scheme sch) by exact scheme_ok.
  cbn [rmatch rest caps prev].
  apply star_greedy_take.
  - intros x Hx. rewrite Forall_forall in value_plain. apply value_plain in Hx.
    unfold not_quote, is_quote, one_of in Hx. unfold not_chars.
    now rewrite <- negb_orb.
  - simpl. unfold not_chars. fold (one_of dquote squote z2). rewrite <- negb_orb.
    fold (one_of dquote squote z2). fold is_quote. now rewrite quote2.
  - cbn [rest caps prev]. fold is_quote. now rewrite quote2.
Qed.

End SchemeAttribute.

Section SchemePattern.

Variables (scheme0 before a ws1 ws2 sch v : jsstring) (z1 z2 : ascii).
Hypothesis name_ok : href_or_src a = true.
Hypothesis blank1 : Forall (fun x => is_space x = true) ws1.
Hypothesis blank2 : Forall (fun x => is_space x = true) ws2.
Hypothesis quote1 : is_quote z1 = true.
Hypothesis quote2 : is_quote z2 = true.
Hypothesis before_plain : Forall (fun x => not_quote x = true) before.

Local Abbreviation A := (scheme_attribute a ws1 ws2 z1 sch v z2).

Lemma head_plain : Forall (fun x => not_quote x = true) (a ++ ws1 ++ "="%char :: ws2).
Proof. now apply before_quote_plain. Qed.

Lemma not_quote_quote (z : ascii) : is_quote z = true -> not_quote z = false.
Proof. intro H. unfold not_quote. now rewrite H. Qed.

(** No match of a pattern of this kind begins in the text before the
    attribute. *)
Lemma schemeUrl_not_before (post m1 m2 : jsstring) (x : ascii) (pv : option ascii) :
  before = m1 ++ x :: m2 ->
  exec_at (Patterns.schemeUrl scheme0) pv (x :: m2 ++ A ++ post) = None.
Proof.
  intro E.
  destruct (exec_at _ _ _) as [[len cs]|] eqn:X; [exfalso|reflexivity].
  apply exec_at_inv in X as (s' & R & _ & _).
  apply schemeUrl_shape in R
    as (a' & sp1 & sp2 & y1 & sch' & v' & y2 & El & Ha' & F1 & F2 & Hy1 & _ & _ & _ & _).
  assert (Fm : Forall (fun c => not_quote c = true) (x :: m2))
    by (rewrite E in before_plain; now apply Forall_app in before_plain as [_ F]).
  assert (El' : ((x :: m2) ++ a ++ ws1 ++ "="%char :: ws2) ++ z1 :: (sch ++ v) ++ z2 :: post
                = (a' ++ sp1 ++ "="%char :: sp2) ++ y1 :: sch' ++ v' ++ y2 :: rest s').
  { etransitivity; [|etransitivity; [exact El|]]; [|list_norm; reflexivity].
    unfold scheme_attribute. list_norm. reflexivity. }
  apply (split_unique not_quote) in El' as (El' & _ & _);
    auto using not_quote_quote, before_quote_plain.
  - apply attribute_head_unique in El'; auto. discriminate.
  - apply Forall_app. split; [assumption | exact head_plain].
Qed.

Hypothesis differs :
  match scheme0, sch ++ v with
  | c :: _, s :: _ => chr_eq true c s = false
  | _, _ => False
  end.
Hypothesis value_plain : Forall (fun x => not_quote x = true) (sch ++ v).
Hypothesis value_no_equals : Forall (fun x => not_char "=" x = true) (sch ++ v).

(** A pattern whose scheme begins with another character than the value
    matches nowhere up to the end of the attribute. *)
Lemma schemeUrl_steps_over (post m1 m2 : jsstring) (x : ascii) (pv : option ascii) :
  before ++ A = m1 ++ x :: m2 ->
  exec_at (Patterns.schemeUrl scheme0) pv (x :: m2 ++ post) = None.
Proof.
  intro E.
  destruct (exec_at _ _ _) as [[len cs]|] eqn:X; [exfalso|reflexivity].
  apply exec_at_inv in X as (s' & R & _ & _).
  apply schemeUrl_shape in R
    as (a' & sp1 & sp2 & y1 & sch' & v' & y2 & El & Ha' & F1 & F2 & Hy1 & Hs' & _ & _ & _).
  pose proof (before_quote_plain a' sp1 sp2 Ha' F1 F2) as Fh'.
  assert (Split : before ++ A
                  = (before ++ a ++ ws1 ++ "="%char :: ws2) ++ z1 :: ((sch ++ v) ++ [z2]))
    by (unfold scheme_attribute; list_norm; reflexivity).
  rewrite Split in E. apply app_eq_app in E as [l [[E1 E2] | [E1 E2]]].
  - (* the match begins before the opening quote *)
    assert (Fl : Forall (fun c => not_quote c = true) l).
    { assert (F : Forall (fun c => not_quote c = true)
                         (before ++ a ++ ws1 ++ "="%char :: ws2))
        by (apply Forall_app; split; [assumption | exact head_plain]).
      rewrite E1 in F. now apply Forall_app in F as [_ F]. }
    assert (El' : l ++ z1 :: ((sch ++ v) ++ z2 :: post)
                  = (a' ++ sp1 ++ "="%char :: sp2) ++ y1 :: (sch' ++ v' ++ y2 :: rest s')).
    { etransitivity; [|etransitivity; [exact El|]]; [|list_norm; reflexivity].
      change (x :: m2 ++ post) with ((x :: m2) ++ post).
      rewrite E2. list_norm. reflexivity. }
    apply (split_unique not_quote) in El' as (_ & _ & El'); auto using not_quote_quote.
    destruct scheme0 as [|c0 s0]; [contradiction|].
    destruct (sch ++ v) as [|s sv]; [contradiction|].
    destruct sch' as [|c sch']; [discriminate|].
    cbn [same_name] in Hs'. apply andb_true_iff in Hs' as [Hc _].
    cbn [app] in El'. injection El' as <- _. congruence.
  - destruct l as [|z l]; cbn [app] in E2.
    + (* at the opening quote *)
      injection E2 as <- _.
      destruct (href_or_src_word _ Ha') as [Wa' Na'].
      destruct a' as [|c a']; [congruence|]. cbn [app] in El. injection El as <- _.
      inversion Wa'; subst.
      apply is_quote_inv in quote1 as [-> | ->]; discriminate.
    + (* inside the value, or at the closing quote *)
      injection E2 as _ E2.
      destruct (exists_last (l := x :: m2) ltac:(discriminate)) as (u & z' & Eu).
      assert (E3 : (sch ++ v) ++ [z2] = (l ++ u) ++ [z'])
        by (etransitivity; [exact E2|]; rewrite Eu; list_norm; reflexivity).
      apply app_inj_tail in E3 as [E3 <-].
      assert (Fu : Forall (fun c => not_quote c = true) u)
        by (rewrite E3 in value_plain; now apply Forall_app in value_plain as [_ F]).
      assert (Nu : Forall (fun c => not_char "=" c = true) u)
        by (rewrite E3 in value_no_equals;
            now apply Forall_app in value_no_equals as [_ F]).
      assert (El' : u ++ z2 :: post
                    = (a' ++ sp1 ++ "="%char :: sp2) ++ y1 :: sch' ++ v' ++ y2 :: rest s').
      { etransitivity; [|etransitivity; [exact El|]]; [|list_norm; reflexivity].
        change (x :: m2 ++ post) with ((x :: m2) ++ post).
        rewrite Eu. list_norm. reflexivity. }
      apply (split_unique not_quote) in El' as (El' & _ & _); auto using not_quote_quote.
      rewrite El' in Nu. apply Forall_app in Nu as [_ Nu].
      apply Forall_app in Nu as [_ Nu]. inversion Nu. discriminate.
Qed.

End SchemePattern.

Section SchemePass.

Variables (scheme before a ws1 ws2 sch v : jsstring) (z1 z2 : ascii).
Hypothesis name_ok : href_or_src a = true.
Hypothesis blank1 : Forall (fun x => is_space x = true) ws1.
Hypothesis blank2 : Forall (fun x => is_space x = true) ws2.
Hypothesis quote1 : is_quote z1 = true.
Hypothesis quote2 : is_quote z2 = true.
Hypothesis before_plain : Forall (fun x => not_quote x = true) before.
Hypothesis scheme_ok : same_name scheme sch = true.
Hypothesis value_plain : Forall (fun x => not_quote x = true) v.

Local Abbreviation A := (scheme_attribute a ws1 ws2 z1 sch v z2).

(** The replacement for the scheme of the attribute. *)
Lemma replace_scheme_attribute (post : jsstring) :
  replace_with (Patterns.schemeUrl scheme) hash_replacement (before ++ A ++ post)
  = before ++ hash_attribute a
    ++ replace_with (Patterns.schemeUrl scheme) hash_replacement post.
Proof.
  unfold replace_with. rewrite replace_go_pass.
  - f_equal.
    rewrite (replace_go_matched (Patterns.schemeUrl scheme) hash_replacement A post _
               (Some z2) [(1, a)]).
    + unfold hash_replacement at 1. cbn [group capture Nat.eqb]. f_equal.
      apply replace_go_forgets, schemeUrl_forgets.
    + unfold scheme_attribute. destruct (href_or_src_word _ name_ok) as [_ N].
      destruct a; [congruence | discriminate].
    + now apply schemeUrl_at_attribute.
  - intros m1 x m2 pv' E. now apply (schemeUrl_not_before scheme before a ws1 ws2 sch v z1 z2
                                       name_ok blank1 blank2 quote1 before_plain post m1).
Qed.

End SchemePass.

Lemma replace_other_scheme (scheme0 before a ws1 ws2 sch v : jsstring) (z1 z2 : ascii)
    (post : jsstring) :
  href_or_src a = true ->
  Forall (fun x => is_space x = true) ws1 ->
  Forall (fun x => is_space x = true) ws2 ->
  is_quote z1 = true -> is_quote z2 = true ->
  Forall (fun x => not_quote x = true) before ->
  match scheme0, sch ++ v with
  | c :: _, s :: _ => chr_eq true c s = false
  | _, _ => False
  end ->
  Forall (fun x => not_quote x = true) (sch ++ v) ->
  Forall (fun x => not_char "=" x = true) (sch ++ v) ->
  replace_with (Patterns.schemeUrl scheme0) hash_replacement
    ((before ++ scheme_attribute a ws1 ws2 z1 sch v z2) ++ post)
  = (before ++ scheme_attribute a ws1 ws2 z1 sch v z2)
    ++ replace_with (Patterns.schemeUrl scheme0) hash_replacement post.
Proof.
  intros Ha F1 F2 Hz1 Hz2 Fb Hd Fv Nv. unfold replace_with. rewrite replace_go_pass.
  - f_equal. apply replace_go_forgets, schemeUrl_forgets.
  - intros m1 x m2 pv' E.
    now apply (schemeUrl_steps_over scheme0 before a ws1 ws2 sch v z1 z2
                 Ha F1 F2 Hz1 Hz2 Fb Hd Fv Nv post m1).
Qed.

(** [removeUnsafe], step by step. *)
Lemma removeUnsafe_text_steps (s : jsstring) :
  removeUnsafe_text s =
  trim (removeUnsafe_urls
          (fold_left removeAttribute unsafeAttributes
             (fold_left removeElement unsafeElements s))).
Proof. reflexivity. Qed.

(** The two replacements at an attribute with one of the two schemes. *)
Lemma removeUnsafe_urls_scheme (before a ws1 ws2 sch v after : jsstring) (z1 z2 : ascii) :
  href_or_src a = true ->
  Forall (fun x => is_space x = true) ws1 ->
  Forall (fun x => is_space x = true) ws2 ->
  is_quote z1 = true ->
  is_quote z2 = true ->
  Forall (fun x => not_quote x = true) before ->
  Forall (fun x => not_quote x = true) v ->
  same_name (str "javascript:") sch = true
  \/ (same_name (str "data:") sch = true /\ Forall (fun x => not_char "=" x = true) v) ->
  removeUnsafe_urls (before ++ scheme_attribute a ws1 ws2 z1 sch v z2 ++ after)
  = before ++ hash_attribute a ++ removeUnsafe_urls after.
Proof.
  intros Ha Hws1 Hws2 Hz1 Hz2 Hb Hv Hs.
  assert (Hash : hash_attribute a = scheme_attribute a [] [] dquote (str "#") [] dquote)
    by reflexivity.
  unfold removeUnsafe_urls. destruct Hs as [Hs | [Hs Hn]].
  - rewrite (replace_scheme_attribute (str "javascript:")) by assumption.
    rewrite Hash, app_assoc.
    rewrite (replace_other_scheme (str "data:")); auto; try (repeat constructor).
    now rewrite <- app_assoc.
  - pose proof (same_name_quote_free (str "data:") sch eq_refl Hs) as Qs.
    assert (Ns : Forall (fun x => not_char "=" x = true) sch).
    { pose proof (same_name_length _ _ Hs) as L.
      destruct sch as [|c1 [|c2 [|c3 [|c4 [|c5 [|c6 r]]]]]]; try discriminate.
      cbn [same_name str list_ascii_of_string] in Hs.
      repeat (apply andb_true_iff in Hs as [? Hs]).
      repeat constructor;
        match goal with
        | H : chr_eq true _ ?c = true |- not_char _ ?c = true =>
            unfold not_char; destruct (ascii_eqb c "=") eqn:Ec; [|reflexivity];
            apply ascii_eqb_eq in Ec; subst c; discriminate
        end. }
    rewrite app_assoc.
    rewrite (replace_other_scheme (str "javascript:")); auto;
      [|destruct sch as [|c r]; [discriminate|];
        cbn [same_name str list_ascii_of_string app] in Hs |- *;
        apply andb_true_iff in Hs as [Hc _];
        destruct (chr_eq true "j" c) eqn:Ej; [|reflexivity];
        unfold chr_eq in Hc, Ej; apply ascii_eqb_eq in Hc, Ej;
        rewrite <- Ej in Hc; discriminate
       |now apply Forall_app | now apply Forall_app].
    rewrite <- app_assoc.
    now rewrite (replace_scheme_attribute (str "data:")) by assumption.
Qed.

(** The two replacements at [attr="#"]. *)
Lemma removeUnsafe_urls_hash (before a after : jsstring) :
  href_or_src a = true ->
  Forall (fun x => not_quote x = true) before ->
  removeUnsafe_urls (before ++ hash_attribute a ++ after)
  = before ++ hash_attribute a ++ removeUnsafe_urls after.
Proof.
  intros Ha Hb.
  assert (Hash : hash_attribute a = scheme_attribute a [] [] dquote (str "#") [] dquote)
    by reflexivity.
  unfold removeUnsafe_urls. rewrite Hash, app_assoc.
  rewrite (replace_other_scheme (str "javascript:")); auto; try (repeat constructor).
  rewrite (replace_other_scheme (str "data:")); auto; try (repeat constructor).
  now rewrite <- app_assoc.
Qed.

(** X18. The two URL replacements of [removeUnsafe] put [attr="#"] in the place
    of an [href] or [src] attribute whose value begins with [javascript:] or
    [data:] (in any case), from the name to the first quote of either kind
    after the scheme; they keep the text before it and go on with the text
    after it.  (The attribute after text without quotes; for [data:], no
    equals sign before that quote.)  Where the element and attribute steps
    of [removeUnsafe] change nothing, this is what it returns, trimmed. *)
Theorem removeUnsafe_neutralizes_scheme
    (before a ws1 ws2 sch v after : jsstring) (z1 z2 : ascii) :
  href_or_src a = true ->
  forallb is_space ws1 = true ->
  forallb is_space ws2 = true ->
  is_quote z1 = true ->
  is_quote z2 = true ->
  forallb not_quote before = true ->
  forallb not_quote v = true ->
  same_name (str "javascript:") sch = true
  \/ (same_name (str "data:") sch = true /\ forallb (not_char "=") v = true) ->
  let text := before ++ scheme_attribute a ws1 ws2 z1 sch v z2 ++ after in
  removeUnsafe_urls text = before ++ hash_attribute a ++ removeUnsafe_urls after
  /\ (fold_left removeElement unsafeElements text = text ->
      fold_left removeAttribute unsafeAttributes text = text ->
      removeUnsafe_text text
      = trim (before ++ hash_attribute a ++ removeUnsafe_urls after)).
Proof.
  intros Ha Hws1 Hws2 Hz1 Hz2 Hb Hv Hs text.
  apply Forall_forallb in Hws1, Hws2, Hb, Hv.
  assert (E : removeUnsafe_urls text
              = before ++ hash_attribute a ++ removeUnsafe_urls after).
  { apply removeUnsafe_urls_scheme; auto.
    destruct Hs as [Hs | [Hs Hn]]; [now left | right].
    split; [assumption | now apply Forall_forallb]. }
  split; [exact E|].
  intros He Hatt. rewrite removeUnsafe_text_steps, He, Hatt. now rewrite E.
Qed.

(** X18: the value holds single quotes, and the match ends at the first of them. *)
Lemma removeUnsafe_neutralizes_scheme_witness :
  removeUnsafe_text (qstr "<a href=`JavaScript:alert('xss')`>Click me</a>")
  = qstr "<a href=`#`xss')`>Click me</a>".
Proof.
  refine (proj2 (removeUnsafe_neutralizes_scheme (str "<a ") (str "href") [] []
                   (str "JavaScript:") (str "alert(") (qstr "xss')`>Click me</a>")
                   dquote squote eq_refl eq_refl eq_refl eq_refl eq_refl eq_refl eq_refl
                   (or_introl eq_refl)) eq_refl eq_refl).
Defined.

(** ** Blocked tags that are not closed *)

Lemma occurs_suffix (p s t : jsstring) : occurs p s = false -> suffix t s -> starts_like p t = false.
Proof.
  intros H [pre ->]. induction pre as [|c pre IH]; cbn [app] in H.
  - destruct t; cbn [occurs] in H; now apply orb_false_iff in H as [H _].
  - cbn [occurs] in H. apply orb_false_iff in H as [_ H]. now apply IH.
Qed.

Lemma lits_refused (p t : jsstring) (k : mstate -> option mstate) (pv : option ascii)
    (cs : captures) :
  starts_like p t = false -> rmatch true (lits p) k (MState pv t cs) = None.
Proof.
  revert t pv. induction p as [|c p IH]; intros t pv H; [discriminate|].
  change (lits (c :: p)) with (Seq (Char c) (lits p)). cbn [rmatch rest].
  destruct t as [|x t]; [reflexivity|]. cbn [starts_like] in H.
  destruct (chr_eq true c x); [|reflexivity]. cbn [andb] in H. now apply IH.
Qed.

Lemma lits_snoc (ci : bool) (p : jsstring) (c : ascii) (k : mstate -> option mstate) :
  forall s, rmatch ci (lits (p ++ [c])) k s
            = rmatch ci (lits p) (fun s' => rmatch ci (Seq (Char c) Empty) k s') s.
Proof.
  induction p as [|x p IH]; intro s; [reflexivity|].
  change (lits ((x :: p) ++ [c])) with (Seq (Char x) (lits (p ++ [c]))).
  change (lits (x :: p)) with (Seq (Char x) (lits p)).
  cbn [rmatch]. destruct (rest s) as [|y t]; [reflexivity|].
  destruct (chr_eq ci x y); [apply IH | reflexivity].
Qed.

(** The end of the element pattern, as the literal text of a closing tag. *)
Lemma closing_as_lits (tag : jsstring) (s : mstate) :
  rmatch true (seqs [lits (str "</"); lits tag; Char Patterns.gt]) Some s
  = rmatch true (lits (close_tag tag)) Some s.
Proof.
  unfold close_tag.
  change (lits ("<"%char :: "/"%char :: tag ++ [Patterns.gt]))
    with (Seq (Char "<") (Seq (Char "/") (lits (tag ++ [Patterns.gt])))).
  cbn [seqs fold_right lits str list_ascii_of_string map rmatch].
  destruct (rest s) as [|x t]; [reflexivity|].
  destruct (chr_eq true "<" x); [|reflexivity]. cbn [rest].
  destruct t as [|y t]; [reflexivity|].
  destruct (chr_eq true "/" y); [|reflexivity].
  now rewrite lits_snoc.
Qed.

(** A pattern whose end is refused at every later position does not
    match. *)
Lemma refused_tail (ci : bool) (rs : list regex) (K : regex)
    (k : mstate -> option mstate) :
  forall s,
    (forall s1, suffix (rest s1) (rest s) -> rmatch ci K k s1 = None) ->
    rmatch ci (fold_right Seq K rs) k s = None.
Proof.
  induction rs as [|r rs IH]; intros s H; cbn [fold_right].
  - apply H, suffix_refl.
  - cbn [rmatch]. apply rmatch_refused. intros s1 S1. apply IH.
    intros s2 S2. apply H. eapply suffix_trans; eassumption.
Qed.

Section UnclosedTag.

Variables (tag n attrs after : jsstring).
Hypothesis tag_name : is_name tag = true.
Hypothesis name_ok : same_name tag n = true.
Hypothesis attrs_ok : forallb in_tag attrs = true.
Hypothesis attrs_apart : apart attrs = true.
Hypothesis not_closed : occurs (close_tag tag) after = false.

Lemma open_tag_no_lt : forall x, In x (n ++ attrs ++ [Patterns.gt]) -> ascii_eqb x "<" = false.
Proof.
  pose proof (same_name_word _ _ (is_name_forallb _ tag_name) name_ok) as Wn.
  rewrite Forall_forall in Wn. destruct (in_tag_inv _ attrs_ok) as [_ Ha].
  intros x Hx. apply in_app_or in Hx as [Hx | Hx]; [now apply word_not_lt, Wn|].
  apply in_app_or in Hx as [Hx | [<- | []]]; [now apply Ha | reflexivity].
Qed.

(** Without a closing tag further on, the element pattern does not match at
    the opening tag. *)
Lemma element_not_closed (pv : option ascii) :
  exec_at (Patterns.element tag) pv ("<"%char :: (n ++ attrs ++ [Patterns.gt]) ++ after)
  = None.
Proof.
  unfold exec_at.
  change (pattern (Patterns.element tag))
    with (fold_right Seq (seqs [lits (str "</"); lits tag; Char Patterns.gt])
            [Char "<"; lits tag; WordBoundary; Star (not_char Patterns.gt);
             Char Patterns.gt; LazyStar any_char]).
  rewrite refused_tail; [reflexivity|].
  intros s1 S1. rewrite closing_as_lits. cbn [rest] in S1.
  destruct s1 as [pv1 t cs1]. cbn [rest] in S1. apply lits_refused.
  destruct S1 as [pre E].
  change ("<"%char :: (n ++ attrs ++ [Patterns.gt]) ++ after)
    with (("<"%char :: n ++ attrs ++ [Patterns.gt]) ++ after) in E.
  apply app_eq_app in E as [l [[E1 E2] | [E1 E2]]].
  - (* in the tag *)
    subst t. destruct l as [|x l]; cbn [app].
    + apply (occurs_suffix _ after); [assumption | apply suffix_refl].
    + destruct pre as [|p0 pre]; cbn [app] in E1.
      * injection E1 as <- E1.
        pose proof (same_name_word _ _ (is_name_forallb _ tag_name) name_ok) as Wn.
        pose proof (same_name_nonempty _ _ (proj1 (is_name_word _ tag_name)) name_ok) as Nn.
        assert (Ex : exists y r, l ++ after = y :: r /\ ascii_eqb y "/" = false).
        { rewrite <- E1.
          assert (En : exists n0 n1, n = n0 :: n1 /\ is_word n0 = true).
          { destruct n as [|n0 n1]; [congruence|]. inversion Wn; subst. eauto. }
          destruct En as (n0 & n1 & -> & H0).
          exists n0, ((n1 ++ attrs ++ [Patterns.gt]) ++ after). split; [reflexivity|].
          destruct (ascii_eqb n0 "/") eqn:E; [|reflexivity].
          apply ascii_eqb_eq in E. subst n0. discriminate. }
        destruct Ex as (y & r & -> & Hy).
        unfold close_tag. cbn [starts_like].
        destruct (chr_eq true "/" y) eqn:E; [|apply andb_false_r].
        apply (chr_eq_alone true "/"%char _ eq_refl) in E. subst y. discriminate.
      * injection E1 as _ E1.
        assert (Hx : ascii_eqb x "<" = false).
        { apply open_tag_no_lt. rewrite E1. apply in_or_app. right. now left. }
        unfold close_tag. cbn [starts_like app].
        destruct (chr_eq true "<" x) eqn:E; [|reflexivity].
        apply (chr_eq_alone true "<"%char _ eq_refl) in E. subst x. discriminate.
  - (* in the text after the tag *)
    apply (occurs_suffix _ after); [assumption|]. now exists l.
Qed.

(** The second pattern matches the tag. *)
Lemma selfClosing_at_tag (post : jsstring) (pv : option ascii) :
  rmatch true (pattern (Patterns.selfClosing tag)) Some
    (MState pv (open_tag n attrs ++ post) [])
  = Some (MState (Some Patterns.gt) post []).
Proof.
  destruct (is_name_word _ tag_name) as [Ht Wt].
  pose proof (same_name_word _ _ (is_name_forallb _ tag_name) name_ok) as Wn.
  pose proof (same_name_nonempty _ _ Ht name_ok) as Nn.
  destruct (in_tag_inv _ attrs_ok) as [Ha _].
  unfold open_tag. list_norm.
  cbn [Patterns.selfClosing pattern seqs fold_right]. unfold Opt.
  change (rmatch true (Seq ?a ?b) ?k ?s)
    with (rmatch true a (fun s' => rmatch true b k s') s).
  cbn [rmatch rest caps prev]. rewrite chr_eq_refl.
  rewrite (rmatch_same_name tag n) by exact name_ok.
  rewrite word_before_name by assumption.
  rewrite word_after_clean
    by (apply starts_clean_app; [now apply apart_clean | reflexivity]).
  cbn [xorb rest caps prev].
  apply star_greedy_take;
    [assumption | simpl; unfold not_char; now rewrite ascii_eqb_refl |].
  cbn [rest caps prev]. rewrite chr_eq_refl.
  reflexivity.
Qed.

End UnclosedTag.

(** X19. The two replacements that [sanitize] and [removeUnsafe] make for
    a blocked element name remove alone a tag of that name that is not
    closed further on (a void element, for one): the text before it is kept
    and the replacements go on with the text after it.  (After text without
    an opening angle bracket; attributes without angle brackets, set apart
    from the name; no closing tag of the name, in any case, in the text
    after it.) *)
Theorem removeElement_unclosed_tag (tag before n attrs after : jsstring) :
  is_name tag = true ->
  same_name tag n = true ->
  forallb in_tag attrs = true ->
  apart attrs = true ->
  forallb (not_char "<") before = true ->
  occurs (close_tag tag) after = false ->
  removeElement (before ++ open_tag n attrs ++ after) tag
  = before ++ removeElement after tag.
Proof.
  intros Ht Hn Ha Hap Hb Hc.
  rewrite removeElement_after_text by assumption. f_equal.
  unfold removeElement.
  assert (E : remove (Patterns.element tag) (open_tag n attrs ++ after)
              = open_tag n attrs ++ remove (Patterns.element tag) after).
  { unfold open_tag.
    change (("<"%char :: n ++ attrs ++ [Patterns.gt]) ++ after)
      with ("<"%char :: (n ++ attrs ++ [Patterns.gt]) ++ after).
    rewrite remove_after_tag;
      [reflexivity | apply element_begins_lt | apply element_forgets
      |now apply element_not_closed | now apply (open_tag_no_lt tag)]. }
  rewrite E.
  apply (remove_matched (Patterns.selfClosing tag) (open_tag n attrs) _
           (Some Patterns.gt) []);
    [apply selfClosing_forgets | discriminate | now apply selfClosing_at_tag].
Qed.

(** X19: an input tag in upper case. *)
Lemma removeElement_unclosed_tag_witness :
  removeElement (str "Name: <INPUT type=text name=q/> <b>bold</b>") (str "input")
  = str "Name:  <b>bold</b>".
Proof.
  apply (removeElement_unclosed_tag (str "input") (str "Name: ") (str "INPUT")
           (str " type=text name=q/") (str " <b>bold</b>"));
    reflexivity.
Defined.

(** ** Blocked attributes, through the whole of sanitize *)

Section TagWithAttribute.

Variables (name ws a ws1 ws2 v : jsstring) (q : ascii).
Hypothesis tag_name : is_name name = true.
Hypothesis name_word : Forall (fun x => is_word x = true) a.
Hypothesis ws_nonempty : ws <> [].
Hypothesis blank : Forall (fun x => is_space x = true) ws.
Hypothesis blank1 : Forall (fun x => is_space x = true) ws1.
Hypothesis blank2 : Forall (fun x => is_space x = true) ws2.
Hypothesis quote_ok : is_quote q = true.
Hypothesis value_ok : Forall (fun x => not_char "<" x = true) v.

Local Abbreviation A := (quoted_attribute a ws1 ws2 q v).

Lemma space_not_lt (x : ascii) : is_space x = true -> ascii_eqb x "<" = false.
Proof.
  intro H. destruct (ascii_eqb x "<") eqn:E; [|reflexivity].
  apply ascii_eqb_eq in E. subst. discriminate.
Qed.

Lemma attribute_no_lt : forall x, In x (ws ++ A) -> ascii_eqb x "<" = false.
Proof.
  rewrite Forall_forall in name_word, blank, blank1, blank2, value_ok.
  assert (Hq : ascii_eqb q "<" = false)
    by (apply is_quote_inv in quote_ok as [-> | ->]; reflexivity).
  intros x Hx. unfold quoted_attribute in Hx.
  repeat (apply in_app_or in Hx as [Hx | Hx] || destruct Hx as [<- | Hx]);
    auto using space_not_lt, word_not_lt; try contradiction.
  apply value_ok in Hx. now apply negb_true_iff in Hx.
Qed.

(** A pattern that does not match at the tag leaves the tag and the
    attribute where they are. *)
Lemma remove_over_tag (re : RegExp) (m y : jsstring) :
  begins_lt re -> forgets_prev re ->
  (forall t, starts_clean is_word t -> exec_at re None ("<"%char :: name ++ t) = None) ->
  starts_clean is_word (m ++ y) ->
  (forall x, In x m -> ascii_eqb x "<" = false) ->
  remove re (("<"%char :: name) ++ m ++ y) = ("<"%char :: name) ++ m ++ remove re y.
Proof.
  intros Hb Hf Hat Hc Hm.
  destruct (is_name_word _ tag_name) as [_ Wn]. rewrite Forall_forall in Wn.
  replace (("<"%char :: name) ++ m ++ y) with ("<"%char :: (name ++ m) ++ y)
    by (list_norm; reflexivity).
  rewrite remove_after_tag; try assumption.
  - list_norm. reflexivity.
  - rewrite <- app_assoc. now apply Hat.
  - intros x Hx. apply in_app_or in Hx as [Hx | Hx]; [now apply word_not_lt, Wn | auto].
Qed.

Lemma doctype_not_at_tag (t : jsstring) :
  exec_at Patterns.doctype None ("<"%char :: name ++ t) = None.
Proof.
  apply is_name_inv in tag_name as (x & n1 & -> & Hx & _).
  unfold exec_at.
  cbn [Patterns.doctype pattern ignoreCase seqs fold_right lits map str
       list_ascii_of_string rmatch rest app].
  rewrite chr_eq_refl. cbn [rest].
  destruct (chr_eq true "!" x) eqn:E; [|reflexivity].
  apply (chr_eq_alone _ "!"%char _ eq_refl) in E. subst x. discriminate.
Qed.

Lemma comment_not_at_tag (t : jsstring) :
  exec_at Patterns.comment None ("<"%char :: name ++ t) = None.
Proof.
  apply is_name_inv in tag_name as (x & n1 & -> & Hx & _).
  unfold exec_at.
  cbn [Patterns.comment pattern ignoreCase seqs fold_right lits map str
       list_ascii_of_string rmatch rest app].
  rewrite chr_eq_refl. cbn [rest].
  destruct (chr_eq false "!" x) eqn:E; [|reflexivity].
  apply (chr_eq_alone _ "!"%char _ eq_refl) in E. subst x. discriminate.
Qed.

Lemma element_not_at_tag (tag t : jsstring) :
  is_name tag = true -> same_name tag name = false -> starts_clean is_word t ->
  exec_at (Patterns.element tag) None ("<"%char :: name ++ t) = None
  /\ exec_at (Patterns.selfClosing tag) None ("<"%char :: name ++ t) = None.
Proof.
  intros Ht Hne Hc.
  destruct (is_name_word _ Ht) as [Hte Wt]. destruct (is_name_word _ tag_name) as [_ Wn].
  assert (Open : forall r,
             rmatch true (Seq (Char "<") (Seq (lits tag) (Seq WordBoundary r))) Some
               (MState None ("<"%char :: name ++ t) []) = None).
  { intros r. cbn [rmatch rest caps prev]. rewrite chr_eq_refl.
    apply name_refused; auto. }
  split; unfold exec_at;
    cbn [Patterns.element Patterns.selfClosing pattern ignoreCase seqs fold_right];
    now rewrite Open.
Qed.

End TagWithAttribute.

Lemma keeps_start_remove (re : RegExp) (y : jsstring) :
  begins_lt re -> forgets_prev re ->
  keeps_start y = true -> keeps_start (remove re y) = true.
Proof.
  intros Hb Hf H. destruct y as [|c r]; [discriminate|]. cbn [keeps_start] in H.
  pose proof H as H'. apply andb_true_iff in H' as [_ Hc].
  change (c :: r) with ([c] ++ r).
  rewrite remove_after_text by (auto; cbn [forallb]; now rewrite Hc).
  exact H.
Qed.

Lemma passes_over_id (pre : jsstring) : passes_over pre (fun s => s).
Proof. intros m y _ _ H. now split. Qed.

Lemma passes_over_compose (pre : jsstring) (P Q : jsstring -> jsstring) :
  passes_over pre P -> passes_over pre Q -> passes_over pre (fun s => Q (P s)).
Proof.
  intros HP HQ m y Hm Hc Hy.
  destruct (HP m y Hm Hc Hy) as [EP KP]. rewrite EP.
  apply HQ; try assumption.
  destruct m as [|x m]; [|exact Hc]. cbn [app].
  destruct (P y) as [|c r]; [exact I|]. cbn [keeps_start] in KP. cbn [starts_clean].
  apply andb_true_iff in KP as [KP _]. now apply negb_true_iff.
Qed.

Lemma passes_over_cond (pre : jsstring) (b : bool) (P : jsstring -> jsstring) :
  passes_over pre P -> passes_over pre (fun s => if b then P s else s).
Proof. intro H. destruct b; [exact H | apply passes_over_id]. Qed.

Lemma passes_over_fold (pre : jsstring) (f : jsstring -> jsstring -> jsstring)
    (l : list jsstring) :
  (forall t, In t l -> passes_over pre (fun s => f s t)) ->
  passes_over pre (fold_left f l).
Proof.
  induction l as [|t l IH]; intro H; cbn [fold_left].
  - apply passes_over_id.
  - apply (passes_over_compose pre (fun s => f s t) (fold_left f l)).
    + apply H. now left.
    + apply IH. intros t' Ht'. apply H. now right.
Qed.

Section StepsOverTag.

Variables (text name : jsstring).
Hypothesis text_ok : forallb (not_char "<") text = true.
Hypothesis tag_name : is_name name = true.

Local Abbreviation pre := (text ++ "<"%char :: name).

Lemma passes_over_remove (re : RegExp) :
  begins_lt re -> forgets_prev re ->
  (forall t, starts_clean is_word t -> exec_at re None ("<"%char :: name ++ t) = None) ->
  passes_over pre (remove re).
Proof.
  intros Hb Hf Hat m y Hm Hc Hy. split; [|now apply keeps_start_remove].
  rewrite <- !app_assoc. rewrite (remove_after_text re text) by assumption.
  f_equal. now apply remove_over_tag.
Qed.

Lemma passes_over_doctype : passes_over pre (remove Patterns.doctype).
Proof.
  apply passes_over_remove;
    [exact doctype_begins_lt | exact doctype_forgets
    |intros t _; now apply doctype_not_at_tag].
Qed.

Lemma passes_over_comment : passes_over pre (remove Patterns.comment).
Proof.
  apply passes_over_remove;
    [exact comment_begins_lt | exact comment_forgets
    |intros t _; now apply comment_not_at_tag].
Qed.

Lemma passes_over_removeElement (tag : jsstring) :
  is_name tag = true -> same_name tag name = false ->
  passes_over pre (fun s => removeElement s tag).
Proof.
  intros Ht Hne. unfold removeElement.
  apply (passes_over_compose pre (remove (Patterns.element tag))
           (remove (Patterns.selfClosing tag)));
    apply passes_over_remove;
    auto using element_begins_lt, element_forgets, selfClosing_begins_lt,
               selfClosing_forgets;
    intros t Hc; now apply (element_not_at_tag name tag_name tag t).
Qed.

Lemma passes_over_removeElements (tags : list jsstring) :
  forallb is_name tags = true ->
  existsb (fun tag => same_name tag name) tags = false ->
  passes_over pre (fold_left removeElement tags).
Proof.
  intros Hn He. apply passes_over_fold. intros t Ht.
  rewrite forallb_forall in Hn. apply passes_over_removeElement; [now apply Hn|].
  destruct (same_name t name) eqn:E; [|reflexivity].
  assert (X : existsb (fun tag => same_name tag name) tags = true)
    by (apply existsb_exists; now exists t).
  congruence.
Qed.

End StepsOverTag.

Lemma word_in_name (x : ascii) : is_word x = true -> in_name x = true.
Proof.
  intro H. unfold in_name. rewrite (word_not_quote x H), (word_not_space x H). reflexivity.
Qed.

Lemma sanitize_text_steps {U : URLParser} (this : Sanitizer) (s : jsstring) :
  sanitize_text this s =
  trim (cleanupEmptyTags (sanitizeUrls this
          match disallowedAttributes (config this) with
          | Some l => fold_left removeAttribute l (element_steps this s)
          | None => element_steps this s
          end)).
Proof. reflexivity. Qed.

(** The steps before the attribute loop leave a tag whose name is not
    blocked where it is, with what follows it up to the next opening angle
    bracket. *)
Lemma passes_over_element_steps (this : Sanitizer) (tags : list jsstring)
    (text name : jsstring) :
  disallowedElements (config this) = Some tags ->
  forallb is_name tags = true ->
  forallb (not_char "<") text = true ->
  is_name name = true ->
  existsb (fun tag => same_name tag name) tags = false ->
  passes_over (text ++ "<"%char :: name) (element_steps this).
Proof.
  intros Htags Ntags Htext Hname Hfree. unfold element_steps. rewrite Htags.
  apply (passes_over_compose _
           (fun s => if flag (stripComments (config this))
                     then remove Patterns.comment
                            (if flag (stripDoctype (config this))
                             then remove Patterns.doctype s else s)
                     else if flag (stripDoctype (config this))
                          then remove Patterns.doctype s else s)
           (fold_left removeElement tags));
    [|now apply passes_over_removeElements].
  apply (passes_over_compose _
           (fun s => if flag (stripDoctype (config this))
                     then remove Patterns.doctype s else s)
           (fun s => if flag (stripComments (config this))
                     then remove Patterns.comment s else s));
    apply passes_over_cond;
    [now apply passes_over_doctype | now apply passes_over_comment].
Qed.

Lemma outside_tags_inv (text : jsstring) :
  forallb outside_tags text = true ->
  forallb not_quote text = true /\ forallb (not_char "<") text = true.
Proof.
  rewrite !forallb_forall. intro H.
  split; intros x Hx; apply H in Hx; unfold outside_tags in Hx;
    now apply andb_true_iff in Hx.
Qed.

Lemma is_name_in_name (name : jsstring) :
  is_name name = true -> Forall (fun x => in_name x = true) name.
Proof.
  intro H. destruct (is_name_word _ H) as [_ W].
  eapply Forall_impl; [|exact W]. exact word_in_name.
Qed.

Lemma keeps_start_clean (after : jsstring) :
  keeps_start after = true -> starts_clean is_word after.
Proof.
  destruct after as [|c r]; [discriminate|]. cbn [keeps_start starts_clean].
  intro H. apply andb_true_iff in H as [H _]. now apply negb_true_iff.
Qed.

Lemma starts_with_space (ws t : jsstring) :
  ws <> [] -> Forall (fun x => is_space x = true) ws -> starts_clean is_word (ws ++ t).
Proof.
  intros N F. destruct ws as [|w0 ws']; [congruence|]. cbn [app starts_clean].
  apply space_not_word. now inversion F.
Qed.

Section BlockedAttributeTheorem.

Context {U : URLParser}.

(** A blocked attribute in the first place of a tag, through every step of
    [sanitize]. *)
Lemma sanitize_blocked_attribute (this : Sanitizer)
    (tags attrs : list jsstring) (text name ws a ws1 ws2 v after : jsstring) (q : ascii) :
  disallowedElements (config this) = Some tags ->
  disallowedAttributes (config this) = Some attrs ->
  forallb is_name tags = true ->
  forallb is_name attrs = true ->
  forallb outside_tags text = true ->
  is_name name = true ->
  existsb (fun tag => same_name tag name) tags = false ->
  existsb (fun attr => same_name attr a) attrs = true ->
  ws <> [] ->
  forallb is_space ws = true ->
  forallb is_space ws1 = true ->
  forallb is_space ws2 = true ->
  is_quote q = true ->
  forallb (fun x => not_char q x && not_char "<" x) v = true ->
  forallb (not_char "=") v = true \/ forallb no_space v = true ->
  keeps_start after = true ->
  sanitize this
    (VString ((text ++ "<"%char :: name) ++ (ws ++ quoted_attribute a ws1 ws2 q v) ++ after))
  = sanitize this (VString ((text ++ "<"%char :: name) ++ after)).
Proof.
  intros Htags Hattrs Ntags Nattrs Htext Hname Hfree Hin Nws Hws Hws1 Hws2 Hq Hv Ve Hafter.
  destruct (outside_tags_inv _ Htext) as [Tq Tl].
  assert (Vq : forallb (not_char q) v = true /\ forallb (not_char "<") v = true).
  { rewrite !forallb_forall. rewrite forallb_forall in Hv.
    split; intros x Hx; apply Hv in Hx; now apply andb_true_iff in Hx. }
  destruct Vq as (Vq & Vl).
  destruct (existsb_exists (fun t => same_name t a) attrs) as [Ex _].
  destruct (Ex Hin) as (attr & Hattr & Ha).
  rewrite forallb_forall in Nattrs. pose proof (Nattrs attr Hattr) as Nattr.
  rewrite <- forallb_forall in Nattrs.
  pose proof (same_name_word _ _ (is_name_forallb _ Nattr) Ha) as Wa.
  pose proof (is_name_in_name _ Hname) as Nin.
  assert (Nin' : forallb in_name name = true)
    by (apply forallb_forall; now apply Forall_forall).
  pose proof (passes_over_element_steps this tags text name Htags Ntags Tl Hname Hfree)
    as P.
  destruct (P (ws ++ quoted_attribute a ws1 ws2 q v) after) as [E1 _];
    [apply (attribute_no_lt ws a ws1 ws2 v q); auto using Forall_forallb
    |rewrite <- app_assoc; apply starts_with_space; auto using Forall_forallb
    |assumption|].
  destruct (P [] after) as [E2 _];
    [intros x [] | now apply keeps_start_clean | assumption|].
  cbn [app] in E2.
  rewrite !sanitize_string, !sanitize_text_steps, Hattrs, E1, E2.
  rewrite (removeAttributes_first attrs text name ws a ws1 ws2 v _ q)
    by assumption.
  rewrite (removeAttributes_after_tag text name) by auto using Forall_forallb.
  reflexivity.
Qed.

(** X21. A blocked attribute in the first place of a tag is removed by
    [sanitize], with the white space before it and nothing else: the result
    is that of the text without it.  (The tag after text without quotes and
    opening angle brackets; the name of the tag not on the block list of
    elements; the attribute name on the block list of attributes, in any
    case; names of word characters on both lists; a value without the quote
    around it and opening angle brackets, and either without an equals sign
    or without white space; after the attribute, a character that is
    neither a word character nor an opening angle bracket.) *)
Theorem sanitize_removes_blocked_attribute (this : Sanitizer)
    (tags attrs : list jsstring) (text name ws a ws1 ws2 v after : jsstring) (q : ascii) :
  disallowedElements (config this) = Some tags ->
  disallowedAttributes (config this) = Some attrs ->
  forallb is_name tags = true ->
  forallb is_name attrs = true ->
  forallb outside_tags text = true ->
  is_name name = true ->
  existsb (fun tag => same_name tag name) tags = false ->
  existsb (fun attr => same_name attr a) attrs = true ->
  ws <> [] ->
  forallb is_space ws = true ->
  forallb is_space ws1 = true ->
  forallb is_space ws2 = true ->
  is_quote q = true ->
  forallb (fun x => not_char q x && not_char "<" x) v = true ->
  forallb (not_char "=") v = true \/ forallb no_space v = true ->
  keeps_start after = true ->
  sanitize this
    (VString ((text ++ "<"%char :: name) ++ (ws ++ quoted_attribute a ws1 ws2 q v) ++ after))
  = sanitize this (VString ((text ++ "<"%char :: name) ++ after)).
Proof. apply sanitize_blocked_attribute. Qed.

End BlockedAttributeTheorem.

(** X21: a click handler before a class, under the default policy. *)
Lemma sanitize_removes_blocked_attribute_witness :
  sanitize (U := scheme_parser) (new_Sanitizer None)
    (qstr "Hi <div onClick = `alert('xss')` class=`safe`>Content</div>")
  = sanitize (U := scheme_parser) (new_Sanitizer None)
      (qstr "Hi <div class=`safe`>Content</div>").
Proof.
  apply (@sanitize_removes_blocked_attribute scheme_parser (new_Sanitizer None)
           default_removed_elements
           (map str ["onclick"; "onload"; "onerror"; "onmouseover"; "onmouseout";
                     "onfocus"; "onblur"; "onchange"; "onsubmit"]%string)
           (str "Hi ") (str "div") (str " ") (str "onClick") (str " ") (str " ")
           (str "alert('xss')") (qstr " class=`safe`>Content</div>") dquote);
    try reflexivity; [discriminate | now left].
Defined.

(** ** Attributes that are not blocked *)

Lemma removeAttributes_other (attrs : list jsstring)
    (text name ws a ws1 ws2 v : jsstring) (q : ascii) :
  forallb is_name attrs = true ->
  existsb (fun attr => same_name attr a) attrs = false ->
  Forall (fun x => not_quote x = true) text ->
  Forall (fun x => in_name x = true) name ->
  Forall (fun x => is_word x = true) a -> a <> [] ->
  ws <> [] ->
  Forall (fun x => is_space x = true) ws ->
  Forall (fun x => is_space x = true) ws1 ->
  Forall (fun x => is_space x = true) ws2 ->
  is_quote q = true ->
  Forall (fun x => not_char "=" x = true) v \/ Forall (fun x => is_space x = false) v ->
  forall y,
    fold_left removeAttribute attrs
      ((text ++ "<"%char :: name) ++ (ws ++ quoted_attribute a ws1 ws2 q v) ++ y)
    = (text ++ "<"%char :: name) ++ (ws ++ quoted_attribute a ws1 ws2 q v)
      ++ fold_left removeAttribute attrs y.
Proof.
  intros Hn He Ft Fn Wa Na Nws Fws F1 F2 Hq Hv.
  induction attrs as [|attr attrs IH]; intro y; cbn [fold_left]; [reflexivity|].
  cbn [forallb existsb] in Hn, He. apply andb_true_iff in Hn as [Hattr Hn].
  apply orb_false_iff in He as [Ha He].
  rewrite (removeAttribute_after_tag text name) by assumption.
  rewrite (removeAttribute_other ws a ws1 ws2 v q) by assumption.
  now apply IH.
Qed.

Section UrlTheorem.

Context {U : URLParser}.

(** X22. A quoted [href] or [src] attribute in the first place of a tag, whose
    value does not parse or parses with a protocol outside
    [allowedProtocols], comes out of [sanitize] as [attr="#"]: the result is
    that of the text with [attr="#"] in its place.  (The tag after text
    without quotes and opening angle brackets, its name not on the block
    list; [href] and [src] not on the list of blocked attributes; names of
    word characters on both lists; a value without quotes and opening angle
    brackets, and either without an equals sign or without white space;
    after the attribute, a character that is neither a word character nor an
    opening angle bracket.) *)
Theorem sanitize_neutralizes_url (this : Sanitizer)
    (tags attrs : list jsstring) (text name ws a ws1 ws2 url after : jsstring)
    (q : ascii) :
  disallowedElements (config this) = Some tags ->
  disallowedAttributes (config this) = Some attrs ->
  forallb is_name tags = true ->
  forallb is_name attrs = true ->
  forallb outside_tags text = true ->
  is_name name = true ->
  existsb (fun tag => same_name tag name) tags = false ->
  existsb (fun attr => same_name attr a) attrs = false ->
  href_or_src a = true ->
  ws <> [] ->
  forallb is_space ws = true ->
  forallb is_space ws1 = true ->
  forallb is_space ws2 = true ->
  is_quote q = true ->
  url <> [] ->
  forallb outside_tags url = true ->
  forallb (not_char "=") url = true \/ forallb no_space url = true ->
  keeps_start after = true ->
  url_protocol url = None
  \/ (exists p l, url_protocol url = Some p
                  /\ allowedProtocols (config this) = Some l
                  /\ includes l p = false) ->
  sanitize this
    (VString ((text ++ "<"%char :: name)
              ++ (ws ++ quoted_attribute a ws1 ws2 q url) ++ after))
  = sanitize this
      (VString ((text ++ "<"%char :: name) ++ (ws ++ hash_attribute a) ++ after)).
Proof.
  intros Htags Hattrs Ntags Nattrs Htext Hname Hfree Hother Ha Nws Hws Hws1 Hws2 Hq
         Nurl Hurl Ve Hafter Hp.
  destruct (outside_tags_inv _ Htext) as [Tq Tl].
  destruct (outside_tags_inv _ Hurl) as [Uq Ul].
  destruct (href_or_src_word _ Ha) as [Wa Na].
  pose proof (is_name_in_name _ Hname) as Nin.
  apply Forall_forallb in Hws, Hws1, Hws2, Tq, Uq, Ul.
  assert (Ve' : Forall (fun x => not_char "=" x = true) url
                \/ Forall (fun x => is_space x = false) url).
  { destruct Ve as [H | H]; [left; now apply Forall_forallb|right].
    apply Forall_forallb in H. eapply Forall_impl; [|exact H].
    intros x Hx. now apply negb_true_iff. }
  assert (Hash : hash_attribute a = quoted_attribute a [] [] dquote (str "#"))
    by reflexivity.
  pose proof (passes_over_element_steps this tags text name Htags Ntags Tl Hname Hfree)
    as P.
  set (pre := text ++ "<"%char :: name) in *.
  set (A := quoted_attribute a ws1 ws2 q url).
  destruct (P (ws ++ A) after) as [E1 _];
    [apply (attribute_no_lt ws a ws1 ws2 url q); auto
    |rewrite <- app_assoc; apply starts_with_space; auto
    |assumption|].
  destruct (P (ws ++ hash_attribute a) after) as [E2 _];
    [rewrite Hash; apply (attribute_no_lt ws a [] [] (str "#") dquote);
     auto; repeat constructor
    |rewrite <- app_assoc; apply starts_with_space; auto
    |assumption|].
  rewrite !sanitize_string, !sanitize_text_steps, Hattrs, E1, E2.
  set (y := element_steps this after).
  unfold pre, A.
  rewrite (removeAttributes_other attrs text name ws a ws1 ws2 url q) by assumption.
  rewrite Hash.
  rewrite (removeAttributes_other attrs text name ws a [] [] (str "#") dquote);
    auto; [|left; repeat constructor].
  set (y' := fold_left removeAttribute attrs y).
  assert (Fb : Forall (fun x => not_quote x = true) ((text ++ "<"%char :: name) ++ ws)).
  { repeat (apply Forall_app; split); auto.
    - constructor; [reflexivity|]. eapply Forall_impl; [|exact Nin].
      intros x Hx. unfold in_name in Hx. now apply andb_true_iff in Hx.
    - eapply Forall_impl; [|exact Hws]. exact space_not_quote'. }
  assert (S1 : forall w1 w2 z u,
             (text ++ "<"%char :: name) ++ (ws ++ quoted_attribute a w1 w2 z u) ++ y'
             = ((text ++ "<"%char :: name) ++ ws) ++ quoted_attribute a w1 w2 z u ++ y')
    by (intros; list_norm; reflexivity).
  rewrite !S1.
  rewrite (sanitizeUrls_attribute this _ y' a ws1 ws2 url q); auto;
    [|apply is_quote_inv in Hq; tauto].
  rewrite (sanitizeUrls_attribute this _ y' a [] [] (str "#") dquote); auto;
    [|discriminate | repeat constructor].
  do 3 f_equal.
  assert (R1 : urlReplacer (config this) (quoted_attribute a ws1 ws2 q url)
                 [(2, url); (1, a)] = hash_attribute a).
  { unfold urlReplacer. cbn [group capture Nat.eqb].
    destruct Hp as [-> | (p & l & -> & -> & ->)]; reflexivity. }
  rewrite R1.
  destruct (urlReplacer_cases (config this) (quoted_attribute a [] [] dquote (str "#"))
              [(2, str "#"); (1, a)]) as [-> | ->]; reflexivity.
Qed.

End UrlTheorem.

(** X22: a [javascript:] link, under the default policy. *)
Lemma sanitize_neutralizes_url_witness :
  sanitize (U := scheme_parser) (new_Sanitizer None)
    (qstr "See <a href=`javascript:alert(1)` id=`x`>this</a>")
  = sanitize (U := scheme_parser) (new_Sanitizer None)
      (qstr "See <a href=`#` id=`x`>this</a>").
Proof.
  apply (@sanitize_neutralizes_url scheme_parser (new_Sanitizer None)
           default_removed_elements
           (map str ["onclick"; "onload"; "onerror"; "onmouseover"; "onmouseout";
                     "onfocus"; "onblur"; "onchange"; "onsubmit"]%string)
           (str "See ") (str "a") (str " ") (str "href") [] []
           (str "javascript:alert(1)") (qstr " id=`x`>this</a>") dquote);
    try reflexivity; try discriminate; [now left|].
  right. exists (str "javascript:"), (map str ["http:"; "https:"; "mailto:"; "tel:"]%string).
  repeat split.
Defined.

(** ** [removeUnsafe] on a tag with an attribute *)

Lemma href_or_src_not_unsafe (a : jsstring) :
  href_or_src a = true ->
  existsb (fun attr => same_name attr a) unsafeAttributes = false.
Proof.
  intro H.
  assert (L : length a <= 4).
  { unfold href_or_src in H.
    apply orb_true_iff in H as [H | H]; apply same_name_length in H; cbn in H; lia. }
  destruct (existsb (fun attr => same_name attr a) unsafeAttributes) eqn:E; [|reflexivity].
  apply existsb_exists in E as (attr & Hin & Hs).
  apply same_name_length in Hs. cbn in Hin.
  repeat (destruct Hin as [<- | Hin]; [cbn in Hs; lia|]). contradiction.
Qed.


Lemma scheme_char_plain (n c : ascii) :
  scheme_char n = true -> chr_eq true n c = true ->
  outside_tags c = true /\ not_char "=" c = true /\ is_space c = false.
Proof.
  intros Hn Hc.
  assert (K : for_all_ascii (fun n => for_all_ascii (fun c =>
                implb (scheme_char n && chr_eq true n c)
                      (outside_tags c && not_char "=" c && negb (is_space c)))) = true)
    by (vm_compute; reflexivity).
  pose proof (for_all_ascii_spec _ (for_all_ascii_spec _ K n) c) as X.
  cbv beta in X. rewrite Hn, Hc in X. cbn [andb implb] in X.
  apply andb_true_iff in X as [X X3]. apply andb_true_iff in X as [X1 X2].
  repeat split; auto. now apply negb_true_iff.
Qed.

Lemma scheme_plain (scheme : jsstring) :
  forallb scheme_char scheme = true ->
  forall sch, same_name scheme sch = true ->
    Forall (fun x => outside_tags x = true) sch
    /\ Forall (fun x => not_char "=" x = true) sch
    /\ Forall (fun x => is_space x = false) sch.
Proof.
  induction scheme as [|n scheme IH]; intros Hn [|c sch] Hs; try discriminate.
  - repeat split; constructor.
  - cbn [forallb same_name] in Hn, Hs.
    apply andb_true_iff in Hn as [Hn Hn']. apply andb_true_iff in Hs as [Hc Hs].
    destruct (scheme_char_plain n c Hn Hc) as (X1 & X2 & X3).
    destruct (IH Hn' sch Hs) as (Y1 & Y2 & Y3).
    repeat split; constructor; assumption.
Qed.

Section UnsafeAttributeTheorem.

Variables (text name ws after : jsstring).
Hypothesis text_ok : forallb outside_tags text = true.
Hypothesis tag_name : is_name name = true.
Hypothesis tag_kept : existsb (fun tag => same_name tag name) unsafeElements = false.
Hypothesis gap : ws <> [].
Hypothesis blank : forallb is_space ws = true.
Hypothesis after_ok : keeps_start after = true.

Local Abbreviation pre := (text ++ "<"%char :: name).

Lemma removeUnsafe_elements_over (a ws1 ws2 v : jsstring) (q : ascii) :
  Forall (fun x => is_word x = true) a ->
  Forall (fun x => is_space x = true) ws1 ->
  Forall (fun x => is_space x = true) ws2 ->
  is_quote q = true ->
  Forall (fun x => not_char "<" x = true) v ->
  fold_left removeElement unsafeElements
    (pre ++ (ws ++ quoted_attribute a ws1 ws2 q v) ++ after)
  = pre ++ (ws ++ quoted_attribute a ws1 ws2 q v)
    ++ fold_left removeElement unsafeElements after.
Proof.
  intros Wa H1 H2 Hq Hv.
  destruct (outside_tags_inv _ text_ok) as [Tq Tl].
  pose proof (passes_over_removeElements text name Tl tag_name unsafeElements
                eq_refl tag_kept) as P.
  destruct (P (ws ++ quoted_attribute a ws1 ws2 q v) after) as [E _];
    [apply (attribute_no_lt ws a ws1 ws2 v q); auto using Forall_forallb
    |rewrite <- app_assoc; apply starts_with_space; auto using Forall_forallb
    |assumption|].
  exact E.
Qed.

Lemma removeUnsafe_elements_over_tag :
  fold_left removeElement unsafeElements (pre ++ after)
  = pre ++ fold_left removeElement unsafeElements after.
Proof.
  destruct (outside_tags_inv _ text_ok) as [Tq Tl].
  pose proof (passes_over_removeElements text name Tl tag_name unsafeElements
                eq_refl tag_kept) as P.
  destruct (P [] after) as [E _];
    [intros x [] | now apply keeps_start_clean | assumption|].
  exact E.
Qed.

(** X23. An attribute on the list of unsafe attributes (in any case), in the
    first place of a tag, is removed by [removeUnsafe] with the white space
    before it and nothing else: the result is that of the text without it.
    (The tag after text without quotes and opening angle brackets, its name
    of word characters and not an unsafe element; a value without the quote
    around it and opening angle brackets, and either without an equals sign
    or without white space; after the attribute, a character that is
    neither a word character nor an opening angle bracket.) *)
Theorem removeUnsafe_removes_unsafe_attribute (a ws1 ws2 v : jsstring) (q : ascii) :
  existsb (fun attr => same_name attr a) unsafeAttributes = true ->
  forallb is_space ws1 = true ->
  forallb is_space ws2 = true ->
  is_quote q = true ->
  forallb (fun x => not_char q x && not_char "<" x) v = true ->
  forallb (not_char "=") v = true \/ forallb no_space v = true ->
  removeUnsafe_text (pre ++ (ws ++ quoted_attribute a ws1 ws2 q v) ++ after)
  = removeUnsafe_text (pre ++ after).
Proof.
  intros Hin Hws1 Hws2 Hq Hv Ve.
  destruct (outside_tags_inv _ text_ok) as [Tq Tl].
  assert (Vq : forallb (not_char q) v = true /\ forallb (not_char "<") v = true).
  { rewrite !forallb_forall. rewrite forallb_forall in Hv.
    split; intros x Hx; apply Hv in Hx; now apply andb_true_iff in Hx. }
  destruct Vq as (Vq & Vl).
  destruct (existsb_exists (fun t => same_name t a) unsafeAttributes) as [Ex _].
  destruct (Ex Hin) as (attr & Hattr & Ha).
  assert (Nattrs : forallb is_name unsafeAttributes = true) by reflexivity.
  rewrite forallb_forall in Nattrs. pose proof (Nattrs attr Hattr) as Nattr.
  rewrite <- forallb_forall in Nattrs.
  pose proof (same_name_word _ _ (is_name_forallb _ Nattr) Ha) as Wa.
  pose proof (is_name_in_name _ tag_name) as Nin.
  assert (Nin' : forallb in_name name = true)
    by (apply forallb_forall; now apply Forall_forall).
  rewrite !removeUnsafe_text_steps.
  rewrite removeUnsafe_elements_over by auto using Forall_forallb.
  rewrite removeUnsafe_elements_over_tag.
  rewrite (removeAttributes_first unsafeAttributes text name ws a ws1 ws2 v _ q)
    by assumption.
  rewrite (removeAttributes_after_tag text name) by auto using Forall_forallb.
  reflexivity.
Qed.

(** X24. An [href] or [src] attribute in the first place of a tag, whose
    quoted value begins with [javascript:] or [data:] (in any case), comes
    out of [removeUnsafe] as [attr="#"]: the result is that of the text with
    [attr="#"] in its place.  (The tag after text without quotes and opening
    angle brackets, its name of word characters and not an unsafe element;
    the same quote at both ends of the value; the value after the scheme
    without quotes and opening angle brackets; for [javascript:], either
    without an equals sign or without white space; for [data:], without an
    equals sign; after the attribute, a character that is neither a word
    character nor an opening angle bracket.) *)
Theorem removeUnsafe_neutralizes_url (a ws1 ws2 sch v : jsstring) (q : ascii) :
  href_or_src a = true ->
  forallb is_space ws1 = true ->
  forallb is_space ws2 = true ->
  is_quote q = true ->
  forallb outside_tags v = true ->
  (same_name (str "javascript:") sch = true
   /\ (forallb (not_char "=") v = true \/ forallb no_space v = true))
  \/ (same_name (str "data:") sch = true /\ forallb (not_char "=") v = true) ->
  removeUnsafe_text (pre ++ (ws ++ scheme_attribute a ws1 ws2 q sch v q) ++ after)
  = removeUnsafe_text (pre ++ (ws ++ hash_attribute a) ++ after).
Proof.
  intros Ha Hws1 Hws2 Hq Hv Hs.
  destruct (outside_tags_inv _ text_ok) as [Tq Tl].
  destruct (outside_tags_inv _ Hv) as [Vq Vl].
  destruct (href_or_src_word _ Ha) as [Wa Na].
  pose proof (is_name_in_name _ tag_name) as Nin.
  pose proof (href_or_src_not_unsafe a Ha) as Hother.
  pose proof blank as Hws.
  apply Forall_forallb in Hws, Hws1, Hws2, Tq, Vq, Vl.
  assert (S : exists scheme, forallb scheme_char scheme = true
                             /\ same_name scheme sch = true).
  { destruct Hs as [[Hs _] | [Hs _]]; eexists; (split; [|exact Hs]); reflexivity. }
  destruct S as (scheme & Hc & Hsch).
  destruct (scheme_plain scheme Hc sch Hsch) as (So & Se & Sw).
  assert (Fl : Forall (fun x => not_char "<" x = true) (sch ++ v)).
  { apply Forall_app; split; [|assumption].
    eapply Forall_impl; [|exact So]. intros x Hx. unfold outside_tags in Hx.
    now apply andb_true_iff in Hx. }
  assert (Ve : Forall (fun x => not_char "=" x = true) (sch ++ v)
               \/ Forall (fun x => is_space x = false) (sch ++ v)).
  { destruct Hs as [[_ [H | H]] | [_ H]].
    - left. apply Forall_app; split; [assumption | now apply Forall_forallb].
    - right. apply Forall_app; split; [assumption|].
      apply Forall_forallb in H. eapply Forall_impl; [|exact H].
      intros x Hx. now apply negb_true_iff.
    - left. apply Forall_app; split; [assumption | now apply Forall_forallb]. }
  assert (Hash : hash_attribute a = quoted_attribute a [] [] dquote (str "#"))
    by reflexivity.
  assert (EA : scheme_attribute a ws1 ws2 q sch v q
               = quoted_attribute a ws1 ws2 q (sch ++ v))
    by (unfold scheme_attribute, quoted_attribute; now rewrite <- app_assoc).
  rewrite !removeUnsafe_text_steps.
  rewrite EA, removeUnsafe_elements_over by auto.
  rewrite Hash, removeUnsafe_elements_over by (auto; repeat constructor).
  set (y := fold_left removeElement unsafeElements after).
  rewrite (removeAttributes_other unsafeAttributes text name ws a ws1 ws2 (sch ++ v) q)
    by auto.
  rewrite (removeAttributes_other unsafeAttributes text name ws a [] [] (str "#") dquote);
    auto; [|left; repeat constructor].
  set (y' := fold_left removeAttribute unsafeAttributes y).
  assert (Fb : Forall (fun x => not_quote x = true) (pre ++ ws)).
  { repeat (apply Forall_app; split); auto.
    - constructor; [reflexivity|]. eapply Forall_impl; [|exact Nin].
      intros x Hx. unfold in_name in Hx. now apply andb_true_iff in Hx.
    - eapply Forall_impl; [|exact Hws]. exact space_not_quote'. }
  rewrite <- EA, <- Hash.
  replace (pre ++ (ws ++ scheme_attribute a ws1 ws2 q sch v q) ++ y')
    with ((pre ++ ws) ++ scheme_attribute a ws1 ws2 q sch v q ++ y')
    by (list_norm; reflexivity).
  replace (pre ++ (ws ++ hash_attribute a) ++ y')
    with ((pre ++ ws) ++ hash_attribute a ++ y')
    by (list_norm; reflexivity).
  rewrite removeUnsafe_urls_scheme; auto.
  - now rewrite removeUnsafe_urls_hash.
  - destruct Hs as [[Hs _] | [Hs H]]; [now left | right].
    split; [assumption | now apply Forall_forallb].
Qed.

End UnsafeAttributeTheorem.

(** X23: a click handler before a class. *)
Lemma removeUnsafe_removes_unsafe_attribute_witness :
  removeUnsafe_text (qstr "Hi <div onClick = `alert('xss')` class=`safe`>Content</div>")
  = removeUnsafe_text (qstr "Hi <div class=`safe`>Content</div>").
Proof.
  apply (removeUnsafe_removes_unsafe_attribute (str "Hi ") (str "div") (str " ")
           (qstr " class=`safe`>Content</div>") eq_refl eq_refl eq_refl
           ltac:(discriminate) eq_refl eq_refl
           (str "onClick") (str " ") (str " ") (str "alert('xss')") dquote);
    try reflexivity. now left.
Defined.

(** X24: a [JavaScript:] link followed by another attribute. *)
Lemma removeUnsafe_neutralizes_url_witness :
  removeUnsafe_text (qstr "See <a href=`JavaScript:alert(1)` id=`x`>this</a>")
  = qstr "See <a href=`#` id=`x`>this</a>".
Proof.
  change (qstr "See <a href=`#` id=`x`>this</a>")
    with (removeUnsafe_text
            ((str "See " ++ "<"%char :: str "a")
             ++ (str " " ++ hash_attribute (str "href")) ++ qstr " id=`x`>this</a>")).
  apply (removeUnsafe_neutralizes_url (str "See ") (str "a") (str " ")
           (qstr " id=`x`>this</a>") eq_refl eq_refl eq_refl
           ltac:(discriminate) eq_refl eq_refl
           (str "href") [] [] (str "JavaScript:") (str "alert(1)") dquote);
    try reflexivity. left. split; [reflexivity | now left].
Defined.

(** ** Documents of text and tags *)

(** A tag begins with an opening angle bracket and has no other. *)
Lemma tag_text (p : piece) :
  piece_ok p = true -> is_tag p = true ->
  exists m, piece_text p = "<"%char :: m
            /\ (forall x, In x m -> ascii_eqb x "<" = false).
Proof.
  destruct p as [t|n a|n]; cbn [piece_ok is_tag piece_text]; intros H T;
    try discriminate.
  - apply andb_true_iff in H as [H Hap]. apply andb_true_iff in H as [Hn Ha].
    exists (n ++ a ++ [Patterns.gt]). split; [reflexivity|].
    destruct (is_name_word _ Hn) as [_ Wn]. rewrite Forall_forall in Wn.
    destruct (in_tag_inv _ Ha) as [_ La].
    intros x Hx. apply in_app_or in Hx as [Hx | Hx]; [now apply word_not_lt, Wn|].
    apply in_app_or in Hx as [Hx | [<- | []]]; [now apply La | reflexivity].
  - exists ("/"%char :: n ++ [Patterns.gt]). split; [reflexivity|].
    destruct (is_name_word _ H) as [_ Wn]. rewrite Forall_forall in Wn.
    intros x [<- | Hx]; [reflexivity|].
    apply in_app_or in Hx as [Hx | [<- | []]]; [now apply word_not_lt, Wn | reflexivity].
Qed.

Lemma text_no_lt (t : jsstring) :
  forallb (not_char "<") t = true -> forall x, In x t -> ascii_eqb x "<" = false.
Proof.
  rewrite forallb_forall. intros H x Hx. apply H in Hx. now apply negb_true_iff in Hx.
Qed.

(** A stretch without an opening angle bracket at the head of a string is
    a part of what comes before the first one. *)
Lemma before_first_lt (m r u v : jsstring) :
  (forall x, In x m -> ascii_eqb x "<" = false) ->
  m ++ r = u ++ "<"%char :: v ->
  exists u', u = m ++ u' /\ r = u' ++ "<"%char :: v.
Proof.
  revert u. induction m as [|c m IH]; intros u Hm E.
  - exists u. now split.
  - destruct u as [|c' u]; cbn [app] in E.
    + injection E as -> _. specialize (Hm "<"%char (or_introl eq_refl)). discriminate.
    + injection E as <- E.
      destruct (IH u (fun x Hx => Hm x (or_intror Hx)) E) as (u' & -> & ->).
      now exists u'.
Qed.

(** An opening angle bracket of a document is where a tag begins. *)
Lemma lt_begins_tag (d : list piece) :
  forallb piece_ok d = true ->
  forall u v, document d = u ++ "<"%char :: v ->
  exists d1 p d2, d = d1 ++ p :: d2 /\ u = document d1 /\ is_tag p = true
                  /\ "<"%char :: v = piece_text p ++ document d2.
Proof.
  induction d as [|p d IH]; intros Hd u v E.
  - destruct u; discriminate.
  - cbn [forallb] in Hd. apply andb_true_iff in Hd as [Hp Hd].
    rewrite document_cons in E. destruct (is_tag p) eqn:T.
    + destruct (tag_text p Hp T) as (m & Em & Hm). rewrite Em in E.
      destruct u as [|c u]; cbn [app] in E.
      * exists [], p, d. repeat split; auto. rewrite Em. cbn [app]. now rewrite E.
      * injection E as <- E.
        destruct (before_first_lt m _ u v Hm E) as (u' & -> & E').
        destruct (IH Hd u' v E') as (d1 & q & d2 & -> & -> & Tq & Eq).
        exists (p :: d1), q, d2. repeat split; auto.
        rewrite document_cons, Em. reflexivity.
    + destruct p as [t| |]; try discriminate. cbn [piece_text piece_ok] in *.
      destruct (before_first_lt t _ u v (text_no_lt t Hp) E) as (u' & -> & E').
      destruct (IH Hd u' v E') as (d1 & q & d2 & -> & -> & Tq & Eq).
      exists (Text t :: d1), q, d2. repeat split; auto.
Qed.

(** A closing tag in a document is one of its pieces. *)
Lemma close_is_piece (d : list piece) (u n post : jsstring) :
  forallb piece_ok d = true ->
  Forall (fun x => is_word x = true) n ->
  document d = u ++ "<"%char :: "/"%char :: n ++ Patterns.gt :: post ->
  exists d1 d2, d = d1 ++ Close n :: d2 /\ u = document d1 /\ post = document d2.
Proof.
  intros Hd Wn E.
  destruct (lt_begins_tag d Hd u _ E) as (d1 & p & d2 & -> & -> & T & Ep).
  exists d1, d2. rewrite forallb_app in Hd. apply andb_true_iff in Hd as [_ Hd].
  cbn [forallb] in Hd. apply andb_true_iff in Hd as [Hp _].
  destruct p as [t|m a|m]; try discriminate; cbn [piece_text piece_ok] in *.
  - apply andb_true_iff in Hp as [Hp _]. apply andb_true_iff in Hp as [Hm _].
    destruct (is_name_inv _ Hm) as (m0 & ms & -> & W0 & _).
    unfold open_tag in Ep. cbn [app] in Ep. injection Ep as <- _. discriminate.
  - unfold close_tag in Ep. cbn [app] in Ep. injection Ep as Ep.
    destruct (is_name_word _ Hp) as [_ Wm].
    rewrite <- app_assoc in Ep. cbn [app] in Ep.
    destruct (split_unique is_word n m Patterns.gt Patterns.gt post (document d2)
                Wn Wm eq_refl eq_refl Ep) as (-> & _ & ->).
    repeat split.
Qed.

(** ** Removing matches that end with a closing tag *)

Lemma remove_nil (re : RegExp) : ends_in_close re -> remove re [] = [].
Proof.
  intro Hc. unfold remove, replace_with. cbn [replace_go].
  destruct (exec_at re None []) as [[len cs]|] eqn:X; [|reflexivity].
  apply exec_at_inv in X as (s' & R & _ & _).
  apply Hc in R as (u & n & E & _). destruct u; discriminate.
Qed.

(** Such a pattern removes whole pieces of a document: what it leaves is a
    document of pieces of the first. *)
Lemma remove_document (re : RegExp) :
  begins_lt re -> forgets_prev re -> ends_in_close re ->
  forall d, forallb piece_ok d = true ->
  exists d', remove re (document d) = document d' /\ incl d' d.
Proof.
  intros Hb Hf Hc d.
  remember (length d) as k eqn:Ek. revert d Ek.
  induction k as [k IH] using lt_wf_ind. intros d Ek Hd.
  destruct d as [|p d].
  - exists []. split; [now apply remove_nil | apply incl_refl].
  - cbn [forallb] in Hd. apply andb_true_iff in Hd as [Hp Hd].
    cbn [length] in Ek.
    assert (Keep : remove re (document (p :: d)) = piece_text p ++ remove re (document d) ->
                   exists d', remove re (document (p :: d)) = document d'
                              /\ incl d' (p :: d)).
    { intro E. destruct (IH (length d) ltac:(lia) d eq_refl Hd) as (d' & E' & I).
      exists (p :: d'). rewrite E, E', document_cons. split; [reflexivity|].
      apply incl_cons; [now left | now apply incl_tl]. }
    destruct (is_tag p) eqn:T.
    + destruct (tag_text p Hp T) as (m & Em & Hm).
      destruct (exec_at re None (document (p :: d))) as [[len cs]|] eqn:X.
      * apply exec_at_inv in X as ([pv' r' c'] & R & _ & _).
        destruct (Hc _ _ _ R) as (u & n & E & Wn). cbn [rest] in E.
        assert (Hpd : forallb piece_ok (p :: d) = true)
          by (cbn [forallb]; now rewrite Hp, Hd).
        destruct (close_is_piece (p :: d) u n r' Hpd Wn E) as (d1 & d2 & Ed & -> & ->).
        assert (L : length d2 < k).
        { apply (f_equal (@length _)) in Ed. rewrite length_app in Ed.
          cbn [length] in Ed. lia. }
        assert (Hd2 : forallb piece_ok d2 = true).
        { rewrite Ed, forallb_app in Hpd. apply andb_true_iff in Hpd as [_ H].
          cbn [forallb] in H. now apply andb_true_iff in H as [_ H]. }
        destruct (IH (length d2) L d2 eq_refl Hd2) as (d' & E' & I).
        exists d'. split.
        -- rewrite <- E'. rewrite E.
           replace (document d1 ++ "<"%char :: "/"%char :: n ++ Patterns.gt :: document d2)
             with ((document d1 ++ "<"%char :: "/"%char :: n ++ [Patterns.gt]) ++ document d2)
             by (list_norm; reflexivity).
           apply (remove_matched re _ _ pv' c' Hf); [destruct (document d1); discriminate|].
           rewrite <- R, E. f_equal. f_equal. list_norm. reflexivity.
        -- intros x Hx. rewrite Ed. apply in_or_app. right. right. now apply I.
      * apply Keep. rewrite document_cons, Em in *. cbn [app] in *.
        now apply remove_after_tag.
    + destruct p as [t| |]; try discriminate. cbn [piece_ok] in Hp.
      apply Keep. rewrite document_cons. cbn [piece_text].
      now apply remove_after_text.
Qed.

(** ** The patterns that end with a closing tag *)

Lemma Lang_suffix (ci : bool) (r : regex) (s s' : mstate) :
  Lang ci r s s' -> suffix (rest s') (rest s).
Proof.
  induction 1; cbn [rest] in *; try apply suffix_refl; auto.
  - exists [x]. now rewrite H.
  - exists [x]. now rewrite H.
  - eapply suffix_trans; eassumption.
  - exists m. assumption.
  - exists m. assumption.
  - eapply match_text_suffix; eassumption.
Qed.

Lemma Lang_Seq_inv (ci : bool) (r1 r2 : regex) (s s2 : mstate) :
  Lang ci (Seq r1 r2) s s2 -> exists s1, Lang ci r1 s s1 /\ Lang ci r2 s1 s2.
Proof. intro H. inversion H; subst. eauto. Qed.

(** The end of a match, for a pattern that ends with [</], a name and
    [>]. *)
Lemma close_at_end (tag : jsstring) (s s' : mstate) :
  is_name tag = true ->
  Lang true (Seq (lits (str "</")) (Seq (lits tag) (Seq (Char Patterns.gt) Empty))) s s' ->
  exists n, rest s = "<"%char :: "/"%char :: n ++ Patterns.gt :: rest s'
            /\ Forall (fun x => is_word x = true) n.
Proof.
  intros Ht L.
  apply Lang_Seq_inv in L as (s1 & L1 & L).
  apply Lang_Seq_inv in L as (s2 & L2 & L).
  apply Lang_Seq_inv in L as (s3 & L3 & L).
  inversion L; subst. inversion L3 as [|c s0 x t Er Hx| | | | | | | | | |]; subst.
  cbn [rest] in *.
  apply (chr_eq_alone true Patterns.gt _ eq_refl) in Hx. subst x.
  apply lits_inv in L2 as (n & En & Hn & _).
  apply lits_inv in L1 as (a & Ea & Ha & _).
  pose proof (same_name_length _ _ Ha) as La.
  destruct a as [|a1 [|a2 [|a3 a]]]; try discriminate.
  cbn [same_name str list_ascii_of_string] in Ha.
  apply andb_true_iff in Ha as [H1 Ha]. apply andb_true_iff in Ha as [H2 _].
  apply (chr_eq_alone true "<"%char _ eq_refl) in H1.
  apply (chr_eq_alone true "/"%char _ eq_refl) in H2. subst.
  exists n. split.
  - rewrite Ea, En, Er. reflexivity.
  - exact (same_name_word _ _ (is_name_forallb _ Ht) Hn).
Qed.

Lemma element_ends_in_close (tag : jsstring) :
  is_name tag = true -> ends_in_close (Patterns.element tag).
Proof.
  intros Ht pv l s' R. cbn [Patterns.element ignoreCase pattern] in R.
  apply rmatch_sound in R as (s1 & L & E). injection E as ->.
  cbn [seqs fold_right] in L.
  apply Lang_Seq_inv in L as (a1 & L1 & L).
  apply Lang_Seq_inv in L as (a2 & L2 & L).
  apply Lang_Seq_inv in L as (a3 & L3 & L).
  apply Lang_Seq_inv in L as (a4 & L4 & L).
  apply Lang_Seq_inv in L as (a5 & L5 & L).
  apply Lang_Seq_inv in L as (a6 & L6 & L).
  assert (S : suffix (rest a6) l).
  { change l with (rest (MState pv l [])).
    repeat (eapply suffix_trans; [eapply Lang_suffix; eassumption|]).
    apply suffix_refl. }
  destruct S as (u & ->).
  destruct (close_at_end tag a6 _ Ht L) as (n & E & Wn).
  exists u, n. now rewrite E.
Qed.

Lemma matched_word (t u : jsstring) :
  Forall (fun x => is_word x = true) t ->
  Forall2 (fun c x => chr_eq true c x = true) t u ->
  Forall (fun x => is_word x = true) u.
Proof.
  intros W F. induction F as [|c x t u Hcx F IH]; [constructor|].
  inversion W; subst. constructor; [eapply chr_eq_word; eassumption | auto].
Qed.

Lemma blankTag_shape (pv : option ascii) (l : jsstring) (s' : mstate) :
  rmatch true (pattern Patterns.blankTag) Some (MState pv l []) = Some s' ->
  exists w a sp u,
    l = "<"%char :: w ++ a ++ Patterns.gt :: sp ++ "<"%char :: "/"%char :: u ++ Patterns.gt :: rest s'
    /\ Forall (fun x => is_word x = true) u.
Proof.
  intro H. apply rmatch_sound in H as (s1 & L & E). injection E as ->.
  cbn [Patterns.blankTag pattern seqs fold_right Plus lits map str list_ascii_of_string] in L.
  unfold Plus in L.
  invert_lang; cbn [rest caps prev capture Nat.eqb] in *; subst;
    try discriminate.
  repeat match goal with
  | H : chr_eq true ?c _ = true |- _ => apply (chr_eq_alone true c _ eq_refl) in H
  end. subst.
  match goal with
  | H : Some (firstn _ (?x :: ?w ++ ?X)) = Some _ |- _ =>
      change (x :: w ++ X) with ((x :: w) ++ X) in H;
      rewrite firstn_length_app in H; injection H as <-
  end.
  match goal with
  | H : match_text _ _ _ _ = Some _ |- _ =>
      apply match_text_inv in H as (u & -> & F)
  end.
  match goal with
  | Hw : is_word ?x = true, Hws : Forall _ ?w, Hs : is_space ?y = true,
    Ha : Forall (fun x => not_char _ x = true) ?a, Hsp : Forall (fun x => is_space x = true) ?sp
    |- _ =>
      exists (x :: w), a, (y :: sp), u; split; [reflexivity|];
      apply (matched_word (x :: w) u); [now constructor | assumption]
  end.
Qed.

Lemma emptyTag_ends_in_close : ends_in_close Patterns.emptyTag.
Proof.
  intros pv l s' R. apply emptyTag_shape in R as (w & a & sp & u & E & _ & _ & _ & _ & Wu).
  exists ("<"%char :: w ++ a ++ Patterns.gt :: sp), u. split; [|assumption].
  rewrite E. list_norm. reflexivity.
Qed.

Lemma blankTag_ends_in_close : ends_in_close Patterns.blankTag.
Proof.
  intros pv l s' R. apply blankTag_shape in R as (w & a & sp & u & E & Wu).
  exists ("<"%char :: w ++ a ++ Patterns.gt :: sp), u. split; [|assumption].
  rewrite E. list_norm. reflexivity.
Qed.

Lemma emptyTag_begins_lt : begins_lt Patterns.emptyTag.
Proof. eapply begins_lt_first_char. reflexivity. Qed.

Lemma blankTag_begins_lt : begins_lt Patterns.blankTag.
Proof. eapply begins_lt_first_char. reflexivity. Qed.

Lemma emptyTag_forgets : forgets_prev Patterns.emptyTag.
Proof. eapply forgets_first_char. reflexivity. Qed.

Lemma blankTag_forgets : forgets_prev Patterns.blankTag.
Proof. eapply forgets_first_char. reflexivity. Qed.

(** The clean-up leaves a document of pieces of the document it was given. *)
Lemma cleanupEmptyTags_document (d : list piece) :
  forallb piece_ok d = true ->
  exists d', cleanupEmptyTags (document d) = document d' /\ incl d' d.
Proof.
  intro Hd. unfold cleanupEmptyTags.
  destruct (remove_document Patterns.emptyTag emptyTag_begins_lt emptyTag_forgets
              emptyTag_ends_in_close d Hd) as (d1 & E1 & I1).
  assert (Hd1 : forallb piece_ok d1 = true).
  { rewrite forallb_forall in *. intros p Hp. apply Hd. now apply I1. }
  destruct (remove_document Patterns.blankTag blankTag_begins_lt blankTag_forgets
              blankTag_ends_in_close d1 Hd1) as (d2 & E2 & I2).
  exists d2. rewrite E1, E2. split; [reflexivity|].
  eapply incl_tran; eassumption.
Qed.

(** ** Patterns that match at no tag of a document *)

Lemma remove_document_kept (re : RegExp) (d : list piece) :
  begins_lt re -> forgets_prev re -> exec_at re None [] = None ->
  forallb piece_ok d = true ->
  (forall p post, In p d -> is_tag p = true ->
                  exec_at re None (piece_text p ++ post) = None) ->
  remove re (document d) = document d.
Proof.
  intros Hb Hf Hnil. induction d as [|p d IH]; intros Hd Hno.
  - unfold remove, replace_with. cbn [document map concat replace_go]. now rewrite Hnil.
  - cbn [forallb] in Hd. apply andb_true_iff in Hd as [Hp Hd].
    rewrite document_cons.
    assert (E : remove re (document d) = document d)
      by (apply IH; [assumption | intros q post Hq; apply Hno; now right]).
    destruct (is_tag p) eqn:T.
    + destruct (tag_text p Hp T) as (m & Em & Hm).
      specialize (Hno p (document d) (or_introl eq_refl) T).
      rewrite Em in *. cbn [app] in *.
      rewrite remove_after_tag by assumption. now rewrite E.
    + destruct p as [t| |]; try discriminate. cbn [piece_ok piece_text] in *.
      rewrite remove_after_text by assumption. now rewrite E.
Qed.

Lemma open_tag_tail (n a post : jsstring) :
  apart a = true ->
  open_tag n a ++ post = "<"%char :: n ++ (a ++ Patterns.gt :: post)
  /\ starts_clean is_word (a ++ Patterns.gt :: post).
Proof.
  intro Ha. split; [unfold open_tag; list_norm; reflexivity|].
  apply starts_clean_app; [now apply apart_clean | reflexivity].
Qed.

Lemma open_ok_inv (n a : jsstring) :
  piece_ok (Open n a) = true ->
  is_name n = true /\ forallb in_tag a = true /\ apart a = true.
Proof.
  cbn [piece_ok]. intro H. apply andb_true_iff in H as [H Hap].
  apply andb_true_iff in H as [Hn Ha]. auto.
Qed.

Lemma piece_ok_In (d : list piece) (p : piece) :
  forallb piece_ok d = true -> In p d -> piece_ok p = true.
Proof. rewrite forallb_forall. auto. Qed.

(** The document type and comment patterns match nowhere in a document. *)
Lemma doctype_document (d : list piece) :
  forallb piece_ok d = true -> remove Patterns.doctype (document d) = document d.
Proof.
  intro Hd. apply remove_document_kept;
    [exact doctype_begins_lt | exact doctype_forgets | reflexivity | assumption|].
  intros p post Hp T. pose proof (piece_ok_In d p Hd Hp) as Ok.
  destruct p as [t|n a|n]; try discriminate; cbn [piece_text].
  - destruct (open_ok_inv n a Ok) as (Hn & Ha & Hap).
    destruct (open_tag_tail n a post Hap) as [-> _]. now apply doctype_not_at_tag.
  - reflexivity.
Qed.

Lemma comment_document (d : list piece) :
  forallb piece_ok d = true -> remove Patterns.comment (document d) = document d.
Proof.
  intro Hd. apply remove_document_kept;
    [exact comment_begins_lt | exact comment_forgets | reflexivity | assumption|].
  intros p post Hp T. pose proof (piece_ok_In d p Hd Hp) as Ok.
  destruct p as [t|n a|n]; try discriminate; cbn [piece_text].
  - destruct (open_ok_inv n a Ok) as (Hn & Ha & Hap).
    destruct (open_tag_tail n a post Hap) as [-> _]. now apply comment_not_at_tag.
  - reflexivity.
Qed.

(** A closing tag is where neither pattern of a blocked element matches. *)
Lemma element_not_at_close (tag n post : jsstring) :
  is_name tag = true ->
  exec_at (Patterns.element tag) None (close_tag n ++ post) = None
  /\ exec_at (Patterns.selfClosing tag) None (close_tag n ++ post) = None.
Proof.
  intro Ht.
  assert (Close : forall r t,
             rmatch true (Seq (Char "<") (Seq (lits tag) r)) Some
               (MState None ("<"%char :: "/"%char :: t) []) = None).
  { intros r t. cbn [rmatch rest caps prev]. rewrite chr_eq_refl.
    now apply name_refused_at_slash. }
  unfold close_tag. cbn [app]. split; unfold exec_at;
    [cbn [Patterns.element pattern ignoreCase seqs fold_right]
    |cbn [Patterns.selfClosing pattern ignoreCase seqs fold_right]];
    now rewrite Close.
Qed.

Lemma element_nil (tag : jsstring) :
  exec_at (Patterns.element tag) None [] = None
  /\ exec_at (Patterns.selfClosing tag) None [] = None.
Proof. split; reflexivity. Qed.

(** Where no opening tag has the name, the two replacements for a blocked
    element change nothing. *)
Lemma removeElement_absent (tag : jsstring) (d : list piece) :
  is_name tag = true ->
  forallb piece_ok d = true ->
  existsb (open_named tag) d = false ->
  removeElement (document d) tag = document d.
Proof.
  intros Ht Hd Hno. unfold removeElement.
  assert (No : forall p post, In p d -> is_tag p = true ->
                 exec_at (Patterns.element tag) None (piece_text p ++ post) = None
                 /\ exec_at (Patterns.selfClosing tag) None (piece_text p ++ post) = None).
  { intros p post Hp T. pose proof (piece_ok_In d p Hd Hp) as Ok.
    destruct p as [t|n a|n]; try discriminate; cbn [piece_text].
    - destruct (open_ok_inv n a Ok) as (Hn & Ha & Hap).
      destruct (open_tag_tail n a post Hap) as [-> Hc].
      apply element_not_at_tag; auto.
      destruct (same_name tag n) eqn:E; [|reflexivity].
      assert (X : existsb (open_named tag) d = true)
        by (apply existsb_exists; exists (Open n a); now split).
      congruence.
    - now apply element_not_at_close. }
  rewrite (remove_document_kept (Patterns.element tag));
    [|apply element_begins_lt | apply element_forgets | apply element_nil | assumption
     |intros p post Hp T; now apply No].
  apply remove_document_kept;
    [apply selfClosing_begins_lt | apply selfClosing_forgets | apply element_nil
    |assumption | intros p post Hp T; now apply No].
Qed.

(** The second replacement removes the opening tags of the name, and
    nothing else. *)
Lemma selfClosing_document (tag : jsstring) (d : list piece) :
  is_name tag = true ->
  forallb piece_ok d = true ->
  remove (Patterns.selfClosing tag) (document d)
  = document (filter (fun p => negb (open_named tag p)) d).
Proof.
  intros Ht. induction d as [|p d IH]; intro Hd.
  - unfold remove, replace_with. reflexivity.
  - cbn [forallb] in Hd. apply andb_true_iff in Hd as [Hp Hd].
    specialize (IH Hd). rewrite document_cons. cbn [filter].
    destruct p as [t|n a|n]; cbn [open_named negb piece_text].
    + cbn [piece_ok] in Hp. rewrite document_cons. cbn [piece_text].
      rewrite remove_after_text;
        auto using selfClosing_begins_lt, selfClosing_forgets. now rewrite IH.
    + destruct (open_ok_inv n a Hp) as (Hn & Ha & Hap).
      destruct (same_name tag n) eqn:E; cbn [negb].
      * rewrite <- IH.
        apply (remove_matched (Patterns.selfClosing tag) (open_tag n a) _
                 (Some Patterns.gt) []);
          [apply selfClosing_forgets | discriminate | now apply selfClosing_at_tag].
      * rewrite document_cons. cbn [piece_text]. rewrite <- IH.
        destruct (tag_text (Open n a) Hp eq_refl) as (m & Em & Hm).
        cbn [piece_text] in Em. rewrite Em. cbn [app].
        apply remove_after_tag;
          auto using selfClosing_begins_lt, selfClosing_forgets.
        change ("<"%char :: m ++ document d) with (("<"%char :: m) ++ document d).
        rewrite <- Em.
        destruct (open_tag_tail n a (document d) Hap) as [-> Hc].
        now apply element_not_at_tag.
    + rewrite document_cons. cbn [piece_text]. rewrite <- IH.
      destruct (tag_text (Close n) Hp eq_refl) as (m & Em & Hm).
      cbn [piece_text] in Em. rewrite Em. cbn [app].
      apply remove_after_tag;
        auto using selfClosing_begins_lt, selfClosing_forgets.
      change ("<"%char :: m ++ document d) with (("<"%char :: m) ++ document d).
      rewrite <- Em. now apply element_not_at_close.
Qed.

Lemma incl_forallb {A} (P : A -> bool) (l l' : list A) :
  incl l' l -> forallb P l = true -> forallb P l' = true.
Proof. rewrite !forallb_forall. intros I H x Hx. apply H. now apply I. Qed.

Lemma incl_no_open (tag : jsstring) (d d' : list piece) :
  incl d' d -> existsb (open_named tag) d = false -> existsb (open_named tag) d' = false.
Proof.
  intros I H. destruct (existsb (open_named tag) d') eqn:E; [|reflexivity].
  apply existsb_exists in E as (p & Hp & E).
  assert (X : existsb (open_named tag) d = true)
    by (apply existsb_exists; exists p; split; [now apply I | assumption]).
  congruence.
Qed.

(** The two replacements for a blocked element leave a document of pieces of
    the first, without an opening tag of the name. *)
Lemma removeElement_document (tag : jsstring) (d : list piece) :
  is_name tag = true ->
  forallb piece_ok d = true ->
  exists d', removeElement (document d) tag = document d'
             /\ incl d' d /\ existsb (open_named tag) d' = false.
Proof.
  intros Ht Hd. unfold removeElement.
  destruct (remove_document (Patterns.element tag) (element_begins_lt tag)
              (element_forgets tag) (element_ends_in_close tag Ht) d Hd)
    as (d1 & E1 & I1).
  pose proof (incl_forallb _ _ _ I1 Hd) as Hd1.
  exists (filter (fun p => negb (open_named tag p)) d1).
  rewrite E1, selfClosing_document by assumption. split; [reflexivity|]. split.
  - intros p Hp. apply filter_In in Hp as [Hp _]. now apply I1.
  - destruct (existsb _ (filter _ d1)) eqn:E; [|reflexivity].
    apply existsb_exists in E as (p & Hp & E).
    apply filter_In in Hp as [_ Hp]. rewrite E in Hp. discriminate.
Qed.

Lemma removeElements_document (tags : list jsstring) :
  forallb is_name tags = true ->
  forall d, forallb piece_ok d = true ->
  exists d', fold_left removeElement tags (document d) = document d'
             /\ incl d' d
             /\ forall tag, In tag tags -> existsb (open_named tag) d' = false.
Proof.
  induction tags as [|tag tags IH]; intros Ht d Hd; cbn [fold_left].
  - exists d. split; [reflexivity|]. split; [apply incl_refl | intros tag []].
  - cbn [forallb] in Ht. apply andb_true_iff in Ht as [Htag Ht].
    destruct (removeElement_document tag d Htag Hd) as (d1 & E1 & I1 & N1).
    pose proof (incl_forallb _ _ _ I1 Hd) as Hd1.
    destruct (IH Ht d1 Hd1) as (d' & E' & I' & N').
    exists d'. rewrite E1, E'. split; [reflexivity|]. split.
    + eapply incl_tran; eassumption.
    + intros t [<- | Hin]; [now apply (incl_no_open _ d1) | now apply N'].
Qed.

Lemma removeElements_absent (tags : list jsstring) (d : list piece) :
  forallb is_name tags = true ->
  forallb piece_ok d = true ->
  (forall tag, In tag tags -> existsb (open_named tag) d = false) ->
  fold_left removeElement tags (document d) = document d.
Proof.
  induction tags as [|tag tags IH]; intros Ht Hd Hno; cbn [fold_left]; [reflexivity|].
  cbn [forallb] in Ht. apply andb_true_iff in Ht as [Htag Ht].
  rewrite removeElement_absent; auto; [|apply Hno; now left].
  apply IH; auto. intros t Hin. apply Hno. now right.
Qed.

(** ** Text without quotes *)

Lemma removeAttributes_quote_free (attrs : list jsstring) (s : jsstring) :
  quote_free s -> fold_left removeAttribute attrs s = s.
Proof.
  intro H. apply fold_left_fixed. intro a. now apply removeAttribute_quote_free.
Qed.

Lemma schemeUrl_needs_quote (scheme : jsstring) :
  Needs true is_quote (pattern (Patterns.schemeUrl scheme)).
Proof.
  cbn [Patterns.schemeUrl pattern seqs fold_right].
  do 4 apply Needs_Seq_r. apply Needs_Seq_l. apply Needs_Class. auto.
Qed.

Lemma removeUnsafe_urls_quote_free (s : jsstring) :
  quote_free s -> removeUnsafe_urls s = s.
Proof.
  intro H. unfold removeUnsafe_urls.
  rewrite (replace_with_needs is_quote (Patterns.schemeUrl (str "javascript:")))
    by (auto using schemeUrl_needs_quote).
  apply (replace_with_needs is_quote); auto using schemeUrl_needs_quote.
Qed.

(** ** Trimming *)

Lemma drop_while_app (p : ascii -> bool) (a b : jsstring) :
  drop_while p (a ++ b)
  = if forallb p a then drop_while p b else drop_while p a ++ b.
Proof.
  induction a as [|c a IH]; [reflexivity|].
  cbn [app drop_while forallb]. destruct (p c); [exact IH | reflexivity].
Qed.

Lemma forallb_rev {A} (p : A -> bool) (l : list A) : forallb p (rev l) = forallb p l.
Proof.
  induction l as [|x l IH]; [reflexivity|].
  cbn [rev forallb]. rewrite forallb_app, IH. cbn [forallb].
  rewrite andb_true_r. apply andb_comm.
Qed.

Lemma rdrop_app (p : ascii -> bool) (a b : jsstring) :
  rdrop p (a ++ b) = if forallb p b then rdrop p a else a ++ rdrop p b.
Proof.
  unfold rdrop. rewrite rev_app_distr, drop_while_app, forallb_rev.
  destruct (forallb p b); [reflexivity|]. now rewrite rev_app_distr, rev_involutive.
Qed.

Lemma rdrop_In (p : ascii -> bool) (s : jsstring) (x : ascii) :
  In x (rdrop p s) -> In x s.
Proof.
  unfold rdrop. intro H. apply in_rev in H. apply drop_while_In in H.
  now apply in_rev in H.
Qed.

Lemma trim_rdrop (s : jsstring) : trim s = rdrop is_space (drop_while is_space s).
Proof. reflexivity. Qed.

Lemma tag_ends (p : piece) :
  is_tag p = true ->
  exists m, piece_text p = "<"%char :: m ++ [Patterns.gt].
Proof.
  destruct p as [t|n a|n]; intro T; try discriminate; cbn [piece_text].
  - exists (n ++ a). unfold open_tag. now rewrite <- app_assoc.
  - exists ("/"%char :: n). reflexivity.
Qed.

Lemma rdrop_tag (m : jsstring) :
  rdrop is_space ("<"%char :: m ++ [Patterns.gt]) = "<"%char :: m ++ [Patterns.gt].
Proof.
  change ("<"%char :: m ++ [Patterns.gt]) with (("<"%char :: m) ++ [Patterns.gt]).
  rewrite rdrop_app. reflexivity.
Qed.

Lemma drop_while_full (p : ascii -> bool) (s : jsstring) :
  length (drop_while p s) = length s -> drop_while p s = s.
Proof.
  destruct s as [|c t]; [reflexivity|]. cbn [drop_while].
  destruct (p c); [|reflexivity]. intro H.
  pose proof (drop_while_length p t). cbn [length] in H. lia.
Qed.

Lemma trim_full (s : jsstring) : length (trim s) = length s -> trim s = s.
Proof.
  unfold trim. intro H. rewrite length_rev in H.
  pose proof (drop_while_length is_space (rev (drop_while is_space s))) as L1.
  pose proof (drop_while_length is_space s) as L2. rewrite length_rev in L1.
  assert (E2 : drop_while is_space s = s) by (apply drop_while_full; lia).
  rewrite E2 in *.
  rewrite drop_while_full by (rewrite length_rev; lia). apply rev_involutive.
Qed.

Lemma cleanupEmptyTags_length (s : jsstring) :
  length (cleanupEmptyTags s) <= length s.
Proof.
  unfold cleanupEmptyTags.
  etransitivity; [apply remove_length | apply remove_length].
Qed.

(** ** The steps of [sanitize] before its loop over the attributes *)

Lemma word_names_inv (c : SanitizerConfig) :
  word_names c = true ->
  forallb is_name (names (disallowedElements c)) = true
  /\ forallb is_name (names (disallowedAttributes c)) = true.
Proof. unfold word_names. intro H. now apply andb_true_iff in H. Qed.

Lemma element_steps_document (this : Sanitizer) (d : list piece) :
  word_names (config this) = true ->
  forallb piece_ok d = true ->
  exists d', element_steps this (document d) = document d' /\ incl d' d
             /\ forall tag, In tag (names (disallowedElements (config this))) ->
                            existsb (open_named tag) d' = false.
Proof.
  intros Hw Hd. destruct (word_names_inv _ Hw) as [Ht _]. unfold element_steps.
  assert (E : (if flag (stripComments (config this))
               then remove Patterns.comment
                      (if flag (stripDoctype (config this))
                       then remove Patterns.doctype (document d) else document d)
               else if flag (stripDoctype (config this))
                    then remove Patterns.doctype (document d) else document d)
              = document d).
  { destruct (flag (stripDoctype (config this)));
      destruct (flag (stripComments (config this)));
      rewrite ?doctype_document, ?comment_document; auto. }
  cbv zeta. rewrite E.
  destruct (disallowedElements (config this)) as [tags|]; cbn [names] in *.
  - now apply removeElements_document.
  - exists d. split; [reflexivity|]. split; [apply incl_refl | intros tag []].
Qed.


Lemma sanitize_output_trimmed {U : URLParser} (this : Sanitizer) (s : jsstring) :
  trim (sanitize_text this s) = sanitize_text this s.
Proof. rewrite sanitize_text_steps. apply trim_idempotent. Qed.

(** ** The attribute steps on tags with quoted attributes *)

Lemma attribute_shape_inv (a : attribute) :
  attribute_shape a = true ->
  a_space a <> []
  /\ Forall (fun x => is_space x = true) (a_space a)
  /\ is_name (a_name a) = true
  /\ Forall (fun x => is_space x = true) (a_before a)
  /\ Forall (fun x => is_space x = true) (a_after a)
  /\ is_quote (a_quote a) = true.
Proof.
  unfold attribute_shape. intro H.
  repeat (apply andb_true_iff in H as [H ?]).
  repeat split; auto using Forall_forallb.
  destruct (a_space a); [discriminate | discriminate].
Qed.

Lemma no_space_forall (v : jsstring) :
  forallb no_space v = true -> Forall (fun x => is_space x = false) v.
Proof.
  intro H. apply Forall_forallb in H. eapply Forall_impl; [|exact H].
  intros x Hx. now apply negb_true_iff.
Qed.

Lemma removable_value_inv (q : ascii) (v : jsstring) :
  removable_value q v = true ->
  Forall (fun x => not_char q x = true) v
  /\ Forall (fun x => in_tag x = true) v
  /\ (Forall (fun x => not_char "=" x = true) v \/ Forall (fun x => is_space x = false) v).
Proof.
  unfold removable_value. intro H.
  apply andb_true_iff in H as [H H3]. apply andb_true_iff in H as [H1 H2].
  repeat split; auto using Forall_forallb.
  apply orb_true_iff in H3 as [H3 | H3];
    [left; now apply Forall_forallb | right; now apply no_space_forall].
Qed.

Lemma closed_value_inv (v : jsstring) :
  closed_value v = true ->
  Forall (fun x => not_quote x = true) v
  /\ Forall (fun x => in_tag x = true) v
  /\ (Forall (fun x => not_char "=" x = true) v
      \/ (Forall (fun x => is_space x = false) v /\ ends_with_equals v = false)).
Proof.
  unfold closed_value. intro H.
  apply andb_true_iff in H as [H H3]. apply andb_true_iff in H as [H1 H2].
  repeat split; auto using Forall_forallb.
  apply orb_true_iff in H3 as [H3 | H3]; [left; now apply Forall_forallb|right].
  apply andb_true_iff in H3 as [H3 H4]. split; [now apply no_space_forall|].
  now apply negb_true_iff.
Qed.

Lemma not_quote_forall (q : ascii) (v : jsstring) :
  is_quote q = true ->
  Forall (fun x => not_quote x = true) v -> Forall (fun x => not_char q x = true) v.
Proof.
  intros Hq H. eapply Forall_impl; [|exact H]. intros x Hx.
  now apply not_quote_not_char.
Qed.

(** What the attribute steps need of an attribute, blocked or not. *)
Lemma attribute_ok_inv (attrs : list jsstring) (a : attribute) :
  attribute_ok attrs a = true ->
  attribute_shape a = true
  /\ Forall (fun x => not_char (a_quote a) x = true) (a_value a)
  /\ Forall (fun x => in_tag x = true) (a_value a)
  /\ (Forall (fun x => not_char "=" x = true) (a_value a)
      \/ Forall (fun x => is_space x = false) (a_value a)).
Proof.
  unfold attribute_ok. intro H. apply andb_true_iff in H as [Hs H].
  split; [exact Hs|]. destruct (attribute_shape_inv a Hs) as (_ & _ & _ & _ & _ & Hq).
  destruct (blocked attrs (a_name a)).
  - now apply removable_value_inv.
  - apply closed_value_inv in H as (H1 & H2 & H3).
    repeat split; auto using not_quote_forall. tauto.
Qed.

Lemma removeAttributes_keep (ws a ws1 ws2 v : jsstring) (q : ascii) (attrs : list jsstring) :
  Forall (fun x => is_word x = true) a -> a <> [] ->
  ws <> [] ->
  Forall (fun x => is_space x = true) ws ->
  Forall (fun x => is_space x = true) ws1 ->
  Forall (fun x => is_space x = true) ws2 ->
  is_quote q = true ->
  Forall (fun x => not_char "=" x = true) v \/ Forall (fun x => is_space x = false) v ->
  forallb is_name attrs = true ->
  existsb (fun attr => same_name attr a) attrs = false ->
  forall after,
    fold_left removeAttribute attrs ((ws ++ quoted_attribute a ws1 ws2 q v) ++ after)
    = (ws ++ quoted_attribute a ws1 ws2 q v) ++ fold_left removeAttribute attrs after.
Proof.
  intros Wa Na Nws Fws F1 F2 Hq Hv.
  induction attrs as [|attr attrs IH]; intros Hn He after; cbn [fold_left]; [reflexivity|].
  cbn [forallb existsb] in Hn, He. apply andb_true_iff in Hn as [Hattr Hn].
  apply orb_false_iff in He as [Ha He].
  rewrite (removeAttribute_other ws a ws1 ws2 v q) by assumption.
  now apply IH.
Qed.

Section AttributeSteps.

Variable attrs : list jsstring.
Hypothesis attrs_names : forallb is_name attrs = true.

Lemma removeAttributes_attribute_text (a : attribute) (after : jsstring) :
  attribute_ok attrs a = true ->
  fold_left removeAttribute attrs (attribute_text a ++ after)
  = (if kept attrs a then attribute_text a else []) ++ fold_left removeAttribute attrs after.
Proof.
  intro H. apply attribute_ok_inv in H as (Hs & Vq & _ & Ve).
  destruct (attribute_shape_inv a Hs) as (Nws & Fws & Hn & F1 & F2 & Hq).
  destruct (is_name_word _ Hn) as [Na Wa].
  unfold kept, attribute_text. destruct (blocked attrs (a_name a)) eqn:B; cbn [negb].
  - now apply removeAttributes_attribute.
  - now apply removeAttributes_keep.
Qed.

Lemma removeAttributes_attributes (l : list attribute) (after : jsstring) :
  forallb (attribute_ok attrs) l = true ->
  fold_left removeAttribute attrs (attributes_text l ++ after)
  = attributes_text (filter (kept attrs) l) ++ fold_left removeAttribute attrs after.
Proof.
  induction l as [|a l IH]; intro H; [reflexivity|].
  cbn [forallb] in H. apply andb_true_iff in H as [Ha Hl].
  unfold attributes_text in *. cbn [map concat filter].
  rewrite <- app_assoc, removeAttributes_attribute_text by assumption.
  rewrite IH by assumption.
  destruct (kept attrs a); cbn [map concat app]; [now rewrite <- app_assoc | reflexivity].
Qed.

Lemma parts_text_cons (p : part) (d : list part) :
  parts_text (p :: d) = piece_text (part_piece p) ++ parts_text d.
Proof. reflexivity. Qed.

Lemma quote_free_forall (t : jsstring) :
  Forall (fun x => not_quote x = true) t -> quote_free t.
Proof.
  intros H x Hx. rewrite Forall_forall in H. apply H in Hx.
  now apply negb_true_iff.
Qed.

Lemma name_not_quote (n : jsstring) :
  is_name n = true -> Forall (fun x => not_quote x = true) n.
Proof.
  intro H. destruct (is_name_word _ H) as [_ W].
  eapply Forall_impl; [|exact W]. exact word_not_quote.
Qed.

(** The attribute steps take the blocked attributes out of every tag, and
    nothing else. *)
Lemma removeAttributes_parts (d : list part) :
  forallb (part_ok attrs) d = true ->
  forall t, Forall (fun x => not_quote x = true) t ->
    fold_left removeAttribute attrs (t ++ parts_text d)
    = t ++ parts_text (map (keep_attributes attrs) d).
Proof.
  induction d as [|p d IH]; intros Hd t Ft.
  - cbn [map]. unfold parts_text. cbn [map document concat].
    now apply removeAttributes_quote_free, quote_free_forall; rewrite app_nil_r.
  - cbn [forallb] in Hd. apply andb_true_iff in Hd as [Hp Hd].
    cbn [map]. rewrite !parts_text_cons.
    destruct p as [u|n l rest|n]; cbn [part_ok] in Hp; cbn [keep_attributes part_piece piece_text].
    + apply andb_true_iff in Hp as [_ Hq]. apply Forall_forallb in Hq.
      rewrite !app_assoc. apply IH; [assumption | now apply Forall_app].
    + repeat (apply andb_true_iff in Hp as [Hp ?]).
      unfold open_tag.
      transitivity (fold_left removeAttribute attrs
                      ((t ++ "<"%char :: n)
                       ++ attributes_text l ++ (rest ++ [Patterns.gt]) ++ parts_text d)).
      { f_equal. list_norm. reflexivity. }
      rewrite removeAttributes_after_tag;
        auto using is_name_in_name.
      rewrite removeAttributes_attributes by assumption.
      rewrite IH; [list_norm; reflexivity | assumption |].
      apply Forall_app. split; [now apply Forall_forallb | now repeat constructor].
    + unfold close_tag.
      transitivity (fold_left removeAttribute attrs
                      ((t ++ "<"%char :: "/"%char :: n ++ [Patterns.gt]) ++ parts_text d)).
      { f_equal. list_norm. reflexivity. }
      rewrite IH; [list_norm; reflexivity | assumption |].
      apply Forall_app. split; [assumption|].
      constructor; [reflexivity|]. constructor; [reflexivity|].
      apply Forall_app. split; [now apply name_not_quote | now repeat constructor].
Qed.

End AttributeSteps.

(** ** Where a URL pattern can begin in a quoted attribute *)

Lemma app_split (A B m1 m2 : jsstring) (x : ascii) :
  A ++ B = m1 ++ x :: m2 ->
  (exists m2', A = m1 ++ x :: m2' /\ m2 = m2' ++ B)
  \/ (exists m1', B = m1' ++ x :: m2 /\ m1 = A ++ m1').
Proof.
  revert m1. induction A as [|c A IH]; intros m1 E.
  - right. exists m1. now split.
  - destruct m1 as [|c' m1]; cbn [app] in E; injection E as -> E.
    + left. exists A. now split.
    + apply IH in E as [(m2' & -> & ->) | (m1' & -> & ->)].
      * left. now exists m2'.
      * right. now exists m1'.
Qed.

(** A name of word characters that ends where a text ends, after white
    space, ends the last word of the text. *)
Lemma word_suffix (m1 a' X ws n : jsstring) :
  m1 ++ a' = (X ++ ws) ++ n ->
  Forall (fun x => is_word x = true) a' ->
  ws <> [] -> Forall (fun x => is_space x = true) ws ->
  exists p, n = p ++ a' /\ m1 = (X ++ ws) ++ p.
Proof.
  intros E Wa Nws Fws. apply app_eq_app in E as (l & [[E1 E2] | [E1 E2]]).
  - exists l. now split.
  - destruct l as [|l0 l]; [exists []; rewrite app_nil_r in *; now split|].
    exfalso. destruct (exists_last Nws) as (ws' & z & Ews).
    assert (Hz : is_space z = true)
      by (rewrite Ews in Fws; apply Forall_app in Fws as [_ F]; now inversion F).
    assert (In z (l0 :: l)).
    { destruct (@exists_last _ (l0 :: l)) as (l' & z' & El); [discriminate|].
      rewrite El in E1. rewrite Ews in E1.
      assert (E : (X ++ ws') ++ [z] = (m1 ++ l') ++ [z'])
        by (etransitivity; [|etransitivity; [exact E1|]]; list_norm; reflexivity).
      apply app_inj_tail in E as [_ ->]. rewrite El. apply in_or_app. right. now left. }
    rewrite E2 in Wa. apply Forall_app in Wa as [Wl _]. rewrite Forall_forall in Wl.
    apply Wl in H. apply word_not_space in H. congruence.
Qed.

Lemma last_not_space (a : jsstring) :
  a <> [] -> Forall (fun x => is_word x = true) a ->
  exists a0 z, a = a0 ++ [z] /\ is_space z = false.
Proof.
  intros N W. destruct (exists_last N) as (a0 & z & E). exists a0, z. split; [exact E|].
  apply word_not_space. rewrite E in W. apply Forall_app in W as [_ W]. now inversion W.
Qed.

(** Two texts that end with a name, white space, an equals sign and white
    space. *)
Lemma head_unique (m a sp1 sp2 X n ws1 ws2 : jsstring) :
  a <> [] -> Forall (fun x => is_word x = true) a ->
  n <> [] -> Forall (fun x => is_word x = true) n ->
  Forall (fun x => is_space x = true) sp1 -> Forall (fun x => is_space x = true) sp2 ->
  Forall (fun x => is_space x = true) ws1 -> Forall (fun x => is_space x = true) ws2 ->
  m ++ a ++ sp1 ++ "="%char :: sp2 = X ++ n ++ ws1 ++ "="%char :: ws2 ->
  m ++ a = X ++ n /\ sp1 = ws1 /\ sp2 = ws2.
Proof.
  intros Na Wa Nn Wn F1 F2 G1 G2 E.
  assert (E1 : (m ++ a ++ sp1) ++ "="%char :: sp2 = (X ++ n ++ ws1) ++ "="%char :: ws2)
    by (etransitivity; [|etransitivity; [exact E|]]; list_norm; reflexivity).
  apply (split_unique_r is_space) in E1 as (E1 & _ & ->); auto.
  destruct (last_not_space a Na Wa) as (a0 & z & Ea & Hz).
  destruct (last_not_space n Nn Wn) as (n0 & z' & En & Hz').
  assert (E2 : (m ++ a0) ++ z :: sp1 = (X ++ n0) ++ z' :: ws1)
    by (rewrite Ea, En in E1;
        etransitivity; [|etransitivity; [exact E1|]]; list_norm; reflexivity).
  apply (split_unique_r is_space) in E2 as (E2 & -> & ->); auto.
  repeat split. rewrite Ea, En, !app_assoc. now rewrite E2.
Qed.

Lemma ends_with_equals_snoc (v : jsstring) : ends_with_equals (v ++ ["="%char]) = true.
Proof. unfold ends_with_equals. now rewrite rev_app_distr. Qed.

Section HeadInAttribute.

Variables (b ws n ws1 ws2 v : jsstring) (q : ascii).
Hypothesis before_plain : Forall (fun x => not_quote x = true) b.
Hypothesis ws_nonempty : ws <> [].
Hypothesis blank : Forall (fun x => is_space x = true) ws.
Hypothesis name_ok : is_name n = true.
Hypothesis blank1 : Forall (fun x => is_space x = true) ws1.
Hypothesis blank2 : Forall (fun x => is_space x = true) ws2.
Hypothesis quote_ok : is_quote q = true.
Hypothesis value_plain : Forall (fun x => not_quote x = true) v.
Hypothesis value_closed :
  Forall (fun x => not_char "=" x = true) v
  \/ (Forall (fun x => is_space x = false) v /\ ends_with_equals v = false).

Local Abbreviation A := (quoted_attribute n ws1 ws2 q v).

Lemma space_plain (l : jsstring) :
  Forall (fun x => is_space x = true) l -> Forall (fun x => not_quote x = true) l.
Proof. intro H. eapply Forall_impl; [|exact H]. exact space_not_quote'. Qed.

Lemma attribute_head_plain :
  Forall (fun x => not_quote x = true) (b ++ ws ++ n ++ ws1 ++ "="%char :: ws2).
Proof.
  repeat (apply Forall_app; split); auto using space_plain, name_not_quote.
Qed.

(** The head of a URL pattern, from the name to the opening quote, stands
    in the attribute at the end of its name and nowhere else. *)
Lemma head_in_attribute (m1 m2 post a' sp1 sp2 R : jsstring) (x z : ascii) :
  b ++ ws ++ A = m1 ++ x :: m2 ->
  x :: m2 ++ post = a' ++ sp1 ++ "="%char :: sp2 ++ z :: R ->
  href_or_src a' = true ->
  Forall (fun c => is_space c = true) sp1 ->
  Forall (fun c => is_space c = true) sp2 ->
  is_quote z = true ->
  exists p, n = p ++ a' /\ m1 = b ++ ws ++ p /\ sp1 = ws1 /\ sp2 = ws2
            /\ z = q /\ R = v ++ q :: post.
Proof.
  intros E El Ha' F1 F2 Hz.
  destruct (href_or_src_word _ Ha') as [Wa' Na'].
  destruct (is_name_word _ name_ok) as [Nn Wn].
  pose proof (before_quote_plain a' sp1 sp2 Ha' F1 F2) as Fh.
  assert (Qz : not_quote z = false) by (unfold not_quote; now rewrite Hz).
  assert (Qq : not_quote q = false) by (unfold not_quote; now rewrite quote_ok).
  assert (El' : (x :: m2) ++ post = (a' ++ sp1 ++ "="%char :: sp2) ++ z :: R)
    by (etransitivity; [exact El|]; list_norm; reflexivity).
  assert (Split : b ++ ws ++ A
                  = (b ++ ws ++ n ++ ws1 ++ "="%char :: ws2) ++ q :: v ++ [q])
    by (unfold quoted_attribute; list_norm; reflexivity).
  rewrite Split in E. apply app_split in E as [(m2' & E1 & E2) | (m1' & E1 & E2)].
  - (* the match begins before the opening quote *)
    rewrite E2 in El'.
    assert (El2 : (x :: m2') ++ q :: v ++ q :: post
                  = (a' ++ sp1 ++ "="%char :: sp2) ++ z :: R)
      by (etransitivity; [|exact El']; list_norm; reflexivity).
    assert (Fm : Forall (fun c => not_quote c = true) (x :: m2')).
    { pose proof attribute_head_plain as F. rewrite E1 in F. now apply Forall_app in F as [_ F]. }
    apply (split_unique not_quote) in El2 as (Eh & Ez & ER); auto.
    rewrite Eh in E1.
    assert (E3 : m1 ++ a' ++ sp1 ++ "="%char :: sp2
                 = (b ++ ws) ++ n ++ ws1 ++ "="%char :: ws2)
      by (etransitivity; [symmetry; exact E1|]; list_norm; reflexivity).
    apply head_unique in E3 as (E3 & -> & ->); auto.
    apply word_suffix in E3 as (p & -> & ->); auto.
    exists p. repeat split; auto; now rewrite <- app_assoc.
  - (* the match begins at a quote or in the value *)
    exfalso. destruct m1' as [|c m1'].
    + cbn [app] in E1. injection E1 as <- _.
      destruct a' as [|a0 a']; [congruence|]. cbn [app] in El. injection El as -> _.
      apply Forall_cons_iff in Wa' as [W _]. apply word_not_quote in W. congruence.
    + cbn [app] in E1. injection E1 as _ E1.
      change (v ++ [q] = m1' ++ x :: m2) in E1.
      apply app_split in E1 as [(m2' & E1 & E3) | (m1'' & E1 & _)].
      * (* in the value *)
        rewrite E3 in El'.
        assert (El2 : (x :: m2') ++ q :: post
                      = (a' ++ sp1 ++ "="%char :: sp2) ++ z :: R)
          by (etransitivity; [|exact El']; list_norm; reflexivity).
        assert (Fm : Forall (fun c => not_quote c = true) (x :: m2'))
          by (rewrite E1 in value_plain; now apply Forall_app in value_plain as [_ F]).
        apply (split_unique not_quote) in El2 as (Eh & _ & _); auto.
        rewrite Eh in E1.
        destruct value_closed as [Ne | [Ns Ee]].
        -- rewrite E1 in Ne. rewrite Forall_forall in Ne.
           assert (I : In "="%char (m1' ++ a' ++ sp1 ++ "="%char :: sp2))
             by (repeat (apply in_or_app; right); now left).
           apply Ne in I. discriminate.
        -- destruct sp2 as [|s0 sp2].
           ++ rewrite E1 in Ee.
              replace (m1' ++ a' ++ sp1 ++ ["="%char])
                with ((m1' ++ a' ++ sp1) ++ ["="%char]) in Ee by (list_norm; reflexivity).
              rewrite ends_with_equals_snoc in Ee. discriminate.
           ++ rewrite E1 in Ns. rewrite Forall_forall in Ns.
              assert (I : In s0 (m1' ++ a' ++ sp1 ++ "="%char :: s0 :: sp2))
                by (repeat (apply in_or_app; right); right; now left).
              apply Ns in I. apply Forall_cons_iff in F2 as [F2 _]. congruence.
      * (* at the closing quote *)
        destruct m1'' as [|c' m1'']; [|destruct m1''; discriminate].
        cbn [app] in E1. injection E1 as <- _.
        destruct a' as [|a0 a']; [congruence|]. cbn [app] in El. injection El as -> _.
        apply Forall_cons_iff in Wa' as [W _]. apply word_not_quote in W. congruence.
Qed.

End HeadInAttribute.

(** ** The URL step of [sanitize] on tags with quoted attributes *)

Lemma url_named_app (p s : jsstring) : href_or_src s = true -> url_named (p ++ s) = true.
Proof.
  intro H. unfold url_named. rewrite length_app.
  assert (L : length s = 4 \/ length s = 3).
  { apply href_or_src_cases in H as [H | H]; apply same_name_length in H; auto. }
  assert (S : forall k, length s = k -> skipn (length p + length s - k) (p ++ s) = s).
  { intros k Hk. rewrite Hk, Nat.add_sub, skipn_app, skipn_all, Nat.sub_diag. reflexivity. }
  destruct L as [L | L]; rewrite (S _ L), H; [reflexivity | apply orb_true_r].
Qed.

Lemma url_named_split (n : jsstring) :
  url_named n = true -> exists p s, n = p ++ s /\ href_or_src s = true.
Proof.
  unfold url_named. intro H. apply orb_true_iff in H as [H | H].
  - exists (firstn (length n - 4) n), (skipn (length n - 4) n).
    now rewrite firstn_skipn.
  - exists (firstn (length n - 3) n), (skipn (length n - 3) n).
    now rewrite firstn_skipn.
Qed.

Lemma quotedUrl_shape_nonempty (q : ascii) (pv : option ascii) (l : jsstring) (s' : mstate) :
  q = squote \/ q = dquote ->
  rmatch true (pattern (Patterns.quotedUrl q)) Some (MState pv l []) = Some s' ->
  exists a sp1 sp2 u,
    l = a ++ sp1 ++ "="%char :: sp2 ++ q :: u ++ q :: rest s'
    /\ href_or_src a = true
    /\ Forall (fun x => is_space x = true) sp1
    /\ Forall (fun x => is_space x = true) sp2
    /\ Forall (fun x => not_char q x = true) u
    /\ u <> [].
Proof.
  intros Hq H. apply rmatch_sound in H as (s1 & L & E). injection E as ->.
  cbn [Patterns.quotedUrl Patterns.hrefOrSrc pattern seqs fold_right] in L.
  unfold Plus in L.
  unfold Patterns.hrefOrSrc in L.
  invert_lang_alt; cbn [rest caps prev] in *; subst;
    match goal with
    | H : Lang _ (lits _) _ _ |- _ =>
        apply lits_inv in H as (a & Ea & Ha & Hc); cbn [rest caps prev] in *
    end;
    repeat match goal with
    | H : chr_eq true "="%char _ = true |- _ =>
        apply (chr_eq_alone true "="%char _ eq_refl) in H
    | H : chr_eq true q _ = true |- _ =>
        apply (chr_eq_alone true q _) in H;
        [|destruct Hq as [-> | ->]; reflexivity]
    end; subst.
  - exists a, m0, m, (x2 :: m1). rewrite H4. repeat split; auto; try discriminate.
    unfold href_or_src. cbn [str list_ascii_of_string]. now rewrite Ha.
  - exists a, m0, m, (x2 :: m1). rewrite H4. repeat split; auto; try discriminate.
    unfold href_or_src. cbn [str list_ascii_of_string]. rewrite Ha. apply orb_true_r.
Qed.

Lemma quotedUrl_forgets (q : ascii) : forgets_prev (Patterns.quotedUrl q).
Proof. apply forgets_no_boundary. reflexivity. Qed.

Lemma quote_cases_inv (q : ascii) : is_quote q = true -> q = squote \/ q = dquote.
Proof. intro H. apply is_quote_inv in H. tauto. Qed.

Section UrlInAttribute.

Variables (b ws n ws1 ws2 v : jsstring) (q : ascii).
Hypothesis before_plain : Forall (fun x => not_quote x = true) b.
Hypothesis ws_nonempty : ws <> [].
Hypothesis blank : Forall (fun x => is_space x = true) ws.
Hypothesis name_ok : is_name n = true.
Hypothesis blank1 : Forall (fun x => is_space x = true) ws1.
Hypothesis blank2 : Forall (fun x => is_space x = true) ws2.
Hypothesis quote_ok : is_quote q = true.
Hypothesis value_plain : Forall (fun x => not_quote x = true) v.
Hypothesis value_closed :
  Forall (fun x => not_char "=" x = true) v
  \/ (Forall (fun x => is_space x = false) v /\ ends_with_equals v = false).

Local Abbreviation A := (quoted_attribute n ws1 ws2 q v).

(** The pattern for the quote [q'] matches nowhere in an attribute with
    another quote, with a name that does not end with [href] or [src], or
    with an empty value. *)
Lemma quotedUrl_not_in_attribute (q' : ascii) (post m1 m2 : jsstring) (x : ascii)
    (pv : option ascii) :
  is_quote q' = true ->
  q' <> q \/ url_named n = false \/ v = [] ->
  b ++ ws ++ A = m1 ++ x :: m2 ->
  exec_at (Patterns.quotedUrl q') pv (x :: m2 ++ post) = None.
Proof.
  intros Hq' Hno E.
  destruct (exec_at _ _ _) as [[len cs]|] eqn:X; [exfalso|reflexivity].
  apply exec_at_inv in X as (s' & R & _ & _).
  apply quotedUrl_shape_nonempty in R
    as (a' & sp1 & sp2 & u & El & Ha' & F1 & F2 & Fu & Nu); [|now apply quote_cases_inv].
  destruct (head_in_attribute b ws n ws1 ws2 v q before_plain ws_nonempty blank name_ok
              blank1 blank2 quote_ok value_plain value_closed
              m1 m2 post a' sp1 sp2 (u ++ q' :: rest s') x q' E El Ha' F1 F2 Hq')
    as (p & En & _ & _ & _ & Eq & ER).
  destruct Hno as [Hne | [Hu | Hv]]; [congruence| |].
  - rewrite En, url_named_app in Hu by assumption. discriminate.
  - rewrite Hv in ER. destruct u as [|u0 u]; [congruence|].
    cbn [app] in ER. injection ER as -> _. apply Forall_cons_iff in Fu as [Fu _].
    unfold not_char in Fu. rewrite Eq, ascii_eqb_refl in Fu. discriminate.
Qed.

Context {U : URLParser}.

Lemma sanitizeUrls_over_attribute (this : Sanitizer) (post : jsstring) :
  url_named n = false \/ v = [] ->
  sanitizeUrls this (b ++ ws ++ A ++ post) = b ++ ws ++ A ++ sanitizeUrls this post.
Proof.
  intro Hno. unfold sanitizeUrls, replace_with.
  assert (P : forall q' l, is_quote q' = true ->
              replace_go (Patterns.quotedUrl q') (urlReplacer (config this)) 0 None
                ((b ++ ws ++ A) ++ l)
              = (b ++ ws ++ A)
                ++ replace_go (Patterns.quotedUrl q') (urlReplacer (config this)) 0 None l).
  { intros q' l Hq'. rewrite replace_go_pass.
    - f_equal. apply replace_go_forgets, quotedUrl_forgets.
    - intros m1 x m2 pv' E. apply (quotedUrl_not_in_attribute q' l m1); auto. }
  replace (b ++ ws ++ A ++ post) with ((b ++ ws ++ A) ++ post) by (list_norm; reflexivity).
  rewrite (P squote) by reflexivity. rewrite (P dquote) by reflexivity.
  list_norm. reflexivity.
Qed.

End UrlInAttribute.

Section UrlStep.

Context {U : URLParser}.
Variable this : Sanitizer.

Lemma urlReplacer_decision (m url attr : jsstring) :
  urlReplacer (config this) m [(2, url); (1, attr)]
  = if neutralized (config this) url then hash_attribute attr else m.
Proof.
  unfold urlReplacer, neutralized. cbn [group capture Nat.eqb].
  destruct (url_protocol url) as [p|]; [|reflexivity].
  destruct (allowedProtocols (config this)) as [l|].
  - destruct (includes l p); cbn [negb orb]; [|reflexivity].
    now destruct (jsstring_eqb p (str "data:") && negb (flag (allowDataUrls (config this)))).
  - cbn [orb].
    now destruct (jsstring_eqb p (str "data:") && negb (flag (allowDataUrls (config this)))).
Qed.

Lemma attribute_kept_inv (a : attribute) :
  attribute_ok [] a = true ->
  attribute_shape a = true
  /\ Forall (fun x => not_quote x = true) (a_value a)
  /\ (Forall (fun x => not_char "=" x = true) (a_value a)
      \/ (Forall (fun x => is_space x = false) (a_value a)
          /\ ends_with_equals (a_value a) = false)).
Proof.
  unfold attribute_ok. cbn [blocked existsb]. intro H.
  apply andb_true_iff in H as [Hs H]. apply closed_value_inv in H as (H1 & _ & H3).
  auto.
Qed.

Lemma sanitizeUrls_attribute_text (a : attribute) (b post : jsstring) :
  attribute_ok [] a = true ->
  Forall (fun x => not_quote x = true) b ->
  sanitizeUrls this (b ++ attribute_text a ++ post)
  = b ++ attribute_text (neutralize this a) ++ sanitizeUrls this post.
Proof.
  intros Ha Fb. apply attribute_kept_inv in Ha as (Hs & Vq & Vc).
  destruct (attribute_shape_inv a Hs) as (Nws & Fws & Hn & F1 & F2 & Hq).
  destruct a as [ws n ws1 ws2 q v].
  unfold neutralize, replaced, hashed, attribute_text.
  cbn [a_space a_name a_before a_after a_quote a_value] in *.
  destruct (url_named n) eqn:Un; cbn [andb];
    [destruct v as [|v0 v']; cbn [andb]|].
  - rewrite <- !app_assoc. apply sanitizeUrls_over_attribute; auto.
  - set (v := v0 :: v') in *.
    destruct (url_named_split _ Un) as (p & s & En & Hs').
    assert (Split : forall ws1 ws2 z u,
               quoted_attribute n ws1 ws2 z u = p ++ quoted_attribute s ws1 ws2 z u)
      by (intros; unfold quoted_attribute; rewrite En; list_norm; reflexivity).
    transitivity (sanitizeUrls this
                    ((b ++ ws ++ p) ++ quoted_attribute s ws1 ws2 q v ++ post)).
    { f_equal. rewrite Split. list_norm. reflexivity. }
    rewrite sanitizeUrls_attribute; auto using quote_cases_inv.
    + rewrite urlReplacer_decision.
      destruct (neutralized (config this) v); rewrite Split.
      * unfold hash_attribute, quoted_attribute. list_norm. reflexivity.
      * list_norm. reflexivity.
    + discriminate.
    + repeat (apply Forall_app; split); auto.
      * eapply Forall_impl; [|exact Fws]. exact space_not_quote'.
      * apply name_not_quote in Hn. rewrite En in Hn.
        now apply Forall_app in Hn as [Hn _].
  - rewrite <- !app_assoc. apply sanitizeUrls_over_attribute; auto.
Qed.

End UrlStep.

(** ** A step that works attribute by attribute *)

Section PassOverParts.

Variables (P : jsstring -> jsstring) (g : attribute -> attribute) (ok : attribute -> bool).
Hypothesis at_attribute :
  forall a b post, ok a = true -> Forall (fun x => not_quote x = true) b ->
    P (b ++ attribute_text a ++ post) = b ++ attribute_text (g a) ++ P post.
Hypothesis at_text : forall t, quote_free t -> P t = t.

Lemma pass_attributes (post result : jsstring) :
  (forall b, Forall (fun x => not_quote x = true) b -> P (b ++ post) = b ++ result) ->
  forall l, forallb ok l = true ->
  forall b, Forall (fun x => not_quote x = true) b ->
    P (b ++ attributes_text l ++ post) = b ++ attributes_text (map g l) ++ result.
Proof.
  intros Hpost. induction l as [|a l IH]; intros Hl b Fb.
  - now apply Hpost.
  - cbn [forallb] in Hl. apply andb_true_iff in Hl as [Ha Hl].
    unfold attributes_text in *. cbn [map concat]. rewrite <- !app_assoc.
    rewrite at_attribute by assumption. do 2 f_equal.
    apply (IH Hl []). constructor.
Qed.

Lemma pass_parts (d : list part) :
  forallb (attributes_ok ok) d = true ->
  forall b, Forall (fun x => not_quote x = true) b ->
    P (b ++ parts_text d) = b ++ parts_text (map (map_attributes g) d).
Proof.
  induction d as [|p d IH]; intros Hd b Fb.
  - cbn [map]. unfold parts_text. cbn [map document concat]. rewrite app_nil_r.
    now apply at_text, quote_free_forall.
  - cbn [forallb] in Hd. apply andb_true_iff in Hd as [Hp Hd].
    cbn [map]. rewrite !parts_text_cons.
    destruct p as [u|n l rest|n]; cbn [attributes_ok] in Hp;
      cbn [map_attributes part_piece piece_text].
    + apply Forall_forallb in Hp.
      rewrite !app_assoc. apply IH; [assumption | now apply Forall_app].
    + apply andb_true_iff in Hp as [Hp Hr]. apply andb_true_iff in Hp as [Hn Hl].
      apply Forall_forallb in Hr.
      unfold open_tag.
      transitivity (P ((b ++ "<"%char :: n)
                       ++ attributes_text l ++ (rest ++ [Patterns.gt]) ++ parts_text d)).
      { f_equal. list_norm. reflexivity. }
      rewrite (pass_attributes ((rest ++ [Patterns.gt]) ++ parts_text d)
                 ((rest ++ [Patterns.gt]) ++ parts_text (map (map_attributes g) d))).
      * list_norm. reflexivity.
      * intros b' Fb'. rewrite !app_assoc. rewrite <- (app_assoc b').
        apply IH; [assumption|]. apply Forall_app. split; [assumption|].
        apply Forall_app. split; [assumption | now repeat constructor].
      * assumption.
      * apply Forall_app. split; [assumption|].
        constructor; [reflexivity | now apply name_not_quote].
    + unfold close_tag.
      transitivity (P ((b ++ "<"%char :: "/"%char :: n ++ [Patterns.gt]) ++ parts_text d)).
      { f_equal. list_norm. reflexivity. }
      rewrite IH; [list_norm; reflexivity | assumption |].
      apply Forall_app. split; [assumption|].
      constructor; [reflexivity|]. constructor; [reflexivity|].
      apply Forall_app. split; [now apply name_not_quote | now repeat constructor].
Qed.

End PassOverParts.

Section UrlStepParts.

Context {U : URLParser}.
Variable this : Sanitizer.

(** The URL step of [sanitize] decides attribute by attribute. *)
Lemma sanitizeUrls_parts (d : list part) :
  forallb (attributes_ok (attribute_ok [])) d = true ->
  sanitizeUrls this (parts_text d)
  = parts_text (map (map_attributes (neutralize this)) d).
Proof.
  intro Hd.
  apply (pass_parts (sanitizeUrls this) (neutralize this) (attribute_ok [])
           (fun a b post Ha Fb => sanitizeUrls_attribute_text this a b post Ha Fb)
           (sanitizeUrls_quote_free this) d Hd []).
  constructor.
Qed.

End UrlStepParts.

(** ** The URL steps of [removeUnsafe] on tags with quoted attributes *)

Lemma starts_like_app (scheme sch v : jsstring) :
  same_name scheme sch = true -> starts_like scheme (sch ++ v) = true.
Proof.
  revert sch. induction scheme as [|c s IH]; intros [|x sch] H; try discriminate;
    [reflexivity|].
  cbn [same_name] in H. apply andb_true_iff in H as [Hc H].
  cbn [app starts_like]. now rewrite Hc, IH.
Qed.

Section SchemeInAttribute.

Variables (b ws n ws1 ws2 v : jsstring) (q : ascii).
Hypothesis before_plain : Forall (fun x => not_quote x = true) b.
Hypothesis ws_nonempty : ws <> [].
Hypothesis blank : Forall (fun x => is_space x = true) ws.
Hypothesis name_ok : is_name n = true.
Hypothesis blank1 : Forall (fun x => is_space x = true) ws1.
Hypothesis blank2 : Forall (fun x => is_space x = true) ws2.
Hypothesis quote_ok : is_quote q = true.
Hypothesis value_plain : Forall (fun x => not_quote x = true) v.
Hypothesis value_closed :
  Forall (fun x => not_char "=" x = true) v
  \/ (Forall (fun x => is_space x = false) v /\ ends_with_equals v = false).

Local Abbreviation A := (quoted_attribute n ws1 ws2 q v).

(** The pattern for a scheme matches nowhere in an attribute with a name
    that does not end with [href] or [src], or with a value that does not
    begin with the scheme. *)
Lemma schemeUrl_not_in_attribute (scheme post m1 m2 : jsstring) (x : ascii)
    (pv : option ascii) :
  forallb not_quote scheme = true ->
  url_named n = false \/ starts_like scheme v = false ->
  b ++ ws ++ A = m1 ++ x :: m2 ->
  exec_at (Patterns.schemeUrl scheme) pv (x :: m2 ++ post) = None.
Proof.
  intros Hscheme Hno E.
  destruct (exec_at _ _ _) as [[len cs]|] eqn:X; [exfalso|reflexivity].
  apply exec_at_inv in X as (s' & R & _ & _).
  apply schemeUrl_shape in R
    as (a' & sp1 & sp2 & z1 & sch & v' & z2 & El & Ha' & F1 & F2 & Hz1 & Hs & Fv' & Hz2 & _).
  destruct (head_in_attribute b ws n ws1 ws2 v q before_plain ws_nonempty blank name_ok
              blank1 blank2 quote_ok value_plain value_closed
              m1 m2 post a' sp1 sp2 (sch ++ v' ++ z2 :: rest s') x z1 E El Ha' F1 F2 Hz1)
    as (p & En & _ & _ & _ & _ & ER).
  destruct Hno as [Hu | Hv].
  - rewrite En, url_named_app in Hu by assumption. discriminate.
  - assert (ER' : (sch ++ v') ++ z2 :: rest s' = v ++ q :: post)
      by (etransitivity; [|exact ER]; list_norm; reflexivity).
    apply (split_unique not_quote) in ER' as (Ev & _ & _); auto.
    + rewrite <- Ev, starts_like_app in Hv by assumption. discriminate.
    + apply Forall_app. split; [|assumption].
      now apply (same_name_quote_free scheme).
    + unfold not_quote. now rewrite Hz2.
    + unfold not_quote. now rewrite quote_ok.
Qed.

Lemma removeUnsafe_urls_over_attribute (post : jsstring) :
  url_named n = false \/ scheme_value v = false ->
  removeUnsafe_urls (b ++ ws ++ A ++ post) = b ++ ws ++ A ++ removeUnsafe_urls post.
Proof.
  intro Hno. unfold removeUnsafe_urls, replace_with.
  assert (P : forall scheme l,
              forallb not_quote scheme = true ->
              url_named n = false \/ starts_like scheme v = false ->
              replace_go (Patterns.schemeUrl scheme) hash_replacement 0 None
                ((b ++ ws ++ A) ++ l)
              = (b ++ ws ++ A)
                ++ replace_go (Patterns.schemeUrl scheme) hash_replacement 0 None l).
  { intros scheme l Hs Hn. rewrite replace_go_pass.
    - f_equal. apply replace_go_forgets, schemeUrl_forgets.
    - intros m1 x m2 pv' E. apply (schemeUrl_not_in_attribute scheme l m1); auto. }
  assert (H2 : forall scheme,
             In scheme [str "javascript:"; str "data:"] ->
             url_named n = false \/ starts_like scheme v = false).
  { intros scheme Hin. destruct Hno as [H | H]; [now left | right].
    unfold scheme_value in H. apply orb_false_iff in H as [Hj Hd].
    destruct Hin as [<- | [<- | []]]; assumption. }
  replace (b ++ ws ++ A ++ post) with ((b ++ ws ++ A) ++ post) by (list_norm; reflexivity).
  rewrite (P (str "javascript:")); [|reflexivity | apply H2; now left].
  rewrite (P (str "data:")); [|reflexivity | apply H2; right; now left].
  list_norm. reflexivity.
Qed.

End SchemeInAttribute.

Lemma removeUnsafe_urls_attribute_text (a : attribute) (b post : jsstring) :
  floor_ok a = true ->
  Forall (fun x => not_quote x = true) b ->
  removeUnsafe_urls (b ++ attribute_text a ++ post)
  = b ++ attribute_text a ++ removeUnsafe_urls post.
Proof.
  unfold floor_ok. intros H Fb. apply andb_true_iff in H as [Ha Hs].
  apply attribute_kept_inv in Ha as (Hsh & Vq & Vc).
  destruct (attribute_shape_inv a Hsh) as (Nws & Fws & Hn & F1 & F2 & Hq).
  unfold attribute_text. rewrite <- !app_assoc.
  apply removeUnsafe_urls_over_attribute; auto.
  unfold safe_url in Hs. apply negb_true_iff in Hs.
  now apply andb_false_iff in Hs.
Qed.

Lemma map_attributes_id (d : list part) : map (map_attributes (fun a => a)) d = d.
Proof.
  induction d as [|p d IH]; [reflexivity|]. cbn [map]. rewrite IH. f_equal.
  destruct p; cbn [map_attributes]; [reflexivity| |reflexivity]. now rewrite map_id.
Qed.

Lemma removeUnsafe_urls_parts (d : list part) :
  forallb (attributes_ok floor_ok) d = true ->
  removeUnsafe_urls (parts_text d) = parts_text d.
Proof.
  intro Hd.
  rewrite <- (map_attributes_id d) at 2.
  apply (pass_parts removeUnsafe_urls (fun a => a) floor_ok
           removeUnsafe_urls_attribute_text removeUnsafe_urls_quote_free d Hd []).
  constructor.
Qed.

(** ** The parts of a document as pieces *)

Lemma space_in_tag (x : ascii) : is_space x = true -> in_tag x = true.
Proof.
  intro H. unfold in_tag, not_char.
  destruct (ascii_eqb x "<") eqn:E1; [apply ascii_eqb_eq in E1; subst; discriminate|].
  destruct (ascii_eqb x Patterns.gt) eqn:E2; [apply ascii_eqb_eq in E2; subst; discriminate|].
  reflexivity.
Qed.

Lemma word_in_tag (x : ascii) : is_word x = true -> in_tag x = true.
Proof.
  intro H. unfold in_tag, not_char.
  destruct (ascii_eqb x "<") eqn:E1; [apply ascii_eqb_eq in E1; subst; discriminate|].
  destruct (ascii_eqb x Patterns.gt) eqn:E2; [apply ascii_eqb_eq in E2; subst; discriminate|].
  reflexivity.
Qed.

Lemma quote_in_tag (q : ascii) : is_quote q = true -> in_tag q = true.
Proof. intro H. apply is_quote_inv in H as [-> | ->]; reflexivity. Qed.

Lemma attribute_in_tag (attrs : list jsstring) (a : attribute) :
  attribute_ok attrs a = true -> Forall (fun x => in_tag x = true) (attribute_text a).
Proof.
  intro H. apply attribute_ok_inv in H as (Hs & _ & Vt & _).
  destruct (attribute_shape_inv a Hs) as (_ & Fws & Hn & F1 & F2 & Hq).
  destruct (is_name_word _ Hn) as [_ Wn].
  assert (S : forall l, Forall (fun x => is_space x = true) l ->
                        Forall (fun x => in_tag x = true) l)
    by (intros l Hl; eapply Forall_impl; [|exact Hl]; exact space_in_tag).
  unfold attribute_text, quoted_attribute.
  repeat (apply Forall_app; split); auto.
  - eapply Forall_impl; [|exact Wn]. exact word_in_tag.
  - constructor; [reflexivity|]. apply Forall_app. split; [auto|].
    constructor; [now apply quote_in_tag|]. apply Forall_app. split; [assumption|].
    constructor; [now apply quote_in_tag | constructor].
Qed.

Lemma attributes_in_tag (attrs : list jsstring) (l : list attribute) :
  forallb (attribute_ok attrs) l = true ->
  Forall (fun x => in_tag x = true) (attributes_text l).
Proof.
  induction l as [|a l IH]; intro H; [constructor|].
  cbn [forallb] in H. apply andb_true_iff in H as [Ha Hl].
  unfold attributes_text in *. cbn [map concat]. apply Forall_app. split; [|now apply IH].
  now apply (attribute_in_tag attrs).
Qed.

Lemma attributes_apart (attrs : list jsstring) (l : list attribute) (rest : jsstring) :
  forallb (attribute_ok attrs) l = true -> apart rest = true ->
  apart (attributes_text l ++ rest) = true.
Proof.
  destruct l as [|a l]; intros H Hr; [exact Hr|].
  cbn [forallb] in H. apply andb_true_iff in H as [Ha _].
  apply attribute_ok_inv in Ha as (Hs & _).
  destruct (attribute_shape_inv a Hs) as (Nws & Fws & _).
  unfold attributes_text, attribute_text. cbn [map concat].
  destruct (a_space a) as [|w ws']; [congruence|]. cbn [app apart].
  apply Forall_cons_iff in Fws as [Hw _]. now rewrite (space_not_word _ Hw).
Qed.

Lemma part_piece_ok (attrs : list jsstring) (p : part) :
  part_ok attrs p = true -> piece_ok (part_piece p) = true.
Proof.
  destruct p as [t|n l rest|n]; cbn [part_ok part_piece piece_ok]; intro H.
  - now apply andb_true_iff in H as [H _].
  - repeat (apply andb_true_iff in H as [H ?]).
    rewrite H, (attributes_apart attrs) by assumption. cbn [andb]. rewrite andb_true_r.
    rewrite forallb_app. apply andb_true_iff. split; [|assumption].
    apply forallb_forall. apply Forall_forall. now apply (attributes_in_tag attrs).
  - exact H.
Qed.

Lemma parts_pieces_ok (attrs : list jsstring) (d : list part) :
  forallb (part_ok attrs) d = true -> forallb piece_ok (map part_piece d) = true.
Proof.
  rewrite !forallb_forall. intros H p Hp. apply in_map_iff in Hp as (x & <- & Hx).
  apply (part_piece_ok attrs). now apply H.
Qed.

(** Pieces taken from the pieces of parts are the pieces of parts. *)
Lemma incl_parts (d : list part) (d' : list piece) :
  incl d' (map part_piece d) -> exists ps, d' = map part_piece ps /\ incl ps d.
Proof.
  induction d' as [|p d' IH]; intro I; [exists []; split; [reflexivity | intros x []]|].
  destruct IH as (ps & -> & Ips); [intros x Hx; apply I; now right|].
  assert (Hp : In p (map part_piece d)) by (apply I; now left).
  apply in_map_iff in Hp as (x & <- & Hx).
  exists (x :: ps). split; [reflexivity|]. intros y [<- | Hy]; auto.
Qed.

(** ** Trimming the parts of a document *)

Section TrimParts.

Variable Q : part -> bool.
Hypothesis Q_text :
  forall t t', Q (PText t) = true -> (forall x, In x t' -> In x t) -> Q (PText t') = true.

Lemma ltrim_parts (d : list part) :
  forallb Q d = true ->
  exists d', drop_while is_space (parts_text d) = parts_text d' /\ forallb Q d' = true.
Proof.
  induction d as [|p d IH]; intro Hd; [now exists []|].
  cbn [forallb] in Hd. apply andb_true_iff in Hd as [Hp Hd].
  rewrite parts_text_cons. destruct (is_tag (part_piece p)) eqn:T.
  - destruct (tag_ends _ T) as (m & Em). exists (p :: d).
    rewrite parts_text_cons, Em. cbn [app drop_while forallb]. split; [reflexivity|].
    now rewrite Hp, Hd.
  - destruct p as [t| |]; try discriminate. cbn [part_piece piece_text].
    rewrite drop_while_app. destruct (forallb is_space t); [now apply IH|].
    exists (PText (drop_while is_space t) :: d). split; [now rewrite parts_text_cons|].
    cbn [forallb]. rewrite Hd, andb_true_r.
    apply (Q_text t); [assumption | intros x; apply drop_while_In].
Qed.

Lemma rtrim_parts (d : list part) :
  forallb Q d = true ->
  exists d', rdrop is_space (parts_text d) = parts_text d' /\ forallb Q d' = true.
Proof.
  induction d as [|p d IH]; intro Hd; [now exists []|].
  cbn [forallb] in Hd. apply andb_true_iff in Hd as [Hp Hd].
  rewrite parts_text_cons, rdrop_app.
  destruct (forallb is_space (parts_text d)).
  - destruct (is_tag (part_piece p)) eqn:T.
    + destruct (tag_ends _ T) as (m & Em). exists [p].
      rewrite Em, rdrop_tag. unfold parts_text. cbn [document map concat forallb].
      rewrite Em, app_nil_r, Hp. now split.
    + destruct p as [t| |]; try discriminate. cbn [part_piece piece_text].
      exists [PText (rdrop is_space t)].
      unfold parts_text. cbn [document map concat part_piece piece_text forallb].
      rewrite app_nil_r, andb_true_r. split; [reflexivity|].
      apply (Q_text t); [assumption | intros x; apply rdrop_In].
  - destruct (IH Hd) as (d' & E & Hd'). exists (p :: d').
    rewrite parts_text_cons, E. cbn [forallb]. rewrite Hp, Hd'. now split.
Qed.

Lemma trim_parts (d : list part) :
  forallb Q d = true ->
  exists d', trim (parts_text d) = parts_text d' /\ forallb Q d' = true.
Proof.
  intro Hd. rewrite trim_rdrop.
  destruct (ltrim_parts d Hd) as (d1 & -> & Hd1).
  now apply rtrim_parts.
Qed.

End TrimParts.

(** ** [sanitize] on tags with quoted attributes *)

Lemma hashed_ok (a : attribute) :
  attribute_shape a = true -> attribute_ok [] (hashed a) = true.
Proof.
  intro Hs. unfold attribute_ok, hashed. cbn [blocked existsb a_name a_value a_quote].
  rewrite andb_true_r.
  unfold attribute_shape in *. cbn [a_space a_name a_before a_after a_quote forallb].
  repeat (apply andb_true_iff in Hs as [Hs ?]).
  repeat (apply andb_true_iff; split); auto.
Qed.

Lemma attribute_ok_shape (attrs : list jsstring) (a : attribute) :
  attribute_ok attrs a = true -> attribute_shape a = true.
Proof. unfold attribute_ok. intro H. now apply andb_true_iff in H as [H _]. Qed.

Lemma kept_ok (attrs : list jsstring) (a : attribute) :
  attribute_ok attrs a = true -> kept attrs a = true -> attribute_ok [] a = true.
Proof.
  unfold kept, attribute_ok. intros H K. apply negb_true_iff in K. now rewrite K in H.
Qed.

Lemma closed_removable (q : ascii) (v : jsstring) :
  is_quote q = true -> closed_value v = true -> removable_value q v = true.
Proof.
  unfold closed_value, removable_value. intros Hq H.
  apply andb_true_iff in H as [H H3]. apply andb_true_iff in H as [H1 H2].
  rewrite H2, andb_true_r. apply andb_true_iff. split.
  - apply forallb_forall. intros x Hx. rewrite forallb_forall in H1.
    apply not_quote_not_char; auto.
  - apply orb_true_iff in H3 as [H3 | H3]; [now rewrite H3|].
    apply andb_true_iff in H3 as [H3 _]. rewrite H3. apply orb_true_r.
Qed.

(** An attribute that can stay can be removed as well. *)
Lemma attribute_ok_any (attrs : list jsstring) (a : attribute) :
  attribute_ok [] a = true -> attribute_ok attrs a = true.
Proof.
  unfold attribute_ok. cbn [blocked existsb]. intro H.
  apply andb_true_iff in H as [Hs Hv]. rewrite Hs. cbn [andb].
  destruct (blocked attrs (a_name a)); [|exact Hv].
  destruct (attribute_shape_inv a Hs) as (_ & _ & _ & _ & _ & Hq).
  now apply closed_removable.
Qed.

Lemma part_ok_any (attrs : list jsstring) (p : part) :
  part_ok [] p = true -> part_ok attrs p = true.
Proof.
  destruct p as [t|n l rest|n]; cbn [part_ok]; auto. intro H.
  apply andb_true_iff in H as [H Hap]. apply andb_true_iff in H as [H Hrq].
  apply andb_true_iff in H as [H Hrt]. apply andb_true_iff in H as [Hn Hl].
  rewrite Hn, Hrt, Hrq, Hap. cbn [andb]. rewrite !andb_true_r.
  apply forallb_forall. intros a Ha. rewrite forallb_forall in Hl.
  now apply attribute_ok_any, Hl.
Qed.

Section NeutralizedAttribute.

Context {U : URLParser}.
Variables (this : Sanitizer) (attrs : list jsstring).

Lemma neutralize_name (a : attribute) : a_name (neutralize this a) = a_name a.
Proof. unfold neutralize. now destruct (replaced this a). Qed.

Lemma neutralize_ok (a : attribute) :
  attribute_ok [] a = true -> attribute_ok [] (neutralize this a) = true.
Proof.
  intro H. unfold neutralize. destruct (replaced this a); [|exact H].
  apply hashed_ok. now apply (attribute_ok_shape []).
Qed.


Lemma is_hashed_hashed (a : attribute) : is_hashed (hashed a) = true.
Proof. reflexivity. Qed.

Lemma hashed_fixed (a : attribute) : is_hashed a = true -> hashed a = a.
Proof.
  destruct a as [ws n ws1 ws2 q v]. unfold is_hashed, hashed.
  cbn [a_space a_name a_before a_after a_quote a_value].
  destruct ws1; [|discriminate]. destruct ws2; [|discriminate]. intro H.
  apply andb_true_iff in H as [Hq Hv].
  apply ascii_eqb_eq in Hq. apply jsstring_eqb_eq in Hv. now subst.
Qed.

Lemma neutralize_fixed (a : attribute) :
  kept attrs a = true -> fixed this attrs (neutralize this a) = true.
Proof.
  unfold kept, fixed. intro K. rewrite neutralize_name, K. cbn [andb].
  unfold neutralize. destruct (replaced this a) eqn:D.
  - rewrite is_hashed_hashed. apply orb_true_r.
  - now rewrite D.
Qed.

Lemma fixed_neutralize (a : attribute) :
  fixed this attrs a = true -> neutralize this a = a /\ kept attrs a = true.
Proof.
  unfold fixed, kept. intro H. apply andb_true_iff in H as [K H]. split; [|exact K].
  unfold neutralize. destruct (replaced this a); [|reflexivity].
  cbn [negb orb] in H. now apply hashed_fixed.
Qed.

End NeutralizedAttribute.

Lemma settled_text (R : attribute -> bool) (tags : list jsstring) (t t' : jsstring) :
  settled R tags (PText t) = true -> (forall x, In x t' -> In x t) ->
  settled R tags (PText t') = true.
Proof.
  unfold settled. cbn [part_ok]. rewrite !andb_true_r. intros H Hin.
  apply andb_true_iff in H as [H1 H2]. rewrite forallb_forall in H1, H2.
  apply andb_true_iff. split; apply forallb_forall; intros x Hx; auto.
Qed.

Lemma blocked_open (tags : list jsstring) (p : part) :
  (forall tag, In tag tags -> open_named tag (part_piece p) = false) ->
  match p with POpen n _ _ => blocked tags n = false | _ => True end.
Proof.
  intro H. destruct p as [t|n l rest|n]; auto. unfold blocked.
  destruct (existsb (fun tag => same_name tag n) tags) eqn:E; [|reflexivity].
  apply existsb_exists in E as (tag & Ht & E). apply H in Ht.
  cbn [part_piece open_named] in Ht. congruence.
Qed.

Lemma settled_inv (R : attribute -> bool) (tags : list jsstring) (d : list part) :
  forallb (settled R tags) d = true ->
  forallb (part_ok []) d = true
  /\ forallb (all_attributes R) d = true
  /\ forall tag, In tag tags -> existsb (open_named tag) (map part_piece d) = false.
Proof.
  induction d as [|p d IH]; intro H; [repeat split; auto|].
  cbn [forallb] in H. apply andb_true_iff in H as [Hp Hd].
  destruct (IH Hd) as (I1 & I2 & I3).
  unfold settled in Hp. apply andb_true_iff in Hp as [Hok Hp].
  cbn [forallb map existsb]. rewrite Hok, I1, I2. cbn [andb]. rewrite andb_true_r.
  destruct p as [t|n l rest|n]; cbn [all_attributes part_piece open_named];
    repeat split; auto.
  - now apply andb_true_iff in Hp as [_ Hp].
  - intros tag Ht. rewrite (I3 tag Ht), orb_false_r.
    apply andb_true_iff in Hp as [Hn _]. apply negb_true_iff in Hn. unfold blocked in Hn.
    destruct (same_name tag n) eqn:S; [|reflexivity].
    assert (X : existsb (fun t => same_name t n) tags = true)
      by (apply existsb_exists; now exists tag).
    congruence.
Qed.

(** The parts of a document whose attributes stay are without quotes
    outside the attributes. *)
Lemma parts_attributes_ok (R : attribute -> bool) (d : list part) :
  forallb (part_ok []) d = true ->
  forallb (all_attributes R) d = true ->
  forallb (attributes_ok (fun a => attribute_ok [] a && R a)) d = true.
Proof.
  rewrite !forallb_forall. intros H1 H2 p Hp.
  pose proof (H1 p Hp) as O. pose proof (H2 p Hp) as A.
  destruct p as [t|n l rest|n]; cbn [part_ok attributes_ok all_attributes] in *.
  - now apply andb_true_iff in O as [_ O].
  - apply andb_true_iff in O as [O Hap]. apply andb_true_iff in O as [O Hrq].
    apply andb_true_iff in O as [O Hrt]. apply andb_true_iff in O as [Hn Hl].
    rewrite Hn, Hrq. cbn [andb]. rewrite andb_true_r.
    apply forallb_forall. intros a Ha. rewrite forallb_forall in Hl, A.
    now rewrite (Hl a Ha), (A a Ha).
  - exact O.
Qed.

Lemma all_attributes_true (d : list part) :
  forallb (all_attributes (fun _ => true)) d = true.
Proof.
  apply forallb_forall. intros p _. destruct p; cbn [all_attributes]; auto.
  apply forallb_forall. reflexivity.
Qed.

Lemma attributes_ok_weaken (ok ok' : attribute -> bool) (d : list part) :
  (forall a, ok a = true -> ok' a = true) ->
  forallb (attributes_ok ok) d = true -> forallb (attributes_ok ok') d = true.
Proof.
  intros W. rewrite !forallb_forall. intros H p Hp. apply H in Hp.
  destruct p as [t|n l rest|n]; cbn [attributes_ok] in *; auto.
  apply andb_true_iff in Hp as [Hp Hr]. apply andb_true_iff in Hp as [Hn Hl].
  rewrite Hn, Hr. cbn [andb]. rewrite andb_true_r.
  apply forallb_forall. intros a Ha. rewrite forallb_forall in Hl. auto.
Qed.

Lemma removeAttributes_names (this : Sanitizer) (s : jsstring) :
  match disallowedAttributes (config this) with
  | Some l => fold_left removeAttribute l s
  | None => s
  end = fold_left removeAttribute (names (disallowedAttributes (config this))) s.
Proof. now destruct (disallowedAttributes (config this)). Qed.

Section PartsSteps.

Context {U : URLParser}.
Variable this : Sanitizer.
Variables R0 R : attribute -> bool.

Local Abbreviation tags := (names (disallowedElements (config this))).
Local Abbreviation attrs := (names (disallowedAttributes (config this))).

Hypothesis through_steps :
  forall a, kept attrs a = true -> R0 a = true -> R (neutralize this a) = true.

Lemma attributes_settled (l : list attribute) :
  forallb (attribute_ok attrs) l = true ->
  forallb R0 l = true ->
  let l' := map (neutralize this) (filter (kept attrs) l) in
  forallb (attribute_ok []) l' = true /\ forallb R l' = true.
Proof.
  induction l as [|a l IH]; intros Hl Hf; [now split|].
  cbn [forallb] in Hl, Hf. apply andb_true_iff in Hl as [Ha Hl].
  apply andb_true_iff in Hf as [Hfa Hf].
  destruct (IH Hl Hf) as [I1 I2]. cbn [filter].
  destruct (kept attrs a) eqn:K; [|now split].
  cbn [map forallb]. cbv zeta in *.
  rewrite (neutralize_ok this a (kept_ok attrs a Ha K)), (through_steps a K Hfa), I1, I2.
  now split.
Qed.

(** A part that the element steps leave, after the attribute steps and the
    URL step. *)
Lemma part_settled (p : part) :
  part_ok attrs p = true ->
  all_attributes R0 p = true ->
  (forall tag, In tag tags -> open_named tag (part_piece p) = false) ->
  settled R tags (map_attributes (neutralize this) (keep_attributes attrs p)) = true.
Proof.
  intros Hp Hf Hno. apply blocked_open in Hno. unfold settled.
  destruct p as [t|n l rest|n];
    cbn [keep_attributes map_attributes part_ok all_attributes] in *.
  - now rewrite Hp.
  - apply andb_true_iff in Hp as [Hp Hap]. apply andb_true_iff in Hp as [Hp Hrq].
    apply andb_true_iff in Hp as [Hp Hrt]. apply andb_true_iff in Hp as [Hn Hl].
    destruct (attributes_settled l Hl Hf) as [A1 A2]. cbv zeta in *.
    now rewrite Hn, A1, A2, Hrt, Hrq, Hap, Hno.
  - now rewrite Hp.
Qed.

Lemma kept_parts_ok (d : list part) :
  forallb (part_ok attrs) d = true ->
  forallb (attributes_ok (attribute_ok [])) (map (keep_attributes attrs) d) = true.
Proof.
  intro Hd. apply forallb_forall. intros p Hp.
  apply in_map_iff in Hp as (p0 & <- & Hp). rewrite forallb_forall in Hd.
  apply Hd in Hp. destruct p0 as [t|n l rest|n];
    cbn [keep_attributes attributes_ok part_ok] in *.
  - now apply andb_true_iff in Hp as [_ Hp].
  - apply andb_true_iff in Hp as [Hp Hap]. apply andb_true_iff in Hp as [Hp Hrq].
    apply andb_true_iff in Hp as [Hp Hrt]. apply andb_true_iff in Hp as [Hn Hl].
    rewrite Hn, Hrq. cbn [andb]. rewrite andb_true_r.
    apply forallb_forall. intros a Ha.
    apply filter_In in Ha as [Ha Hk]. rewrite forallb_forall in Hl.
    apply (kept_ok attrs); [now apply Hl | assumption].
  - exact Hp.
Qed.

(** What [sanitize] returns on a document whose tags begin with quoted
    attributes is a document of this kind: no opening tag has a blocked
    name, and the attributes are those that the attribute steps and the URL
    step leave. *)
Lemma sanitize_parts (d : list part) :
  word_names (config this) = true ->
  forallb (part_ok attrs) d = true ->
  forallb (all_attributes R0) d = true ->
  exists d', sanitize_text this (parts_text d) = parts_text d'
             /\ forallb (settled R tags) d' = true.
Proof.
  intros Hw Hd Hf. destruct (word_names_inv _ Hw) as [_ Na].
  rewrite sanitize_text_steps, removeAttributes_names.
  destruct (element_steps_document this (map part_piece d) Hw (parts_pieces_ok _ _ Hd))
    as (d1 & E1 & I1 & N1).
  destruct (incl_parts d d1 I1) as (ps1 & -> & Ips).
  unfold parts_text at 1. rewrite E1.
  pose proof (incl_forallb _ _ _ Ips Hd) as Hd1.
  pose proof (incl_forallb _ _ _ Ips Hf) as Hf1.
  pose proof (removeAttributes_parts attrs Na ps1 Hd1 [] (Forall_nil _)) as E2.
  cbn [app] in E2. fold (parts_text ps1). rewrite E2.
  assert (S : forallb (settled R tags)
                (map (map_attributes (neutralize this)) (map (keep_attributes attrs) ps1))
              = true).
  { apply forallb_forall. intros p Hp.
    apply in_map_iff in Hp as (p1 & <- & Hp). apply in_map_iff in Hp as (p0 & <- & Hp).
    rewrite forallb_forall in Hd1, Hf1. apply part_settled; auto.
    intros tag Ht. pose proof (N1 tag Ht) as X.
    destruct (open_named tag (part_piece p0)) eqn:O; [|reflexivity].
    assert (Y : existsb (open_named tag) (map part_piece ps1) = true)
      by (apply existsb_exists; exists (part_piece p0); split; [now apply in_map | exact O]).
    congruence. }
  destruct (settled_inv _ _ _ S) as (S1 & _).
  rewrite sanitizeUrls_parts by now apply kept_parts_ok.
  destruct (cleanupEmptyTags_document _ (parts_pieces_ok _ _ S1)) as (d4 & E4 & I4).
  unfold parts_text at 1. rewrite E4.
  destruct (incl_parts _ d4 I4) as (ps4 & -> & Ips4).
  apply (trim_parts (settled R tags) (settled_text R tags)).
  exact (incl_forallb _ _ _ Ips4 S).
Qed.

End PartsSteps.

(** ** The floor of [removeUnsafe], on tags with quoted attributes *)

Lemma filter_all {A} (f : A -> bool) (l : list A) :
  forallb f l = true -> filter f l = l.
Proof.
  induction l as [|a l IH]; [reflexivity|]. cbn [forallb filter]. intro H.
  apply andb_true_iff in H as [Ha Hl]. now rewrite Ha, IH.
Qed.

Lemma keep_all (attrs : list jsstring) (d : list part) :
  forallb (all_attributes (kept attrs)) d = true -> map (keep_attributes attrs) d = d.
Proof.
  induction d as [|p d IH]; [reflexivity|]. cbn [forallb map]. intro H.
  apply andb_true_iff in H as [Hp Hd]. rewrite IH by assumption. f_equal.
  destruct p as [t|n l rest|n]; cbn [keep_attributes all_attributes] in *; auto.
  now rewrite filter_all.
Qed.

Lemma all_attributes_weaken (R R' : attribute -> bool) (d : list part) :
  (forall a, R a = true -> R' a = true) ->
  forallb (all_attributes R) d = true -> forallb (all_attributes R') d = true.
Proof.
  intros W. rewrite !forallb_forall. intros H p Hp. apply H in Hp.
  destruct p as [t|n l rest|n]; cbn [all_attributes] in *; auto.
  apply forallb_forall. intros a Ha. rewrite forallb_forall in Hp. auto.
Qed.

(** [removeUnsafe] on a document in which it finds nothing. *)
Lemma removeUnsafe_settled (tags : list jsstring) (d : list part) :
  incl unsafeElements tags ->
  forallb (settled below_floor tags) d = true ->
  removeUnsafe_text (parts_text d) = trim (parts_text d).
Proof.
  intros I S. destruct (settled_inv _ _ _ S) as (S1 & S2 & S3).
  rewrite removeUnsafe_text_steps. unfold parts_text at 1.
  rewrite (removeElements_absent unsafeElements _ eq_refl (parts_pieces_ok _ _ S1))
    by (intros tag Ht; apply S3; now apply I).
  assert (O : forallb (part_ok unsafeAttributes) d = true).
  { apply forallb_forall. intros p Hp. rewrite forallb_forall in S1.
    now apply part_ok_any, S1. }
  pose proof (removeAttributes_parts unsafeAttributes eq_refl d O [] (Forall_nil _)) as E.
  cbn [app] in E. fold (parts_text d). rewrite E, keep_all.
  - f_equal. apply removeUnsafe_urls_parts.
    apply (attributes_ok_weaken (fun a => attribute_ok [] a && below_floor a)).
    + intros a Ha. apply andb_true_iff in Ha as [H1 H2]. unfold below_floor in H2.
      apply andb_true_iff in H2 as [_ H2]. unfold floor_ok. now rewrite H1, H2.
    + now apply parts_attributes_ok.
  - apply (all_attributes_weaken below_floor); [|assumption].
    intros a Ha. unfold below_floor in Ha. now apply andb_true_iff in Ha as [Ha _].
Qed.

Section FloorOnParts.

Context {U : URLParser}.


End FloorOnParts.

(** ** Running [sanitize] twice, on tags with quoted attributes *)

Lemma element_steps_absent (this : Sanitizer) (d : list piece) :
  word_names (config this) = true ->
  forallb piece_ok d = true ->
  (forall tag, In tag (names (disallowedElements (config this))) ->
               existsb (open_named tag) d = false) ->
  element_steps this (document d) = document d.
Proof.
  intros Hw Hd Hno. destruct (word_names_inv _ Hw) as [Ht _].
  unfold element_steps. cbv zeta.
  assert (E : (if flag (stripComments (config this))
               then remove Patterns.comment
                      (if flag (stripDoctype (config this))
                       then remove Patterns.doctype (document d) else document d)
               else if flag (stripDoctype (config this))
                    then remove Patterns.doctype (document d) else document d)
              = document d).
  { destruct (flag (stripDoctype (config this)));
      destruct (flag (stripComments (config this)));
      rewrite ?doctype_document, ?comment_document; auto. }
  rewrite E.
  destruct (disallowedElements (config this)) as [tags|]; cbn [names] in *;
    [now apply removeElements_absent | reflexivity].
Qed.

Lemma neutralize_all {U : URLParser} (this : Sanitizer) (attrs : list jsstring)
    (d : list part) :
  forallb (all_attributes (fixed this attrs)) d = true ->
  map (map_attributes (neutralize this)) d = d.
Proof.
  induction d as [|p d IH]; [reflexivity|]. cbn [forallb map]. intro H.
  apply andb_true_iff in H as [Hp Hd]. rewrite IH by assumption. f_equal.
  destruct p as [t|n l rest|n]; cbn [map_attributes all_attributes] in *; auto.
  f_equal. induction l as [|a l IHl]; [reflexivity|].
  cbn [forallb map] in *. apply andb_true_iff in Hp as [Ha Hl].
  rewrite IHl by assumption. now destruct (fixed_neutralize this attrs a Ha) as [-> _].
Qed.

Section SecondRunOnParts.

Context {U : URLParser}.
Variable this : Sanitizer.

Local Abbreviation tags := (names (disallowedElements (config this))).
Local Abbreviation attrs := (names (disallowedAttributes (config this))).

(** On what it returns, [sanitize] has its clean-up and its trimming
    left. *)
Lemma sanitize_settled (d : list part) :
  word_names (config this) = true ->
  forallb (settled (fixed this attrs) tags) d = true ->
  sanitize_text this (parts_text d) = trim (cleanupEmptyTags (parts_text d)).
Proof.
  intros Hw S. destruct (word_names_inv _ Hw) as [_ Na].
  destruct (settled_inv _ _ _ S) as (S1 & S2 & S3).
  rewrite sanitize_text_steps, removeAttributes_names. unfold parts_text at 1.
  rewrite element_steps_absent by (auto; now apply (parts_pieces_ok [])).
  assert (O : forallb (part_ok attrs) d = true).
  { apply forallb_forall. intros p Hp. rewrite forallb_forall in S1.
    now apply part_ok_any, S1. }
  pose proof (removeAttributes_parts attrs Na d O [] (Forall_nil _)) as E.
  cbn [app] in E. fold (parts_text d). rewrite E, keep_all.
  - rewrite sanitizeUrls_parts, (neutralize_all this attrs); auto.
    apply (attributes_ok_weaken (fun a => attribute_ok [] a && fixed this attrs a)).
    + intros a Ha. now apply andb_true_iff in Ha as [Ha _].
    + now apply parts_attributes_ok.
  - apply (all_attributes_weaken (fixed this attrs)); [|assumption].
    intros a Ha. now destruct (fixed_neutralize this attrs a Ha).
Qed.

Lemma sanitize_twice_parts (d : list part) :
  word_names (config this) = true ->
  forallb (part_ok attrs) d = true ->
  let once := sanitize this (VString (parts_text d)) in
  sanitize this (VString once) = trim (cleanupEmptyTags once)
  /\ (sanitize this (VString once) = once <-> cleanupEmptyTags once = once).
Proof.
  intros Hw Hd once.
  assert (E2 : sanitize this (VString once) = trim (cleanupEmptyTags once)).
  { unfold once. rewrite !sanitize_string.
    destruct (sanitize_parts this (fun _ => true) (fixed this attrs)
                (fun a K _ => neutralize_fixed this attrs a K) d Hw Hd
                (all_attributes_true d)) as (d' & E & S).
    rewrite E. now apply sanitize_settled. }
  split; [exact E2|]. rewrite E2.
  assert (T : trim once = once)
    by (unfold once; rewrite sanitize_string; apply sanitize_output_trimmed).
  split; intro H.
  - pose proof (trim_length (cleanupEmptyTags once)) as L1.
    pose proof (cleanupEmptyTags_length once) as L2.
    assert (L : length (trim (cleanupEmptyTags once)) = length (cleanupEmptyTags once))
      by (rewrite H in *; lia).
    apply trim_full in L. now rewrite <- L.
  - now rewrite H.
Qed.

End SecondRunOnParts.

(** ** [removeUnsafe] on tags with quoted attributes *)

Lemma starts_like_split (scheme v : jsstring) :
  starts_like scheme v = true ->
  exists sch v', v = sch ++ v' /\ same_name scheme sch = true.
Proof.
  revert v. induction scheme as [|c s IH]; intros v H.
  - exists [], v. now split.
  - destruct v as [|x v]; [discriminate|]. cbn [starts_like] in H.
    apply andb_true_iff in H as [Hc H]. destruct (IH v H) as (sch & v' & -> & Hs).
    exists (x :: sch), v'. split; [reflexivity|]. cbn [same_name]. now rewrite Hc, Hs.
Qed.

Lemma schemeUrl_quote_free (scheme : jsstring) (t : jsstring) :
  quote_free t ->
  replace_with (Patterns.schemeUrl scheme) hash_replacement t = t.
Proof.
  intro H. apply (replace_with_needs is_quote); [apply schemeUrl_needs_quote | exact H].
Qed.

Section SchemePassAttribute.

Variable scheme : jsstring.
Hypothesis scheme_plain : forallb not_quote scheme = true.

Local Abbreviation pass := (replace_with (Patterns.schemeUrl scheme) hash_replacement).

Lemma scheme_pass_over (b ws n ws1 ws2 v post : jsstring) (q : ascii) :
  Forall (fun x => not_quote x = true) b ->
  ws <> [] -> Forall (fun x => is_space x = true) ws ->
  is_name n = true ->
  Forall (fun x => is_space x = true) ws1 ->
  Forall (fun x => is_space x = true) ws2 ->
  is_quote q = true ->
  Forall (fun x => not_quote x = true) v ->
  Forall (fun x => not_char "=" x = true) v
  \/ (Forall (fun x => is_space x = false) v /\ ends_with_equals v = false) ->
  url_named n = false \/ starts_like scheme v = false ->
  pass (b ++ ws ++ quoted_attribute n ws1 ws2 q v ++ post)
  = b ++ ws ++ quoted_attribute n ws1 ws2 q v ++ pass post.
Proof.
  intros Fb Nws Fws Hn F1 F2 Hq Vq Vc Hno. unfold replace_with.
  replace (b ++ ws ++ quoted_attribute n ws1 ws2 q v ++ post)
    with ((b ++ ws ++ quoted_attribute n ws1 ws2 q v) ++ post) by (list_norm; reflexivity).
  rewrite replace_go_pass.
  - rewrite <- !app_assoc. do 3 f_equal. apply replace_go_forgets, schemeUrl_forgets.
  - intros m1 x m2 pv' E.
    apply (schemeUrl_not_in_attribute b ws n ws1 ws2 v q Fb Nws Fws Hn F1 F2 Hq Vq Vc
             scheme post m1); auto.
Qed.

(** A URL step of [removeUnsafe] at an attribute. *)
Lemma scheme_pass_attribute (a : attribute) (b post : jsstring) :
  attribute_ok [] a = true ->
  Forall (fun x => not_quote x = true) b ->
  pass (b ++ attribute_text a ++ post)
  = b ++ attribute_text (hash_scheme scheme a) ++ pass post.
Proof.
  intros Ha Fb. apply attribute_kept_inv in Ha as (Hs & Vq & Vc).
  destruct (attribute_shape_inv a Hs) as (Nws & Fws & Hn & F1 & F2 & Hq).
  destruct a as [ws n ws1 ws2 q v].
  unfold hash_scheme, hashed, attribute_text.
  cbn [a_space a_name a_before a_after a_quote a_value] in *.
  destruct (url_named n) eqn:Un; cbn [andb];
    [destruct (starts_like scheme v) eqn:Sv|];
    cbn [a_space a_name a_before a_after a_quote a_value].
  - destruct (url_named_split _ Un) as (p & s & En & Hs').
    destruct (starts_like_split _ _ Sv) as (sch & v' & Ev & Hsch).
    assert (Fv' : Forall (fun x => not_quote x = true) v')
      by (rewrite Ev in Vq; now apply Forall_app in Vq as [_ Vq]).
    transitivity (pass ((b ++ ws ++ p) ++ scheme_attribute s ws1 ws2 q sch v' q ++ post)).
    { f_equal. unfold quoted_attribute, scheme_attribute. rewrite En, Ev.
      list_norm. reflexivity. }
    rewrite replace_scheme_attribute; auto.
    + unfold hash_attribute, quoted_attribute. rewrite En. list_norm. reflexivity.
    + repeat (apply Forall_app; split); auto.
      * eapply Forall_impl; [|exact Fws]. exact space_not_quote'.
      * apply name_not_quote in Hn. rewrite En in Hn.
        now apply Forall_app in Hn as [Hn _].
  - rewrite <- !app_assoc. apply scheme_pass_over; auto.
  - rewrite <- !app_assoc. apply scheme_pass_over; auto.
Qed.

Lemma scheme_pass_parts (d : list part) :
  forallb (attributes_ok (attribute_ok [])) d = true ->
  pass (parts_text d) = parts_text (map (map_attributes (hash_scheme scheme)) d).
Proof.
  intro Hd.
  apply (pass_parts pass (hash_scheme scheme) (attribute_ok [])
           scheme_pass_attribute (schemeUrl_quote_free scheme) d Hd []).
  constructor.
Qed.

End SchemePassAttribute.

Lemma hash_scheme_name (scheme : jsstring) (a : attribute) :
  a_name (hash_scheme scheme a) = a_name a.
Proof. unfold hash_scheme. now destruct (_ && _). Qed.

Lemma hash_scheme_ok (scheme : jsstring) (a : attribute) :
  attribute_ok [] a = true -> attribute_ok [] (hash_scheme scheme a) = true.
Proof.
  intro H. unfold hash_scheme. destruct (_ && _); [|exact H].
  apply hashed_ok. now apply (attribute_ok_shape []).
Qed.

(** After the two URL steps of [removeUnsafe], an attribute is one that
    they leave alone. *)
Lemma hash_schemes_safe (a : attribute) :
  safe_url (hash_scheme (str "data:") (hash_scheme (str "javascript:") a)) = true.
Proof.
  unfold safe_url. apply negb_true_iff. rewrite !hash_scheme_name.
  destruct (url_named (a_name a)) eqn:Un; [|reflexivity]. cbn [andb].
  assert (X : hash_scheme (str "javascript:") a
              = if starts_like (str "javascript:") (a_value a) then hashed a else a)
    by (unfold hash_scheme; now rewrite Un).
  rewrite X. destruct (starts_like (str "javascript:") (a_value a)) eqn:J.
  - unfold hash_scheme, hashed. cbn [a_name a_value]. rewrite Un. reflexivity.
  - unfold hash_scheme. rewrite Un. cbn [andb].
    destruct (starts_like (str "data:") (a_value a)) eqn:D; [reflexivity|].
    unfold scheme_value. now rewrite J, D.
Qed.

Lemma map_attributes_parts_ok (g : attribute -> attribute) (ok ok' : attribute -> bool)
    (d : list part) :
  (forall a, ok a = true -> ok' (g a) = true) ->
  forallb (attributes_ok ok) d = true ->
  forallb (attributes_ok ok') (map (map_attributes g) d) = true.
Proof.
  intros W Hd. apply forallb_forall. intros p Hp.
  apply in_map_iff in Hp as (p0 & <- & Hp). rewrite forallb_forall in Hd. apply Hd in Hp.
  destruct p0 as [t|n l rest|n]; cbn [map_attributes attributes_ok] in *; auto.
  apply andb_true_iff in Hp as [Hp Hr]. apply andb_true_iff in Hp as [Hn Hl].
  rewrite Hn, Hr. cbn [andb]. rewrite andb_true_r.
  apply forallb_forall. intros a Ha. apply in_map_iff in Ha as (a0 & <- & Ha).
  rewrite forallb_forall in Hl. auto.
Qed.

Lemma removeUnsafe_urls_hash_parts (d : list part) :
  forallb (attributes_ok (attribute_ok [])) d = true ->
  removeUnsafe_urls (parts_text d)
  = parts_text (map (map_attributes (hash_scheme (str "data:")))
                  (map (map_attributes (hash_scheme (str "javascript:"))) d)).
Proof.
  intro Hd. unfold removeUnsafe_urls.
  rewrite (scheme_pass_parts (str "javascript:") eq_refl d Hd).
  apply (scheme_pass_parts (str "data:") eq_refl).
  apply (map_attributes_parts_ok _ (attribute_ok [])); [|assumption].
  intros a. apply hash_scheme_ok.
Qed.

(** A part that the element steps of [removeUnsafe] leave, after its
    attribute steps and its URL steps. *)
Lemma part_below_floor (p : part) :
  part_ok unsafeAttributes p = true ->
  (forall tag, In tag unsafeElements -> open_named tag (part_piece p) = false) ->
  settled below_floor unsafeElements
    (map_attributes (hash_scheme (str "data:"))
       (map_attributes (hash_scheme (str "javascript:"))
          (keep_attributes unsafeAttributes p))) = true.
Proof.
  intros Hp Hno. apply blocked_open in Hno. unfold settled.
  destruct p as [t|n l rest|n]; cbn [keep_attributes map_attributes part_ok] in *.
  - now rewrite Hp.
  - apply andb_true_iff in Hp as [Hp Hap]. apply andb_true_iff in Hp as [Hp Hrq].
    apply andb_true_iff in Hp as [Hp Hrt]. apply andb_true_iff in Hp as [Hn Hl].
    rewrite Hn, Hrt, Hrq, Hap, Hno. cbn [andb negb]. rewrite !andb_true_r.
    rewrite forallb_forall in Hl.
    apply andb_true_iff. split; apply forallb_forall; intros a Ha;
      apply in_map_iff in Ha as (a1 & <- & Ha); apply in_map_iff in Ha as (a0 & <- & Ha);
      apply filter_In in Ha as [Ha K].
    + apply hash_scheme_ok, hash_scheme_ok. apply (kept_ok unsafeAttributes); auto.
    + unfold below_floor. rewrite hash_schemes_safe, !hash_scheme_name.
      unfold kept in K. now rewrite K.
  - now rewrite Hp.
Qed.

(** What [removeUnsafe] returns on a document whose tags begin with quoted
    attributes is a document of this kind in which it finds nothing. *)
Lemma removeUnsafe_parts (d : list part) :
  forallb (part_ok unsafeAttributes) d = true ->
  exists d', removeUnsafe_text (parts_text d) = parts_text d'
             /\ forallb (settled below_floor unsafeElements) d' = true.
Proof.
  intro Hd. rewrite removeUnsafe_text_steps.
  destruct (removeElements_document unsafeElements eq_refl (map part_piece d)
              (parts_pieces_ok _ _ Hd)) as (d1 & E1 & I1 & N1).
  destruct (incl_parts d d1 I1) as (ps1 & -> & Ips).
  unfold parts_text at 1. rewrite E1.
  pose proof (incl_forallb _ _ _ Ips Hd) as Hd1.
  pose proof (removeAttributes_parts unsafeAttributes eq_refl ps1 Hd1 [] (Forall_nil _)) as E2.
  cbn [app] in E2. fold (parts_text ps1). rewrite E2.
  rewrite removeUnsafe_urls_hash_parts.
  - apply (trim_parts _ (settled_text below_floor unsafeElements)).
    apply forallb_forall. intros p Hp.
    apply in_map_iff in Hp as (p2 & <- & Hp). apply in_map_iff in Hp as (p1 & <- & Hp).
    apply in_map_iff in Hp as (p0 & <- & Hp).
    rewrite forallb_forall in Hd1. apply part_below_floor; auto.
    intros tag Ht. pose proof (N1 tag Ht) as X.
    destruct (open_named tag (part_piece p0)) eqn:O; [|reflexivity].
    assert (Y : existsb (open_named tag) (map part_piece ps1) = true)
      by (apply existsb_exists; exists (part_piece p0); split; [now apply in_map | exact O]).
    congruence.
  - clear - Hd1. apply forallb_forall. intros p Hp.
    apply in_map_iff in Hp as (p0 & <- & Hp). rewrite forallb_forall in Hd1.
    apply Hd1 in Hp. destruct p0 as [t|n l rest|n];
      cbn [keep_attributes attributes_ok part_ok] in *.
    + now apply andb_true_iff in Hp as [_ Hp].
    + apply andb_true_iff in Hp as [Hp Hap]. apply andb_true_iff in Hp as [Hp Hrq].
      apply andb_true_iff in Hp as [Hp Hrt]. apply andb_true_iff in Hp as [Hn Hl].
      rewrite Hn, Hrq. cbn [andb]. rewrite andb_true_r.
      apply forallb_forall. intros a Ha.
      apply filter_In in Ha as [Ha Hk]. rewrite forallb_forall in Hl.
      apply (kept_ok unsafeAttributes); [now apply Hl | assumption].
    + exact Hp.
Qed.

Lemma removeUnsafe_twice_parts (d : list part) :
  forallb (part_ok unsafeAttributes) d = true ->
  removeUnsafe_text (removeUnsafe_text (parts_text d)) = removeUnsafe_text (parts_text d).
Proof.
  intro Hd. destruct (removeUnsafe_parts d Hd) as (d' & E & S).
  rewrite E, (removeUnsafe_settled unsafeElements) by (auto using incl_refl).
  rewrite <- E. rewrite removeUnsafe_text_steps. apply trim_idempotent.
Qed.

(* ================================================================== *)
(** * The claims *)

Section Claims.

Context {U : URLParser}.

(** C10 (as amended). The clean-up of [sanitize] removes an open/close pair
    of one tag name with only white space between the tags, whether or not
    an earlier pass left it, when the pair has this shape: [<name attrs>],
    white space, [</name>], with a name of word characters and attributes
    without [>] that do not go on with a word character right after the
    name.  Under every policy whose blocked names are names of word
    characters [sanitize('<div></div><p>x</p>')] no longer contains
    [<div></div>] (under the default policy it is [<p>x</p>]).  In general
    [cleanupEmptyTags] drops such a pair from the front of any text, and
    wherever the pair stands, the first replacement of [cleanupEmptyTags]
    returns what it keeps of the text before the pair (that text without
    some stretches beginning at a [<]) followed by its result on the text
    after the pair, so that no character of the pair is left. *)
Theorem cleanup_removes_empty_pairs :
  (forall this : Sanitizer,
     word_names (config this) = true ->
     contains (str "<div></div>") (sanitize this empty_div_then_p) = false)
  /\ sanitize (new_Sanitizer None) empty_div_then_p = str "<p>x</p>"
  /\ (forall name attrs ws before post : jsstring,
        name <> [] ->
        forallb is_word name = true ->
        forallb (not_char Patterns.gt) attrs = true ->
        apart attrs = true ->
        forallb is_space ws = true ->
        cleanupEmptyTags (pair_text name attrs ws ++ post) = cleanupEmptyTags post
        /\ exists kept,
             remove Patterns.emptyTag (before ++ pair_text name attrs ws ++ post)
             = kept ++ remove Patterns.emptyTag post
             /\ Del false before kept).
Proof.
  split; [|split].
  - intros this _. apply sanitize_text_empty_div.
  - vm_compute. reflexivity.
  - intros name attrs ws before post Hne Hname Hattrs Hclean Hws.
    rewrite forallb_forall in Hname, Hattrs, Hws.
    destruct name as [|n0 ns]; [congruence|].
    assert (H0 : is_word n0 = true) by (apply Hname; now left).
    assert (Hs : forall x, In x ns -> is_word x = true)
      by (intros x Hx; apply Hname; now right).
    split.
    + unfold cleanupEmptyTags, pair_text.
      rewrite remove_emptyTag_front; auto using apart_clean.
    + apply remove_emptyTag_anywhere; auto using apart_clean.
Qed.




(** C5 (as amended). A name whose lower-case form is an entry of the block
    list is refused by [isElementAllowed] and [isAttributeAllowed], also
    when it is on the allow list; the two queries do not depend on the case
    of their argument.  (The entries of the lists are compared as they
    are.) *)
Theorem blocklist_precedence :
  forall (this : Sanitizer) (name : jsstring),
    (forall l, disallowedElements (config this) = Some l ->
               includes l (toLowerCase name) = true ->
               isElementAllowed this name = false)
    /\ (forall l, disallowedAttributes (config this) = Some l ->
                  includes l (toLowerCase name) = true ->
                  isAttributeAllowed this name = false)
    /\ (forall name', toLowerCase name' = toLowerCase name ->
                      isElementAllowed this name' = isElementAllowed this name
                      /\ isAttributeAllowed this name' = isAttributeAllowed this name).
Proof.
  intros this name. split; [|split].
  - intros l Hl Hin. apply includes_In in Hin. eauto using isElementAllowed_blocked.
  - intros l Hl Hin. apply includes_In in Hin. eauto using isAttributeAllowed_blocked.
  - intros name' E. unfold isElementAllowed, isAttributeAllowed. now rewrite E.
Qed.

(** C6 (as amended). For every policy whose blocked names are names of
    word characters, and every document of text, closing tags and opening
    tags with quoted attributes ([part_ok], for the attributes that the
    function removes): [removeUnsafe] applied twice gives what it gives
    applied once; [sanitize] applied to its own result has only its
    clean-up and its trimming left to do, so that it gives the same result
    again exactly when the clean-up finds nothing to remove in that result.
    On text without markup both functions only trim, and applying either
    twice gives what applying it once gives. *)
Theorem idempotence_on_documents :
  forall (this : Sanitizer) (d : list part),
    word_names (config this) = true ->
    (forallb (part_ok unsafeAttributes) d = true ->
     removeUnsafe_text (removeUnsafe_text (parts_text d))
     = removeUnsafe_text (parts_text d))
    /\ (forallb (part_ok (names (disallowedAttributes (config this)))) d = true ->
        let once := sanitize this (VString (parts_text d)) in
        sanitize this (VString once) = trim (cleanupEmptyTags once)
        /\ (sanitize this (VString once) = once <-> cleanupEmptyTags once = once))
    /\ (forall s : jsstring,
          plainb s = true ->
          sanitize this (VString (sanitize this (VString s))) = sanitize this (VString s)
          /\ removeUnsafe_text (removeUnsafe_text s) = removeUnsafe_text s
          /\ sanitize this (VString s) = trim s
          /\ removeUnsafe_text s = trim s).
Proof.
  intros this d Hw.
  split; [apply removeUnsafe_twice_parts|].
  split; [intro Hd; now apply sanitize_twice_parts|].
  intros s H. apply plainb_plain in H.
  pose proof (trim_plain s H) as Ht.
  rewrite (sanitize_plain this s H), (removeUnsafe_text_plain s H).
  rewrite (sanitize_plain this _ Ht), (removeUnsafe_text_plain _ Ht), trim_idempotent.
  repeat split; reflexivity.
Qed.

(** The guards against values that are not strings.  [sanitize] returns
    the empty string for [null], [undefined], the empty string and every
    value that is not a string, and the [setHTML] family leaves the sink as
    it is for such a value.  [removeUnsafe] has no guard: it throws a
    [TypeError] for a primitive value that is not a string, and works on the
    string of a [String] object. *)
Lemma guards_against_non_strings :
  forall (this : Sanitizer) (v : value) (element : option HTMLElement)
         (options : option SetHTMLOptions) (root : ShadowRootProcessor),
    sanitize this VNull = []
    /\ sanitize this VUndefined = []
    /\ sanitize this (VString []) = []
    /\ (is_string v = false ->
        sanitize this v = []
        /\ setHTML element v options = Normal element
        /\ setHTMLUnsafe element v options = Normal element
        /\ ShadowRoot.setHTML root v options = Normal root
        /\ ShadowRoot.setHTMLUnsafe root v options = Normal root
        /\ removeUnsafe this v =
           match v with
           | VStringObject s => Normal (removeUnsafe_text s)
           | _ => TypeError
           end).
Proof.
  intros this v element options root.
  split; [reflexivity|]. split; [reflexivity|]. split; [reflexivity|].
  intro H. split.
  - unfold sanitize. rewrite H. cbn [negb]. now rewrite orb_true_r.
  - unfold setHTML, setHTMLUnsafe, ShadowRoot.setHTML, ShadowRoot.setHTMLUnsafe.
    rewrite H. cbn [negb].
    repeat split; try (destruct element; reflexivity).
    destruct v; try reflexivity. discriminate.
Qed.

End Claims.

(** C10 at a pair with an attribute and a blank between the tags. *)
Lemma cleanup_removes_empty_pairs_witness :
  cleanupEmptyTags (pair_text (str "div") (str " class=x") (str " ") ++ str "<p>x</p>")
  = cleanupEmptyTags (str "<p>x</p>").
Proof.
  apply (proj2 (proj2 (@cleanup_removes_empty_pairs scheme_parser))
           (str "div") (str " class=x") (str " ") (str "<b>") (str "<p>x</p>"));
    [discriminate | reflexivity ..].
Defined.

(* ================================================================== *)
(** * The claims at concrete inputs *)

#[local] Existing Instance scheme_parser.


(** The default policy does not list [onkeydown], which [removeUnsafe]
    removes. *)
Example default_sanitize_keeps_onkeydown :
  let out := sanitize default_sanitizer (qstr "<div onkeydown=`x`>a</div>") in
  out = qstr "<div onkeydown=`x`>a</div>"
  /\ removeUnsafe_text out = str "<div>a</div>".
Proof. vm_compute. split; reflexivity. Qed.

(** Outside the documents of the amended claims: a quoted attribute that
    runs from one tag into the next is removed by an attribute step, which
    puts [<script>] together. *)
Example quoted_attribute_across_tags :
  let html := qstr "<scr onclick=`><b x=`ipt>" in
  removeUnsafe_text html = str "<script>"
  /\ removeUnsafe_text (removeUnsafe_text html) = []
  /\ sanitize default_sanitizer html = str "<script>".
Proof. vm_compute. repeat split; reflexivity. Qed.

(** A document with a blocked attribute, a [javascript:] URL and a script,
    and what the two functions return on it. *)
Example mixed_document_text :
  parts_text mixed_document
  = qstr "<div onclick=`alert('xss')` class=`safe`>Content<a href=`javascript:alert(1)`>x</a><script>alert(1)</script></div>"
  /\ sanitize default_sanitizer (parts_text mixed_document)
     = qstr "<div class=`safe`>Content<a href=`#`>x</a></div>"
  /\ removeUnsafe_text (parts_text mixed_document)
     = qstr "<div class=`safe`>Content<a href=`#`>x</a></div>".
Proof. vm_compute. repeat split; reflexivity. Qed.




(** C3, outside its conditions: an empty value is left alone, although it
    does not parse; and after an earlier quoted value that ends in [href=],
    the pass takes the closing quote of that value for the opening quote
    of the link. *)
Example sanitizeUrls_outside_conditions :
  url_protocol [] = None
  /\ sanitizeUrls default_sanitizer (qstr "<a href=``>x</a>") = qstr "<a href=``>x</a>"
  /\ sanitizeUrls default_sanitizer (qstr "<a title=`href=` href=`javascript:x`>y</a>")
     = qstr "<a title=`href=`#`javascript:x`>y</a>".
Proof. vm_compute. repeat split; reflexivity. Qed.

(** C4. Both fields are given, and the blocked elements are those of
    [removeElements]: the constructor saves the [disallowedElements] of the
    user, which its comments say it preserves, puts it back, and then
    overwrites it with [removeElements].  [<strong>], which the user's
    [disallowedElements] blocks, goes through [sanitize], and
    [isElementAllowed] allows it. *)
Theorem legacy_list_overridden :
  let this := new_Sanitizer (Some both_block_lists) in
  disallowedElements (config this) = Some [str "em"]
  /\ disallowedElements (config this) <> disallowedElements both_block_lists
  /\ isElementAllowed this (str "strong") = true
  /\ isElementAllowed this (str "em") = false
  /\ sanitize this (str "<p><strong>bold</strong> <em>italic</em></p>")
     = str "<p><strong>bold</strong> </p>".
Proof. vm_compute. repeat split. discriminate. Qed.

(** C5, where it fails: [script] is on the allow list and, in upper case, on
    the block list, and the query allows it. *)
Lemma upper_case_entry_does_not_block :
  let this := new_Sanitizer (Some mixed_case_lists) in
  allowedElements (config this) = Some [str "script"]
  /\ disallowedElements (config this) = Some [str "SCRIPT"]
  /\ isElementAllowed this (str "script") = true
  /\ isElementAllowed this (str "SCRIPT") = true
  /\ isAttributeAllowed this (str "onclick") = true.
Proof. vm_compute. repeat split; reflexivity. Qed.

Lemma blocklist_precedence_witness :
  isElementAllowed default_sanitizer (str "SCRIPT") = false.
Proof.
  apply (proj1 (blocklist_precedence default_sanitizer (str "SCRIPT"))
           default_removed_elements); reflexivity.
Defined.

(** C6, where it fails: the first run leaves an empty pair, or puts a tag
    together, that the second run removes. *)
Lemma second_run_changes_output :
  sanitize default_sanitizer (str "<div><p></p></div>") = str "<div></div>"
  /\ sanitize default_sanitizer (sanitize default_sanitizer (str "<div><p></p></div>")) = []
  /\ removeUnsafe_text (str "<scr<script>ipt>") = str "<script>"
  /\ removeUnsafe_text (removeUnsafe_text (str "<scr<script>ipt>")) = [].
Proof. vm_compute. repeat split; reflexivity. Qed.

(** C6 (as amended) on the document above, under the default policy. *)
Lemma idempotence_on_documents_witness :
  let html := parts_text mixed_document in
  let once := sanitize default_sanitizer html in
  removeUnsafe_text (removeUnsafe_text html) = removeUnsafe_text html
  /\ sanitize default_sanitizer once = trim (cleanupEmptyTags once)
  /\ (sanitize default_sanitizer once = once <-> cleanupEmptyTags once = once).
Proof.
  destruct (@idempotence_on_documents scheme_parser default_sanitizer mixed_document
              eq_refl) as (H1 & H2 & _).
  exact (conj (H1 eq_refl) (H2 eq_refl)).
Defined.

(** C7. [sanitize(null)] and [sanitize(undefined)] are the empty string
    and [setHTML] leaves the element alone for [null], but
    [removeUnsafe(null)] and [removeUnsafe(undefined)] throw a [TypeError]:
    [removeUnsafe] lacks the guard that [sanitize] and the [setHTML] family
    begin with. *)
Theorem removeUnsafe_null_throws :
  sanitize default_sanitizer VNull = []
  /\ sanitize default_sanitizer VUndefined = []
  /\ setHTML (Some (MkElement (str "old"))) VNull None
     = Normal (Some (MkElement (str "old")))
  /\ removeUnsafe default_sanitizer VNull = TypeError
  /\ removeUnsafe default_sanitizer VUndefined = TypeError
  /\ removeUnsafe default_sanitizer VNull <> Normal [].
Proof. repeat split; try reflexivity. discriminate. Qed.

(** C8. [<inputs>a] goes through [sanitize] unchanged, and the pattern of
    [input] matches it before and after; yet [input] is reported as
    removed: the second [test] of the same expression object starts at
    index 8, where the first one ended, and finds nothing from there. *)
Theorem metadata_reports_name_still_present :
  let html := str "<inputs>a" in
  let report := processHTMLWithMetadata (new_NodeHTMLProcessor None) html in
  let re := NodePatterns.anyTagOf (str "input") in
  sanitizedHTML report = html
  /\ wasModified report = false
  /\ test re 0 html = (true, 8)
  /\ test re 0 (sanitizedHTML report) = (true, 8)
  /\ test re 8 (sanitizedHTML report) = (false, 0)
  /\ removedElements report = [str "input"].
Proof. vm_compute. repeat split; reflexivity. Qed.

(** What [processHTMLWithMetadata] returns besides the two lists. *)
Lemma processHTMLWithMetadata_output {U : URLParser} (this : NodeHTMLProcessor)
    (html : jsstring) :
  let report := processHTMLWithMetadata this html in
  sanitizedHTML report = sanitize (processor_sanitizer this) html
  /\ (wasModified report = true <-> sanitizedHTML report <> html).
Proof.
  simpl. split; [reflexivity|].
  rewrite negb_true_iff. split.
  - intros H E. apply jsstring_eqb_eq in E. congruence.
  - intro H. destruct (jsstring_eqb _ _) eqn:E; [|reflexivity].
    apply jsstring_eqb_eq in E. contradiction.
Qed.

(** The same happens in [extractRemovedAttributes]: an [onclick] with
    unlike quotes is not removed, and is reported as removed. *)
Example metadata_reports_attribute_still_present :
  let html := qstr "<p onclick=`a'>x</p>" in
  let report := processHTMLWithMetadata (new_NodeHTMLProcessor None) html in
  sanitizedHTML report = html
  /\ wasModified report = false
  /\ test (NodePatterns.anyAttributeOf (str "onclick")) 0 html = (true, 14)
  /\ removedAttributes report = [str "onclick"].
Proof. vm_compute. repeat split. Qed.

(** The report when an element is removed, as the repository's test has
    it. *)
Example metadata_of_removed_script :
  processHTMLWithMetadata (new_NodeHTMLProcessor None)
    (qstr "<p>Hello</p><script>alert(`xss`)</script>")
  = MkResult (str "<p>Hello</p>") true [str "script"] [].
Proof. vm_compute. reflexivity. Qed.

(** C9. [validateHTMLStructure] does not work on the tags in the order of
    the document: it collects every opening tag, then every closing tag,
    and only then pops its stack, once for each closing tag.  On the
    well-formed [<h2>My Blog Post</h2><p>More content here.</p>] it
    reports two mismatches, where the tag stack of the specification finds
    nothing wrong, and it refuses the blog post of the repository's
    example in the same way; it accepts [</p><p>], where the tag stack
    reports a closing tag without an opening tag.  The two examples of the
    specification come out as it says. *)
Theorem validateHTMLStructure_not_in_document_order :
  validateHTMLStructure (document heading_then_paragraph)
  = MkReport false [mismatched (str "p") (str "h2"); mismatched (str "h2") (str "p")] []
  /\ checkStructure heading_then_paragraph = MkReport true [] []
  /\ isValid (validateHTMLStructure (document blog_post)) = false
  /\ checkStructure blog_post = MkReport true [] []
  /\ validateHTMLStructure (document [Close (str "p"); Open (str "p") []])
     = MkReport true [] []
  /\ checkStructure [Close (str "p"); Open (str "p") []]
     = MkReport false [unmatched_closing (str "p")] [unclosed [str "p"]]
  /\ validateHTMLStructure (str "<p>Hello</p>") = MkReport true [] []
  /\ checkStructure [Open (str "p") []; Text (str "Hello"); Close (str "p")]
     = MkReport true [] []
  /\ validateHTMLStructure (str "<p>Hello</div>")
     = MkReport false [mismatched (str "p") (str "div")] []
  /\ checkStructure [Open (str "p") []; Text (str "Hello"); Close (str "div")]
     = MkReport false [mismatched (str "p") (str "div")] [].
Proof. vm_compute. repeat split; reflexivity. Qed.

(** C10, where it fails: pairs that the clean-up leaves, under the default
    policy: a name with a hyphen, an attribute value with [>] in it, and a
    closing tag with a blank before its [>]. *)
Lemma empty_pairs_left :
  sanitize default_sanitizer (str "<my-element></my-element>")
  = str "<my-element></my-element>"
  /\ sanitize default_sanitizer (qstr "<div title=`a>b`></div>")
     = qstr "<div title=`a>b`></div>"
  /\ sanitize default_sanitizer (str "<p></p >") = str "<p></p >"
  /\ cleanupEmptyTags (str "<my-element></my-element>") <> [].
Proof. vm_compute. repeat split; try reflexivity. discriminate. Qed.

(** ** The scenarios of the specification and the tests of the repository *)

Example removes_script_tags :
  sanitize default_sanitizer (qstr "<p>Hello</p><script>alert(`xss`)</script><p>World</p>")
  = str "<p>Hello</p><p>World</p>".
Proof. vm_compute. reflexivity. Qed.

Example removes_dangerous_attributes :
  sanitize default_sanitizer (qstr "<div onclick=`alert('xss')` class=`safe`>Content</div>")
  = qstr "<div class=`safe`>Content</div>".
Proof. vm_compute. reflexivity. Qed.

Example sanitizes_javascript_url :
  sanitize default_sanitizer (qstr "<a href=`javascript:alert('xss')`>Link</a>")
  = qstr "<a href=`#`>Link</a>".
Proof. vm_compute. reflexivity. Qed.

Example allows_https_url :
  sanitize default_sanitizer (qstr "<a href=`https://example.com`>Safe Link</a>")
  = qstr "<a href=`https://example.com`>Safe Link</a>".
Proof. vm_compute. reflexivity. Qed.

Example removes_comments :
  sanitize default_sanitizer (str "<p>Hello</p><!-- comment --><p>World</p>")
  = str "<p>Hello</p><p>World</p>".
Proof. vm_compute. reflexivity. Qed.

Example removeUnsafe_scenario :
  removeUnsafe_text
    (qstr "<p>Hello <script>alert(`xss`)</script> <div onclick=`alert()`>Click</div></p>")
  = str "<p>Hello  <div>Click</div></p>".
Proof. vm_compute. reflexivity. Qed.

Example removeUnsafe_neutralizes_urls :
  removeUnsafe_text (qstr "<a href=`javascript:alert(1)`>x</a><img src='data:abc'>")
  = qstr "<a href=`#`>x</a><img src=`#`>".
Proof. vm_compute. reflexivity. Qed.

Example elements_and_removeElements :
  sanitize (new_Sanitizer (Some (MkConfig (Some [str "p"; str "strong"]) (Some [str "em"])
                                          None None None None None None None None)))
           (str "<p>Hello <strong>bold</strong> <em>italic</em></p>")
  = str "<p>Hello <strong>bold</strong> </p>".
Proof. vm_compute. reflexivity. Qed.

Example legacy_allowed_and_disallowed :
  sanitize (new_Sanitizer (Some (MkConfig None None (Some [str "p"; str "strong"])
                                          (Some [str "em"]) None None None None None None)))
           (str "<p>Hello <strong>bold</strong> <em>italic</em></p>")
  = str "<p>Hello <strong>bold</strong> </p>".
Proof. vm_compute. reflexivity. Qed.

Example setHTML_on_element :
  setHTML (Some (MkElement [])) (qstr "<p>Hello <script>alert(`xss`)</script> World</p>") None
  = Normal (Some (MkElement (str "<p>Hello  World</p>"))).
Proof. vm_compute. reflexivity. Qed.

Example setHTMLUnsafe_on_element :
  setHTMLUnsafe (Some (MkElement [])) (str "<p>Hello <em>italic</em></p>") None
  = Normal (Some (MkElement (str "<p>Hello <em>italic</em></p>"))).
Proof. vm_compute. reflexivity. Qed.

Example shadow_root_set_and_clear :
  let root := new_ShadowRootProcessor None in
  bind (ShadowRoot.setHTML root (str "<p>Hello</p>") None)
       (fun r => Normal (ShadowRoot.getHTML r, ShadowRoot.getHTML (ShadowRoot.clear r)))
  = Normal (str "<p>Hello</p>", []).
Proof. vm_compute. reflexivity. Qed.
